(** * Real-estate keyword extractor: the extraction core, embedded and verified

    A shallow embedding of [src/core/utils.py] and of the two command-line
    drivers [src/cli_gemini.py] and [src/cli_mistral.py] (with the service
    wrappers of [src/services]), of the JSON writer they end with, of the
    converter [src/json_to_excel_style.py] that reads their output and of
    the endpoint of [src/api_web.py], followed by the properties the
    specification states about them and by further properties of the code.

    Conventions of the embedding.
    - A Python [str] is the list of its Unicode code points ([str := list N]),
      so [len], slicing, [find] and [in] are the list operations.
    - A JSON value (what [json.loads] returns) is the inductive type [json];
      a Python [dict] is an association list in insertion order whose keys
      are pairwise distinct ([dict_wf]).
    - An exception is an explicit outcome: [None] for the pure helpers, the
      left injection of [exn + A] for the computations of the monad [M].
    - The exchanges with the outside world (environment, files, HTTP) are the
      fields of the record [world]; a run logs every effect it has on it.
      The order in which the threads of a pool reach a service, and the
      order in which their futures complete, are fields of [world] too.
    - The methods of [str] and of [Path] are those of CPython 3.11, with its
      tables of Unicode 14.0.0 for [lower] and [repr].
    - The reader and the writer of JSON are [json.loads] and [json.dumps]
      within the limits of the interpreter on the length of an integer and
      on the depth of recursion ([within_limits], [value_within_limits]);
      the statements that depend on it say so, and so do those that print a
      float, for which the numeral it was read from stands. *)

From Stdlib Require Import String Ascii List ZArith NArith Lia Bool Arith.
From Stdlib Require Import Permutation Sorted DecimalString.
From Stdlib Require DecimalFacts DecimalPos DecimalZ.
Import ListNotations.

Local Open Scope list_scope.

Set Warnings "-register-all".

(* ===================================================================== *)
(** * Part I. Definitions                                                  *)
(* ===================================================================== *)

(* --------------------------------------------------------------------- *)
(** ** Text                                                                *)
(* --------------------------------------------------------------------- *)

Module Text.

(** A Python string: its code points, in order. *)
Definition str : Type := list N.

(** [u "abc"] is the Python literal ['abc'] (ASCII literals only). *)
Definition u (s : string) : str := map N_of_ascii (list_ascii_of_string s).

Fixpoint str_eqb (a b : str) : bool :=
  match a, b with
  | [], [] => true
  | x :: a', y :: b' => N.eqb x y && str_eqb a' b'
  | _, _ => false
  end.

(** [str.isspace] on one code point: the Unicode white-space characters. *)
Definition is_space (c : N) : bool :=
  ((9 <=? c) && (c <=? 13) || (28 <=? c) && (c <=? 32) || (c =? 133)
   || (c =? 160) || (c =? 5760) || (8192 <=? c) && (c <=? 8202)
   || (c =? 8232) || (c =? 8233) || (c =? 8239) || (c =? 8287)
   || (c =? 12288))%N.

Fixpoint lstrip (s : str) : str :=
  match s with
  | [] => []
  | c :: s' => if is_space c then lstrip s' else s
  end.

Fixpoint rstrip (s : str) : str :=
  match s with
  | [] => []
  | c :: s' =>
      match rstrip s' with
      | [] => if is_space c then [] else [c]
      | r => c :: r
      end
  end.

(** [s.strip()] *)
Definition strip (s : str) : str := lstrip (rstrip s).

(** [str.lower], as CPython 3.11 computes it from the tables of Unicode
    14.0.0.  Each code point is replaced by its full lowercase mapping, which
    is one code point but for U+0130, and the capital sigma U+03A3 becomes
    the final sigma U+03C2 where it ends a word and the small sigma U+03C3
    elsewhere; nothing else depends on the neighbours. *)

(** The code points that have a lowercase mapping other than themselves:
    [(first, last, step, image)] stands for the code points from [first] to
    [last] taken every [step], and [image] is the mapping of [first]; the
    mapping of the others is as far from [image] as they are from
    [first]. *)
Definition LOWERCASE_MAPPINGS : list (N * N * N * N) :=
  [
   (65, 90, 1, 97); (192, 214, 1, 224); (216, 222, 1, 248);
   (256, 302, 2, 257); (306, 310, 2, 307); (313, 327, 2, 314);
   (330, 374, 2, 331); (376, 376, 1, 255); (377, 381, 2, 378);
   (385, 385, 1, 595); (386, 388, 2, 387); (390, 390, 1, 596);
   (391, 391, 1, 392); (393, 394, 1, 598); (395, 395, 1, 396);
   (398, 398, 1, 477); (399, 399, 1, 601); (400, 400, 1, 603);
   (401, 401, 1, 402); (403, 403, 1, 608); (404, 404, 1, 611);
   (406, 406, 1, 617); (407, 407, 1, 616); (408, 408, 1, 409);
   (412, 412, 1, 623); (413, 413, 1, 626); (415, 415, 1, 629);
   (416, 420, 2, 417); (422, 422, 1, 640); (423, 423, 1, 424);
   (425, 425, 1, 643); (428, 428, 1, 429); (430, 430, 1, 648);
   (431, 431, 1, 432); (433, 434, 1, 650); (435, 437, 2, 436);
   (439, 439, 1, 658); (440, 440, 1, 441); (444, 444, 1, 445);
   (452, 452, 1, 454); (453, 453, 1, 454); (455, 455, 1, 457);
   (456, 456, 1, 457); (458, 458, 1, 460); (459, 475, 2, 460);
   (478, 494, 2, 479); (497, 497, 1, 499); (498, 500, 2, 499);
   (502, 502, 1, 405); (503, 503, 1, 447); (504, 542, 2, 505);
   (544, 544, 1, 414); (546, 562, 2, 547); (570, 570, 1, 11365);
   (571, 571, 1, 572); (573, 573, 1, 410); (574, 574, 1, 11366);
   (577, 577, 1, 578); (579, 579, 1, 384); (580, 580, 1, 649);
   (581, 581, 1, 652); (582, 590, 2, 583); (880, 882, 2, 881);
   (886, 886, 1, 887); (895, 895, 1, 1011); (902, 902, 1, 940);
   (904, 906, 1, 941); (908, 908, 1, 972); (910, 911, 1, 973);
   (913, 929, 1, 945); (932, 939, 1, 964); (975, 975, 1, 983);
   (984, 1006, 2, 985); (1012, 1012, 1, 952); (1015, 1015, 1, 1016);
   (1017, 1017, 1, 1010); (1018, 1018, 1, 1019); (1021, 1023, 1, 891);
   (1024, 1039, 1, 1104); (1040, 1071, 1, 1072); (1120, 1152, 2, 1121);
   (1162, 1214, 2, 1163); (1216, 1216, 1, 1231); (1217, 1229, 2, 1218);
   (1232, 1326, 2, 1233); (1329, 1366, 1, 1377); (4256, 4293, 1, 11520);
   (4295, 4295, 1, 11559); (4301, 4301, 1, 11565); (5024, 5103, 1, 43888);
   (5104, 5109, 1, 5112); (7312, 7354, 1, 4304); (7357, 7359, 1, 4349);
   (7680, 7828, 2, 7681); (7838, 7838, 1, 223); (7840, 7934, 2, 7841);
   (7944, 7951, 1, 7936); (7960, 7965, 1, 7952); (7976, 7983, 1, 7968);
   (7992, 7999, 1, 7984); (8008, 8013, 1, 8000); (8025, 8031, 2, 8017);
   (8040, 8047, 1, 8032); (8072, 8079, 1, 8064); (8088, 8095, 1, 8080);
   (8104, 8111, 1, 8096); (8120, 8121, 1, 8112); (8122, 8123, 1, 8048);
   (8124, 8124, 1, 8115); (8136, 8139, 1, 8050); (8140, 8140, 1, 8131);
   (8152, 8153, 1, 8144); (8154, 8155, 1, 8054); (8168, 8169, 1, 8160);
   (8170, 8171, 1, 8058); (8172, 8172, 1, 8165); (8184, 8185, 1, 8056);
   (8186, 8187, 1, 8060); (8188, 8188, 1, 8179); (8486, 8486, 1, 969);
   (8490, 8490, 1, 107); (8491, 8491, 1, 229); (8498, 8498, 1, 8526);
   (8544, 8559, 1, 8560); (8579, 8579, 1, 8580); (9398, 9423, 1, 9424);
   (11264, 11311, 1, 11312); (11360, 11360, 1, 11361);
   (11362, 11362, 1, 619); (11363, 11363, 1, 7549); (11364, 11364, 1, 637);
   (11367, 11371, 2, 11368); (11373, 11373, 1, 593);
   (11374, 11374, 1, 625); (11375, 11375, 1, 592); (11376, 11376, 1, 594);
   (11378, 11378, 1, 11379); (11381, 11381, 1, 11382);
   (11390, 11391, 1, 575); (11392, 11490, 2, 11393);
   (11499, 11501, 2, 11500); (11506, 11506, 1, 11507);
   (42560, 42604, 2, 42561); (42624, 42650, 2, 42625);
   (42786, 42798, 2, 42787); (42802, 42862, 2, 42803);
   (42873, 42875, 2, 42874); (42877, 42877, 1, 7545);
   (42878, 42886, 2, 42879); (42891, 42891, 1, 42892);
   (42893, 42893, 1, 613); (42896, 42898, 2, 42897);
   (42902, 42920, 2, 42903); (42922, 42922, 1, 614);
   (42923, 42923, 1, 604); (42924, 42924, 1, 609); (42925, 42925, 1, 620);
   (42926, 42926, 1, 618); (42928, 42928, 1, 670); (42929, 42929, 1, 647);
   (42930, 42930, 1, 669); (42931, 42931, 1, 43859);
   (42932, 42946, 2, 42933); (42948, 42948, 1, 42900);
   (42949, 42949, 1, 642); (42950, 42950, 1, 7566);
   (42951, 42953, 2, 42952); (42960, 42960, 1, 42961);
   (42966, 42968, 2, 42967); (42997, 42997, 1, 42998);
   (65313, 65338, 1, 65345); (66560, 66599, 1, 66600);
   (66736, 66771, 1, 66776); (66928, 66938, 1, 66967);
   (66940, 66954, 1, 66979); (66956, 66962, 1, 66995);
   (66964, 66965, 1, 67003); (68736, 68786, 1, 68800);
   (71840, 71871, 1, 71872); (93760, 93791, 1, 93792);
   (125184, 125217, 1, 125218)
  ]%N.

(** The code points with the property [Cased], and those with the property
    [Case_Ignorable], as ranges [(first, last)]. *)
Definition CASED : list (N * N) :=
  [
   (65, 90); (97, 122); (170, 170); (181, 181); (186, 186); (192, 214);
   (216, 246); (248, 442); (444, 447); (452, 659); (661, 696); (704, 705);
   (736, 740); (837, 837); (880, 883); (886, 887); (890, 893); (895, 895);
   (902, 902); (904, 906); (908, 908); (910, 929); (931, 1013);
   (1015, 1153); (1162, 1327); (1329, 1366); (1376, 1416); (4256, 4293);
   (4295, 4295); (4301, 4301); (4304, 4346); (4349, 4351); (5024, 5109);
   (5112, 5117); (7296, 7304); (7312, 7354); (7357, 7359); (7424, 7615);
   (7680, 7957); (7960, 7965); (7968, 8005); (8008, 8013); (8016, 8023);
   (8025, 8025); (8027, 8027); (8029, 8029); (8031, 8061); (8064, 8116);
   (8118, 8124); (8126, 8126); (8130, 8132); (8134, 8140); (8144, 8147);
   (8150, 8155); (8160, 8172); (8178, 8180); (8182, 8188); (8305, 8305);
   (8319, 8319); (8336, 8348); (8450, 8450); (8455, 8455); (8458, 8467);
   (8469, 8469); (8473, 8477); (8484, 8484); (8486, 8486); (8488, 8488);
   (8490, 8493); (8495, 8500); (8505, 8505); (8508, 8511); (8517, 8521);
   (8526, 8526); (8544, 8575); (8579, 8580); (9398, 9449); (11264, 11492);
   (11499, 11502); (11506, 11507); (11520, 11557); (11559, 11559);
   (11565, 11565); (42560, 42605); (42624, 42653); (42786, 42887);
   (42891, 42894); (42896, 42954); (42960, 42961); (42963, 42963);
   (42965, 42969); (42997, 42998); (43000, 43002); (43824, 43866);
   (43868, 43880); (43888, 43967); (64256, 64262); (64275, 64279);
   (65313, 65338); (65345, 65370); (66560, 66639); (66736, 66771);
   (66776, 66811); (66928, 66938); (66940, 66954); (66956, 66962);
   (66964, 66965); (66967, 66977); (66979, 66993); (66995, 67001);
   (67003, 67004); (67456, 67456); (67459, 67461); (67463, 67504);
   (67506, 67514); (68736, 68786); (68800, 68850); (71840, 71903);
   (93760, 93823); (119808, 119892); (119894, 119964); (119966, 119967);
   (119970, 119970); (119973, 119974); (119977, 119980); (119982, 119993);
   (119995, 119995); (119997, 120003); (120005, 120069); (120071, 120074);
   (120077, 120084); (120086, 120092); (120094, 120121); (120123, 120126);
   (120128, 120132); (120134, 120134); (120138, 120144); (120146, 120485);
   (120488, 120512); (120514, 120538); (120540, 120570); (120572, 120596);
   (120598, 120628); (120630, 120654); (120656, 120686); (120688, 120712);
   (120714, 120744); (120746, 120770); (120772, 120779); (122624, 122633);
   (122635, 122654); (125184, 125251); (127280, 127305); (127312, 127337);
   (127344, 127369)
  ]%N.

Definition CASE_IGNORABLE : list (N * N) :=
  [
   (39, 39); (46, 46); (58, 58); (94, 94); (96, 96); (168, 168);
   (173, 173); (175, 175); (180, 180); (183, 184); (688, 879); (884, 885);
   (890, 890); (900, 901); (903, 903); (1155, 1161); (1369, 1369);
   (1375, 1375); (1425, 1469); (1471, 1471); (1473, 1474); (1476, 1477);
   (1479, 1479); (1524, 1524); (1536, 1541); (1552, 1562); (1564, 1564);
   (1600, 1600); (1611, 1631); (1648, 1648); (1750, 1757); (1759, 1768);
   (1770, 1773); (1807, 1807); (1809, 1809); (1840, 1866); (1958, 1968);
   (2027, 2037); (2042, 2042); (2045, 2045); (2070, 2093); (2137, 2139);
   (2184, 2184); (2192, 2193); (2200, 2207); (2249, 2306); (2362, 2362);
   (2364, 2364); (2369, 2376); (2381, 2381); (2385, 2391); (2402, 2403);
   (2417, 2417); (2433, 2433); (2492, 2492); (2497, 2500); (2509, 2509);
   (2530, 2531); (2558, 2558); (2561, 2562); (2620, 2620); (2625, 2626);
   (2631, 2632); (2635, 2637); (2641, 2641); (2672, 2673); (2677, 2677);
   (2689, 2690); (2748, 2748); (2753, 2757); (2759, 2760); (2765, 2765);
   (2786, 2787); (2810, 2815); (2817, 2817); (2876, 2876); (2879, 2879);
   (2881, 2884); (2893, 2893); (2901, 2902); (2914, 2915); (2946, 2946);
   (3008, 3008); (3021, 3021); (3072, 3072); (3076, 3076); (3132, 3132);
   (3134, 3136); (3142, 3144); (3146, 3149); (3157, 3158); (3170, 3171);
   (3201, 3201); (3260, 3260); (3263, 3263); (3270, 3270); (3276, 3277);
   (3298, 3299); (3328, 3329); (3387, 3388); (3393, 3396); (3405, 3405);
   (3426, 3427); (3457, 3457); (3530, 3530); (3538, 3540); (3542, 3542);
   (3633, 3633); (3636, 3642); (3654, 3662); (3761, 3761); (3764, 3772);
   (3782, 3782); (3784, 3789); (3864, 3865); (3893, 3893); (3895, 3895);
   (3897, 3897); (3953, 3966); (3968, 3972); (3974, 3975); (3981, 3991);
   (3993, 4028); (4038, 4038); (4141, 4144); (4146, 4151); (4153, 4154);
   (4157, 4158); (4184, 4185); (4190, 4192); (4209, 4212); (4226, 4226);
   (4229, 4230); (4237, 4237); (4253, 4253); (4348, 4348); (4957, 4959);
   (5906, 5908); (5938, 5939); (5970, 5971); (6002, 6003); (6068, 6069);
   (6071, 6077); (6086, 6086); (6089, 6099); (6103, 6103); (6109, 6109);
   (6155, 6159); (6211, 6211); (6277, 6278); (6313, 6313); (6432, 6434);
   (6439, 6440); (6450, 6450); (6457, 6459); (6679, 6680); (6683, 6683);
   (6742, 6742); (6744, 6750); (6752, 6752); (6754, 6754); (6757, 6764);
   (6771, 6780); (6783, 6783); (6823, 6823); (6832, 6862); (6912, 6915);
   (6964, 6964); (6966, 6970); (6972, 6972); (6978, 6978); (7019, 7027);
   (7040, 7041); (7074, 7077); (7080, 7081); (7083, 7085); (7142, 7142);
   (7144, 7145); (7149, 7149); (7151, 7153); (7212, 7219); (7222, 7223);
   (7288, 7293); (7376, 7378); (7380, 7392); (7394, 7400); (7405, 7405);
   (7412, 7412); (7416, 7417); (7468, 7530); (7544, 7544); (7579, 7679);
   (8125, 8125); (8127, 8129); (8141, 8143); (8157, 8159); (8173, 8175);
   (8189, 8190); (8203, 8207); (8216, 8217); (8228, 8228); (8231, 8231);
   (8234, 8238); (8288, 8292); (8294, 8303); (8305, 8305); (8319, 8319);
   (8336, 8348); (8400, 8432); (11388, 11389); (11503, 11505);
   (11631, 11631); (11647, 11647); (11744, 11775); (11823, 11823);
   (12293, 12293); (12330, 12333); (12337, 12341); (12347, 12347);
   (12441, 12446); (12540, 12542); (40981, 40981); (42232, 42237);
   (42508, 42508); (42607, 42610); (42612, 42621); (42623, 42623);
   (42652, 42655); (42736, 42737); (42752, 42785); (42864, 42864);
   (42888, 42890); (42994, 42996); (43000, 43001); (43010, 43010);
   (43014, 43014); (43019, 43019); (43045, 43046); (43052, 43052);
   (43204, 43205); (43232, 43249); (43263, 43263); (43302, 43309);
   (43335, 43345); (43392, 43394); (43443, 43443); (43446, 43449);
   (43452, 43453); (43471, 43471); (43493, 43494); (43561, 43566);
   (43569, 43570); (43573, 43574); (43587, 43587); (43596, 43596);
   (43632, 43632); (43644, 43644); (43696, 43696); (43698, 43700);
   (43703, 43704); (43710, 43711); (43713, 43713); (43741, 43741);
   (43756, 43757); (43763, 43764); (43766, 43766); (43867, 43871);
   (43881, 43883); (44005, 44005); (44008, 44008); (44013, 44013);
   (64286, 64286); (64434, 64450); (65024, 65039); (65043, 65043);
   (65056, 65071); (65106, 65106); (65109, 65109); (65279, 65279);
   (65287, 65287); (65294, 65294); (65306, 65306); (65342, 65342);
   (65344, 65344); (65392, 65392); (65438, 65439); (65507, 65507);
   (65529, 65531); (66045, 66045); (66272, 66272); (66422, 66426);
   (67456, 67461); (67463, 67504); (67506, 67514); (68097, 68099);
   (68101, 68102); (68108, 68111); (68152, 68154); (68159, 68159);
   (68325, 68326); (68900, 68903); (69291, 69292); (69446, 69456);
   (69506, 69509); (69633, 69633); (69688, 69702); (69744, 69744);
   (69747, 69748); (69759, 69761); (69811, 69814); (69817, 69818);
   (69821, 69821); (69826, 69826); (69837, 69837); (69888, 69890);
   (69927, 69931); (69933, 69940); (70003, 70003); (70016, 70017);
   (70070, 70078); (70089, 70092); (70095, 70095); (70191, 70193);
   (70196, 70196); (70198, 70199); (70206, 70206); (70367, 70367);
   (70371, 70378); (70400, 70401); (70459, 70460); (70464, 70464);
   (70502, 70508); (70512, 70516); (70712, 70719); (70722, 70724);
   (70726, 70726); (70750, 70750); (70835, 70840); (70842, 70842);
   (70847, 70848); (70850, 70851); (71090, 71093); (71100, 71101);
   (71103, 71104); (71132, 71133); (71219, 71226); (71229, 71229);
   (71231, 71232); (71339, 71339); (71341, 71341); (71344, 71349);
   (71351, 71351); (71453, 71455); (71458, 71461); (71463, 71467);
   (71727, 71735); (71737, 71738); (71995, 71996); (71998, 71998);
   (72003, 72003); (72148, 72151); (72154, 72155); (72160, 72160);
   (72193, 72202); (72243, 72248); (72251, 72254); (72263, 72263);
   (72273, 72278); (72281, 72283); (72330, 72342); (72344, 72345);
   (72752, 72758); (72760, 72765); (72767, 72767); (72850, 72871);
   (72874, 72880); (72882, 72883); (72885, 72886); (73009, 73014);
   (73018, 73018); (73020, 73021); (73023, 73029); (73031, 73031);
   (73104, 73105); (73109, 73109); (73111, 73111); (73459, 73460);
   (78896, 78904); (92912, 92916); (92976, 92982); (92992, 92995);
   (94031, 94031); (94095, 94111); (94176, 94177); (94179, 94180);
   (110576, 110579); (110581, 110587); (110589, 110590); (113821, 113822);
   (113824, 113827); (118528, 118573); (118576, 118598); (119143, 119145);
   (119155, 119170); (119173, 119179); (119210, 119213); (119362, 119364);
   (121344, 121398); (121403, 121452); (121461, 121461); (121476, 121476);
   (121499, 121503); (121505, 121519); (122880, 122886); (122888, 122904);
   (122907, 122913); (122915, 122916); (122918, 122922); (123184, 123197);
   (123566, 123566); (123628, 123631); (125136, 125142); (125252, 125259);
   (127995, 127999); (917505, 917505); (917536, 917631); (917760, 917999)
  ]%N.

Definition in_ranges (c : N) (ranges : list (N * N)) : bool :=
  existsb (fun r => (fst r <=? c) && (c <=? snd r))%N ranges.

Definition is_cased (c : N) : bool := in_ranges c CASED.

Definition is_case_ignorable (c : N) : bool := in_ranges c CASE_IGNORABLE.

(** The full lowercase mapping of one code point. *)
Definition to_lower_full (c : N) : str :=
  if (c =? 304)%N then [105; 775]%N
  else
    match find (fun e : N * N * N * N =>
                  let '(first, last, step, _) := e in
                  (first <=? c) && (c <=? last)
                  && ((c - first) mod step =? 0))%N
               LOWERCASE_MAPPINGS with
    | Some (first, _, _, image) => [image + (c - first)]%N
    | None => [c]
    end.

(** The capital sigma at the end of a word: the nearest code point before
    it that is not case-ignorable is cased, and the nearest one after it
    that is not case-ignorable, if any, is not cased.  [before] holds what
    comes before, the nearest first. *)
Fixpoint skip_case_ignorable (s : str) : str :=
  match s with
  | c :: s' => if is_case_ignorable c then skip_case_ignorable s' else s
  | [] => []
  end.

Definition final_sigma (before after : str) : bool :=
  match skip_case_ignorable before with
  | c :: _ =>
      is_cased c
      && match skip_case_ignorable after with
         | [] => true
         | c' :: _ => negb (is_cased c')
         end
  | [] => false
  end.

Fixpoint lower_from (before s : str) : str :=
  match s with
  | [] => []
  | c :: rest =>
      (if (c =? 931)%N
       then [if final_sigma before rest then 962%N else 963%N]
       else to_lower_full c)
      ++ lower_from (c :: before) rest
  end.

(** [s.lower()] *)
Definition lower (s : str) : str := lower_from [] s.

(** [s.startswith(p)] *)
Fixpoint startswith (s p : str) : bool :=
  match p, s with
  | [], _ => true
  | x :: p', y :: s' => N.eqb x y && startswith s' p'
  | _ :: _, [] => false
  end.

(** [t in s] for strings: [t] occurs in [s] as a contiguous block. *)
Fixpoint contains (s t : str) : bool :=
  startswith s t ||
  match s with
  | [] => false
  | _ :: s' => contains s' t
  end.

(** [sep.join(parts)] *)
Fixpoint join (sep : str) (parts : list str) : str :=
  match parts with
  | [] => []
  | [p] => p
  | p :: rest => p ++ sep ++ join sep rest
  end.

(** [s.split(sep)] for a one-character separator: never the empty list. *)
Fixpoint split_char (sep : N) (s : str) : list str :=
  match s with
  | [] => [[]]
  | c :: s' =>
      if N.eqb c sep then [] :: split_char sep s'
      else match split_char sep s' with
           | [] => [[c]]
           | h :: t => (c :: h) :: t
           end
  end.

(** [s.find(c)] for a one-character needle: the first index, or -1. *)
Fixpoint find_char (c : N) (s : str) : Z :=
  match s with
  | [] => (-1)%Z
  | x :: s' =>
      if N.eqb x c then 0%Z
      else let r := find_char c s' in
           if (r <? 0)%Z then (-1)%Z else (r + 1)%Z
  end.

(** [s.rfind(c)] for a one-character needle: the last index, or -1. *)
Fixpoint rfind_char (c : N) (s : str) : Z :=
  match s with
  | [] => (-1)%Z
  | x :: s' =>
      let r := rfind_char c s' in
      if (0 <=? r)%Z then (r + 1)%Z
      else if N.eqb x c then 0%Z else (-1)%Z
  end.

(** [s[a:b]] for indices [0 <= a], [0 <= b]. *)
Definition slice (s : str) (a b : Z) : str :=
  firstn (Z.to_nat b - Z.to_nat a) (skipn (Z.to_nat a) s).

(** [str(n)] for a Python [int]. *)
Definition str_of_Z (z : Z) : str := u (NilZero.string_of_int (Z.to_int z)).

(** The class [[a-zA-Z0-9]] of the regular expressions of the source. *)
Definition is_alnum (c : N) : bool :=
  ((48 <=? c) && (c <=? 57) || (65 <=? c) && (c <=? 90)
   || (97 <=? c) && (c <=? 122))%N.

Definition starts_with_sep (s : str) : bool :=
  match s with
  | c :: _ => negb (is_alnum c)
  | [] => false
  end.

(** [re.split(r"[^a-zA-Z0-9]+", s)]: the pieces between the maximal runs of
    characters outside the class; a run at either end leaves an empty piece
    there, as [re.split] does. *)
Fixpoint re_split_nonalnum (s : str) : list str :=
  match s with
  | [] => [[]]
  | c :: s' =>
      if is_alnum c then
        match re_split_nonalnum s' with
        | [] => [[c]]
        | h :: t => (c :: h) :: t
        end
      else if starts_with_sep s' then re_split_nonalnum s'
      else [] :: re_split_nonalnum s'
  end.

End Text.
Import Text.

(* --------------------------------------------------------------------- *)
(** ** JSON values and Python dictionaries                                 *)
(* --------------------------------------------------------------------- *)

(** What [json.loads] can return.  A float is kept as the numeral it was read
    from: floating-point arithmetic is not modelled, and no function of the
    source computes with one. *)
Inductive json : Type :=
| JNull
| JBool (b : bool)
| JInt (n : Z)
| JFloat (numeral : str)
| JStr (s : str)
| JList (items : list json)
| JDict (entries : list (str * json)).

(** A Python [dict] with string keys, in insertion order. *)
Definition dict : Type := list (str * json).

(** The keys of a [dict] are pairwise distinct. *)
Definition dict_wf (d : dict) : Prop := NoDup (map fst d).

(** [d.get(k)], with [None] for an absent key kept apart from a stored
    [null] *)
Fixpoint dict_get (d : dict) (k : str) : option json :=
  match d with
  | [] => None
  | (k', v) :: d' => if str_eqb k k' then Some v else dict_get d' k
  end.

(** [d.get(k, default)] *)
Definition dict_get_default (d : dict) (k : str) (default : json) : json :=
  match dict_get d k with
  | Some v => v
  | None => default
  end.

(** [k in d] *)
Definition dict_has (d : dict) (k : str) : bool :=
  match dict_get d k with
  | Some _ => true
  | None => false
  end.

(** [d[k] = v]: an existing key keeps its position, a new one goes last. *)
Fixpoint dict_set (d : dict) (k : str) (v : json) : dict :=
  match d with
  | [] => [(k, v)]
  | (k', v') :: d' =>
      if str_eqb k k' then (k', v) :: d' else (k', v') :: dict_set d' k v
  end.

(** [isinstance(v, dict)] *)
Definition is_dict (v : json) : bool :=
  match v with
  | JDict _ => true
  | _ => false
  end.

(** *** [str()] and [repr()] of a JSON value *)

Definition hex_digit (n : N) : N := (if n <? 10 then 48 + n else 87 + n)%N.

(** [\xhh] *)
Definition hex_escape (c : N) : str :=
  [92; 120; hex_digit (c / 16); hex_digit (c mod 16)]%N.

(** [\uhhhh] and [\Uhhhhhhhh] *)
Definition u_escape (c : N) : str :=
  [92; 117; hex_digit (c / 4096 mod 16); hex_digit (c / 256 mod 16);
   hex_digit (c / 16 mod 16); hex_digit (c mod 16)]%N.

Definition U_escape (c : N) : str :=
  [92; 85; hex_digit (c / 268435456 mod 16); hex_digit (c / 16777216 mod 16);
   hex_digit (c / 1048576 mod 16); hex_digit (c / 65536 mod 16);
   hex_digit (c / 4096 mod 16); hex_digit (c / 256 mod 16);
   hex_digit (c / 16 mod 16); hex_digit (c mod 16)]%N.

(** The code points from U+0080 on that [str.isprintable] refuses, in the
    tables of Unicode 14.0.0: the control and format characters, the
    separators other than the space, the surrogates, the private-use and the
    unassigned code points. *)
Definition NON_PRINTABLE : list (N * N) :=
  [(128, 160); (173, 173); (888, 889); (896, 899); (907, 907); (909, 909);
   (930, 930); (1328, 1328); (1367, 1368); (1419, 1420); (1424, 1424);
   (1480, 1487); (1515, 1518); (1525, 1541); (1564, 1564); (1757, 1757);
   (1806, 1807); (1867, 1868); (1970, 1983); (2043, 2044); (2094, 2095);
   (2111, 2111); (2140, 2141); (2143, 2143); (2155, 2159); (2191, 2199);
   (2274, 2274); (2436, 2436); (2445, 2446); (2449, 2450); (2473, 2473);
   (2481, 2481); (2483, 2485); (2490, 2491); (2501, 2502); (2505, 2506);
   (2511, 2518); (2520, 2523); (2526, 2526); (2532, 2533); (2559, 2560);
   (2564, 2564); (2571, 2574); (2577, 2578); (2601, 2601); (2609, 2609);
   (2612, 2612); (2615, 2615); (2618, 2619); (2621, 2621); (2627, 2630);
   (2633, 2634); (2638, 2640); (2642, 2648); (2653, 2653); (2655, 2661);
   (2679, 2688); (2692, 2692); (2702, 2702); (2706, 2706); (2729, 2729);
   (2737, 2737); (2740, 2740); (2746, 2747); (2758, 2758); (2762, 2762);
   (2766, 2767); (2769, 2783); (2788, 2789); (2802, 2808); (2816, 2816);
   (2820, 2820); (2829, 2830); (2833, 2834); (2857, 2857); (2865, 2865);
   (2868, 2868); (2874, 2875); (2885, 2886); (2889, 2890); (2894, 2900);
   (2904, 2907); (2910, 2910); (2916, 2917); (2936, 2945); (2948, 2948);
   (2955, 2957); (2961, 2961); (2966, 2968); (2971, 2971); (2973, 2973);
   (2976, 2978); (2981, 2983); (2987, 2989); (3002, 3005); (3011, 3013);
   (3017, 3017); (3022, 3023); (3025, 3030); (3032, 3045); (3067, 3071);
   (3085, 3085); (3089, 3089); (3113, 3113); (3130, 3131); (3141, 3141);
   (3145, 3145); (3150, 3156); (3159, 3159); (3163, 3164); (3166, 3167);
   (3172, 3173); (3184, 3190); (3213, 3213); (3217, 3217); (3241, 3241);
   (3252, 3252); (3258, 3259); (3269, 3269); (3273, 3273); (3278, 3284);
   (3287, 3292); (3295, 3295); (3300, 3301); (3312, 3312); (3315, 3327);
   (3341, 3341); (3345, 3345); (3397, 3397); (3401, 3401); (3408, 3411);
   (3428, 3429); (3456, 3456); (3460, 3460); (3479, 3481); (3506, 3506);
   (3516, 3516); (3518, 3519); (3527, 3529); (3531, 3534); (3541, 3541);
   (3543, 3543); (3552, 3557); (3568, 3569); (3573, 3584); (3643, 3646);
   (3676, 3712); (3715, 3715); (3717, 3717); (3723, 3723); (3748, 3748);
   (3750, 3750); (3774, 3775); (3781, 3781); (3783, 3783); (3790, 3791);
   (3802, 3803); (3808, 3839); (3912, 3912); (3949, 3952); (3992, 3992);
   (4029, 4029); (4045, 4045); (4059, 4095); (4294, 4294); (4296, 4300);
   (4302, 4303); (4681, 4681); (4686, 4687); (4695, 4695); (4697, 4697);
   (4702, 4703); (4745, 4745); (4750, 4751); (4785, 4785); (4790, 4791);
   (4799, 4799); (4801, 4801); (4806, 4807); (4823, 4823); (4881, 4881);
   (4886, 4887); (4955, 4956); (4989, 4991); (5018, 5023); (5110, 5111);
   (5118, 5119); (5760, 5760); (5789, 5791); (5881, 5887); (5910, 5918);
   (5943, 5951); (5972, 5983); (5997, 5997); (6001, 6001); (6004, 6015);
   (6110, 6111); (6122, 6127); (6138, 6143); (6158, 6158); (6170, 6175);
   (6265, 6271); (6315, 6319); (6390, 6399); (6431, 6431); (6444, 6447);
   (6460, 6463); (6465, 6467); (6510, 6511); (6517, 6527); (6572, 6575);
   (6602, 6607); (6619, 6621); (6684, 6685); (6751, 6751); (6781, 6782);
   (6794, 6799); (6810, 6815); (6830, 6831); (6863, 6911); (6989, 6991);
   (7039, 7039); (7156, 7163); (7224, 7226); (7242, 7244); (7305, 7311);
   (7355, 7356); (7368, 7375); (7419, 7423); (7958, 7959); (7966, 7967);
   (8006, 8007); (8014, 8015); (8024, 8024); (8026, 8026); (8028, 8028);
   (8030, 8030); (8062, 8063); (8117, 8117); (8133, 8133); (8148, 8149);
   (8156, 8156); (8176, 8177); (8181, 8181); (8191, 8207); (8232, 8239);
   (8287, 8303); (8306, 8307); (8335, 8335); (8349, 8351); (8385, 8399);
   (8433, 8447); (8588, 8591); (9255, 9279); (9291, 9311); (11124, 11125);
   (11158, 11158); (11508, 11512); (11558, 11558); (11560, 11564);
   (11566, 11567); (11624, 11630); (11633, 11646); (11671, 11679);
   (11687, 11687); (11695, 11695); (11703, 11703); (11711, 11711);
   (11719, 11719); (11727, 11727); (11735, 11735); (11743, 11743);
   (11870, 11903); (11930, 11930); (12020, 12031); (12246, 12271);
   (12284, 12288); (12352, 12352); (12439, 12440); (12544, 12548);
   (12592, 12592); (12687, 12687); (12772, 12783); (12831, 12831);
   (42125, 42127); (42183, 42191); (42540, 42559); (42744, 42751);
   (42955, 42959); (42962, 42962); (42964, 42964); (42970, 42993);
   (43053, 43055); (43066, 43071); (43128, 43135); (43206, 43213);
   (43226, 43231); (43348, 43358); (43389, 43391); (43470, 43470);
   (43482, 43485); (43519, 43519); (43575, 43583); (43598, 43599);
   (43610, 43611); (43715, 43738); (43767, 43776); (43783, 43784);
   (43791, 43792); (43799, 43807); (43815, 43815); (43823, 43823);
   (43884, 43887); (44014, 44015); (44026, 44031); (55204, 55215);
   (55239, 55242); (55292, 63743); (64110, 64111); (64218, 64255);
   (64263, 64274); (64280, 64284); (64311, 64311); (64317, 64317);
   (64319, 64319); (64322, 64322); (64325, 64325); (64451, 64466);
   (64912, 64913); (64968, 64974); (64976, 65007); (65050, 65055);
   (65107, 65107); (65127, 65127); (65132, 65135); (65141, 65141);
   (65277, 65280); (65471, 65473); (65480, 65481); (65488, 65489);
   (65496, 65497); (65501, 65503); (65511, 65511); (65519, 65531);
   (65534, 65535); (65548, 65548); (65575, 65575); (65595, 65595);
   (65598, 65598); (65614, 65615); (65630, 65663); (65787, 65791);
   (65795, 65798); (65844, 65846); (65935, 65935); (65949, 65951);
   (65953, 65999); (66046, 66175); (66205, 66207); (66257, 66271);
   (66300, 66303); (66340, 66348); (66379, 66383); (66427, 66431);
   (66462, 66462); (66500, 66503); (66518, 66559); (66718, 66719);
   (66730, 66735); (66772, 66775); (66812, 66815); (66856, 66863);
   (66916, 66926); (66939, 66939); (66955, 66955); (66963, 66963);
   (66966, 66966); (66978, 66978); (66994, 66994); (67002, 67002);
   (67005, 67071); (67383, 67391); (67414, 67423); (67432, 67455);
   (67462, 67462); (67505, 67505); (67515, 67583); (67590, 67591);
   (67593, 67593); (67638, 67638); (67641, 67643); (67645, 67646);
   (67670, 67670); (67743, 67750); (67760, 67807); (67827, 67827);
   (67830, 67834); (67868, 67870); (67898, 67902); (67904, 67967);
   (68024, 68027); (68048, 68049); (68100, 68100); (68103, 68107);
   (68116, 68116); (68120, 68120); (68150, 68151); (68155, 68158);
   (68169, 68175); (68185, 68191); (68256, 68287); (68327, 68330);
   (68343, 68351); (68406, 68408); (68438, 68439); (68467, 68471);
   (68498, 68504); (68509, 68520); (68528, 68607); (68681, 68735);
   (68787, 68799); (68851, 68857); (68904, 68911); (68922, 69215);
   (69247, 69247); (69290, 69290); (69294, 69295); (69298, 69375);
   (69416, 69423); (69466, 69487); (69514, 69551); (69580, 69599);
   (69623, 69631); (69710, 69713); (69750, 69758); (69821, 69821);
   (69827, 69839); (69865, 69871); (69882, 69887); (69941, 69941);
   (69960, 69967); (70007, 70015); (70112, 70112); (70133, 70143);
   (70162, 70162); (70207, 70271); (70279, 70279); (70281, 70281);
   (70286, 70286); (70302, 70302); (70314, 70319); (70379, 70383);
   (70394, 70399); (70404, 70404); (70413, 70414); (70417, 70418);
   (70441, 70441); (70449, 70449); (70452, 70452); (70458, 70458);
   (70469, 70470); (70473, 70474); (70478, 70479); (70481, 70486);
   (70488, 70492); (70500, 70501); (70509, 70511); (70517, 70655);
   (70748, 70748); (70754, 70783); (70856, 70863); (70874, 71039);
   (71094, 71095); (71134, 71167); (71237, 71247); (71258, 71263);
   (71277, 71295); (71354, 71359); (71370, 71423); (71451, 71452);
   (71468, 71471); (71495, 71679); (71740, 71839); (71923, 71934);
   (71943, 71944); (71946, 71947); (71956, 71956); (71959, 71959);
   (71990, 71990); (71993, 71994); (72007, 72015); (72026, 72095);
   (72104, 72105); (72152, 72153); (72165, 72191); (72264, 72271);
   (72355, 72367); (72441, 72703); (72713, 72713); (72759, 72759);
   (72774, 72783); (72813, 72815); (72848, 72849); (72872, 72872);
   (72887, 72959); (72967, 72967); (72970, 72970); (73015, 73017);
   (73019, 73019); (73022, 73022); (73032, 73039); (73050, 73055);
   (73062, 73062); (73065, 73065); (73103, 73103); (73106, 73106);
   (73113, 73119); (73130, 73439); (73465, 73647); (73649, 73663);
   (73714, 73726); (74650, 74751); (74863, 74863); (74869, 74879);
   (75076, 77711); (77811, 77823); (78895, 82943); (83527, 92159);
   (92729, 92735); (92767, 92767); (92778, 92781); (92863, 92863);
   (92874, 92879); (92910, 92911); (92918, 92927); (92998, 93007);
   (93018, 93018); (93026, 93026); (93048, 93052); (93072, 93759);
   (93851, 93951); (94027, 94030); (94088, 94094); (94112, 94175);
   (94181, 94191); (94194, 94207); (100344, 100351); (101590, 101631);
   (101641, 110575); (110580, 110580); (110588, 110588); (110591, 110591);
   (110883, 110927); (110931, 110947); (110952, 110959); (111356, 113663);
   (113771, 113775); (113789, 113791); (113801, 113807); (113818, 113819);
   (113824, 118527); (118574, 118575); (118599, 118607); (118724, 118783);
   (119030, 119039); (119079, 119080); (119155, 119162); (119275, 119295);
   (119366, 119519); (119540, 119551); (119639, 119647); (119673, 119807);
   (119893, 119893); (119965, 119965); (119968, 119969); (119971, 119972);
   (119975, 119976); (119981, 119981); (119994, 119994); (119996, 119996);
   (120004, 120004); (120070, 120070); (120075, 120076); (120085, 120085);
   (120093, 120093); (120122, 120122); (120127, 120127); (120133, 120133);
   (120135, 120137); (120145, 120145); (120486, 120487); (120780, 120781);
   (121484, 121498); (121504, 121504); (121520, 122623); (122655, 122879);
   (122887, 122887); (122905, 122906); (122914, 122914); (122917, 122917);
   (122923, 123135); (123181, 123183); (123198, 123199); (123210, 123213);
   (123216, 123535); (123567, 123583); (123642, 123646); (123648, 124895);
   (124903, 124903); (124908, 124908); (124911, 124911); (124927, 124927);
   (125125, 125126); (125143, 125183); (125260, 125263); (125274, 125277);
   (125280, 126064); (126133, 126208); (126270, 126463); (126468, 126468);
   (126496, 126496); (126499, 126499); (126501, 126502); (126504, 126504);
   (126515, 126515); (126520, 126520); (126522, 126522); (126524, 126529);
   (126531, 126534); (126536, 126536); (126538, 126538); (126540, 126540);
   (126544, 126544); (126547, 126547); (126549, 126550); (126552, 126552);
   (126554, 126554); (126556, 126556); (126558, 126558); (126560, 126560);
   (126563, 126563); (126565, 126566); (126571, 126571); (126579, 126579);
   (126584, 126584); (126589, 126589); (126591, 126591); (126602, 126602);
   (126620, 126624); (126628, 126628); (126634, 126634); (126652, 126703);
   (126706, 126975); (127020, 127023); (127124, 127135); (127151, 127152);
   (127168, 127168); (127184, 127184); (127222, 127231); (127406, 127461);
   (127491, 127503); (127548, 127551); (127561, 127567); (127570, 127583);
   (127590, 127743); (128728, 128732); (128749, 128751); (128765, 128767);
   (128884, 128895); (128985, 128991); (129004, 129007); (129009, 129023);
   (129036, 129039); (129096, 129103); (129114, 129119); (129160, 129167);
   (129198, 129199); (129202, 129279); (129620, 129631); (129646, 129647);
   (129653, 129655); (129661, 129663); (129671, 129679); (129709, 129711);
   (129723, 129727); (129734, 129743); (129754, 129759); (129768, 129775);
   (129783, 129791); (129939, 129939); (129995, 130031); (130042, 131071);
   (173792, 173823); (177977, 177983); (178206, 178207); (183970, 183983);
   (191457, 194559); (195102, 196607); (201547, 917759); (918000, 1114111)]%N.

(** [str.isprintable] on one code point. *)
Definition is_printable (c : N) : bool :=
  (if c <? 128 then (32 <=? c) && (c <? 127)
   else negb (in_ranges c NON_PRINTABLE))%N.

(** One character of [repr(s)], for the chosen quote. *)
Definition repr_char (quote c : N) : str :=
  (if (c =? quote) || (c =? 92) then [92; c]
   else if c =? 9 then [92; 116]
   else if c =? 10 then [92; 110]
   else if c =? 13 then [92; 114]
   else if is_printable c then [c]
   else if c <? 256 then hex_escape c
   else if c <? 65536 then u_escape c
   else U_escape c)%N.

(** [repr(s)] for a string: single quotes, unless the string has a single
    quote and no double quote. *)
Definition repr_str (s : str) : str :=
  let quote := (if existsb (N.eqb 39) s && negb (existsb (N.eqb 34) s)
                then 34 else 39)%N in
  quote :: flat_map (repr_char quote) s ++ [quote].

(** [repr(v)].  For a float the numeral it was read from stands for the
    digits Python prints. *)
Fixpoint py_repr (v : json) : str :=
  match v with
  | JNull => u "None"
  | JBool true => u "True"
  | JBool false => u "False"
  | JInt n => str_of_Z n
  | JFloat numeral => numeral
  | JStr s => repr_str s
  | JList items => u "[" ++ join (u ", ") (map py_repr items) ++ u "]"
  | JDict entries =>
      u "{" ++
      join (u ", ")
           (map (fun kv => repr_str (fst kv) ++ u ": " ++ py_repr (snd kv))
                entries)
      ++ u "}"
  end.

(** [str(v)] *)
Definition py_str (v : json) : str :=
  match v with
  | JStr s => s
  | _ => py_repr v
  end.

(* --------------------------------------------------------------------- *)
(** ** [src/core/utils.py]                                                 *)
(* --------------------------------------------------------------------- *)

(** A page: [(page_no, text)]. *)
Definition page : Type := (Z * str)%type.

(** A field specification: [(path, label, expected_type)]. *)
Definition field_spec : Type := (str * str * json)%type.

Definition NOT_FOUND : str := u "not found".

(** *** [flatten_pages] *)

(** [f"[page {page_no}]\n{text.strip()}\n"] *)
Definition snippet (p : page) : str :=
  u "[page " ++ str_of_Z (fst p) ++ u "]" ++ [10%N] ++ strip (snd p) ++ [10%N].

(** The loop of [flatten_pages]: [chunks] and [total] are its two variables;
    [break] returns what has been gathered. *)
Fixpoint flatten_loop (pages : list page) (max_chars : Z)
         (chunks : list str) (total : Z) : list str :=
  match pages with
  | [] => chunks
  | p :: rest =>
      let snip := snippet p in
      let total := (total + Z.of_nat (length snip))%Z in
      if (total >? max_chars)%Z then chunks
      else flatten_loop rest max_chars (chunks ++ [snip]) total
  end.

Definition flatten_pages_max (pages : list page) (max_chars : Z) : str :=
  join [10%N] (flatten_loop pages max_chars [] 0).

(** [flatten_pages(pages)], with the default [max_chars=32000] that every
    caller uses. *)
Definition flatten_pages (pages : list page) : str :=
  flatten_pages_max pages 32000.

(** *** [is_found] *)

(** [s not in ("", "not found")] *)
Definition not_in_blank_tuple (s : str) : bool :=
  negb (str_eqb s [] || str_eqb s NOT_FOUND).

Definition is_found (value : json) : bool :=
  match value with
  | JNull => false
  | JStr s => not_in_blank_tuple (lower (strip s))
  | JList items => (0 <? length items)%nat
  | JDict entries =>
      existsb (fun kv => not_in_blank_tuple (lower (strip (py_str (snd kv)))))
              entries
  | _ => true
  end.

(** *** [merge_extractions] *)

(** The body of the loop over [update.items()]. *)
Definition merge_item (base : dict) (item : str * json) : dict :=
  let (key, val) := item in
  match val with
  | JDict entries =>
      if is_found (dict_get_default entries (u "value") JNull)
      then dict_set base key val
      else base
  | _ => base
  end.

Definition merge_extractions (base : dict) (update : json) : dict :=
  match update with
  | JDict entries => fold_left merge_item entries base
  | _ => base
  end.

(** *** [find_relevant_pages] *)

(** The first loop: the set [tokens].  A Python [set] is kept as a list
    without repetition; only membership is ever asked of it. *)
Definition add_token (tokens : list str) (t : str) : list str :=
  if existsb (str_eqb t) tokens then tokens else tokens ++ [t].

Definition label_tokens (tokens : list str) (spec : field_spec) : list str :=
  let '(_, label, _) := spec in
  fold_left (fun tokens t =>
               if (3 <? length t)%nat then add_token tokens t else tokens)
            (re_split_nonalnum (lower label)) tokens.

Definition relevance_tokens (field_specs : list field_spec) : list str :=
  fold_left label_tokens field_specs [].

(** The second loop: [selected]. *)
Definition select_page (tokens : list str) (selected : list page) (p : page)
  : list page :=
  let low := lower (snd p) in
  if existsb (fun t => contains low t) tokens then selected ++ [p]
  else selected.

Definition find_relevant_pages (pages : list page)
           (field_specs : list field_spec) : list page :=
  fold_left (select_page (relevance_tokens field_specs)) pages [].

(* --------------------------------------------------------------------- *)
(** ** The JSON reader: [json.loads]                                       *)
(* --------------------------------------------------------------------- *)

(** The standard reader, as its scanner and decoder work: JSON white space,
    the three literals, numbers, the non-standard [NaN], [Infinity] and
    [-Infinity], strings in strict mode, arrays and objects.  [None] is
    [json.JSONDecodeError].  The limits of the interpreter (recursion depth,
    length of an integer numeral) are not part of the reader: it is
    [json.loads] on the texts that stay within them ([within_limits], after
    the module). *)
Module Reader.

Definition is_ws (c : N) : bool :=
  ((c =? 32) || (c =? 9) || (c =? 10) || (c =? 13))%N.

Fixpoint skip_ws (s : str) : str :=
  match s with
  | c :: s' => if is_ws c then skip_ws s' else s
  | [] => []
  end.

Definition is_digit (c : N) : bool := ((48 <=? c) && (c <=? 57))%N.

Definition hex_val (c : N) : option N :=
  (if (48 <=? c) && (c <=? 57) then Some (c - 48)
   else if (97 <=? c) && (c <=? 102) then Some (c - 87)
   else if (65 <=? c) && (c <=? 70) then Some (c - 55)
   else None)%N.

Definition hex4 (h1 h2 h3 h4 : N) : option N :=
  match hex_val h1, hex_val h2, hex_val h3, hex_val h4 with
  | Some a, Some b, Some c, Some d => Some (((a * 16 + b) * 16 + c) * 16 + d)%N
  | _, _, _, _ => None
  end.

(** The one-letter escapes: the table [BACKSLASH]. *)
Definition unescape (e : N) : option N :=
  (if e =? 34 then Some 34 else if e =? 92 then Some 92
   else if e =? 47 then Some 47 else if e =? 98 then Some 8
   else if e =? 102 then Some 12 else if e =? 110 then Some 10
   else if e =? 114 then Some 13 else if e =? 116 then Some 9
   else None)%N.

Definition is_high_surrogate (c : N) : bool := ((55296 <=? c) && (c <=? 56319))%N.
Definition is_low_surrogate (c : N) : bool := ((56320 <=? c) && (c <=? 57343))%N.
Definition join_surrogates (hi lo : N) : N :=
  (65536 + (hi - 55296) * 1024 + (lo - 56320))%N.

Definition emit (c : N) (r : option (str * str)) : option (str * str) :=
  match r with
  | Some (k, rest) => Some (c :: k, rest)
  | None => None
  end.

(** [scanstring], strict: from just after the opening quote to just after
    the closing one. *)
Fixpoint scanstring (s : str) : option (str * str) :=
  match s with
  | [] => None
  | c :: s1 =>
      if (c =? 34)%N then Some ([], s1)
      else if (c =? 92)%N then
        match s1 with
        | [] => None
        | e :: s2 =>
            if (e =? 117)%N then
              match s2 with
              | h1 :: h2 :: h3 :: h4 :: s3 =>
                  match hex4 h1 h2 h3 h4 with
                  | None => None
                  | Some uni =>
                      match s3 with
                      | b :: v :: g1 :: g2 :: g3 :: g4 :: s4 =>
                          match (if is_high_surrogate uni && (b =? 92)%N
                                    && (v =? 117)%N
                                 then hex4 g1 g2 g3 g4 else None) with
                          | Some uni2 =>
                              if is_low_surrogate uni2
                              then emit (join_surrogates uni uni2) (scanstring s4)
                              else emit uni (scanstring s3)
                          | None => emit uni (scanstring s3)
                          end
                      | _ => emit uni (scanstring s3)
                      end
                  end
              | _ => None
              end
            else
              match unescape e with
              | Some ch => emit ch (scanstring s2)
              | None => None
              end
        end
      else if (c <? 32)%N then None
      else emit c (scanstring s1)
  end.

Fixpoint take_digits (s : str) : str * str :=
  match s with
  | c :: s' =>
      if is_digit c then let (ds, r) := take_digits s' in (c :: ds, r)
      else ([], s)
  | [] => ([], [])
  end.

Definition int_of_digits (ds : str) : Z :=
  fold_left (fun acc c => (acc * 10 + Z.of_N (c - 48))%Z) ds 0%Z.

(** The integer part: an optional minus sign, then either [0] alone or a
    non-zero digit and any digits. *)
Definition match_integer (s : str) : option (bool * str * str) :=
  let (neg, s1) := match s with
                   | c :: t => if (c =? 45)%N then (true, t) else (false, s)
                   | [] => (false, s)
                   end in
  match s1 with
  | d :: t =>
      if (d =? 48)%N then Some (neg, [d], t)
      else if is_digit d then
        let (ds, r) := take_digits t in Some (neg, d :: ds, r)
      else None
  | [] => None
  end.

(** The optional fraction: a dot and at least one digit. *)
Definition match_frac (s : str) : str * str :=
  match s with
  | c :: t =>
      if (c =? 46)%N then
        match take_digits t with
        | ([], _) => ([], s)
        | (ds, r) => (c :: ds, r)
        end
      else ([], s)
  | [] => ([], s)
  end.

(** The optional exponent: [e] or [E], an optional sign, at least one
    digit. *)
Definition match_exp (s : str) : str * str :=
  match s with
  | c :: t =>
      if ((c =? 101) || (c =? 69))%N then
        let (sign, t') := match t with
                          | g :: t1 =>
                              if ((g =? 45) || (g =? 43))%N then ([g], t1)
                              else ([], t)
                          | [] => ([], t)
                          end in
        match take_digits t' with
        | ([], _) => ([], s)
        | (ds, r) => (c :: sign ++ ds, r)
        end
      else ([], s)
  | [] => ([], s)
  end.

(** [NUMBER_RE.match]: an [int] when there is neither fraction nor
    exponent, a [float] otherwise. *)
Definition match_number (s : str) : option (json * str) :=
  match match_integer s with
  | None => None
  | Some (neg, ds, r1) =>
      let (frac, r2) := match_frac r1 in
      let (exp, r3) := match_exp r2 in
      match frac, exp with
      | [], [] =>
          Some (JInt (if neg then - int_of_digits ds else int_of_digits ds)%Z, r3)
      | _, _ =>
          Some (JFloat ((if neg then [45%N] else []) ++ ds ++ frac ++ exp), r3)
      end
  end.

(** [dict(pairs)]: a repeated key keeps its first position and its last
    value. *)
Definition dict_of_pairs (pairs : list (str * json)) : dict :=
  fold_left (fun d kv => dict_set d (fst kv) (snd kv)) pairs [].

Inductive scanned : Type :=
| Value (v : json) (rest : str)
| Invalid
| Exhausted.

(** [scan_once], [JSONObject] from the first key on and [JSONArray] from the
    first item on.  The recursion of the reader is on the text that is left;
    [fuel] bounds it, and [Exhausted] is never the outcome when [fuel]
    exceeds twice the length of the text ([scan_once_fuel]). *)
Fixpoint scan_once (fuel : nat) (s : str) {struct fuel} : scanned :=
  match fuel with
  | O => Exhausted
  | S fuel =>
      match s with
      | [] => Invalid
      | c :: s1 =>
          if (c =? 34)%N then
            match scanstring s1 with
            | Some (k, r) => Value (JStr k) r
            | None => Invalid
            end
          else if (c =? 123)%N then
            match skip_ws s1 with
            | c1 :: r =>
                if (c1 =? 125)%N then Value (JDict []) r
                else if (c1 =? 34)%N then object_loop fuel [] r
                else Invalid
            | [] => Invalid
            end
          else if (c =? 91)%N then
            match skip_ws s1 with
            | c1 :: r =>
                if (c1 =? 93)%N then Value (JList []) r
                else array_loop fuel [] (c1 :: r)
            | [] => Invalid
            end
          else if (c =? 110)%N && startswith s (u "null") then
            Value JNull (skipn 4 s)
          else if (c =? 116)%N && startswith s (u "true") then
            Value (JBool true) (skipn 4 s)
          else if (c =? 102)%N && startswith s (u "false") then
            Value (JBool false) (skipn 5 s)
          else
            match match_number s with
            | Some (v, r) => Value v r
            | None =>
                if (c =? 78)%N && startswith s (u "NaN") then
                  Value (JFloat (u "NaN")) (skipn 3 s)
                else if (c =? 73)%N && startswith s (u "Infinity") then
                  Value (JFloat (u "Infinity")) (skipn 8 s)
                else if (c =? 45)%N && startswith s (u "-Infinity") then
                  Value (JFloat (u "-Infinity")) (skipn 9 s)
                else Invalid
            end
      end
  end

with object_loop (fuel : nat) (pairs : list (str * json)) (s : str)
                 {struct fuel} : scanned :=
  match fuel with
  | O => Exhausted
  | S fuel =>
      match scanstring s with
      | None => Invalid
      | Some (key, s1) =>
          match skip_ws s1 with
          | c :: s2 =>
              if (c =? 58)%N then
                match scan_once fuel (skip_ws s2) with
                | Value v s3 =>
                    let pairs := pairs ++ [(key, v)] in
                    match skip_ws s3 with
                    | c3 :: s4 =>
                        if (c3 =? 125)%N then
                          Value (JDict (dict_of_pairs pairs)) s4
                        else if (c3 =? 44)%N then
                          match skip_ws s4 with
                          | c5 :: s5 =>
                              if (c5 =? 34)%N then object_loop fuel pairs s5
                              else Invalid
                          | [] => Invalid
                          end
                        else Invalid
                    | [] => Invalid
                    end
                | other => other
                end
              else Invalid
          | [] => Invalid
          end
      end
  end

with array_loop (fuel : nat) (values : list json) (s : str)
                {struct fuel} : scanned :=
  match fuel with
  | O => Exhausted
  | S fuel =>
      match scan_once fuel s with
      | Value v s1 =>
          let values := values ++ [v] in
          match skip_ws s1 with
          | c :: s2 =>
              if (c =? 93)%N then Value (JList values) s2
              else if (c =? 44)%N then array_loop fuel values (skip_ws s2)
              else Invalid
          | [] => Invalid
          end
      | other => other
      end
  end.

(** [JSONDecoder.decode]: one value, white space around it, nothing more. *)
Definition decode (s : str) : scanned :=
  match scan_once (S (2 * length s)) (skip_ws s) with
  | Value v rest =>
      match skip_ws rest with
      | [] => Value v []
      | _ :: _ => Invalid
      end
  | other => other
  end.

(** [json.loads(s)] for a [str]: a text that starts with the byte order
    mark is refused. *)
Definition loads (s : str) : option json :=
  if startswith s [65279%N] then None
  else match decode s with
       | Value v _ => Some v
       | _ => None
       end.

End Reader.

(** The limits that [json.loads] meets in the interpreter.  [int] refuses a
    numeral of more than 4300 digits with a [ValueError], and the scanner
    raises [RecursionError] when arrays and objects nest deeper than the call
    stack allows (1000 frames by default, those of the caller included).
    Neither is a [json.JSONDecodeError].  A text is [within_limits] when no
    run of digits in it is longer than [MAX_STR_DIGITS] and it has at most
    [MAX_NESTING] opening brackets: [json.loads] then meets neither limit,
    on the text and on every slice of it. *)
Definition MAX_STR_DIGITS : nat := 4300.
Definition MAX_NESTING : nat := 400.

Fixpoint leading_digits (s : str) : nat :=
  match s with
  | c :: s' => if Reader.is_digit c then S (leading_digits s') else 0
  | [] => 0
  end.

Fixpoint longest_digit_run (s : str) : nat :=
  match s with
  | [] => 0
  | _ :: s' => Nat.max (leading_digits s) (longest_digit_run s')
  end.

Definition opening_brackets (s : str) : nat :=
  length (filter (fun c => (c =? 91) || (c =? 123))%N s).

Definition within_limits (s : str) : bool :=
  (longest_digit_run s <=? MAX_STR_DIGITS)%nat
  && (opening_brackets s <=? MAX_NESTING)%nat.

(** *** [parse_json_content] *)

Definition parse_json_content (content : str) : json :=
  match Reader.loads content with
  | Some v => v
  | None =>
      let start := find_char 123 content in
      let end_ := rfind_char 125 content in
      if negb (start =? -1)%Z && negb (end_ =? -1)%Z && (end_ >? start)%Z then
        let snippet := slice content start (end_ + 1) in
        match Reader.loads snippet with
        | Some v => v
        | None => JDict []
        end
      else JDict []
  end.

(** *** [collect_fields] *)

(** [collect_fields(obj, prefix)] for the value [v = obj]: the loop over
    [obj.items()] is the inner [fix].  Only the drivers call it, on a value
    they have just read from a template file. *)
Fixpoint collect_fields_at (v : json) (prefix : str) {struct v}
  : list field_spec :=
  match v with
  | JDict obj =>
      (fix items (l : list (str * json)) : list field_spec :=
         match l with
         | [] => []
         | (k, v) :: rest =>
             let path := match prefix with
                         | [] => k
                         | _ :: _ => prefix ++ u "." ++ k
                         end in
             (if startswith path (u "meta.") then []
              else match v with
                   | JDict d =>
                       if dict_has d (u "expected_type")
                       then [(path, path,
                              dict_get_default d (u "expected_type") (JStr []))]
                       else collect_fields_at v path
                   | _ => []
                   end) ++ items rest
         end) obj
  | _ => []
  end.

Definition collect_fields (obj : dict) (prefix : str) : list field_spec :=
  collect_fields_at (JDict obj) prefix.

(** *** [build_prompt_content] *)

Definition dq : str := [34%N].
Definition nl : str := [10%N].

Definition SYSTEM_PROMPT : str :=
  u "Tu es un assistant qui extrait des champs factuels depuis un document immobilier. R"
  ++ [233%N] ++ u "ponds UNIQUEMENT avec un objet JSON, sans texte avant ou apr"
  ++ [232%N] ++ u "s.".

Definition field_line (spec : field_spec) : str :=
  let '(p, label, typ) := spec in
  u "- " ++ p ++ u " | " ++ label ++ u " | " ++ py_str typ.

Definition build_prompt_content (doc_text : str) (field_specs : list field_spec)
  : str * str :=
  let fields := join nl (map field_line field_specs) in
  let user_lines :=
    [ u "Produit un objet JSON avec exactement les cl" ++ [233%N]
        ++ u "s dot-path list" ++ [233%N] ++ u "es ci-dessous.";
      u "Pour chaque cl" ++ [233%N] ++ u ", renvoie {" ++ dq ++ u "value" ++ dq
        ++ u ": <valeur ou " ++ dq ++ u "not found" ++ dq ++ u ">, " ++ dq
        ++ u "page" ++ dq ++ u ": <numero de page ou null>, " ++ dq
        ++ u "excerpt" ++ dq ++ u ": <phrase source ou " ++ dq ++ dq ++ u ">}.";
      u "Si tu ne trouves pas, value = " ++ dq ++ u "not found" ++ dq
        ++ u ", page = null, excerpt = " ++ dq ++ dq ++ u ".";
      u "Si c'est une liste : renvoie un tableau JSON.";
      u "Si c'est un boolean : true/false.";
      u "Si c'est un objet contact : {" ++ dq ++ u "email" ++ dq ++ u ": " ++ dq
        ++ u "..." ++ dq ++ u ", " ++ dq ++ u "telephone" ++ dq ++ u ": " ++ dq
        ++ u "..." ++ dq ++ u "}.";
      u "Champs " ++ [224%N] ++ u " extraire :" ++ nl ++ fields ++ nl ++ nl
        ++ u "Document pagin" ++ [233%N] ++ u " :" ++ nl ++ doc_text ] in
  (SYSTEM_PROMPT, join nl user_lines).

(** *** [set_path] *)

(** From [leaf = cursor.get(parts[-1])] to the end of [set_path]: the
    dictionary [cursor] after the assignments. *)
Definition write_leaf (cursor : dict) (last : str) (value page excerpt : json)
  : dict :=
  let fresh_source := JDict [(u "page", page); (u "excerpt", excerpt)] in
  match dict_get cursor last with
  | Some (JDict leaf) =>
      let leaf := dict_set leaf (u "value") value in
      match dict_get leaf (u "source") with
      | Some (JDict src) =>
          let src := dict_set (dict_set src (u "page") page)
                              (u "excerpt") excerpt in
          dict_set cursor last (JDict (dict_set leaf (u "source") (JDict src)))
      | _ =>
          dict_set cursor last (JDict (dict_set leaf (u "source") fresh_source))
      end
  | _ =>
      dict_set cursor last (JDict [(u "value", value); (u "source", fresh_source)])
  end.

(** The walk [cursor = cursor.setdefault(part, {})] along [parts[:-1]], then
    the write at [parts[-1]].  The dictionaries on the way are changed in
    place, so the result is [cursor] rebuilt around the changed child.
    [None] is the [AttributeError] of a [setdefault] or [get] on a value that
    is not a dictionary. *)
Fixpoint set_parts (cursor : dict) (parts : list str)
         (value page excerpt : json) : option dict :=
  match parts with
  | [] => None
  | [last] => Some (write_leaf cursor last value page excerpt)
  | part :: rest =>
      match dict_get cursor part with
      | None =>
          match set_parts [] rest value page excerpt with
          | Some child => Some (dict_set cursor part (JDict child))
          | None => None
          end
      | Some (JDict child) =>
          match set_parts child rest value page excerpt with
          | Some child => Some (dict_set cursor part (JDict child))
          | None => None
          end
      | Some _ => None
      end
  end.

Definition set_path (root : dict) (path : str) (value page excerpt : json)
  : option dict :=
  set_parts root (split_char 46 path) value page excerpt.

(** The read that mirrors [set_path]: the value at a dot-path. *)
Fixpoint get_parts (cursor : dict) (parts : list str) : option json :=
  match parts with
  | [] => None
  | [last] => dict_get cursor last
  | part :: rest =>
      match dict_get cursor part with
      | Some (JDict child) => get_parts child rest
      | _ => None
      end
  end.

Definition get_path (root : dict) (path : str) : option json :=
  get_parts root (split_char 46 path).

(** *** The fill loop of the drivers *)

(** [value], [page] and [excerpt] as the three conditional expressions of
    the loop compute them from [payload = llm_result.get(path, {})]. *)
Definition payload_of (llm_result : dict) (path : str) : json :=
  dict_get_default llm_result path (JDict []).

Definition payload_value (payload : json) : json :=
  match payload with
  | JDict p => dict_get_default p (u "value") (JStr NOT_FOUND)
  | _ => JStr NOT_FOUND
  end.

Definition payload_page (payload : json) : json :=
  match payload with
  | JDict p => dict_get_default p (u "page") JNull
  | _ => JNull
  end.

Definition payload_excerpt (payload : json) : json :=
  match payload with
  | JDict p => dict_get_default p (u "excerpt") JNull
  | _ => JStr []
  end.

(** One turn of [for path, _, _ in field_specs].  [llm_result.get] is an
    [AttributeError] when the reply of the model is not an object. *)
Definition fill_field (llm_result : json) (template_obj : dict)
           (spec : field_spec) : option dict :=
  match llm_result with
  | JDict result =>
      let payload := payload_of result (fst (fst spec)) in
      set_path template_obj (fst (fst spec)) (payload_value payload)
               (payload_page payload) (payload_excerpt payload)
  | _ => None
  end.

Definition fill_fields (llm_result : json) (template_obj : dict)
           (field_specs : list field_spec) : option dict :=
  fold_left (fun acc spec =>
               match acc with
               | Some t => fill_field llm_result t spec
               | None => None
               end)
            field_specs (Some template_obj).

(** [s.lstrip(".")] *)
Fixpoint lstrip_dots (s : str) : str :=
  match s with
  | c :: s' => if (c =? 46)%N then lstrip_dots s' else s
  | [] => []
  end.

(** *** Paths ([pathlib], POSIX flavour) *)

(** [Path(p).parts], the root apart: the pieces between the slashes, but
    for the empty ones and the single dots, which [Path] drops. *)
Definition path_parts (p : str) : list str :=
  filter (fun part => negb (str_eqb part [] || str_eqb part (u ".")))
         (split_char 47 p).

(** [Path(p).name]: the last part, the empty string when there is none. *)
Definition path_name (p : str) : str := last (path_parts p) [].

(** [Path(p).suffix]: from the last dot of the name, when that dot is
    neither its first nor its last character. *)
Definition path_suffix (p : str) : str :=
  let name := path_name p in
  let i := rfind_char 46 name in
  if (0 <? i)%Z && (i <? Z.of_nat (length name) - 1)%Z
  then skipn (Z.to_nat i) name else [].

(** [Path(p).stem] *)
Definition path_stem (p : str) : str :=
  let name := path_name p in
  firstn (length name - length (path_suffix p)) name.

(** [Path(p).with_name(name)], for a path that [Path] keeps as it is written
    and that has a name: the drivers call it on the paths of [DOC_TEMPLATES],
    which start with the resolved [SRC_DIR]. *)
Definition path_with_name (p name : str) : str :=
  firstn (length p - length (path_name p)) p ++ name.

(** The two [set_path] calls on the [meta] paths that come before the fill
    loop in both drivers. *)
Definition set_meta (template_obj : dict) (document : str) : option dict :=
  match set_path template_obj (u "meta.file_type")
                 (JStr (lstrip_dots (path_suffix document))) JNull (JStr []) with
  | Some t => set_path t (u "meta.file_name") (JStr (path_name document))
                       JNull (JStr [])
  | None => None
  end.

(** The fill step: the two [meta] paths, then the loop over the fields.
    [None] is an [AttributeError]. *)
Definition fill_template (llm_result : json) (template_obj : dict)
           (document : str) (field_specs : list field_spec) : option dict :=
  match set_meta template_obj document with
  | Some t => fill_fields llm_result t field_specs
  | None => None
  end.

(* --------------------------------------------------------------------- *)
(** ** Effects: exceptions, the log, the outside world                     *)
(* --------------------------------------------------------------------- *)

(** The exceptions that [except Exception] catches. *)
Inductive exn : Type :=
| EnvironmentError (msg : str)
| FileNotFoundError (msg : str)
| JSONDecodeError
| AttributeError
| TransportError
| RenderError
| ReadError.

(** What a run does to the outside world, in the order it does it.
    [WriteOutput] is the call that writes the filled template to the output
    path; the drivers are modelled with an output path that can be written
    and a template whose text can be written. *)
Inductive event : Type :=
| Stdout (msg : str)
| OpenDocument (path : str)
| ReadPage (idx : Z)
| OcrRequest (model : str) (image : str)
| LlmRequest (model : str) (messages : list str)
| ListModels
| CacheWrite (path : str) (text : str)
| WriteOutput (path : str) (content : dict).

(** A page of an open PDF: what [extract_text] returns and what rendering
    the page to PNG gives. *)
Record pdf_page : Type := {
  extract_text : option str;
  page_png : exn + str
}.

(** The world a run lives in.  The two HTTP services answer as a function of
    what the run has done so far and of the request, so that a service may
    answer the same request differently at different times.  The futures of
    a thread pool complete in the order [as_completed] gives, and the
    requests of its threads reach the service in the order [request_turns]
    gives (see [scheduled]). *)
Record world : Type := {
  getenv : str -> option str;
  src_dir : str;
  read_text : str -> option str;
  pdf_open : str -> exn + list pdf_page;
  read_bytes : str -> exn + str;
  sha256_hex : str -> str;
  cache_dir_files : list (str * str);
  cache_writable : bool;
  ocr_http : list event -> str -> str -> exn + str;
  llm_http : list event -> str -> list str -> exn + str;
  models_list : exn + list (str * list str);
  as_completed : list (exn + json) -> list (exn + json);
  request_turns : list nat
}.

(** The part of the world a run changes: its log and the text files of the
    OCR cache. *)
Record state : Type := {
  log : list event;
  cache_files : list (str * str)
}.

(** A computation that may raise and that changes the state. *)
Definition M (A : Type) : Type := state -> (exn + A) * state.

Definition ret {A} (a : A) : M A := fun st => (inr a, st).

Definition bind {A B} (c : M A) (k : A -> M B) : M B :=
  fun st =>
    match c st with
    | (inr a, st') => k a st'
    | (inl e, st') => (inl e, st')
    end.

Definition raise {A} (e : exn) : M A := fun st => (inl e, st).

(** [try: body except Exception: handler] *)
Definition try_except {A} (body handler : M A) : M A :=
  fun st =>
    match body st with
    | (inl _, st') => handler st'
    | r => r
    end.

Definition lift {A} (r : exn + A) : M A :=
  match r with
  | inl e => raise e
  | inr a => ret a
  end.

Definition emit_event (e : event) : M unit :=
  fun st => (inr tt, {| log := log st ++ [e]; cache_files := cache_files st |}).

Definition history : M (list event) := fun st => (inr (log st), st).

Declare Scope monad_scope.
Delimit Scope monad_scope with monad.
Notation "x <- c ;; k" := (bind c (fun x => k))
  (at level 61, c at next level, right associativity) : monad_scope.
Notation "' pat <- c ;; k" := (bind c (fun pat => k))
  (at level 61, pat pattern, c at next level, right associativity) : monad_scope.
Notation "c ;;; k" := (bind c (fun _ => k))
  (at level 61, right associativity) : monad_scope.
Local Open Scope monad_scope.

(** Python truth of a string. *)
Definition truthy (s : str) : bool :=
  match s with
  | [] => false
  | _ :: _ => true
  end.

(** [a or b] on strings. *)
Definition str_or (a b : str) : str := if truthy a then a else b.

(* --------------------------------------------------------------------- *)
(** ** [load_pages_with_ocr]                                               *)
(* --------------------------------------------------------------------- *)

Section Loader.

Variable w : world.

(** The [try] block of the PDF branch: the text of the page after the
    attempt at OCR. *)
Definition ocr_page (pg : pdf_page) (text : str) (ocr_callback : str -> M str)
  : M str :=
  try_except
    (png_bytes <- lift (page_png pg) ;;
     ocr_text <- ocr_callback png_bytes ;;
     if truthy ocr_text && negb (contains text ocr_text)
     then ret (if truthy text then strip (text ++ nl ++ ocr_text) else ocr_text)
     else ret text)
    (ret text).

(** [for idx, page in enumerate(pdf.pages, start=1)]: [idx] is the number of
    the page at the head of [pdf], [pages] is the list built so far. *)
Fixpoint load_pdf_pages (pdf : list pdf_page) (idx max_pages : Z)
         (ocr_callback : str -> M str) (ocr_all : bool) (pages : list page)
  : M (list page) :=
  match pdf with
  | [] => ret pages
  | pg :: rest =>
      if negb (max_pages =? 0)%Z && (idx >? max_pages)%Z then ret pages
      else
        emit_event (ReadPage idx) ;;;
        let text := strip (match extract_text pg with
                           | Some t => t
                           | None => []
                           end) in
        let needs_ocr := ocr_all || (length text <? 80)%nat in
        text <- (if needs_ocr then ocr_page pg text ocr_callback else ret text) ;;
        load_pdf_pages rest (idx + 1) max_pages ocr_callback ocr_all
                       (pages ++ [(idx, text)])
  end.

Definition load_pages_with_ocr (path : str) (max_pages : Z)
           (ocr_callback : str -> M str) (ocr_all : bool) : M (list page) :=
  let suffix := lower (path_suffix path) in
  if str_eqb suffix (u ".pdf") then
    emit_event (OpenDocument path) ;;;
    pdf <- lift (pdf_open w path) ;;
    load_pdf_pages pdf 1 max_pages ocr_callback ocr_all []
  else
    try_except
      (emit_event (OpenDocument path) ;;;
       png_bytes <- lift (read_bytes w path) ;;
       ocr_text <- ocr_callback png_bytes ;;
       ret [(1%Z, ocr_text)])
      (ret [(1%Z, [])]).

End Loader.

(* --------------------------------------------------------------------- *)
(** ** [src/core/config.py]                                                *)
(* --------------------------------------------------------------------- *)

Definition get_template_path (w : world) (filename : str) : str :=
  src_dir w ++ u "/empty_json_template/" ++ filename.

Definition DOC_TEMPLATES (w : world) : list (str * str) :=
  [ (u "carnet", get_template_path w (u "carnet_entretien_empty.json"));
    (u "reglement", get_template_path w (u "reglement_propriete_empty.json"));
    (u "dta", get_template_path w (u "DTA_empty.json"));
    (u "crep", get_template_path w (u "CREP_empty.json"));
    (u "ct", get_template_path w (u "CT_quinquenal_ascenseur_empty.json"));
    (u "occupants", get_template_path w (u "liste_occupant_empty.json"));
    (u "devis", get_template_path w (u "devis_facture_travaux_empty.json")) ].

Fixpoint assoc_get (l : list (str * str)) (k default : str) : str :=
  match l with
  | [] => default
  | (k', v) :: l' => if str_eqb k k' then v else assoc_get l' k default
  end.

(** [DOC_TEMPLATES.get(doc_type, DOC_TEMPLATES["carnet"])] *)
Definition template_path_of (w : world) (doc_type : str) : str :=
  assoc_get (DOC_TEMPLATES w) doc_type
            (get_template_path w (u "carnet_entretien_empty.json")).

(* --------------------------------------------------------------------- *)
(** ** [src/services/mistral.py]                                           *)
(* --------------------------------------------------------------------- *)

(** [if not api_key], for [api_key = os.getenv(name)]: the variable is unset
    or empty. *)
Definition credential_absent (w : world) (name : str) : bool :=
  match getenv w name with
  | Some key => negb (truthy key)
  | None => true
  end.

Section Mistral.

Variable w : world.

Definition MISTRAL_KEY_MISSING : str := u "MISTRAL_API_KEY manquant (charger .env)".

Definition mistral_ocr_image (png_bytes ocr_model : str) : M str :=
  if credential_absent w (u "MISTRAL_API_KEY")
  then raise (EnvironmentError MISTRAL_KEY_MISSING)
  else
    h <- history ;;
    emit_event (OcrRequest ocr_model png_bytes) ;;;
    lift (ocr_http w h ocr_model png_bytes).

Definition call_mistral (messages : list str) (model : str) : M json :=
  if credential_absent w (u "MISTRAL_API_KEY")
  then raise (EnvironmentError MISTRAL_KEY_MISSING)
  else
    h <- history ;;
    emit_event (LlmRequest model messages) ;;;
    content <- lift (llm_http w h model messages) ;;
    ret (parse_json_content content).

Definition mistral_load_pages (path : str) (max_pages : Z) (ocr_model : str)
           (ocr_all : bool) : M (list page) :=
  load_pages_with_ocr w path max_pages
                      (fun png => mistral_ocr_image png ocr_model) ocr_all.

End Mistral.

(* --------------------------------------------------------------------- *)
(** ** [src/services/gemini.py]                                            *)
(* --------------------------------------------------------------------- *)

Section Gemini.

Variable w : world.

(** The loop of [select_model]: [model_name] is its variable, a model is its
    name and its [supported_actions]. *)
Fixpoint select_model_loop (models : list (str * list str)) (prefer_pro : bool)
         (model_name : option str) : option str :=
  match models with
  | [] => model_name
  | (name, supported_actions) :: rest =>
      if negb (existsb (str_eqb (u "generateContent")) supported_actions)
      then select_model_loop rest prefer_pro model_name
      else if prefer_pro && contains name (u "pro") then Some name
      else
        match model_name with
        | None =>
            if contains name (u "flash")
            then select_model_loop rest prefer_pro (Some name)
            else select_model_loop rest prefer_pro None
        | Some _ => select_model_loop rest prefer_pro model_name
        end
  end.

Definition select_model (prefer_pro : bool) : M (option str) :=
  emit_event ListModels ;;;
  models <- lift (models_list w) ;;
  ret (select_model_loop models prefer_pro None).

(** [ocr_cache_path]: no path when the cache is switched off. *)
Definition ocr_cache_path (cache_dir : option str) (png_bytes : str)
  : option str :=
  match cache_dir with
  | Some dir =>
      if truthy dir then Some (dir ++ u "/" ++ sha256_hex w png_bytes ++ u ".txt")
      else None
  | None => None
  end.

Fixpoint file_get (files : list (str * str)) (path : str) : option str :=
  match files with
  | [] => None
  | (p, text) :: rest => if str_eqb path p then Some text else file_get rest path
  end.

Definition read_ocr_cache (cache_dir : option str) (png_bytes : str)
  : M (option str) :=
  fun st =>
    match ocr_cache_path cache_dir png_bytes with
    | Some path => (inr (file_get (cache_files st) path), st)
    | None => (inr None, st)
    end.

(** [text.encode("utf-8")] succeeds: the text holds no surrogate. *)
Definition utf8_encodable (text : str) : bool :=
  forallb (fun c => negb ((55296 <=? c) && (c <=? 57343))%N) text.

(** What a file opened in text mode gives back on reading: every line end,
    [\r\n] or [\r], is read as [\n]. *)
Fixpoint universal_newlines (text : str) : str :=
  match text with
  | [] => []
  | c :: rest =>
      if (c =? 13)%N then
        10%N :: match rest with
                | c' :: rest' =>
                    if (c' =? 10)%N then universal_newlines rest'
                    else universal_newlines rest
                | [] => []
                end
      else c :: universal_newlines rest
  end.

(** What [path.read_text(encoding="utf-8")] returns after
    [path.write_text(text, encoding="utf-8")], on a POSIX system, where
    writing leaves [\n] as it is: the text with its line ends read as
    [\n]; the empty text when the text cannot be encoded, as the file is
    created before the write that fails. *)
Definition text_read_back (text : str) : str :=
  if utf8_encodable text then universal_newlines text else [].

(** A write that fails is swallowed.  [cache_files] holds what reading each
    file returns. *)
Definition write_ocr_cache (cache_dir : option str) (png_bytes text : str)
  : M unit :=
  fun st =>
    match ocr_cache_path cache_dir png_bytes with
    | Some path =>
        if cache_writable w
        then (inr tt, {| log := log st ++ [CacheWrite path text];
                         cache_files := (path, text_read_back text)
                                          :: cache_files st |})
        else (inr tt, st)
    | None => (inr tt, st)
    end.

Definition gemini_ocr_image (png_bytes vision_model : str)
           (cache_dir : option str) : M str :=
  cached <- read_ocr_cache cache_dir png_bytes ;;
  match cached with
  | Some text => ret text
  | None =>
      h <- history ;;
      emit_event (OcrRequest vision_model png_bytes) ;;;
      text <- lift (ocr_http w h vision_model png_bytes) ;;
      write_ocr_cache cache_dir png_bytes text ;;;
      ret text
  end.

Definition call_gemini (prompt model : str) : M json :=
  h <- history ;;
  emit_event (LlmRequest model [prompt]) ;;;
  text <- lift (llm_http w h model [prompt]) ;;
  ret (parse_json_content text).

Definition gemini_load_pages (path : str) (max_pages : Z) (vision_model : str)
           (ocr_all : bool) (ocr_cache_dir : option str) : M (list page) :=
  load_pages_with_ocr w path max_pages
    (fun png => gemini_ocr_image png vision_model ocr_cache_dir) ocr_all.

End Gemini.

(* --------------------------------------------------------------------- *)
(** ** The drivers: [src/cli_gemini.py] and [src/cli_mistral.py]           *)
(* --------------------------------------------------------------------- *)

(** How a run ends. *)
Inductive outcome : Type :=
| Completed
| Uncaught (e : exn)
| Exited (code : Z).

Definition finish (r : (exn + unit) * state) : outcome * state :=
  match r with
  | (inr _, st) => (Completed, st)
  | (inl e, st) => (Uncaught e, st)
  end.

Definition initial_state (w : world) : state :=
  {| log := []; cache_files := cache_dir_files w |}.

(** [base or None] turned into a failure: the [AttributeError] of a method
    call on a value that has no such method. *)
Definition or_attribute_error {A} (o : option A) : M A :=
  match o with
  | Some a => ret a
  | None => raise AttributeError
  end.

Definition default_output_path (template_path : str) : str :=
  path_with_name template_path (path_stem template_path ++ u "_fill.json").

Definition written_message (output_path : str) : str :=
  [201%N] ++ u "crit : " ++ output_path.

(** [template_obj = json.loads(...)] and [field_specs = collect_fields(...)]:
    the template file must exist, hold JSON, and hold an object. *)
Definition load_template (w : world) (doc_type : str)
  : M (str * dict * list field_spec) :=
  let template_path := template_path_of w doc_type in
  match read_text w template_path with
  | None => raise (FileNotFoundError (u "Template introuvable: " ++ template_path))
  | Some text =>
      match Reader.loads text with
      | None => raise JSONDecodeError
      | Some (JDict template_obj) =>
          ret (template_path, template_obj, collect_fields template_obj [])
      | Some _ => raise AttributeError
      end
  end.

(** The order in which the threads of a pool make the calls submitted to
    it.  At each turn one of the calls not made yet is made: [turns] gives
    its rank among those, counted modulo their number, and once [turns] is
    exhausted the calls are made in the order they were submitted.  Whatever
    the turns, every call is made once.  The pool itself starts the calls in
    the order they were submitted, a few at a time, and the requests of the
    calls that run together reach the service in any order: every order the
    pool allows is the order of some turns. *)
Fixpoint take_turns {A} (n : nat) (turns : list nat) (pending : list A)
  : list A :=
  match n, pending with
  | S n', x :: _ =>
      let i := (hd 0 turns mod length pending)%nat in
      nth i pending x
      :: take_turns n' (tl turns) (firstn i pending ++ skipn (S i) pending)
  | _, _ => []
  end.

Definition scheduled {A} (turns : list nat) (calls : list A) : list A :=
  take_turns (length calls) turns calls.

(** The results of the calls, each filed at the rank of its chunk. *)
Fixpoint file_at_rank {A} (x : nat * A) (filed : list (nat * A))
  : list (nat * A) :=
  match filed with
  | [] => [x]
  | y :: rest =>
      if (fst x <=? fst y)%nat then x :: filed else y :: file_at_rank x rest
  end.

Definition in_rank_order {A} (done : list (nat * A)) : list A :=
  map snd (fold_right file_at_rank [] done).

Section GeminiDriver.

Variable w : world.

Record gemini_args : Type := {
  g_doc_type : str;
  g_document : str;
  g_output : option str;
  g_model : str;
  g_vision_model : str;
  g_max_pages : Z;
  g_ocr_all : bool;
  g_ocr_cache_dir : str;
  g_chunk_pages : Z;
  g_parallel_api : Z;
  g_second_pass : bool
}.

(** [[pages[i:i + n] for i in range(0, len(pages), n)]], for [n >= 1]. *)
Fixpoint chunk_list (fuel n : nat) (pages : list page) : list (list page) :=
  match fuel with
  | O => []
  | S fuel =>
      match pages with
      | [] => []
      | _ :: _ => firstn n pages :: chunk_list fuel n (skipn n pages)
      end
  end.

Definition chunks_of (pages : list page) (chunk_pages : Z) : list (list page) :=
  chunk_list (length pages) (Z.to_nat (Z.max 1 chunk_pages)) pages.

Definition gemini_prompt (pages : list page) (field_specs : list field_spec)
  : str :=
  let doc_text := flatten_pages pages in
  let (system, user) := build_prompt_content doc_text field_specs in
  system ++ nl ++ nl ++ user.

Definition run_chunk (text_model : str) (field_specs : list field_spec)
           (chunk : list page) : M json :=
  call_gemini w (gemini_prompt chunk field_specs) text_model.

(** The sequential branch of pass 1. *)
Fixpoint pass1_sequential (text_model : str) (field_specs : list field_spec)
         (chunks : list (list page)) (llm_result : dict) : M dict :=
  match chunks with
  | [] => ret llm_result
  | chunk :: rest =>
      v <- run_chunk text_model field_specs chunk ;;
      pass1_sequential text_model field_specs rest
                       (merge_extractions llm_result v)
  end.

(** The calls that the worker threads make, each with the rank of its
    chunk, in the order their requests reach the service: what a call
    returns or raises is kept with its rank. *)
Fixpoint run_calls (text_model : str) (field_specs : list field_spec)
         (calls : list (nat * list page)) : M (list (nat * (exn + json))) :=
  match calls with
  | [] => ret []
  | (i, chunk) :: rest =>
      fun st =>
        let (r, st1) := run_chunk text_model field_specs chunk st in
        match run_calls text_model field_specs rest st1 with
        | (inr rs, st2) => (inr ((i, r) :: rs), st2)
        | (inl e, st2) => (inl e, st2)
        end
  end.

(** [executor.submit] for every chunk: every call is made, in the order the
    threads of the pool take their turns, and what it returns or raises is
    kept in its future; [futures] lists them in the order of the chunks. *)
Definition submit_all (text_model : str) (field_specs : list field_spec)
           (chunks : list (list page)) : M (list (exn + json)) :=
  let calls := combine (seq 0 (length chunks)) chunks in
  done <- run_calls text_model field_specs
                    (scheduled (request_turns w) calls) ;;
  ret (in_rank_order done).

(** [for future in as_completed(futures)]: the results are merged in the
    order the world completes them; [future.result()] raises again what the
    call raised. *)
Fixpoint merge_completed (futures : list (exn + json)) (llm_result : dict)
  : M dict :=
  match futures with
  | [] => ret llm_result
  | inl e :: _ => raise e
  | inr v :: rest => merge_completed rest (merge_extractions llm_result v)
  end.

Definition pass1 (args : gemini_args) (text_model : str)
           (field_specs : list field_spec) (pages : list page) : M dict :=
  let chunks := chunks_of pages (g_chunk_pages args) in
  if (g_parallel_api args >? 1)%Z && (1 <? length chunks)%nat then
    futures <- submit_all text_model field_specs chunks ;;
    merge_completed (as_completed w futures) []
  else pass1_sequential text_model field_specs chunks [].

(** [val] of the loop that gathers [missing]. *)
Definition found_value (llm_result : dict) (path : str) : json :=
  match dict_get llm_result path with
  | Some (JDict payload) => dict_get_default payload (u "value") JNull
  | _ => JNull
  end.

Definition missing_fields (field_specs : list field_spec) (llm_result : dict)
  : list field_spec :=
  fold_left (fun missing spec =>
               if negb (is_found (found_value llm_result (fst (fst spec))))
               then missing ++ [spec] else missing)
            field_specs [].

(** The body of [if args.second_pass]. *)
Definition second_pass (text_model : str) (field_specs : list field_spec)
           (pages : list page) (llm_result : dict) : M dict :=
  let missing := missing_fields field_specs llm_result in
  match missing with
  | [] => ret llm_result
  | _ :: _ =>
      let relevant := find_relevant_pages pages missing in
      match relevant with
      | [] => ret llm_result
      | _ :: _ =>
          v <- call_gemini w (gemini_prompt relevant missing) text_model ;;
          ret (merge_extractions llm_result v)
      end
  end.

(** [main] from the template on, once the text model is known. *)
Definition gemini_body (args : gemini_args) (text_model vision_model : str)
  : M unit :=
  '(template_path, template_obj, field_specs) <- load_template w (g_doc_type args) ;;
  let output_path := match g_output args with
                     | Some o => if truthy o then o
                                 else default_output_path template_path
                     | None => default_output_path template_path
                     end in
  pages <- gemini_load_pages w (g_document args) (g_max_pages args) vision_model
             (g_ocr_all args)
             (if truthy (g_ocr_cache_dir args) then Some (g_ocr_cache_dir args)
              else None) ;;
  llm_result <- pass1 args text_model field_specs pages ;;
  llm_result <- (if g_second_pass args
                 then second_pass text_model field_specs pages llm_result
                 else ret llm_result) ;;
  template_obj <- or_attribute_error
                    (fill_template (JDict llm_result) template_obj
                                   (g_document args) field_specs) ;;
  emit_event (WriteOutput output_path template_obj) ;;;
  emit_event (Stdout (written_message output_path)) ;;;
  emit_event (Stdout (u "Temps d'execution"))
.

(** [text_model = args.model or os.getenv(...) or select_model(...)] *)
Definition choose_text_model (args : gemini_args) : M (option str) :=
  if truthy (g_model args) then ret (Some (g_model args))
  else match getenv w (u "GEMINI_TEXT_MODEL") with
       | Some m => if truthy m then ret (Some m) else select_model w true
       | None => select_model w true
       end.

Definition main_gemini (args : gemini_args) : outcome * state :=
  let st0 := initial_state w in
  if credential_absent w (u "GEMINI_API_KEY") then
    (Exited 1, {| log := [Stdout (u "GEMINI_API_KEY not found in .env")];
                  cache_files := cache_files st0 |})
  else
    match choose_text_model args st0 with
    | (inl e, st) => (Uncaught e, st)
    | (inr text_model, st) =>
        let vision_model :=
          str_or (g_vision_model args)
                 (str_or (match getenv w (u "GEMINI_VISION_MODEL") with
                          | Some m => m
                          | None => []
                          end)
                         (match text_model with Some m => m | None => [] end)) in
        match text_model with
        | Some text_model =>
            if truthy text_model
            then finish (gemini_body args text_model vision_model st)
            else (Exited 1,
                  {| log := log st ++ [Stdout (u "No compatible Gemini model found for generateContent")];
                     cache_files := cache_files st |})
        | None =>
            (Exited 1,
             {| log := log st ++ [Stdout (u "No compatible Gemini model found for generateContent")];
                cache_files := cache_files st |})
        end
    end.

End GeminiDriver.

Section MistralDriver.

Variable w : world.

Record mistral_args : Type := {
  m_doc_type : str;
  m_document : str;
  m_output : option str;
  m_model : str;
  m_ocr_model : str;
  m_max_pages : Z;
  m_ocr_all : bool
}.

Definition mistral_body (args : mistral_args) : M unit :=
  '(template_path, template_obj, field_specs) <- load_template w (m_doc_type args) ;;
  let output_path := match m_output args with
                     | Some o => if truthy o then o
                                 else default_output_path template_path
                     | None => default_output_path template_path
                     end in
  pages <- mistral_load_pages w (m_document args) (m_max_pages args)
             (m_ocr_model args) (m_ocr_all args) ;;
  let doc_text := flatten_pages pages in
  let (system, user) := build_prompt_content doc_text field_specs in
  llm_result <- call_mistral w [system; user] (m_model args) ;;
  template_obj <- or_attribute_error
                    (fill_template llm_result template_obj
                                   (m_document args) field_specs) ;;
  emit_event (WriteOutput output_path template_obj) ;;;
  emit_event (Stdout (written_message output_path)).

Definition main_mistral (args : mistral_args) : outcome * state :=
  finish (mistral_body args (initial_state w)).

(** [main] up to the write of its output: the path it is about to write
    and the filled template. *)
Definition mistral_filled (args : mistral_args) : M (str * dict) :=
  '(template_path, template_obj, field_specs) <- load_template w (m_doc_type args) ;;
  let output_path := match m_output args with
                     | Some o => if truthy o then o
                                 else default_output_path template_path
                     | None => default_output_path template_path
                     end in
  pages <- mistral_load_pages w (m_document args) (m_max_pages args)
             (m_ocr_model args) (m_ocr_all args) ;;
  let doc_text := flatten_pages pages in
  let (system, user) := build_prompt_content doc_text field_specs in
  llm_result <- call_mistral w [system; user] (m_model args) ;;
  template_obj <- or_attribute_error
                    (fill_template llm_result template_obj
                                   (m_document args) field_specs) ;;
  ret (output_path, template_obj).

End MistralDriver.

(* --------------------------------------------------------------------- *)
(** ** Notions used by the statements                                      *)
(* --------------------------------------------------------------------- *)

(** What a parsed reply reports as found for a key: the record that
    [merge_extractions] would copy, if any. *)
Definition finding (update : json) (key : str) : option json :=
  match update with
  | JDict entries =>
      match dict_get entries key with
      | Some (JDict payload) =>
          if is_found (dict_get_default payload (u "value") JNull)
          then Some (JDict payload) else None
      | _ => None
      end
  | _ => None
  end.

(** A parsed reply is a proper Python value: an object has distinct keys. *)
Definition update_wf (update : json) : Prop :=
  match update with
  | JDict entries => dict_wf entries
  | _ => True
  end.

(** No two replies report different records as found for the same key. *)
Definition findings_agree (updates : list json) : Prop :=
  forall r1 r2 key v1 v2,
    In r1 updates -> In r2 updates ->
    finding r1 key = Some v1 -> finding r2 key = Some v2 -> v1 = v2.

(** The running result of pass 1 when the replies arrive in the given
    order. *)
Definition merge_all (updates : list json) (base : dict) : dict :=
  fold_left merge_extractions updates base.

(** The characters the snippets of some pages add to [total]. *)
Definition snippets_length (pages : list page) : Z :=
  fold_right (fun p acc => (Z.of_nat (length (snippet p)) + acc)%Z) 0%Z pages.

(** The page numbers [first], [first + 1], ... ([n] of them). *)
Fixpoint page_numbers (first : Z) (n : nat) : list Z :=
  match n with
  | O => []
  | S n => first :: page_numbers (first + 1) n
  end.

(** How many pages of a PDF of [n] pages are loaded under [max_pages]: all of
    them when [max_pages] is 0, which switches the limit off. *)
Definition loaded_count (n : nat) (max_pages : Z) : nat :=
  if (max_pages =? 0)%Z then n else Nat.min n (Z.to_nat max_pages).

(** A page whose snippet takes exactly 32000 characters. *)
Definition big_page : page := (1%Z, repeat 97%N (Z.to_nat 31990)).

(** [t] occurs in [s] as a contiguous block. *)
Definition occurs_in (t s : str) : Prop := exists pre post, s = pre ++ t ++ post.

(** The test of the relevance filter on one page. *)
Definition page_is_relevant (tokens : list str) (p : page) : bool :=
  existsb (fun t => contains (lower (snd p)) t) tokens.

(** The two pages and the missing field of the relevance scenario. *)
Definition residence_page : page := (1%Z, u "Cette r" ++ [233%N] ++ u "sidence...").
Definition construction_page : page := (2%Z, u "Date de construction: 1985").
Definition construction_field : field_spec :=
  (u "batiment.date_construction", u "Date de construction", JStr (u "string")).

(** [p0 ++ sep1 ++ p1 ++ ... ++ sepn ++ pn]: the text that splits into the
    given pieces around the given separators. *)
Fixpoint weave (pieces seps : list str) : str :=
  match pieces, seps with
  | p :: ps, sp :: sps => p ++ sp ++ weave ps sps
  | p :: _, [] => p
  | [], _ => []
  end.

(** A run of separators: not empty, and no character of the class. *)
Definition sep_run (sp : str) : Prop :=
  sp <> [] /\ forallb (fun c => negb (is_alnum c)) sp = true.

(** *** A small world for the concrete runs

    No credential is set; the [carnet] template declares two fields; every
    document is a PDF of two pages, the second of which has no text and
    cannot be rendered; the services answer every request. *)

Definition sample_template : str :=
  u "{" ++ dq ++ u "meta" ++ dq ++ u ": {}, " ++ dq ++ u "batiment" ++ dq
  ++ u ": {" ++ dq ++ u "date_construction" ++ dq ++ u ": {" ++ dq
  ++ u "expected_type" ++ dq ++ u ": " ++ dq ++ u "string" ++ dq ++ u "}, "
  ++ dq ++ u "syndic" ++ dq ++ u ": {" ++ dq ++ u "expected_type" ++ dq
  ++ u ": " ++ dq ++ u "string" ++ dq ++ u "}}}".

Definition sample_pdf : list pdf_page :=
  [ {| extract_text := Some (u "Date de construction: 1985");
       page_png := inr (u "png-1") |};
    {| extract_text := None; page_png := inl RenderError |} ].

Definition sample_world : world :=
  {| getenv := fun _ => None;
     src_dir := u "/app/src";
     read_text := fun path =>
       if str_eqb path (u "/app/src/empty_json_template/carnet_entretien_empty.json")
       then Some sample_template else None;
     pdf_open := fun _ => inr sample_pdf;
     read_bytes := fun _ => inl ReadError;
     sha256_hex := fun bytes => bytes;
     cache_dir_files := [];
     cache_writable := true;
     ocr_http := fun _ _ _ => inr (u "texte lu");
     llm_http := fun _ _ _ => inr (u "{}");
     models_list := inr [];
     as_completed := fun futures => futures;
     request_turns := [] |}.

Definition sample_callback : str -> M str := fun _ => ret (u "texte lu").

(** The same world with both credentials set, a model that wraps its JSON
    in prose and finds one of the two fields, and futures completed in the
    reverse of the order of their submission. *)
Definition sample_reply : str :=
  u "Voici : {" ++ dq ++ u "batiment.date_construction" ++ dq ++ u ": {" ++ dq
  ++ u "value" ++ dq ++ u ": " ++ dq ++ u "1985" ++ dq ++ u ", " ++ dq
  ++ u "page" ++ dq ++ u ": 1, " ++ dq ++ u "excerpt" ++ dq ++ u ": " ++ dq
  ++ u "Date de construction: 1985" ++ dq ++ u "}, " ++ dq
  ++ u "batiment.syndic" ++ dq ++ u ": {" ++ dq ++ u "value" ++ dq ++ u ": "
  ++ dq ++ u "not found" ++ dq ++ u ", " ++ dq ++ u "page" ++ dq
  ++ u ": null}}".

Definition keyed_world : world :=
  {| getenv := fun name =>
       if str_eqb name (u "GEMINI_API_KEY") || str_eqb name (u "MISTRAL_API_KEY")
       then Some (u "secret") else None;
     src_dir := src_dir sample_world;
     read_text := read_text sample_world;
     pdf_open := pdf_open sample_world;
     read_bytes := read_bytes sample_world;
     sha256_hex := sha256_hex sample_world;
     cache_dir_files := [];
     cache_writable := true;
     ocr_http := fun _ _ _ => inr (u "texte lu");
     llm_http := fun _ _ _ => inr sample_reply;
     models_list := inr [(u "models/gemini-flash", [u "generateContent"]);
                         (u "models/gemini-pro", [u "generateContent"])];
     as_completed := fun futures => rev futures;
     request_turns := [] |}.

(** The template of the sample world once filled from [sample_reply]. *)
Definition sample_filled : dict :=
  let record (value page excerpt : json) :=
    [(u "value", value);
     (u "source", JDict [(u "page", page); (u "excerpt", excerpt)])] in
  [(u "meta",
    JDict [(u "file_type", JDict (record (JStr (u "pdf")) JNull (JStr [])));
           (u "file_name",
            JDict (record (JStr (u "carnet.pdf")) JNull (JStr [])))]);
   (u "batiment",
    JDict [(u "date_construction",
            JDict ((u "expected_type", JStr (u "string"))
                   :: record (JStr (u "1985")) (JInt 1)
                             (JStr (u "Date de construction: 1985"))));
           (u "syndic",
            JDict ((u "expected_type", JStr (u "string"))
                   :: record (JStr (u "not found")) JNull JNull))])].

Definition sample_output_path : str :=
  u "/app/src/empty_json_template/carnet_entretien_empty_fill.json".

Definition sample_mistral_args : mistral_args :=
  {| m_doc_type := u "carnet"; m_document := u "docs/carnet.pdf";
     m_output := None; m_model := u "mistral-large-latest";
     m_ocr_model := u "pixtral-large-latest"; m_max_pages := 12;
     m_ocr_all := false |}.

Definition sample_gemini_args : gemini_args :=
  {| g_doc_type := u "carnet"; g_document := u "docs/carnet.pdf";
     g_output := None; g_model := []; g_vision_model := [];
     g_max_pages := 12; g_ocr_all := false; g_ocr_cache_dir := u ".ocr_cache";
     g_chunk_pages := 8; g_parallel_api := 2; g_second_pass := true |}.

(** What the fuel lemma says of one outcome of the reader on a text of
    length [n]: the reader did not run out of fuel, and what it left unread
    is shorter than what it was given. *)
Definition scan_progress (n : nat) (r : Reader.scanned) : Prop :=
  match r with
  | Reader.Value _ rest => (length rest < n)%nat
  | Reader.Invalid => True
  | Reader.Exhausted => False
  end.

(** The raw reply of the parsing scenario. *)
Definition wrapped_reply : str :=
  u "Sure! {" ++ dq ++ u "a" ++ dq ++ u ":{" ++ dq ++ u "value" ++ dq
  ++ u ":1}} thanks".

Definition open_brace : str := [123%N].
Definition close_brace : str := [125%N].

(** *** Well-formed templates

    A template is a JSON object read from a file.  It is well formed when,
    in the object and in every nested object that is not itself a field,
    the keys are pairwise distinct (as in any Python dict), not empty and
    without a dot (so that a dot-path names one place), and when its [meta]
    entry, if it has one, is an object. *)

Definition key_ok (k : str) : bool := truthy k && negb (existsb (N.eqb 46) k).

Fixpoint keys_distinct (ks : list str) : bool :=
  match ks with
  | [] => true
  | k :: rest => negb (existsb (str_eqb k) rest) && keys_distinct rest
  end.

(** [isinstance(v, dict) and "expected_type" in v] *)
Definition is_field (v : json) : bool :=
  match v with
  | JDict d => dict_has d (u "expected_type")
  | _ => false
  end.

Fixpoint well_formed (v : json) : bool :=
  match v with
  | JDict obj =>
      keys_distinct (map fst obj) && forallb key_ok (map fst obj)
      && (fix all (l : list (str * json)) : bool :=
            match l with
            | [] => true
            | (_, v') :: rest =>
                (if is_field v' then true else well_formed v') && all rest
            end) obj
  | _ => true
  end.

Definition meta_ok (template_obj : dict) : bool :=
  match dict_get template_obj (u "meta") with
  | Some (JDict _) => true
  | Some _ => false
  | None => true
  end.

Definition template_wf (template_obj : dict) : Prop :=
  well_formed (JDict template_obj) = true /\ meta_ok template_obj = true.

(** The fields of an object as lists of keys, with their expected types:
    what [collect_fields] finds before it drops the [meta.] paths. *)
Fixpoint field_keys_at (v : json) : list (list str * json) :=
  match v with
  | JDict obj =>
      (fix items (l : list (str * json)) : list (list str * json) :=
         match l with
         | [] => []
         | (k, v') :: rest =>
             (if is_field v' then
                [([k], match v' with
                       | JDict d => dict_get_default d (u "expected_type") (JStr [])
                       | _ => JNull
                       end)]
              else map (fun f => (k :: fst f, snd f)) (field_keys_at v'))
             ++ items rest
         end) obj
  | _ => []
  end.

(** Two key paths part ways: after a common start, they go on with
    different keys. *)
Definition diverge (p q : list str) : Prop :=
  exists c a b p' q', p = c ++ a :: p' /\ q = c ++ b :: q' /\ a <> b.

(** The place [keys] of [root] holds a record with this value, page and
    excerpt. *)
Definition record_at (root : dict) (keys : list str) (value page excerpt : json)
  : Prop :=
  exists leaf src,
    get_parts root keys = Some (JDict leaf)
    /\ dict_get leaf (u "value") = Some value
    /\ dict_get leaf (u "source") = Some (JDict src)
    /\ dict_get src (u "page") = Some page
    /\ dict_get src (u "excerpt") = Some excerpt.

(** The place [keys] of [root] holds a dict. *)
Definition dict_at (root : dict) (keys : list str) : Prop :=
  exists leaf, get_parts root keys = Some (JDict leaf).

(** The template of the fill scenarios and a reply whose entry for the
    field is not an object. *)
Definition small_template : dict :=
  [(u "a", JDict [(u "b", JDict [(u "expected_type", JStr (u "string"))])])].

Definition odd_reply : json := JDict [(u "a.b", JStr (u "oops"))].

(** The key path of a field: [path.split(".")]. *)
Definition keys_of (spec : field_spec) : list str := split_char 46 (fst (fst spec)).

(** What the fill loop writes for a path. *)
Definition written_value (llm_result : dict) (path : str) : json :=
  payload_value (payload_of llm_result path).
Definition written_page (llm_result : dict) (path : str) : json :=
  payload_page (payload_of llm_result path).
Definition written_excerpt (llm_result : dict) (path : str) : json :=
  payload_excerpt (payload_of llm_result path).

(** A field of [obj]: its key path starts at a key of [obj], keeps to
    proper keys, and leads to a dict. *)
Definition field_place (obj : dict) (f : list str * json) : Prop :=
  exists k ks,
    fst f = k :: ks /\ In k (map fst obj)
    /\ Forall (fun k => key_ok k = true) (fst f)
    /\ dict_at obj (fst f).

Definition fields_in_place (v : json) : Prop :=
  match v with
  | JDict obj =>
      Forall (field_place obj) (field_keys_at v)
      /\ ForallOrdPairs diverge (map fst (field_keys_at v))
  | _ => True
  end.

(** The dot-path of a key path below the keys [pk], the field specification
    [collect_fields] builds for it, and the test that keeps it. *)
Definition dot_path (pk ks : list str) : str := join [46%N] (pk ++ ks).

Definition spec_of (pk : list str) (f : list str * json) : field_spec :=
  (dot_path pk (fst f), dot_path pk (fst f), snd f).

Definition outside_meta (pk : list str) (f : list str * json) : bool :=
  negb (startswith (dot_path pk (fst f)) (u "meta.")).

(** An event that is neither a request to a service nor a write of the
    output. *)
Definition quiet (e : event) : Prop :=
  match e with
  | OcrRequest _ _ | LlmRequest _ _ | WriteOutput _ _ => False
  | _ => True
  end.

(** An event of page loading. *)
Definition page_event (e : event) : Prop :=
  match e with
  | OpenDocument _ | ReadPage _ => True
  | _ => False
  end.

(* --------------------------------------------------------------------- *)
(** ** The JSON writer: [json.dumps(obj, ensure_ascii=False, indent=2)]    *)
(* --------------------------------------------------------------------- *)

(** The standard writer, as both drivers call it on the filled template:
    strings escaped as [encode_basestring] does (nothing above U+001F is
    escaped), items separated by a comma and keys by a colon and a space,
    every item of a non-empty array or object on a line of its own, two
    spaces deeper than its parent.  A float is written as the numeral it was
    read from, which stands for the digits Python prints.  An integer is
    printed whatever its length: above [MAX_STR_DIGITS] digits [json.dumps]
    raises a [ValueError], which [value_within_limits] rules out. *)
Module Writer.

(** [ESCAPE_DCT]: what one character of a string becomes. *)
Definition escape_char (c : N) : str :=
  (if c =? 34 then [92; 34]
   else if c =? 92 then [92; 92]
   else if c =? 10 then [92; 110]
   else if c =? 13 then [92; 114]
   else if c =? 9 then [92; 116]
   else if c =? 8 then [92; 98]
   else if c =? 12 then [92; 102]
   else if c <? 32 then [92; 117; 48; 48; hex_digit (c / 16); hex_digit (c mod 16)]
   else [c])%N.

Definition encode_basestring (s : str) : str :=
  dq ++ flat_map escape_char s ++ dq.

(** ['\n' + _indent * _current_indent_level] *)
Definition newline_indent (level : nat) : str := nl ++ repeat 32%N (2 * level).

(** [_iterencode], with [_iterencode_list] and [_iterencode_dict] as its
    two structured cases; [level] is [_current_indent_level]. *)
Fixpoint iterencode (v : json) (level : nat) {struct v} : str :=
  match v with
  | JNull => u "null"
  | JBool true => u "true"
  | JBool false => u "false"
  | JInt n => str_of_Z n
  | JFloat numeral => numeral
  | JStr s => encode_basestring s
  | JList [] => u "[]"
  | JList items =>
      u "[" ++ newline_indent (S level)
      ++ join (u "," ++ newline_indent (S level))
              (map (fun item => iterencode item (S level)) items)
      ++ newline_indent level ++ u "]"
  | JDict [] => u "{}"
  | JDict entries =>
      u "{" ++ newline_indent (S level)
      ++ join (u "," ++ newline_indent (S level))
              (map (fun kv => encode_basestring (fst kv) ++ u ": "
                              ++ iterencode (snd kv) (S level))
                   entries)
      ++ newline_indent level ++ u "}"
  end.

Definition dumps (v : json) : str := iterencode v 0.

End Writer.

(* --------------------------------------------------------------------- *)
(** ** [src/json_to_excel_style.py]                                        *)
(* --------------------------------------------------------------------- *)

(** The converter reads a filled template back and lays its fields out as
    the four rows of a sheet.  The sheet itself (pandas, openpyxl) is not
    part of this development: [build_matrix] returns the four rows. *)
Module Excel.

(** [s.replace("_", " ")] *)
Definition underscores_to_spaces (s : str) : str :=
  map (fun c => if (c =? 95)%N then 32%N else c) s.

(** [path.split(".")[-1].replace("_", " ")] *)
Definition label_of (path : str) : str :=
  underscores_to_spaces (last (split_char 46 path) []).

(** The converter's own [collect_fields]: a field is an object with a
    [value] key, and it comes with its label. *)
Fixpoint collect_fields_at (v : json) (prefix : str) {struct v}
  : list (str * str) :=
  match v with
  | JDict obj =>
      (fix items (l : list (str * json)) : list (str * str) :=
         match l with
         | [] => []
         | (k, v) :: rest =>
             let path := match prefix with
                         | [] => k
                         | _ :: _ => prefix ++ u "." ++ k
                         end in
             (if startswith path (u "meta.") then []
              else match v with
                   | JDict d =>
                       if dict_has d (u "value")
                       then [(path, label_of path)]
                       else collect_fields_at v path
                   | _ => []
                   end) ++ items rest
         end) obj
  | _ => []
  end.

(** [collect_fields(obj)], as [build_matrix] calls it on what it has read:
    [None] is the [AttributeError] of [obj.items()] on a value that is not
    an object. *)
Definition collect_fields (obj : json) : option (list (str * str)) :=
  match obj with
  | JDict _ => Some (collect_fields_at obj [])
  | _ => None
  end.

(** The loop of [extract_field]: [None] when the walk leaves the objects or
    meets a missing key. *)
Fixpoint walk (cursor : json) (parts : list str) : option json :=
  match parts with
  | [] => Some cursor
  | part :: rest =>
      match cursor with
      | JDict d =>
          match dict_get d part with
          | Some v => walk v rest
          | None => None
          end
      | _ => None
      end
  end.

(** [extract_field(obj, path)]; Python's [None] is [JNull]. *)
Definition extract_field (obj : json) (path : str) : json * json * json :=
  match walk obj (split_char 46 path) with
  | None => (JNull, JNull, JNull)
  | Some (JDict cursor) =>
      let value := dict_get_default cursor (u "value") JNull in
      let source := match dict_get cursor (u "source") with
                    | Some (JDict s) => s
                    | _ => []
                    end in
      (value, dict_get_default source (u "page") JNull,
       dict_get_default source (u "excerpt") JNull)
  | Some cursor => (cursor, JNull, JNull)
  end.

Fixpoint normalize_value (val : json) : str :=
  match val with
  | JNull => []
  | JBool true => u "Oui"
  | JBool false => u "Non"
  | JList items => join (u ", ") (map normalize_value items)
  | JDict entries =>
      join (u ", ")
           (map (fun kv => fst kv ++ u ": " ++ py_str (snd kv)) entries)
  | _ => py_str val
  end.

(** ["" if x is None else x] *)
Definition blank_if_none (x : json) : json :=
  match x with
  | JNull => JStr []
  | _ => x
  end.

(** One turn of the loop of [build_matrix]: what it appends to [labels],
    [values], [pages] and [excerpts]. *)
Definition column (obj : json) (field : str * str) : json * json * json * json :=
  let '(val, page, excerpt) := extract_field obj (fst field) in
  (JStr (snd field), JStr (normalize_value val), blank_if_none page,
   blank_if_none excerpt).

(** [build_matrix(obj)]: the rows [labels], [values], [pages] and
    [excerpts] of the data frame. *)
Definition build_matrix (obj : json) : option (list (list json)) :=
  match collect_fields obj with
  | None => None
  | Some fields =>
      let columns := map (column obj) fields in
      Some [ map (fun c => fst (fst (fst c))) columns;
             map (fun c => snd (fst (fst c))) columns;
             map (fun c => snd (fst c)) columns;
             map (fun c => snd c) columns ]
  end.

End Excel.

(* --------------------------------------------------------------------- *)
(** ** [src/api_web.py]                                                    *)
(* --------------------------------------------------------------------- *)

(** The endpoint [POST /extract].  The upload is saved to a temporary file
    before anything else, and that file is removed when the call ends,
    whatever its outcome.  The file is [tmp_stem ++ suffix], where
    [tmp_stem] is the directory and the random name that the system chose,
    and the world answers for it as for any document.  The call returns a
    [JSONResponse], or the dictionary that the framework sends as the body
    of its answer, or it raises. *)
Module Web.

(** The fields of the form, with [filename] for [file.filename]. *)
Record form : Type := {
  filename : str;
  doc_type : str;
  template_path : str;
  model : str;
  ocr_model : str;
  max_pages : Z;
  ocr_all : bool
}.

Inductive returned : Type :=
| JSONResponse (status_code : Z) (content : json)
| Body (content : json).

(** The two [set_path] calls on the [meta] paths, from the suffix and the
    name of the upload. *)
Definition set_meta (template_obj : dict) (suffix name : str) : option dict :=
  match set_path template_obj (u "meta.file_type")
                 (JStr (lstrip_dots suffix)) JNull (JStr []) with
  | Some t => set_path t (u "meta.file_name") (JStr name) JNull (JStr [])
  | None => None
  end.

Definition fill (llm_result : json) (template_obj : dict) (suffix name : str)
           (field_specs : list field_spec) : option dict :=
  match set_meta template_obj suffix name with
  | Some t => fill_fields llm_result t field_specs
  | None => None
  end.

Definition TEMPLATE_NOT_FOUND : returned :=
  JSONResponse 400 (JDict [(u "error", JStr (u "template not found"))]).

Definition extract (w : world) (tmp_stem : str) (f : form) : M returned :=
  let suffix := str_or (path_suffix (filename f)) (u ".bin") in
  let doc_path := tmp_stem ++ suffix in
  let selected_template :=
    str_or (template_path f) (template_path_of w (doc_type f)) in
  match read_text w selected_template with
  | None => ret TEMPLATE_NOT_FOUND
  | Some template =>
      template_obj <- match Reader.loads template with
                      | Some v => ret v
                      | None => raise JSONDecodeError
                      end ;;
      pages <- mistral_load_pages w doc_path (max_pages f) (ocr_model f)
                 (ocr_all f) ;;
      let doc_text := flatten_pages pages in
      match template_obj with
      | JDict template_obj =>
          let field_specs := collect_fields template_obj [] in
          let (system, user) := build_prompt_content doc_text field_specs in
          llm_result <- call_mistral w [system; user] (model f) ;;
          template_obj <- or_attribute_error
                            (fill llm_result template_obj suffix
                                  (path_name (filename f)) field_specs) ;;
          ret (Body (JDict [(u "result", JDict template_obj)]))
      | _ => raise AttributeError
      end
  end.

End Web.

(* --------------------------------------------------------------------- *)
(** ** Further notions used by the statements                              *)
(* --------------------------------------------------------------------- *)

(** The keys of every object of a value are pairwise distinct, as in any
    value Python holds. *)
Fixpoint keys_proper (v : json) : bool :=
  match v with
  | JList items => forallb keys_proper items
  | JDict entries =>
      keys_distinct (map fst entries)
      && forallb (fun kv => keys_proper (snd kv)) entries
  | _ => true
  end.

(** No float anywhere in a value. *)
Fixpoint float_free (v : json) : bool :=
  match v with
  | JFloat _ => false
  | JList items => forallb float_free items
  | JDict entries => forallb (fun kv => float_free (snd kv)) entries
  | _ => true
  end.

(** A value within the limits of the interpreter: every integer prints in
    at most [MAX_STR_DIGITS] digits, and arrays and objects nest at most
    [MAX_NESTING] deep.  Neither [json.dumps] on the value nor [json.loads]
    on its text then raises a [ValueError] or a [RecursionError]. *)
Fixpoint ints_within_limits (v : json) : bool :=
  match v with
  | JInt n => (length (str_of_Z (Z.abs n)) <=? MAX_STR_DIGITS)%nat
  | JList items => forallb ints_within_limits items
  | JDict entries => forallb (fun kv => ints_within_limits (snd kv)) entries
  | _ => true
  end.

Fixpoint nesting_depth (v : json) : nat :=
  match v with
  | JList items => S (list_max (map nesting_depth items))
  | JDict entries => S (list_max (map (fun kv => nesting_depth (snd kv)) entries))
  | _ => 0
  end.

Definition value_within_limits (v : json) : bool :=
  ints_within_limits v && (nesting_depth v <=? MAX_NESTING)%nat.

(** A value that [py_str] and [normalize_value] print as Python does: it
    holds no float, for which the numeral stands, and it is within the
    limits of the interpreter. *)
Definition printed_exactly (v : json) : bool :=
  float_free v && value_within_limits v.

(** [m] is a model that supports [generateContent], and one whose name
    holds [pro], or [flash]. *)
Definition supports_generate (m : str * list str) : bool :=
  existsb (str_eqb (u "generateContent")) (snd m).

Definition is_pro (m : str * list str) : bool :=
  supports_generate m && contains (fst m) (u "pro").

Definition is_flash (m : str * list str) : bool :=
  supports_generate m && contains (fst m) (u "flash").

(** [(page.extract_text() or "").strip()] *)
Definition native_text (pg : pdf_page) : str :=
  strip (match extract_text pg with
         | Some t => t
         | None => []
         end).

(** An entry of a result that holds a record whose value is found. *)
Definition found_record (kv : str * json) : Prop :=
  exists payload,
    snd kv = JDict payload
    /\ is_found (dict_get_default payload (u "value") JNull) = true.

(** A PDF of one page with 80 characters of text, which cannot be rendered,
    and the sample world with it for every document. *)
Definition long_page_pdf : list pdf_page :=
  [ {| extract_text := Some (repeat 97%N 80); page_png := inl RenderError |} ].

Definition long_page_world : world :=
  {| getenv := getenv sample_world;
     src_dir := src_dir sample_world;
     read_text := read_text sample_world;
     pdf_open := fun _ => inr long_page_pdf;
     read_bytes := read_bytes sample_world;
     sha256_hex := sha256_hex sample_world;
     cache_dir_files := [];
     cache_writable := true;
     ocr_http := ocr_http sample_world;
     llm_http := llm_http sample_world;
     models_list := models_list sample_world;
     as_completed := as_completed sample_world;
     request_turns := request_turns sample_world |}.

(** The requests of pass 1 for some chunks, in their order. *)
Definition chunk_requests (tm : str) (specs : list field_spec)
           (chunks : list (list page)) : list event :=
  map (fun chunk => LlmRequest tm [gemini_prompt chunk specs]) chunks.

(** What the call for a chunk gives when the service answers without regard
    to what came before. *)
Definition chunk_reply (w : world) (tm : str) (specs : list field_spec)
           (chunk : list page) : exn + json :=
  match llm_http w [] tm [gemini_prompt chunk specs] with
  | inl e => inl e
  | inr text => inr (parse_json_content text)
  end.

(** The key world, in which the thread of the second call is the first to
    reach the service. *)
Definition late_first_world : world :=
  {| getenv := getenv keyed_world;
     src_dir := src_dir keyed_world;
     read_text := read_text keyed_world;
     pdf_open := pdf_open keyed_world;
     read_bytes := read_bytes keyed_world;
     sha256_hex := sha256_hex keyed_world;
     cache_dir_files := [];
     cache_writable := true;
     ocr_http := ocr_http keyed_world;
     llm_http := llm_http keyed_world;
     models_list := models_list keyed_world;
     as_completed := as_completed keyed_world;
     request_turns := [1%nat] |}.

(** What [future.result()] gives is a proper value. *)
Definition future_wf (f : exn + json) : Prop :=
  match f with
  | inr v => update_wf v
  | inl _ => True
  end.

(** The pages loaded from the sample document, and two sets of arguments
    that differ in [--parallel-api] only, with one page per chunk. *)
Definition sample_pages : list page :=
  [(1%Z, u "Date de construction: 1985" ++ nl ++ u "texte lu"); (2%Z, [])].

Definition parallel_args : gemini_args :=
  {| g_doc_type := u "carnet"; g_document := u "docs/carnet.pdf";
     g_output := None; g_model := []; g_vision_model := [];
     g_max_pages := 12; g_ocr_all := false; g_ocr_cache_dir := u ".ocr_cache";
     g_chunk_pages := 1; g_parallel_api := 2; g_second_pass := true |}.

Definition sequential_args : gemini_args :=
  {| g_doc_type := u "carnet"; g_document := u "docs/carnet.pdf";
     g_output := None; g_model := []; g_vision_model := [];
     g_max_pages := 12; g_ocr_all := false; g_ocr_cache_dir := u ".ocr_cache";
     g_chunk_pages := 1; g_parallel_api := 1; g_second_pass := true |}.

(** The keys of [DOC_TEMPLATES]. *)
Definition known_doc_types : list str :=
  [u "carnet"; u "reglement"; u "dta"; u "crep"; u "ct"; u "occupants";
   u "devis"].

(** The arguments of a run with another [doc_type]. *)
Definition mistral_with_doc_type (args : mistral_args) (doc_type : str)
  : mistral_args :=
  {| m_doc_type := doc_type; m_document := m_document args;
     m_output := m_output args; m_model := m_model args;
     m_ocr_model := m_ocr_model args; m_max_pages := m_max_pages args;
     m_ocr_all := m_ocr_all args |}.

Definition gemini_with_doc_type (args : gemini_args) (doc_type : str)
  : gemini_args :=
  {| g_doc_type := doc_type; g_document := g_document args;
     g_output := g_output args; g_model := g_model args;
     g_vision_model := g_vision_model args; g_max_pages := g_max_pages args;
     g_ocr_all := g_ocr_all args; g_ocr_cache_dir := g_ocr_cache_dir args;
     g_chunk_pages := g_chunk_pages args; g_parallel_api := g_parallel_api args;
     g_second_pass := g_second_pass args |}.

(** The world with both credentials set, in which the model answers with a
    JSON array and no model is listed. *)
Definition array_reply_world : world :=
  {| getenv := getenv keyed_world;
     src_dir := src_dir keyed_world;
     read_text := read_text keyed_world;
     pdf_open := pdf_open keyed_world;
     read_bytes := read_bytes keyed_world;
     sha256_hex := sha256_hex keyed_world;
     cache_dir_files := [];
     cache_writable := true;
     ocr_http := ocr_http keyed_world;
     llm_http := fun _ _ _ => inr (u "[1]");
     models_list := inr [(u "models/embedding", [u "embedContent"])];
     as_completed := as_completed keyed_world;
     request_turns := request_turns keyed_world |}.

(** The template of the sample world, once read. *)
Definition sample_template_obj : dict :=
  [(u "meta", JDict []);
   (u "batiment",
    JDict [(u "date_construction", JDict [(u "expected_type", JStr (u "string"))]);
           (u "syndic", JDict [(u "expected_type", JStr (u "string"))])])].

(** An event that page loading, the requests and the output have no part
    in. *)
Definition startup_event (e : event) : Prop :=
  match e with
  | ListModels | Stdout _ => True
  | _ => False
  end.

Definition NO_MODEL_MESSAGE : str :=
  u "No compatible Gemini model found for generateContent".

(** What may follow a number in a text: not a character that would go on
    with the numeral. *)
Definition ends_number (rest : str) : bool :=
  match rest with
  | [] => true
  | c :: _ =>
      negb (Reader.is_digit c || (c =? 46) || (c =? 101) || (c =? 69))%N
  end.

(** A bound on the fuel the reader needs for the text of a value. *)
Fixpoint nodes (v : json) : nat :=
  match v with
  | JList items => S (fold_right (fun item n => S (nodes item + n)) 0%nat items)
  | JDict entries =>
      S (fold_right (fun kv n => S (nodes (snd kv) + n)) 0%nat entries)
  | _ => 1%nat
  end.

(** The first character of the text of a value: none that the reader skips
    or takes for the end of an array or of an object, and not the byte order
    mark. *)
Definition starts_a_value (c : N) : bool :=
  (negb (Reader.is_ws c) && negb (c =? 93) && negb (c =? 125)
   && negb (c =? 44) && negb (c =? 65279))%N.

(** The text that follows an item of an array, and an entry of an object,
    in what the writer produces: the items or entries still to come, each
    after a comma and on a line of its own, then the closing bracket on its
    line, then [rest]. *)
Fixpoint array_tail (level : nat) (more : list json) (rest : str) : str :=
  match more with
  | [] => Writer.newline_indent level ++ u "]" ++ rest
  | item :: more' =>
      u "," ++ Writer.newline_indent (S level)
      ++ Writer.iterencode item (S level) ++ array_tail level more' rest
  end.

Fixpoint object_tail (level : nat) (more : list (str * json)) (rest : str)
  : str :=
  match more with
  | [] => Writer.newline_indent level ++ u "}" ++ rest
  | kv :: more' =>
      u "," ++ Writer.newline_indent (S level)
      ++ Writer.encode_basestring (fst kv) ++ u ": "
      ++ Writer.iterencode (snd kv) (S level) ++ object_tail level more' rest
  end.

(** What the round trip says of one value. *)
Definition reads_back (v : json) : Prop :=
  keys_proper v = true -> float_free v = true ->
  forall level rest fuel,
    (nodes v <= fuel)%nat -> ends_number rest = true ->
    Reader.scan_once fuel (Writer.iterencode v level ++ rest)
    = Reader.Value v rest.

(** *** The filled template, as the converter finds it *)

(** No object of the template that the drivers take for a group of fields
    (an object with no [expected_type]) has a key named [value], which is
    what the converter takes for the mark of a field. *)
Fixpoint plain_groups (v : json) : bool :=
  match v with
  | JDict obj =>
      (fix all (l : list (str * json)) : bool :=
         match l with
         | [] => true
         | (_, v') :: rest =>
             match v' with
             | JDict d =>
                 is_field v' || (negb (dict_has d (u "value")) && plain_groups v')
             | _ => true
             end && all rest
         end) obj
  | _ => true
  end.

(** The keys [pk] lead below the [meta] entry of the root. *)
Definition below_meta (pk : list str) : bool :=
  match pk with
  | k :: _ => str_eqb k (u "meta")
  | [] => false
  end.

(** [v'] has kept the shape of [v], an object of the template found at the
    keys [pk]: outside [meta] it has the same keys in the same order, where
    [v] has a field it has an object, where [v] has a group of fields it has
    an object with no [value] key that has kept the shape of the group, and
    where [v] has anything else it has no object.  Nothing is asked of what
    lies below the [meta] entry of the root. *)
Fixpoint shape_kept (v : json) (pk : list str) (v' : json) {struct v} : Prop :=
  below_meta pk = true
  \/ match v, v' with
     | JDict obj, JDict obj' =>
         (fix entries (l l' : list (str * json)) {struct l} : Prop :=
            match l, l' with
            | [], [] => True
            | (k, x) :: rest, (k', x') :: rest' =>
                k' = k
                /\ (if is_field x then is_dict x' = true
                    else match x with
                         | JDict _ =>
                             match x' with
                             | JDict d' => dict_has d' (u "value") = false
                             | _ => False
                             end
                             /\ shape_kept x (pk ++ [k]) x'
                         | _ => is_dict x' = false
                         end)
                /\ entries rest rest'
            | _, _ => False
            end) obj obj'
     | JDict _, _ => False
     | _, _ => True
     end.

(** What [shape_kept] asks of the entry [x'] that stands for the entry [x]
    of the template at the key [k]. *)
Definition entry_kept (pk : list str) (k : str) (x x' : json) : Prop :=
  if is_field x then is_dict x' = true
  else match x with
       | JDict _ =>
           match x' with
           | JDict d' => dict_has d' (u "value") = false
           | _ => False
           end
           /\ shape_kept x (pk ++ [k]) x'
       | _ => is_dict x' = false
       end.

(** A template with a [meta] entry: the template itself when it has one,
    and else the template with the empty [meta] object that the first
    [set_path] of the fill step creates at its end. *)
Definition with_meta (template_obj : dict) : dict :=
  if dict_has template_obj (u "meta") then template_obj
  else template_obj ++ [(u "meta", JDict [])].

(** What the converter collects for a field of the template. *)
Definition excel_spec_of (pk : list str) (f : list str * json) : str * str :=
  (dot_path pk (fst f), Excel.label_of (dot_path pk (fst f))).


(** The outcome of a computation does not depend on the state it starts
    from: on what has been logged, nor on the files of the cache. *)
Definition stable {A} (c : M A) : Prop :=
  forall st1 st2, fst (c st1) = fst (c st2).

(** The services of the world answer a request in the same way whatever has
    happened before. *)
Definition memoryless (w : world) : Prop :=
  (forall h h' m png, ocr_http w h m png = ocr_http w h' m png)
  /\ (forall h h' m messages, llm_http w h m messages = llm_http w h' m messages).

(** The form of an upload that stands for a run of the Mistral driver: the
    document uploaded under its own name, no template of its own, and the
    options of the run. *)
Definition form_of (args : mistral_args) : Web.form :=
  {| Web.filename := path_name (m_document args);
     Web.doc_type := m_doc_type args;
     Web.template_path := [];
     Web.model := m_model args;
     Web.ocr_model := m_ocr_model args;
     Web.max_pages := m_max_pages args;
     Web.ocr_all := m_ocr_all args |}.

(** Two pages whose snippets fill the budget of [flatten_pages] exactly. *)
Definition two_full_pages : list page :=
  [(1%Z, repeat 97%N (Z.to_nat 15990)); (2%Z, repeat 97%N (Z.to_nat 15990))].

(** What the converter lists for a field specification: its path and the
    label made from the last key of the path. *)
Definition listed (spec : field_spec) : str * str :=
  (fst (fst spec), Excel.label_of (fst (fst spec))).

(** A reply with one record, for the first field of the sample template. *)
Definition one_record_reply : dict :=
  [(u "batiment.date_construction",
    JDict [(u "value", JStr (u "1985")); (u "page", JInt 1);
           (u "excerpt", JStr (u "Date de construction: 1985"))])].

(* ===================================================================== *)
(** * Part II. Properties                                                  *)
(* ===================================================================== *)

(* --------------------------------------------------------------------- *)
(** ** Strings and dictionaries                                            *)
(* --------------------------------------------------------------------- *)

Lemma str_eqb_eq (a b : str) : str_eqb a b = true <-> a = b.
Proof.
  revert b; induction a as [|x a IH]; intros [|y b]; simpl; split;
    try congruence; try reflexivity.
  - rewrite andb_true_iff, N.eqb_eq, IH. intros [-> ->]; reflexivity.
  - intros H; injection H as -> ->.
    rewrite N.eqb_refl. simpl. apply IH; reflexivity.
Qed.

Lemma str_eqb_refl (a : str) : str_eqb a a = true.
Proof. apply str_eqb_eq; reflexivity. Qed.

Lemma str_eqb_neq (a b : str) : str_eqb a b = false <-> a <> b.
Proof.
  split.
  - intros H E. apply str_eqb_eq in E. congruence.
  - intros H. destruct (str_eqb a b) eqn:E; [|reflexivity].
    apply str_eqb_eq in E. contradiction.
Qed.

Lemma str_eqb_sym (a b : str) : str_eqb a b = str_eqb b a.
Proof.
  destruct (str_eqb a b) eqn:E.
  - apply str_eqb_eq in E. subst. symmetry. apply str_eqb_refl.
  - apply str_eqb_neq in E. symmetry. apply str_eqb_neq. congruence.
Qed.

Lemma str_eq_dec (a b : str) : {a = b} + {a <> b}.
Proof.
  destruct (str_eqb a b) eqn:E.
  - left. apply str_eqb_eq; exact E.
  - right. apply str_eqb_neq; exact E.
Qed.

Ltac str_cases a b :=
  let E := fresh "E" in
  destruct (str_eqb a b) eqn:E;
  [apply str_eqb_eq in E | apply str_eqb_neq in E].

Lemma dict_get_set_same (d : dict) (k : str) (v : json) :
  dict_get (dict_set d k v) k = Some v.
Proof.
  induction d as [|[k' v'] d IH]; simpl.
  - rewrite str_eqb_refl. reflexivity.
  - destruct (str_eqb k k') eqn:E; simpl; rewrite E; [reflexivity | exact IH].
Qed.

Lemma dict_get_set_other (d : dict) (k k' : str) (v : json) :
  k <> k' -> dict_get (dict_set d k v) k' = dict_get d k'.
Proof.
  intros Hne. induction d as [|[k0 v0] d IH]; simpl.
  - apply str_eqb_neq in Hne. rewrite str_eqb_sym, Hne. reflexivity.
  - str_cases k k0; simpl.
    + subst k0. assert (str_eqb k' k = false) as ->
        by (apply str_eqb_neq; congruence). reflexivity.
    + destruct (str_eqb k' k0); [reflexivity | exact IH].
Qed.

Lemma dict_get_none_notin (d : dict) (k : str) :
  dict_get d k = None <-> ~ In k (map fst d).
Proof.
  induction d as [|[k0 v0] d IH]; simpl.
  - tauto.
  - str_cases k k0.
    + subst. split; [discriminate | intros H; exfalso; apply H; now left].
    + rewrite IH. split; [intros H [H1|H1]; congruence | tauto].
Qed.

Lemma dict_get_in (d : dict) (k : str) (v : json) :
  dict_get d k = Some v -> In (k, v) d.
Proof.
  induction d as [|[k0 v0] d IH]; simpl; [discriminate|].
  str_cases k k0.
  - intros H; injection H as ->. subst. now left.
  - intros H. right. apply IH, H.
Qed.

Lemma in_dict_get (d : dict) (k : str) (v : json) :
  dict_wf d -> In (k, v) d -> dict_get d k = Some v.
Proof.
  unfold dict_wf. induction d as [|[k0 v0] d IH]; simpl; [tauto|].
  intros Hnd [H|H].
  - injection H as -> ->. rewrite str_eqb_refl. reflexivity.
  - inversion Hnd as [|? ? Hnotin Hnd']; subst.
    str_cases k k0.
    + subst. exfalso. apply Hnotin. apply (in_map fst) in H. exact H.
    + apply IH; assumption.
Qed.

Lemma dict_set_keys (d : dict) (k : str) (v : json) :
  map fst (dict_set d k v) =
  if dict_has d k then map fst d else map fst d ++ [k].
Proof.
  unfold dict_has. induction d as [|[k0 v0] d IH]; simpl; [reflexivity|].
  str_cases k k0; simpl; [reflexivity|].
  rewrite IH. destruct (dict_get d k); reflexivity.
Qed.

Lemma dict_set_wf (d : dict) (k : str) (v : json) :
  dict_wf d -> dict_wf (dict_set d k v).
Proof.
  unfold dict_wf. rewrite dict_set_keys. unfold dict_has.
  destruct (dict_get d k) eqn:E; [tauto|].
  intros Hnd. apply dict_get_none_notin in E.
  apply NoDup_app; [exact Hnd | repeat constructor; simpl; tauto |].
  intros x Hx [<-|[]]. contradiction.
Qed.

(* --------------------------------------------------------------------- *)
(** ** [is_found]                                                          *)
(* --------------------------------------------------------------------- *)

Lemma not_in_blank_tuple_false (s : str) :
  not_in_blank_tuple s = false <-> s = [] \/ s = u "not found".
Proof.
  unfold not_in_blank_tuple. rewrite negb_false_iff, orb_true_iff.
  rewrite !str_eqb_eq. reflexivity.
Qed.

Lemma not_in_blank_tuple_true (s : str) :
  not_in_blank_tuple s = true <-> s <> [] /\ s <> u "not found".
Proof.
  unfold not_in_blank_tuple. rewrite negb_true_iff, orb_false_iff.
  rewrite !str_eqb_neq. reflexivity.
Qed.

(** C4.  [is_found] is false on [None]; on a string it is false exactly
    when the stripped, lowercased string is empty or is "not found"; on a
    list it is false exactly when the list is empty; on a dict it is true
    exactly when one of its values, through [str], [strip] and [lower], is
    neither empty nor "not found"; on a boolean or a number it is true.  The
    three instances of the specification follow. *)
Theorem is_found_case_analysis :
  is_found JNull = false
  /\ (forall s, is_found (JStr s) = false <->
                lower (strip s) = [] \/ lower (strip s) = u "not found")
  /\ (forall items, is_found (JList items) = false <-> items = [])
  /\ (forall entries,
         is_found (JDict entries) = true <->
         exists k v, In (k, v) entries
                     /\ lower (strip (py_str v)) <> []
                     /\ lower (strip (py_str v)) <> u "not found")
  /\ (forall b, is_found (JBool b) = true)
  /\ (forall n, is_found (JInt n) = true)
  /\ (forall x, is_found (JFloat x) = true)
  /\ is_found (JStr (u "  ")) = false
  /\ is_found (JStr (u "not found")) = false
  /\ is_found (JList []) = false
  /\ is_found (JList [JStr (u "x")]) = true
  /\ is_found (JDict [(u "email", JStr (u "not found"));
                      (u "telephone", JStr (u "555"))]) = true.
Proof.
  split; [reflexivity|].
  split; [intros s; simpl; apply not_in_blank_tuple_false|].
  split.
  { intros [|x items]; simpl; split; intros H; try reflexivity; discriminate. }
  split.
  { intros entries. simpl. rewrite existsb_exists. split.
    - intros [[k v] [Hin H]]. simpl in H.
      apply not_in_blank_tuple_true in H. exists k, v. tauto.
    - intros (k & v & Hin & H1 & H2). exists (k, v). split; [exact Hin|].
      simpl. apply not_in_blank_tuple_true. tauto. }
  repeat split; reflexivity.
Qed.

(* --------------------------------------------------------------------- *)
(** ** [merge_extractions]                                                 *)
(* --------------------------------------------------------------------- *)

Lemma merge_item_other (base : dict) (k key : str) (v : json) :
  k <> key -> dict_get (merge_item base (k, v)) key = dict_get base key.
Proof.
  intros Hne. unfold merge_item. destruct v; try reflexivity.
  destruct (is_found _); [apply dict_get_set_other; exact Hne | reflexivity].
Qed.

Lemma merge_items_absent (entries : dict) (base : dict) (key : str) :
  ~ In key (map fst entries) ->
  dict_get (fold_left merge_item entries base) key = dict_get base key.
Proof.
  revert base. induction entries as [|[k v] entries IH]; intros base Hnotin.
  - reflexivity.
  - simpl in *. rewrite IH by tauto. apply merge_item_other. tauto.
Qed.

Lemma merge_items_lookup (entries base : dict) (key : str) :
  dict_wf entries ->
  dict_get (fold_left merge_item entries base) key =
  match finding (JDict entries) key with
  | Some v => Some v
  | None => dict_get base key
  end.
Proof.
  unfold dict_wf, finding. revert base.
  induction entries as [|[k v] entries IH]; intros base Hnd.
  - reflexivity.
  - inversion Hnd as [|? ? Hnotin Hnd']; subst. simpl.
    str_cases key k.
    + subst k. rewrite merge_items_absent by exact Hnotin.
      unfold merge_item. destruct v; try reflexivity.
      destruct (is_found _); [apply dict_get_set_same | reflexivity].
    + rewrite IH by exact Hnd'.
      destruct (dict_get entries key) as [[]|]; try (apply merge_item_other; congruence).
      destruct (is_found _); [reflexivity | apply merge_item_other; congruence].
Qed.

Lemma merge_extractions_lookup (base : dict) (update : json) (key : str) :
  update_wf update ->
  dict_get (merge_extractions base update) key =
  match finding update key with
  | Some v => Some v
  | None => dict_get base key
  end.
Proof.
  destruct update; try reflexivity.
  intros Hwf. apply merge_items_lookup, Hwf.
Qed.

(** C2.  After [merge_extractions(base, update)], the entry of a key is the
    entry of [update] when that entry is a dict whose ["value"] is found,
    whatever [base] held for the key, and is the entry of [base], unchanged,
    in every other case: the key is absent from [update], its entry there is
    not a dict, or its value is not found.  An [update] that is not a dict
    leaves [base] as it is. *)
Theorem merge_extractions_copies_found_only
        (base entries : dict) (update : json) (key : str) :
  dict_wf entries ->
  dict_get (merge_extractions base (JDict entries)) key =
  match dict_get entries key with
  | Some (JDict payload) =>
      if is_found (dict_get_default payload (u "value") JNull)
      then Some (JDict payload)
      else dict_get base key
  | _ => dict_get base key
  end
  /\ (is_dict update = false -> merge_extractions base update = base).
Proof.
  intros Hwf. split.
  - rewrite merge_extractions_lookup by exact Hwf. unfold finding.
    destruct (dict_get entries key) as [[]|]; try reflexivity.
    destruct (is_found _); reflexivity.
  - destruct update; simpl; intros H; try reflexivity; discriminate.
Qed.

Lemma merge_extractions_copies_found_only_witness :
  let base := [(u "f1", JDict [(u "value", JStr (u "X"))])] in
  let entries := [(u "f1", JDict [(u "value", JStr (u "not found"))]);
                  (u "f2", JDict [(u "value", JInt 3)])] in
  dict_wf entries
  /\ dict_get (merge_extractions base (JDict entries)) (u "f1")
     = Some (JDict [(u "value", JStr (u "X"))]).
Proof.
  intros base entries.
  assert (Hwf : dict_wf entries).
  { unfold dict_wf. simpl. repeat constructor; simpl; intuition discriminate. }
  split; [exact Hwf|].
  exact (proj1 (merge_extractions_copies_found_only base entries JNull (u "f1") Hwf)).
Defined.

(** *** Order of the merges *)

Lemma merge_extractions_wf (base : dict) (update : json) :
  dict_wf base -> dict_wf (merge_extractions base update).
Proof.
  destruct update; simpl; try tauto.
  revert base. induction entries as [|[k v] entries IH]; intros base Hwf.
  - exact Hwf.
  - simpl. apply IH. unfold merge_item. destruct v; try exact Hwf.
    destruct (is_found _); [apply dict_set_wf|]; exact Hwf.
Qed.

(** The entry of a key after a run of merges is the record of one of the
    replies that found it, or the entry of the start when none found it. *)
Lemma merge_all_lookup (updates : list json) (base : dict) (key : str) :
  Forall update_wf updates ->
  (exists r v, In r updates /\ finding r key = Some v
               /\ dict_get (merge_all updates base) key = Some v)
  \/ ((forall r, In r updates -> finding r key = None)
      /\ dict_get (merge_all updates base) key = dict_get base key).
Proof.
  unfold merge_all. revert base.
  induction updates as [|r updates IH]; intros base Hwf.
  - right. split; [intros r []| reflexivity].
  - inversion Hwf as [|? ? Hr Hrest]; subst. simpl.
    destruct (IH (merge_extractions base r) Hrest)
      as [(r' & v & Hin & Hf & Hget) | [Hnone Hget]].
    + left. exists r', v. simpl. tauto.
    + rewrite merge_extractions_lookup in Hget by exact Hr.
      destruct (finding r key) as [v|] eqn:Hf.
      * left. exists r, v. simpl. tauto.
      * right. split; [|exact Hget].
        intros r' [<-|Hin]; [exact Hf | apply Hnone, Hin].
Qed.

(** C3, as the specification states it, fails: when two chunks both find
    the same field with different values, the later merge wins, so the two
    completion orders end with different records for the field. *)
Lemma merge_order_matters :
  let a := JDict [(u "f1", JDict [(u "value", JStr (u "X"))])] in
  let b := JDict [(u "f1", JDict [(u "value", JStr (u "Y"))])] in
  Permutation [a; b] [b; a]
  /\ dict_get (merge_all [a; b] []) (u "f1")
     = Some (JDict [(u "value", JStr (u "Y"))])
  /\ dict_get (merge_all [b; a] []) (u "f1")
     = Some (JDict [(u "value", JStr (u "X"))])
  /\ merge_all [a; b] [] <> merge_all [b; a] [].
Proof.
  intros a b. split; [apply perm_swap|].
  split; [reflexivity|]. split; [reflexivity|].
  vm_compute. discriminate.
Qed.

(** C3, amended.  When no two replies report different records as found for
    the same key, merging them in any order gives the same mapping: every
    key has the same entry after either run.  So it is for the two replies
    of the scenario, where only chunk A finds [f1]: both orders keep
    [f1: {value: "X"}]. *)
Theorem merge_order_irrelevant_when_findings_agree
        (base : dict) (updates updates' : list json) (key : str) :
  Permutation updates updates' ->
  Forall update_wf updates ->
  findings_agree updates ->
  dict_get (merge_all updates base) key = dict_get (merge_all updates' base) key
  /\ (let a := JDict [(u "f1", JDict [(u "value", JStr (u "X"))])] in
      let b := JDict [(u "f1", JDict [(u "value", JStr (u "not found"))])] in
      merge_all [a; b] [] = [(u "f1", JDict [(u "value", JStr (u "X"))])]
      /\ merge_all [b; a] [] = [(u "f1", JDict [(u "value", JStr (u "X"))])]).
Proof.
  intros Hperm Hwf Hagree. split; [|split; reflexivity].
  assert (Hwf' : Forall update_wf updates').
  { rewrite Forall_forall in *. intros r Hr. apply Hwf.
    apply Permutation_in with (l := updates'); [symmetry|]; assumption. }
  destruct (merge_all_lookup updates base key Hwf)
    as [(r1 & v1 & Hin1 & Hf1 & Hget1) | [Hnone1 Hget1]];
  destruct (merge_all_lookup updates' base key Hwf')
    as [(r2 & v2 & Hin2 & Hf2 & Hget2) | [Hnone2 Hget2]].
  - rewrite Hget1, Hget2. f_equal.
    apply (Hagree r1 r2 key); try assumption.
    apply Permutation_in with (l := updates'); [symmetry|]; assumption.
  - rewrite Hnone2 in Hf1; [discriminate|].
    apply Permutation_in with (l := updates); assumption.
  - rewrite Hnone1 in Hf2; [discriminate|].
    apply Permutation_in with (l := updates'); [symmetry|]; assumption.
  - congruence.
Qed.

Lemma merge_order_irrelevant_when_findings_agree_witness :
  let a := JDict [(u "f1", JDict [(u "value", JStr (u "X"))])] in
  let b := JDict [(u "f2", JDict [(u "value", JStr (u "Y"))])] in
  Permutation [a; b] [b; a]
  /\ Forall update_wf [a; b]
  /\ findings_agree [a; b]
  /\ dict_get (merge_all [a; b] []) (u "f1")
     = dict_get (merge_all [b; a] []) (u "f1").
Proof.
  intros a b.
  assert (Hp : Permutation [a; b] [b; a]) by apply perm_swap.
  assert (Hwf : Forall update_wf [a; b]).
  { repeat constructor; simpl; intuition discriminate. }
  assert (Hag : findings_agree [a; b]).
  { intros r1 r2 key v1 v2 H1 H2.
    assert (Hone : forall r v, In r [a; b] -> finding r key = Some v ->
                   (key = u "f1" /\ v = JDict [(u "value", JStr (u "X"))])
                   \/ (key = u "f2" /\ v = JDict [(u "value", JStr (u "Y"))])).
    { intros r v [<-|[<-|[]]]; unfold finding; simpl.
      - str_cases key (u "f1"); [|discriminate].
        intros H; injection H as <-. left. split; [exact E | reflexivity].
      - str_cases key (u "f2"); [|discriminate].
        intros H; injection H as <-. right. split; [exact E | reflexivity]. }
    intros Hf1 Hf2.
    destruct (Hone r1 v1 H1 Hf1) as [[K1 ->]|[K1 ->]];
      destruct (Hone r2 v2 H2 Hf2) as [[K2 ->]|[K2 ->]];
      try reflexivity; rewrite K1 in K2; discriminate. }
  split; [exact Hp|]. split; [exact Hwf|]. split; [exact Hag|].
  exact (proj1 (merge_order_irrelevant_when_findings_agree
                  [] [a; b] [b; a] (u "f1") Hp Hwf Hag)).
Defined.

(* --------------------------------------------------------------------- *)
(** ** [flatten_pages]                                                     *)
(* --------------------------------------------------------------------- *)

Lemma snippets_length_nonneg (pages : list page) : (0 <= snippets_length pages)%Z.
Proof.
  induction pages as [|p pages IH]; cbn [snippets_length fold_right]; [lia|].
  fold (snippets_length pages). lia.
Qed.

(** The loop keeps the snippets of the longest prefix of the pages whose
    running total stays within [max_chars]. *)
Lemma flatten_loop_prefix (pages : list page) (max_chars : Z)
      (chunks : list str) (total : Z) :
  exists k,
    (k <= length pages)%nat
    /\ flatten_loop pages max_chars chunks total
       = chunks ++ map snippet (firstn k pages)
    /\ ((k = 0)%nat \/ (total + snippets_length (firstn k pages) <= max_chars)%Z)
    /\ ((k < length pages)%nat ->
        (total + snippets_length (firstn (S k) pages) > max_chars)%Z).
Proof.
  revert chunks total.
  induction pages as [|p pages IH]; intros chunks total.
  - exists 0%nat. simpl. rewrite app_nil_r. repeat split; lia.
  - cbn [flatten_loop].
    destruct (total + Z.of_nat (length (snippet p)) >? max_chars)%Z eqn:Hcut.
    + rewrite Z.gtb_ltb in Hcut. apply Z.ltb_lt in Hcut.
      exists 0%nat. rewrite firstn_O, firstn_cons, firstn_O.
      cbn [map length]. rewrite app_nil_r.
      split; [lia|]. split; [reflexivity|]. split; [now left|].
      intros _. cbn [snippets_length fold_right]. lia.
    + rewrite Z.gtb_ltb in Hcut. apply Z.ltb_ge in Hcut.
      destruct (IH (chunks ++ [snippet p])
                   (total + Z.of_nat (length (snippet p)))%Z)
        as (k & Hk & Heq & Hfit & Hnext).
      exists (S k). rewrite !firstn_cons. cbn [length map]. split; [lia|].
      split; [rewrite Heq, <- app_assoc; reflexivity|].
      split.
      * right. cbn [snippets_length fold_right].
        fold (snippets_length (firstn k pages)).
        destruct Hfit as [->|Hfit]; [rewrite firstn_O; cbn [snippets_length fold_right]|]; lia.
      * intros Hlt. cbn [snippets_length fold_right].
        fold (snippets_length (firstn (S k) pages)).
        assert (k < length pages)%nat as Hk' by lia.
        specialize (Hnext Hk'). lia.
Qed.

Lemma rstrip_repeat (c : N) (n : nat) :
  is_space c = false -> rstrip (repeat c n) = repeat c n.
Proof.
  intros Hc. induction n as [|n IH]; [reflexivity|].
  cbn [repeat rstrip]. rewrite IH. destruct n; cbn [repeat]; [rewrite Hc|]; reflexivity.
Qed.

Lemma strip_repeat (c : N) (n : nat) :
  is_space c = false -> strip (repeat c n) = repeat c n.
Proof.
  intros Hc. unfold strip. rewrite rstrip_repeat by exact Hc.
  destruct n; cbn [repeat lstrip]; [|rewrite Hc]; reflexivity.
Qed.

Lemma big_page_snippet_length : Z.of_nat (length (snippet big_page)) = 32000%Z.
Proof.
  unfold snippet, big_page. cbn [fst snd].
  rewrite strip_repeat by reflexivity.
  rewrite !length_app, repeat_length.
  change (length (u "[page ")) with 6%nat.
  change (length (str_of_Z 1)) with 1%nat.
  change (length (u "]")) with 1%nat.
  change (length [10%N]) with 1%nat.
  rewrite !Nat2Z.inj_add, Z2Nat.id by lia. reflexivity.
Qed.

Lemma big_page_fills_the_budget :
  flatten_pages [big_page; (2%Z, u "x")] = flatten_pages [big_page].
Proof.
  unfold flatten_pages, flatten_pages_max. cbn [flatten_loop].
  rewrite big_page_snippet_length.
  change (0 + 32000 >? 32000)%Z with false. cbv iota.
  change (Z.of_nat (length (snippet (2%Z, u "x")))) with 11%Z.
  reflexivity.
Qed.

(** C9.  [flatten_pages] joins (with a newline) the snippets
    ["[page N]\n<stripped text>\n"] of the first [k] pages, in order, where
    [k] is the largest count whose snippets total at most 32000 characters:
    the page that would pass 32000 and every page after it are left out,
    without any error.  A chunk of two pages whose first page takes 32000
    characters gets the prompt of that first page alone. *)
Theorem flatten_pages_stops_at_budget (pages : list page) :
  (forall p, snippet p = u "[page " ++ str_of_Z (fst p) ++ u "]" ++ nl
                         ++ strip (snd p) ++ nl)
  /\ (exists k,
        (k <= length pages)%nat
        /\ flatten_pages pages = join nl (map snippet (firstn k pages))
        /\ (snippets_length (firstn k pages) <= 32000)%Z
        /\ ((k < length pages)%nat ->
            (snippets_length (firstn (S k) pages) > 32000)%Z))
  /\ (forall field_specs,
        gemini_prompt [big_page; (2%Z, u "x")] field_specs
        = gemini_prompt [big_page] field_specs).
Proof.
  split; [reflexivity|]. split.
  - destruct (flatten_loop_prefix pages 32000 [] 0)
      as (k & Hk & Heq & Hfit & Hnext).
    exists k. split; [exact Hk|].
    split; [unfold flatten_pages, flatten_pages_max; rewrite Heq; reflexivity|].
    split; [|exact Hnext].
    destruct Hfit as [->|Hfit]; simpl; lia.
  - intros field_specs. unfold gemini_prompt.
    rewrite big_page_fills_the_budget. reflexivity.
Qed.

(* --------------------------------------------------------------------- *)
(** ** [find_relevant_pages]                                               *)
(* --------------------------------------------------------------------- *)

Lemma startswith_spec (s p : str) :
  startswith s p = true <-> exists post, s = p ++ post.
Proof.
  revert s. induction p as [|x p IH]; intros s; simpl.
  - split; [intros _; exists s; reflexivity | destruct s; reflexivity].
  - destruct s as [|y s].
    + split; [discriminate | intros [post H]; discriminate].
    + simpl. rewrite andb_true_iff, N.eqb_eq, IH. split.
      * intros [-> [post ->]]. exists post. reflexivity.
      * intros [post H]. injection H as -> ->. split; [reflexivity | now exists post].
Qed.

Lemma contains_spec (s t : str) : contains s t = true <-> occurs_in t s.
Proof.
  unfold occurs_in. induction s as [|c s IH]; cbn [contains].
  - rewrite orb_false_r, startswith_spec. split.
    + intros [post H]. exists [], post. exact H.
    + intros [pre [post H]]. destruct pre; [now exists post|discriminate].
  - rewrite orb_true_iff, startswith_spec, IH. split.
    + intros [[post H]|[pre [post H]]].
      * exists [], post. exact H.
      * exists (c :: pre), post. simpl. now rewrite H.
    + intros [pre [post H]]. destruct pre as [|c' pre].
      * left. now exists post.
      * right. injection H as -> ->. now exists pre, post.
Qed.

Lemma add_token_in (tokens : list str) (t t' : str) :
  In t' (add_token tokens t) <-> In t' tokens \/ t' = t.
Proof.
  unfold add_token. destruct (existsb (str_eqb t) tokens) eqn:E.
  - apply existsb_exists in E. destruct E as [x [Hx Heq]].
    apply str_eqb_eq in Heq. subst x. split; [tauto|].
    intros [H | ->]; assumption.
  - rewrite in_app_iff. simpl. intuition congruence.
Qed.

Lemma keep_long_tokens_in (pieces tokens : list str) (t : str) :
  In t (fold_left (fun tokens t =>
                     if (3 <? length t)%nat then add_token tokens t else tokens)
                  pieces tokens)
  <-> In t tokens \/ (In t pieces /\ (3 < length t)%nat).
Proof.
  revert tokens. induction pieces as [|x pieces IH]; intros tokens; simpl.
  - tauto.
  - rewrite IH. destruct (3 <? length x)%nat eqn:E.
    + apply Nat.ltb_lt in E. rewrite add_token_in.
      split; [intros [[H | ->] | H] | intros [H | [[-> | H] Hl]]]; tauto.
    + apply Nat.ltb_ge in E.
      split; [tauto | intros [H | [[-> | H] Hl]]; [tauto | lia | tauto]].
Qed.

Lemma relevance_tokens_from (field_specs : list field_spec) (tokens : list str)
      (t : str) :
  In t (fold_left label_tokens field_specs tokens)
  <-> In t tokens
      \/ exists path label typ,
           In (path, label, typ) field_specs
           /\ In t (re_split_nonalnum (lower label)) /\ (3 < length t)%nat.
Proof.
  revert tokens. induction field_specs as [|[[path label] typ] specs IH];
    intros tokens; simpl.
  - split; [tauto | intros [H | (? & ? & ? & [] & _)]; exact H].
  - rewrite IH, keep_long_tokens_in. split.
    + intros [[H | H] | (p & l & ty & Hin & H)].
      * now left.
      * right. exists path, label, typ. tauto.
      * right. exists p, l, ty. tauto.
    + intros [H | (p & l & ty & [Heq | Hin] & H)].
      * left. now left.
      * injection Heq as <- <- <-. left. now right.
      * right. exists p, l, ty. tauto.
Qed.

Lemma select_pages_filter (tokens : list str) (pages selected : list page) :
  fold_left (select_page tokens) pages selected
  = selected ++ filter (page_is_relevant tokens) pages.
Proof.
  revert selected. induction pages as [|p pages IH]; intros selected; simpl.
  - now rewrite app_nil_r.
  - rewrite IH. unfold select_page, page_is_relevant.
    destruct (existsb _ tokens); [rewrite <- app_assoc|]; reflexivity.
Qed.

(** The pieces of [re.split] hold no character outside the class. *)
Lemma re_split_nonalnum_pieces (s t : str) :
  In t (re_split_nonalnum s) -> forallb is_alnum t = true.
Proof.
  revert t. induction s as [|c s IH]; intros t; simpl.
  - intros [<- | []]. reflexivity.
  - destruct (is_alnum c) eqn:Hc.
    + destruct (re_split_nonalnum s) as [|h rest].
      * intros [<- | []]. simpl. now rewrite Hc.
      * intros [<- | H].
        -- simpl. rewrite Hc. apply IH. now left.
        -- apply IH. now right.
    + destruct (starts_with_sep s).
      * apply IH.
      * intros [<- | H]; [reflexivity | apply IH, H].
Qed.

(** [re.split] on the runs outside the class: the pieces hold only
    characters of the class, and the text is the pieces woven with as many
    non-empty runs of other characters as there are gaps. *)
Lemma re_split_nonalnum_weave (s : str) :
  exists seps,
    length (re_split_nonalnum s) = S (length seps)
    /\ Forall sep_run seps
    /\ weave (re_split_nonalnum s) seps = s.
Proof.
  induction s as [|c s IH].
  - exists []. repeat split; constructor.
  - destruct IH as (seps & Hlen & Hseps & Hweave).
    pose proof (re_split_nonalnum_pieces s) as Hpieces.
    cbn [re_split_nonalnum]. destruct (is_alnum c) eqn:Hc.
    + destruct (re_split_nonalnum s) as [|h rest]; [discriminate|].
      exists seps. split; [exact Hlen|]. split; [exact Hseps|].
      destruct seps; simpl in *; now rewrite Hweave.
    + destruct (starts_with_sep s) eqn:Hs.
      * destruct s as [|c' s']; [discriminate|]. simpl in Hs.
        apply negb_true_iff in Hs.
        destruct (re_split_nonalnum (c' :: s')) as [|p0 ps]; [discriminate|].
        destruct p0 as [|x p0].
        -- destruct seps as [|sp sps]; [discriminate|].
           exists ((c :: sp) :: sps). split; [exact Hlen|].
           inversion Hseps as [|? ? [Hne Hall] Hrest]; subst.
           split.
           ++ constructor; [|exact Hrest]. split; [discriminate|].
              simpl. now rewrite Hc.
           ++ simpl in *. now rewrite Hweave.
        -- exfalso. assert (is_alnum x = true) as Hx.
           { specialize (Hpieces (x :: p0) (or_introl eq_refl)).
             simpl in Hpieces. now apply andb_true_iff in Hpieces. }
           destruct seps; simpl in Hweave; injection Hweave as -> _; congruence.
      * exists ([c] :: seps). split; [simpl; now rewrite Hlen|].
        split.
        -- constructor; [|exact Hseps]. split; [discriminate|].
           simpl. now rewrite Hc.
        -- simpl. now rewrite Hweave.
Qed.

Lemma relevance_scenario :
  find_relevant_pages [residence_page; construction_page] [construction_field]
  = [construction_page].
Proof. vm_compute. reflexivity. Qed.

(** Lowercasing beyond Latin-1: the Kelvin sign becomes [k], the capital I
    with a dot becomes [i] and a combining dot, and the capital sigma
    becomes the final sigma at the end of a word only.  A label written
    with the Kelvin sign selects a page that spells the word with a [k]. *)
Example lower_beyond_latin1 :
  lower [8490]%N = u "k"
  /\ lower [304]%N = [105; 775]%N
  /\ lower [927; 931; 32; 931; 927]%N = [959; 962; 32; 963; 959]%N
  /\ find_relevant_pages
       [(1%Z, u "kelvin"); (2%Z, [8490%N] ++ u "ELVIN"); (3%Z, u "celsius")]
       [(u "a.b", [8490%N] ++ u "elvin", JStr (u "string"))]
     = [(1%Z, u "kelvin"); (2%Z, [8490%N] ++ u "ELVIN")].
Proof. repeat split; vm_compute; reflexivity. Qed.

(** C6.  The token set of [find_relevant_pages] holds exactly the pieces of
    more than 3 characters that [re.split] cuts out of each lowercased label
    at the runs of non-alphanumeric characters; the pages returned are
    exactly the pages whose lowercased text has one of the tokens as a
    substring, in the order of the input; and when that list is empty the
    second pass returns the running result with the state untouched, so
    without any request to the model.  With the label "Date de construction",
    only page 2 of the scenario is selected. *)
Theorem find_relevant_pages_selects_token_pages
        (pages : list page) (field_specs : list field_spec) :
  (forall t, In t (relevance_tokens field_specs) <->
             exists path label typ,
               In (path, label, typ) field_specs
               /\ In t (re_split_nonalnum (lower label))
               /\ (3 < length t)%nat)
  /\ (forall label, exists seps,
         length (re_split_nonalnum (lower label)) = S (length seps)
         /\ Forall sep_run seps
         /\ Forall (fun piece => forallb is_alnum piece = true)
                   (re_split_nonalnum (lower label))
         /\ weave (re_split_nonalnum (lower label)) seps = lower label)
  /\ find_relevant_pages pages field_specs
     = filter (page_is_relevant (relevance_tokens field_specs)) pages
  /\ (forall p, In p (find_relevant_pages pages field_specs) <->
                In p pages
                /\ exists t, In t (relevance_tokens field_specs)
                             /\ occurs_in t (lower (snd p)))
  /\ (forall w text_model all_specs llm_result st,
         find_relevant_pages pages (missing_fields all_specs llm_result) = [] ->
         second_pass w text_model all_specs pages llm_result st
         = (inr llm_result, st))
  /\ find_relevant_pages [residence_page; construction_page] [construction_field]
     = [construction_page].
Proof.
  assert (Hfilter : find_relevant_pages pages field_specs
                    = filter (page_is_relevant (relevance_tokens field_specs)) pages).
  { unfold find_relevant_pages. now rewrite select_pages_filter. }
  split.
  { intros t. unfold relevance_tokens. rewrite relevance_tokens_from.
    simpl. tauto. }
  split.
  { intros label.
    destruct (re_split_nonalnum_weave (lower label)) as (seps & H1 & H2 & H3).
    exists seps. repeat split; try assumption.
    apply Forall_forall. intros piece. apply re_split_nonalnum_pieces. }
  split; [exact Hfilter|].
  split.
  { intros p. rewrite Hfilter, filter_In. unfold page_is_relevant.
    rewrite existsb_exists. split.
    - intros [Hin [t [Ht Hc]]]. split; [exact Hin|]. exists t.
      split; [exact Ht | apply contains_spec, Hc].
    - intros [Hin [t [Ht Hc]]]. split; [exact Hin|]. exists t.
      split; [exact Ht | apply contains_spec, Hc]. }
  split; [|exact relevance_scenario].
  intros w text_model all_specs llm_result st Hnone. unfold second_pass.
  destruct (missing_fields all_specs llm_result); [reflexivity|].
  rewrite Hnone. reflexivity.
Qed.

Lemma find_relevant_pages_selects_token_pages_witness :
  find_relevant_pages [residence_page]
                      (missing_fields [construction_field] []) = []
  /\ second_pass sample_world (u "gemini-pro") [construction_field]
                 [residence_page] [] (initial_state sample_world)
     = (inr [], initial_state sample_world).
Proof.
  assert (H : find_relevant_pages [residence_page]
                                  (missing_fields [construction_field] []) = [])
    by (vm_compute; reflexivity).
  split; [exact H|].
  exact (proj1 (proj2 (proj2 (proj2 (proj2
           (find_relevant_pages_selects_token_pages
              [residence_page] [construction_field])))))
           sample_world (u "gemini-pro") [construction_field] []
           (initial_state sample_world) H).
Defined.

(* --------------------------------------------------------------------- *)
(** ** [load_pages_with_ocr]                                               *)
(* --------------------------------------------------------------------- *)

(** The attempt at OCR never raises: whatever fails inside is caught. *)
Lemma ocr_page_returns (pg : pdf_page) (text : str) (cb : str -> M str)
      (st : state) :
  exists text' st', ocr_page pg text cb st = (inr text', st').
Proof.
  unfold ocr_page, try_except, bind, lift, raise, ret.
  destruct (page_png pg) as [e|png]; [now eexists; eexists|].
  destruct (cb png st) as [[e|ocr_text] st1]; [now eexists; eexists|].
  destruct (truthy ocr_text && negb (contains text ocr_text));
    now eexists; eexists.
Qed.

Lemma page_numbers_length (first : Z) (n : nat) :
  length (page_numbers first n) = n.
Proof. revert first. induction n; intros; simpl; [|rewrite IHn]; reflexivity. Qed.

(** The loop over the pages of a PDF numbers what it appends [idx],
    [idx + 1], ... and stops at the end of the PDF or, when [max_pages] is
    not 0, at the first number above [max_pages]. *)
Lemma load_pdf_pages_numbers (pdf : list pdf_page) (idx max_pages : Z)
      (cb : str -> M str) (ocr_all : bool) (pages : list page) (st : state) :
  exists loaded st',
    load_pdf_pages pdf idx max_pages cb ocr_all pages st
    = (inr (pages ++ loaded), st')
    /\ map fst loaded
       = page_numbers idx
           (if (max_pages =? 0)%Z then length pdf
            else Nat.min (length pdf) (Z.to_nat (max_pages - idx + 1))).
Proof.
  revert idx pages st. induction pdf as [|pg rest IH]; intros idx pages st.
  - exists [], st. cbn [load_pdf_pages length]. unfold ret.
    rewrite app_nil_r. split; [reflexivity|].
    destruct (max_pages =? 0)%Z; reflexivity.
  - cbn [load_pdf_pages length].
    destruct (max_pages =? 0)%Z eqn:Hzero; cbn [negb andb].
    + set (txt := strip _).
      unfold bind at 1. unfold emit_event at 1.
      set (st1 := {| log := _; cache_files := _ |}).
      assert (exists text' st2,
                 (if ocr_all || (length txt <? 80)%nat
                  then ocr_page pg txt cb else ret txt) st1 = (inr text', st2))
        as (text' & st2 & Hocr).
      { destruct (ocr_all || (length txt <? 80)%nat);
          [apply ocr_page_returns | now eexists; eexists]. }
      unfold bind at 1. rewrite Hocr.
      destruct (IH (idx + 1)%Z (pages ++ [(idx, text')]) st2)
        as (loaded & st' & Heq & Hnum).
      exists ((idx, text') :: loaded), st'.
      split; [rewrite Heq, <- app_assoc; reflexivity|].
      cbn [map fst page_numbers]. now rewrite Hnum.
    + destruct (idx >? max_pages)%Z eqn:Hcut.
      * rewrite Z.gtb_ltb in Hcut. apply Z.ltb_lt in Hcut.
        exists [], st. unfold ret. rewrite app_nil_r. split; [reflexivity|].
        replace (Z.to_nat (max_pages - idx + 1)) with 0%nat by lia.
        rewrite Nat.min_0_r. reflexivity.
      * rewrite Z.gtb_ltb in Hcut. apply Z.ltb_ge in Hcut.
        set (txt := strip _).
        unfold bind at 1. unfold emit_event at 1.
        set (st1 := {| log := _; cache_files := _ |}).
        assert (exists text' st2,
                   (if ocr_all || (length txt <? 80)%nat
                    then ocr_page pg txt cb else ret txt) st1 = (inr text', st2))
          as (text' & st2 & Hocr).
        { destruct (ocr_all || (length txt <? 80)%nat);
            [apply ocr_page_returns | now eexists; eexists]. }
        unfold bind at 1. rewrite Hocr.
        destruct (IH (idx + 1)%Z (pages ++ [(idx, text')]) st2)
          as (loaded & st' & Heq & Hnum).
        exists ((idx, text') :: loaded), st'.
        split; [rewrite Heq, <- app_assoc; reflexivity|].
        cbn [map fst]. rewrite Hnum.
        replace (Z.to_nat (max_pages - idx + 1))
          with (S (Z.to_nat (max_pages - (idx + 1) + 1))) by lia.
        reflexivity.
Qed.

(** C7, as the specification states it, fails: [max_pages = 0] switches the
    limit off ([if max_pages and idx > max_pages]), so the two pages of the
    sample PDF are both loaded, which is more than [max_pages]. *)
Lemma max_pages_zero_loads_every_page :
  let pages := [(1%Z, u "Date de construction: 1985" ++ nl ++ u "texte lu");
                (2%Z, [])] in
  fst (load_pages_with_ocr sample_world (u "docs/carnet.pdf") 0
                           sample_callback false (initial_state sample_world))
  = inr pages
  /\ (Z.of_nat (length pages) > 0)%Z.
Proof. split; [vm_compute; reflexivity | reflexivity]. Qed.

(** C7, amended.  For a PDF that opens, the loader returns (it does not
    raise) pages numbered 1, 2, 3, ... without a gap.  With a positive
    [max_pages] it stops after [max_pages] pages, the further pages being
    left unread; with [max_pages = 0] the limit is off and every page of the
    PDF is loaded; with a negative [max_pages] no page is. *)
Theorem load_pages_numbers_pages_from_one
        (w : world) (path : str) (pdf : list pdf_page) (max_pages : Z)
        (ocr_callback : str -> M str) (ocr_all : bool) (st : state) :
  lower (path_suffix path) = u ".pdf" ->
  pdf_open w path = inr pdf ->
  exists pages st',
    load_pages_with_ocr w path max_pages ocr_callback ocr_all st
    = (inr pages, st')
    /\ map fst pages = page_numbers 1 (loaded_count (length pdf) max_pages)
    /\ ((0 < max_pages)%Z -> (Z.of_nat (length pages) <= max_pages)%Z)
    /\ (max_pages = 0%Z -> length pages = length pdf)
    /\ ((max_pages < 0)%Z -> pages = []).
Proof.
  intros Hsuffix Hopen. unfold load_pages_with_ocr.
  rewrite Hsuffix, str_eqb_refl.
  unfold bind at 1. unfold emit_event at 1.
  unfold bind at 1. rewrite Hopen. unfold lift, ret at 1.
  destruct (load_pdf_pages_numbers pdf 1 max_pages ocr_callback ocr_all []
              {| log := log st ++ [OpenDocument path];
                 cache_files := cache_files st |})
    as (loaded & st' & Heq & Hnum).
  exists loaded, st'. split; [exact Heq|].
  assert (Hcount : map fst loaded
                   = page_numbers 1 (loaded_count (length pdf) max_pages)).
  { rewrite Hnum. unfold loaded_count.
    replace (max_pages - 1 + 1)%Z with max_pages by lia. reflexivity. }
  split; [exact Hcount|].
  pose proof (f_equal (@length Z) Hcount) as Hlen.
  rewrite length_map, page_numbers_length in Hlen.
  unfold page in *.
  rewrite Hlen. unfold loaded_count. repeat split.
  - intros Hpos. destruct (max_pages =? 0)%Z eqn:E; lia.
  - intros ->. reflexivity.
  - intros Hneg. destruct (max_pages =? 0)%Z eqn:E; [lia|].
    apply length_zero_iff_nil. rewrite Hlen. unfold loaded_count. rewrite E.
    replace (Z.to_nat max_pages) with 0%nat by lia. apply Nat.min_0_r.
Qed.

Lemma load_pages_numbers_pages_from_one_witness :
  lower (path_suffix (u "docs/carnet.pdf")) = u ".pdf"
  /\ pdf_open sample_world (u "docs/carnet.pdf") = inr sample_pdf
  /\ exists pages st',
       load_pages_with_ocr sample_world (u "docs/carnet.pdf") 1 sample_callback
                           false (initial_state sample_world)
       = (inr pages, st')
       /\ map fst pages = page_numbers 1 (loaded_count (length sample_pdf) 1)
       /\ ((0 < 1)%Z -> (Z.of_nat (length pages) <= 1)%Z)
       /\ (1%Z = 0%Z -> length pages = length sample_pdf)
       /\ ((1 < 0)%Z -> pages = []).
Proof.
  split; [reflexivity|]. split; [reflexivity|].
  exact (load_pages_numbers_pages_from_one
           sample_world (u "docs/carnet.pdf") sample_pdf 1 sample_callback false
           (initial_state sample_world) eq_refl eq_refl).
Defined.

(* --------------------------------------------------------------------- *)
(** ** The JSON reader and [parse_json_content]                            *)
(* --------------------------------------------------------------------- *)

Lemma skip_ws_length (s : str) : (length (Reader.skip_ws s) <= length s)%nat.
Proof.
  induction s as [|c s IH]; simpl; [lia|].
  destruct (Reader.is_ws c); simpl; lia.
Qed.

Lemma emit_length (c : N) (r : option (str * str)) (k rest : str) (n : nat) :
  (forall k' rest', r = Some (k', rest') -> (length rest' < n)%nat) ->
  Reader.emit c r = Some (k, rest) -> (length rest < n)%nat.
Proof.
  intros H. destruct r as [[k' rest']|]; simpl; [|discriminate].
  intros E; injection E as <- <-. now apply (H k').
Qed.

(** A string literal is read to its end: what is left is shorter. *)
Lemma scanstring_length (s k rest : str) :
  Reader.scanstring s = Some (k, rest) -> (length rest < length s)%nat.
Proof.
  remember (length s) as n eqn:Hn. revert s k rest Hn.
  induction n as [n IH] using lt_wf_ind. intros s k rest Hn.
  destruct s as [|c s1]; [discriminate|]. cbn [Reader.scanstring].
  destruct (c =? 34)%N.
  { intros E; injection E as <- <-. subst n. simpl. lia. }
  assert (Hrec : forall c' s' k' rest',
             (length s' < n)%nat ->
             Reader.emit c' (Reader.scanstring s') = Some (k', rest') ->
             (length rest' < n)%nat).
  { intros c' s' k' rest' Hlt. apply emit_length. intros k2 rest2 E.
    specialize (IH (length s') Hlt s' k2 rest2 eq_refl E). lia. }
  destruct (c =? 92)%N.
  - destruct s1 as [|e s2]; [discriminate|].
    destruct (e =? 117)%N.
    + destruct s2 as [|h1 [|h2 [|h3 [|h4 s3]]]]; try discriminate.
      destruct (Reader.hex4 h1 h2 h3 h4) as [uni|]; [|discriminate].
      destruct s3 as [|b [|v [|g1 [|g2 [|g3 [|g4 s4]]]]]];
        try (apply Hrec; subst n; simpl; lia).
      destruct (if Reader.is_high_surrogate uni && (b =? 92)%N && (v =? 117)%N
                then Reader.hex4 g1 g2 g3 g4 else None) as [uni2|];
        [destruct (Reader.is_low_surrogate uni2)|];
        apply Hrec; subst n; simpl; lia.
    + destruct (Reader.unescape e); [|discriminate].
      apply Hrec. subst n. simpl. lia.
  - destruct (c <? 32)%N; [discriminate|].
    apply Hrec. subst n. simpl. lia.
Qed.

Lemma take_digits_length (s ds r : str) :
  Reader.take_digits s = (ds, r) -> length s = (length ds + length r)%nat.
Proof.
  revert ds r. induction s as [|c s IH]; intros ds r; simpl.
  - intros E; injection E as <- <-. reflexivity.
  - destruct (Reader.is_digit c).
    + destruct (Reader.take_digits s) as [ds' r'] eqn:E'.
      intros E; injection E as <- <-. simpl. now rewrite (IH ds' r' eq_refl).
    + intros E; injection E as <- <-. reflexivity.
Qed.

Lemma match_frac_length (s f r : str) :
  Reader.match_frac s = (f, r) -> (length r <= length s)%nat.
Proof.
  unfold Reader.match_frac. destruct s as [|c t].
  - intros E; injection E as <- <-. lia.
  - destruct (c =? 46)%N.
    + destruct (Reader.take_digits t) as [ds r'] eqn:E'.
      apply take_digits_length in E'.
      destruct ds; intros E; injection E as <- <-; simpl in *; lia.
    + intros E; injection E as <- <-. lia.
Qed.

Lemma match_exp_length (s x r : str) :
  Reader.match_exp s = (x, r) -> (length r <= length s)%nat.
Proof.
  unfold Reader.match_exp. destruct s as [|c t].
  - intros E; injection E as <- <-. lia.
  - destruct ((c =? 101) || (c =? 69))%N.
    + destruct t as [|g t1]; [|destruct ((g =? 45) || (g =? 43))%N];
        (match goal with
         | |- context [Reader.take_digits ?t'] =>
             destruct (Reader.take_digits t') as [ds r'] eqn:E'
         end;
         apply take_digits_length in E';
         destruct ds; intros E; injection E as <- <-; simpl in *; lia).
    + intros E; injection E as <- <-. lia.
Qed.

Lemma match_integer_length (s : str) (neg : bool) (ds r : str) :
  Reader.match_integer s = Some (neg, ds, r) -> (length r < length s)%nat.
Proof.
  unfold Reader.match_integer.
  destruct s as [|c t]; [discriminate|].
  destruct (c =? 45)%N.
  - destruct t as [|d t']; [discriminate|].
    destruct (d =? 48)%N; [intros E; injection E as _ _ <-; simpl; lia|].
    destruct (Reader.is_digit d); [|discriminate].
    intros E.
    destruct (Reader.take_digits t') as [ds0 r0] eqn:E'.
    apply take_digits_length in E'.
    injection E as _ _ <-. simpl. lia.
  - destruct (c =? 48)%N; [intros E; injection E as _ _ <-; simpl; lia|].
    destruct (Reader.is_digit c); [|discriminate].
    intros E.
    destruct (Reader.take_digits t) as [ds0 r0] eqn:E'.
    apply take_digits_length in E'.
    injection E as _ _ <-. simpl. lia.
Qed.

Lemma match_number_length (s : str) (v : json) (r : str) :
  Reader.match_number s = Some (v, r) -> (length r < length s)%nat.
Proof.
  unfold Reader.match_number.
  destruct (Reader.match_integer s) as [[[neg ds] r1]|] eqn:E; [|discriminate].
  apply match_integer_length in E.
  destruct (Reader.match_frac r1) as [frac r2] eqn:Ef.
  destruct (Reader.match_exp r2) as [exp r3] eqn:Ee.
  apply match_frac_length in Ef. apply match_exp_length in Ee.
  destruct frac, exp; intros H; injection H as <- <-; lia.
Qed.

Lemma startswith_skipn (s p : str) :
  startswith s p = true -> (length (skipn (length p) s) + length p = length s)%nat.
Proof.
  intros H. apply startswith_spec in H. destruct H as [post ->].
  rewrite skipn_app, skipn_all, Nat.sub_diag. simpl.
  rewrite length_app. lia.
Qed.

Ltac ws_step s :=
  let c := fresh "c" in
  let r := fresh "r" in
  let E := fresh "Ews" in
  let H := fresh "Hws" in
  pose proof (skip_ws_length s) as H;
  destruct (Reader.skip_ws s) as [|c r] eqn:E; [exact I|];
  simpl in H.

(** The fuel of [decode] is enough: with more fuel than twice the length of
    the text, the reader never runs out, and it always leaves less than it
    was given. *)
Lemma scan_once_fuel (fuel : nat) :
  (forall s, (2 * length s < fuel)%nat ->
             scan_progress (length s) (Reader.scan_once fuel s))
  /\ (forall pairs s, (2 * length s + 1 < fuel)%nat ->
                      scan_progress (length s) (Reader.object_loop fuel pairs s))
  /\ (forall values s, (2 * length s + 1 < fuel)%nat ->
                       scan_progress (length s) (Reader.array_loop fuel values s)).
Proof.
  induction fuel as [|fuel (IHscan & IHobj & IHarr)].
  { repeat split; intros; lia. }
  split; [|split].
  - intros s Hfuel. cbn [Reader.scan_once].
    destruct s as [|c s1]; [exact I|]. cbn [length] in *.
    destruct (c =? 34)%N.
    { destruct (Reader.scanstring s1) as [[k r]|] eqn:E; [|exact I].
      apply scanstring_length in E. simpl. lia. }
    destruct (c =? 123)%N.
    { ws_step s1. destruct (c0 =? 125)%N; [simpl; lia|].
      destruct (c0 =? 34)%N; [|exact I].
      specialize (IHobj [] r ltac:(lia)).
      destruct (Reader.object_loop fuel [] r); simpl in *; try tauto; lia. }
    destruct (c =? 91)%N.
    { ws_step s1. destruct (c0 =? 93)%N; [simpl; lia|].
      specialize (IHarr [] (c0 :: r) ltac:(simpl; lia)).
      destruct (Reader.array_loop fuel [] (c0 :: r)); simpl in *; try tauto; lia. }
    destruct ((c =? 110)%N && startswith (c :: s1) (u "null")) eqn:E1.
    { apply andb_true_iff in E1. destruct E1 as [_ E1].
      apply startswith_skipn in E1. simpl in *. lia. }
    destruct ((c =? 116)%N && startswith (c :: s1) (u "true")) eqn:E2.
    { apply andb_true_iff in E2. destruct E2 as [_ E2].
      apply startswith_skipn in E2. simpl in *. lia. }
    destruct ((c =? 102)%N && startswith (c :: s1) (u "false")) eqn:E3.
    { apply andb_true_iff in E3. destruct E3 as [_ E3].
      apply startswith_skipn in E3. simpl in *. lia. }
    destruct (Reader.match_number (c :: s1)) as [[v r]|] eqn:En.
    { apply match_number_length in En. simpl in *. lia. }
    destruct ((c =? 78)%N && startswith (c :: s1) (u "NaN")) eqn:E4.
    { apply andb_true_iff in E4. destruct E4 as [_ E4].
      apply startswith_skipn in E4. simpl in *. lia. }
    destruct ((c =? 73)%N && startswith (c :: s1) (u "Infinity")) eqn:E5.
    { apply andb_true_iff in E5. destruct E5 as [_ E5].
      apply startswith_skipn in E5. simpl in *. lia. }
    destruct ((c =? 45)%N && startswith (c :: s1) (u "-Infinity")) eqn:E6.
    { apply andb_true_iff in E6. destruct E6 as [_ E6].
      apply startswith_skipn in E6. simpl in *. lia. }
    exact I.
  - intros pairs s Hfuel. cbn [Reader.object_loop].
    destruct (Reader.scanstring s) as [[key s1]|] eqn:Ekey; [|exact I].
    apply scanstring_length in Ekey.
    ws_step s1. destruct (c =? 58)%N; [|exact I].
    pose proof (skip_ws_length r) as Hr.
    specialize (IHscan (Reader.skip_ws r) ltac:(lia)).
    destruct (Reader.scan_once fuel (Reader.skip_ws r)) as [v s3| |];
      simpl in IHscan; [|exact I|tauto].
    ws_step s3. destruct (c0 =? 125)%N; [simpl; lia|].
    destruct (c0 =? 44)%N; [|exact I].
    ws_step r0. destruct (c1 =? 34)%N; [|exact I].
    specialize (IHobj (pairs ++ [(key, v)]) r1 ltac:(lia)).
    destruct (Reader.object_loop fuel (pairs ++ [(key, v)]) r1);
      simpl in *; try tauto; lia.
  - intros values s Hfuel. cbn [Reader.array_loop].
    specialize (IHscan s ltac:(lia)).
    destruct (Reader.scan_once fuel s) as [v s1| |];
      simpl in IHscan; [|exact I|tauto].
    ws_step s1. destruct (c =? 93)%N; [simpl; lia|].
    destruct (c =? 44)%N; [|exact I].
    pose proof (skip_ws_length r) as Hr.
    specialize (IHarr (values ++ [v]) (Reader.skip_ws r) ltac:(lia)).
    destruct (Reader.array_loop fuel (values ++ [v]) (Reader.skip_ws r));
      simpl in *; try tauto; lia.
Qed.

(** [decode] never runs out of fuel: a text that [loads] refuses is a text
    the reader found invalid. *)
Lemma decode_not_exhausted (s : str) : Reader.decode s <> Reader.Exhausted.
Proof.
  unfold Reader.decode.
  pose proof (skip_ws_length s) as Hws.
  pose proof (proj1 (scan_once_fuel (S (2 * length s))) (Reader.skip_ws s)
                    ltac:(lia)) as H.
  destruct (Reader.scan_once (S (2 * length s)) (Reader.skip_ws s));
    simpl in H; [|discriminate|contradiction].
  destruct (Reader.skip_ws rest); discriminate.
Qed.

(** Whatever [JSONObject] returns is a dict. *)
Lemma object_loop_dict (fuel : nat) (pairs : list (str * json)) (s : str)
      (v : json) (r : str) :
  Reader.object_loop fuel pairs s = Reader.Value v r -> is_dict v = true.
Proof.
  revert pairs s. induction fuel as [|fuel IH]; intros pairs s;
    [discriminate|].
  cbn [Reader.object_loop].
  destruct (Reader.scanstring s) as [[key s1]|]; [|discriminate].
  destruct (Reader.skip_ws s1) as [|c s2]; [discriminate|].
  destruct (c =? 58)%N; [|discriminate].
  destruct (Reader.scan_once fuel (Reader.skip_ws s2)) as [v0 s3| |];
    try discriminate.
  destruct (Reader.skip_ws s3) as [|c3 s4]; [discriminate|].
  destruct (c3 =? 125)%N; [intros E; injection E as <- _; reflexivity|].
  destruct (c3 =? 44)%N; [|discriminate].
  destruct (Reader.skip_ws s4) as [|c5 s5]; [discriminate|].
  destruct (c5 =? 34)%N; [apply IH | discriminate].
Qed.

(** A text that starts with an opening brace and that [loads] accepts is an
    object. *)
Lemma loads_brace_dict (s : str) (v : json) :
  Reader.loads (123%N :: s) = Some v -> is_dict v = true.
Proof.
  unfold Reader.loads, Reader.decode.
  destruct (startswith (123%N :: s) [65279%N]); [discriminate|].
  change (Reader.skip_ws (123%N :: s)) with (123%N :: s).
  cbn [Reader.scan_once]. change (123 =? 34)%N with false.
  change (123 =? 123)%N with true. cbv iota.
  destruct (Reader.skip_ws s) as [|c1 r]; [discriminate|].
  destruct (c1 =? 125)%N.
  { destruct (Reader.skip_ws r); [|discriminate].
    intros E; injection E as <-. reflexivity. }
  destruct (c1 =? 34)%N; [|discriminate].
  destruct (Reader.object_loop _ [] r) as [v0 rest| |] eqn:E; try discriminate.
  apply object_loop_dict in E.
  destruct (Reader.skip_ws rest); [|discriminate].
  intros E'; injection E' as <-. exact E.
Qed.

Lemma find_char_app (c : N) (pre post : str) :
  ~ In c pre -> find_char c (pre ++ c :: post) = Z.of_nat (length pre).
Proof.
  induction pre as [|x pre IH]; intros Hnotin.
  - simpl. now rewrite N.eqb_refl.
  - cbn [app find_char length]. destruct (N.eqb_spec x c) as [->|Hne].
    + exfalso. apply Hnotin. now left.
    + rewrite IH by (intros H; apply Hnotin; now right).
      destruct (Z.of_nat (length pre) <? 0)%Z eqn:E; lia.
Qed.

Lemma rfind_char_none (c : N) (s : str) :
  ~ In c s -> rfind_char c s = (-1)%Z.
Proof.
  induction s as [|x s IH]; intros Hnotin; [reflexivity|].
  cbn [rfind_char]. rewrite IH by (intros H; apply Hnotin; now right).
  simpl. destruct (N.eqb_spec x c) as [->|Hne]; [|reflexivity].
  exfalso. apply Hnotin. now left.
Qed.

Lemma rfind_char_app (c : N) (pre post : str) :
  ~ In c post -> rfind_char c (pre ++ c :: post) = Z.of_nat (length pre).
Proof.
  intros Hnotin. induction pre as [|x pre IH].
  - cbn [app rfind_char length]. rewrite rfind_char_none by exact Hnotin.
    simpl. now rewrite N.eqb_refl.
  - cbn [app rfind_char length]. rewrite IH.
    destruct (0 <=? Z.of_nat (length pre))%Z eqn:E; lia.
Qed.

Lemma find_char_split (c : N) (s : str) :
  find_char c s <> (-1)%Z ->
  exists pre post, s = pre ++ c :: post /\ ~ In c pre.
Proof.
  induction s as [|x s IH]; [intros H; now contradiction H|].
  cbn [find_char]. destruct (N.eqb_spec x c) as [->|Hne].
  - intros _. exists [], s. split; [reflexivity | intros []].
  - destruct (find_char c s <? 0)%Z eqn:E; [intros H; now contradiction H|].
    intros _. destruct IH as (pre & post & -> & Hnotin).
    { apply Z.ltb_ge in E. lia. }
    exists (x :: pre), post. split; [reflexivity|].
    intros [H|H]; [congruence | contradiction].
Qed.

Lemma rfind_char_split (c : N) (s : str) :
  rfind_char c s <> (-1)%Z ->
  exists pre post, s = pre ++ c :: post /\ ~ In c post.
Proof.
  induction s as [|x s IH]; [intros H; now contradiction H|].
  cbn [rfind_char]. destruct (0 <=? rfind_char c s)%Z eqn:E.
  - intros _. destruct IH as (pre & post & -> & Hnotin).
    { apply Z.leb_le in E. lia. }
    exists (x :: pre), post. split; [reflexivity | exact Hnotin].
  - destruct (N.eqb_spec x c) as [->|Hne]; [|intros H; now contradiction H].
    intros _. exists [], s. split; [reflexivity|].
    intros Hin. apply Z.leb_gt in E.
    destruct (in_split _ _ Hin) as (l1 & l2 & ->).
    clear IH Hin. revert E. induction l1 as [|y l1 IHl]; cbn [app rfind_char].
    + destruct (0 <=? rfind_char c l2)%Z eqn:E2; [apply Z.leb_le in E2; lia|].
      rewrite N.eqb_refl. lia.
    + destruct (0 <=? rfind_char c (l1 ++ c :: l2))%Z eqn:E2.
      * apply Z.leb_le in E2. lia.
      * apply Z.leb_gt in E2. intros _. now apply IHl.
Qed.

(** [content[start : end + 1]] is the block from the first opening brace to
    the last closing brace. *)
Lemma slice_between_braces (pre mid post : str) :
  let content := pre ++ open_brace ++ mid ++ close_brace ++ post in
  ~ In 123%N pre -> ~ In 125%N post ->
  find_char 123 content = Z.of_nat (length pre)
  /\ rfind_char 125 content = Z.of_nat (length pre + 1 + length mid)
  /\ slice content (find_char 123 content) (rfind_char 125 content + 1)
     = open_brace ++ mid ++ close_brace.
Proof.
  intros content Hpre Hpost. unfold content, open_brace, close_brace.
  assert (H1 : find_char 123 (pre ++ [123%N] ++ mid ++ [125%N] ++ post)
               = Z.of_nat (length pre)).
  { apply (find_char_app 123 pre (mid ++ [125%N] ++ post) Hpre). }
  assert (H2 : rfind_char 125 (pre ++ [123%N] ++ mid ++ [125%N] ++ post)
               = Z.of_nat (length pre + 1 + length mid)).
  { replace (pre ++ [123%N] ++ mid ++ [125%N] ++ post)
      with ((pre ++ [123%N] ++ mid) ++ 125%N :: post)
      by (rewrite <- !app_assoc; reflexivity).
    rewrite rfind_char_app by exact Hpost.
    rewrite !length_app. simpl. f_equal. lia. }
  split; [exact H1|]. split; [exact H2|].
  rewrite H1, H2. unfold slice.
  rewrite Nat2Z.id.
  replace (Z.to_nat (Z.of_nat (length pre + 1 + length mid) + 1)
           - length pre)%nat with (length ([123%N] ++ mid ++ [125%N]))
    by (rewrite !length_app; simpl; lia).
  rewrite skipn_app, skipn_all, Nat.sub_diag. cbn [skipn app].
  replace (123%N :: mid ++ 125%N :: post)
    with (([123%N] ++ mid ++ [125%N]) ++ post)
    by (cbn [app]; rewrite <- app_assoc; reflexivity).
  rewrite firstn_app, firstn_all, Nat.sub_diag, firstn_O, app_nil_r.
  reflexivity.
Qed.

Lemma braces_found (s : str) :
  find_char 123 s <> (-1)%Z -> rfind_char 125 s <> (-1)%Z ->
  (rfind_char 125 s > find_char 123 s)%Z ->
  exists pre mid post,
    s = pre ++ open_brace ++ mid ++ close_brace ++ post
    /\ ~ In 123%N pre /\ ~ In 125%N post.
Proof.
  intros Hfind Hrfind Hgt.
  destruct (find_char_split 123 s Hfind) as (pre1 & post1 & E1 & Hpre).
  destruct (rfind_char_split 125 s Hrfind) as (pre2 & post2 & E2 & Hpost).
  assert (Hstart : find_char 123 s = Z.of_nat (length pre1))
    by (rewrite E1 at 1; now apply find_char_app).
  assert (Hend : rfind_char 125 s = Z.of_nat (length pre2))
    by (rewrite E2 at 1; now apply rfind_char_app).
  rewrite E1 in E2.
  destruct (app_eq_app _ _ _ _ E2) as [l [[H1 H2] | [H1 H2]]].
  - exfalso. rewrite H1, length_app in Hstart. lia.
  - destruct l as [|x mid].
    + exfalso. rewrite app_nil_r in H1. subst pre2. lia.
    + injection H2 as <- ->.
      exists pre1, mid, post2. split; [exact E1|]. split; assumption.
Qed.

Lemma wrapped_reply_parses :
  Reader.loads wrapped_reply = None
  /\ parse_json_content wrapped_reply
     = JDict [(u "a", JDict [(u "value", JInt 1)])].
Proof. split; vm_compute; reflexivity. Qed.

(** C1, as the specification states it, fails: a reply that is valid JSON
    but not an object is returned as it was read, so the result is not
    always a mapping. *)
Lemma parse_json_content_returns_a_list :
  parse_json_content (u "[1]") = JList [JInt 1]
  /\ is_dict (parse_json_content (u "[1]")) = false
  /\ parse_json_content (u "null") = JNull.
Proof. repeat split; vm_compute; reflexivity. Qed.

(** A slice of a text within the limits of the interpreter is within them. *)
Lemma leading_digits_app (s t : str) :
  (leading_digits s <= leading_digits (s ++ t))%nat.
Proof.
  induction s as [|c s IH]; cbn [leading_digits app]; [lia|].
  destruct (Reader.is_digit c); lia.
Qed.

Lemma longest_digit_run_app_l (s t : str) :
  (longest_digit_run s <= longest_digit_run (s ++ t))%nat.
Proof.
  induction s as [|c s IH]; [cbn; lia|].
  change ((c :: s) ++ t) with (c :: (s ++ t)). cbn [longest_digit_run].
  pose proof (leading_digits_app (c :: s) t) as H.
  change ((c :: s) ++ t) with (c :: (s ++ t)) in H. lia.
Qed.

Lemma longest_digit_run_app_r (s t : str) :
  (longest_digit_run t <= longest_digit_run (s ++ t))%nat.
Proof.
  induction s as [|c s IH]; [cbn [app]; lia|].
  change ((c :: s) ++ t) with (c :: (s ++ t)). cbn [longest_digit_run]. lia.
Qed.

Lemma within_limits_slice (pre s post : str) :
  within_limits (pre ++ s ++ post) = true -> within_limits s = true.
Proof.
  unfold within_limits, opening_brackets.
  rewrite !andb_true_iff, !Nat.leb_le, !filter_app, !length_app.
  pose proof (longest_digit_run_app_r pre (s ++ post)).
  pose proof (longest_digit_run_app_l s post). lia.
Qed.

(** C1, amended.  On a reply within the limits of the interpreter,
    [parse_json_content] returns and raises nothing.  When the strict reader
    accepts the whole reply, the result is the value read, whatever its
    type.  When it refuses it, the result is always a dict: the value read
    from the block that runs from the first opening brace to the last
    closing brace when that block exists and is valid JSON (the block is
    within the limits too), the empty dict when the block is invalid or when
    no opening brace comes before a closing one.  The reader itself never
    runs out of fuel, so a refusal is a decode error.  The reply of the
    scenario is refused as a whole and parses to [{"a": {"value": 1}}]
    through its block. *)
Theorem parse_json_content_strict_then_braces (content : str) :
  within_limits content = true ->
  (forall v, Reader.loads content = Some v -> parse_json_content content = v)
  /\ (Reader.loads content = None ->
      forall pre mid post,
        content = pre ++ open_brace ++ mid ++ close_brace ++ post ->
        ~ In 123%N pre -> ~ In 125%N post ->
        within_limits (open_brace ++ mid ++ close_brace) = true
        /\ parse_json_content content
           = match Reader.loads (open_brace ++ mid ++ close_brace) with
             | Some v => v
             | None => JDict []
             end)
  /\ (Reader.loads content = None ->
      (forall pre mid post,
          content <> pre ++ open_brace ++ mid ++ close_brace ++ post) ->
      parse_json_content content = JDict [])
  /\ (Reader.loads content = None -> is_dict (parse_json_content content) = true)
  /\ Reader.decode content <> Reader.Exhausted
  /\ Reader.loads wrapped_reply = None
  /\ parse_json_content wrapped_reply
     = JDict [(u "a", JDict [(u "value", JInt 1)])].
Proof.
  intros Hlim.
  assert (Hblock : Reader.loads content = None ->
            forall pre mid post,
              content = pre ++ open_brace ++ mid ++ close_brace ++ post ->
              ~ In 123%N pre -> ~ In 125%N post ->
              parse_json_content content
              = match Reader.loads (open_brace ++ mid ++ close_brace) with
                | Some v => v
                | None => JDict []
                end).
  { intros Hnone pre mid post -> Hpre Hpost.
    unfold parse_json_content. rewrite Hnone.
    destruct (slice_between_braces pre mid post Hpre Hpost) as (H1 & H2 & H3).
    rewrite H3, H1, H2.
    replace (negb (Z.of_nat (length pre) =? -1)%Z) with true
      by (symmetry; apply negb_true_iff, Z.eqb_neq; lia).
    replace (negb (Z.of_nat (length pre + 1 + length mid) =? -1)%Z) with true
      by (symmetry; apply negb_true_iff, Z.eqb_neq; lia).
    replace (Z.of_nat (length pre + 1 + length mid) >? Z.of_nat (length pre))%Z
      with true by (symmetry; rewrite Z.gtb_ltb; apply Z.ltb_lt; lia).
    reflexivity. }
  assert (Hcases : Reader.loads content = None ->
            (exists pre mid post,
                content = pre ++ open_brace ++ mid ++ close_brace ++ post
                /\ ~ In 123%N pre /\ ~ In 125%N post)
            \/ parse_json_content content = JDict []).
  { intros Hnone. unfold parse_json_content. rewrite Hnone.
    destruct (Z.eqb_spec (find_char 123 content) (-1)) as [|Hs];
      [right; reflexivity|].
    destruct (Z.eqb_spec (rfind_char 125 content) (-1)) as [|He];
      [right; reflexivity|].
    destruct (rfind_char 125 content >? find_char 123 content)%Z eqn:Hgt;
      [|right; reflexivity].
    left. rewrite Z.gtb_ltb in Hgt. apply Z.ltb_lt in Hgt.
    apply braces_found; [assumption|assumption|lia]. }
  split.
  { intros v Hv. unfold parse_json_content. now rewrite Hv. }
  split.
  { intros Hnone pre mid post E Hpre Hpost.
    split; [|exact (Hblock Hnone pre mid post E Hpre Hpost)].
    apply (within_limits_slice pre _ post).
    rewrite <- !app_assoc. rewrite <- E. exact Hlim. }
  split.
  { intros Hnone Hno.
    destruct (Hcases Hnone) as [(pre & mid & post & E & _)|H]; [|exact H].
    exfalso. exact (Hno pre mid post E). }
  split.
  { intros Hnone.
    destruct (Hcases Hnone) as [(pre & mid & post & E & Hpre & Hpost)|H];
      [|rewrite H; reflexivity].
    rewrite (Hblock Hnone pre mid post E Hpre Hpost).
    destruct (Reader.loads (open_brace ++ mid ++ close_brace)) as [v|] eqn:Ev;
      [|reflexivity].
    exact (loads_brace_dict _ _ Ev). }
  split; [apply decode_not_exhausted|].
  exact wrapped_reply_parses.
Qed.

Lemma parse_json_content_strict_then_braces_witness :
  within_limits wrapped_reply = true
  /\ Reader.loads wrapped_reply = None
  /\ is_dict (parse_json_content wrapped_reply) = true.
Proof.
  assert (Hlim : within_limits wrapped_reply = true) by (vm_compute; reflexivity).
  assert (H : Reader.loads wrapped_reply = None) by (vm_compute; reflexivity).
  split; [exact Hlim|]. split; [exact H|].
  exact (proj1 (proj2 (proj2 (proj2
           (parse_json_content_strict_then_braces wrapped_reply Hlim)))) H).
Defined.

(* --------------------------------------------------------------------- *)
(** ** [set_path]: what it writes and what it leaves alone                 *)
(* --------------------------------------------------------------------- *)

Lemma write_leaf_shape (cursor : dict) (last : str) (value page excerpt : json) :
  exists leaf src,
    write_leaf cursor last value page excerpt
    = dict_set cursor last (JDict leaf)
    /\ dict_get leaf (u "value") = Some value
    /\ dict_get leaf (u "source") = Some (JDict src)
    /\ dict_get src (u "page") = Some page
    /\ dict_get src (u "excerpt") = Some excerpt.
Proof.
  assert (Hvs : u "source" <> u "value") by (vm_compute; discriminate).
  assert (Hep : u "excerpt" <> u "page") by (vm_compute; discriminate).
  unfold write_leaf.
  destruct (dict_get cursor last) as [[| | | | | |leaf]|];
    try (eexists; eexists; split; [reflexivity|];
         repeat split; reflexivity).
  destruct (dict_get (dict_set leaf (u "value") value) (u "source"))
    as [[| | | | | |src]|];
    eexists; eexists; (split; [reflexivity|]);
    (split; [rewrite dict_get_set_other by exact Hvs; apply dict_get_set_same|]);
    (split; [apply dict_get_set_same|]);
    try (split; reflexivity).
  split; [|apply dict_get_set_same].
  rewrite dict_get_set_other by exact Hep. apply dict_get_set_same.
Qed.

Lemma get_parts_head (t1 t2 : dict) (k : str) (rest : list str) :
  dict_get t1 k = dict_get t2 k ->
  get_parts t1 (k :: rest) = get_parts t2 (k :: rest).
Proof. intros H. destruct rest; simpl; rewrite H; reflexivity. Qed.

Lemma get_parts_empty (ks : list str) : get_parts [] ks = None.
Proof. destruct ks as [|k [|k2 rest]]; reflexivity. Qed.

Lemma get_parts_cons (t : dict) (k k2 : str) (rest : list str) (child : dict) :
  dict_get t k = Some (JDict child) ->
  get_parts t (k :: k2 :: rest) = get_parts child (k2 :: rest).
Proof. intros H. cbn [get_parts]. rewrite H. reflexivity. Qed.

Lemma set_parts_step (t : dict) (k k2 : str) (rest : list str)
      (value page excerpt : json) :
  set_parts t (k :: k2 :: rest) value page excerpt
  = match dict_get t k with
    | None =>
        match set_parts [] (k2 :: rest) value page excerpt with
        | Some child => Some (dict_set t k (JDict child))
        | None => None
        end
    | Some (JDict child) =>
        match set_parts child (k2 :: rest) value page excerpt with
        | Some child => Some (dict_set t k (JDict child))
        | None => None
        end
    | Some _ => None
    end.
Proof. reflexivity. Qed.

(** What [set_path] returns when it does not raise. *)
Lemma set_parts_cases (t : dict) (k : str) (rest : list str)
      (value page excerpt : json) (t' : dict) :
  set_parts t (k :: rest) value page excerpt = Some t' ->
  (rest = [] /\ t' = write_leaf t k value page excerpt)
  \/ (exists k2 rest' child child',
         rest = k2 :: rest'
         /\ (dict_get t k = Some (JDict child)
             \/ (dict_get t k = None /\ child = []))
         /\ set_parts child rest value page excerpt = Some child'
         /\ t' = dict_set t k (JDict child')).
Proof.
  destruct rest as [|k2 rest'].
  - intros H; injection H as <-. left. split; reflexivity.
  - rewrite set_parts_step. intros H. right.
    destruct (dict_get t k) as [[| | | | | |child]|] eqn:E; try discriminate H.
    + destruct (set_parts child (k2 :: rest') value page excerpt)
        as [child'|] eqn:E'; [|discriminate H].
      injection H as <-.
      exists k2, rest', child, child'. repeat split; try reflexivity.
      * now left.
      * exact E'.
    + destruct (set_parts [] (k2 :: rest') value page excerpt)
        as [child'|] eqn:E'; [|discriminate H].
      injection H as <-.
      exists k2, rest', [], child'. repeat split; try reflexivity.
      * now right.
      * exact E'.
Qed.

(** After [set_path], the place holds the record. *)
Lemma set_parts_record (ks : list str) (t t' : dict) (value page excerpt : json) :
  set_parts t ks value page excerpt = Some t' ->
  record_at t' ks value page excerpt.
Proof.
  revert t t'. induction ks as [|k rest IH]; intros t t' H; [discriminate|].
  apply set_parts_cases in H.
  destruct H as [[-> ->] | (k2 & rest' & child & child' & -> & _ & Hset & ->)].
  - destruct (write_leaf_shape t k value page excerpt)
      as (leaf & src & -> & H1 & H2 & H3 & H4).
    exists leaf, src. cbn [get_parts]. rewrite dict_get_set_same. tauto.
  - destruct (IH child child' Hset) as (leaf & src & Hget & Hrec).
    exists leaf, src. split; [|exact Hrec].
    rewrite (get_parts_cons _ k k2 rest' child')
      by apply dict_get_set_same.
    exact Hget.
Qed.

Lemma set_parts_top_key (ks : list str) (t t' : dict) (k : str)
      (value page excerpt : json) :
  set_parts t ks value page excerpt = Some t' ->
  hd_error ks <> Some k -> dict_get t' k = dict_get t k.
Proof.
  destruct ks as [|k0 rest]; [discriminate|]. intros H Hne.
  assert (k0 <> k) by (intros ->; now apply Hne).
  apply set_parts_cases in H.
  destruct H as [[-> ->] | (k2 & rest' & child & child' & -> & _ & _ & ->)].
  - destruct (write_leaf_shape t k0 value page excerpt) as (leaf & src & -> & _).
    now apply dict_get_set_other.
  - now apply dict_get_set_other.
Qed.

(** [set_path] leaves alone every place whose path parts ways with the
    path it writes. *)
Lemma set_parts_frame (ks q : list str) (t t' : dict) (value page excerpt : json) :
  diverge ks q ->
  set_parts t ks value page excerpt = Some t' ->
  get_parts t' q = get_parts t q.
Proof.
  intros (c & a & b & p' & q' & -> & -> & Hab). revert t t'.
  induction c as [|k c IH]; intros t t' H.
  - cbn [app] in *. apply get_parts_head.
    apply (set_parts_top_key _ _ _ _ _ _ _ H). simpl. congruence.
  - cbn [app] in *. apply set_parts_cases in H.
    destruct H as [[E _] | (k2 & rest' & child & child' & E & Hchild & Hset & ->)].
    { destruct c; discriminate. }
    assert (Hq : exists k3 rest3, c ++ b :: q' = k3 :: rest3)
      by (destruct c; simpl; eauto).
    destruct Hq as (k3 & rest3 & Eq).
    specialize (IH child child' Hset). rewrite Eq in *.
    rewrite (get_parts_cons _ k k3 rest3 child') by apply dict_get_set_same.
    rewrite IH.
    destruct Hchild as [Hc | [Hc ->]].
    + symmetry. now apply get_parts_cons.
    + rewrite get_parts_empty. cbn [get_parts]. now rewrite Hc.
Qed.

Lemma diverge_sym (p q : list str) : diverge p q -> diverge q p.
Proof.
  intros (c & a & b & p' & q' & -> & -> & Hab).
  exists c, b, a, q', p'. repeat split. congruence.
Qed.

Lemma diverge_cons (k : str) (p q : list str) :
  diverge p q -> diverge (k :: p) (k :: q).
Proof.
  intros (c & a & b & p' & q' & -> & -> & Hab).
  exists (k :: c), a, b, p', q'. repeat split. exact Hab.
Qed.

Lemma diverge_heads (a b : str) (p q : list str) :
  a <> b -> diverge (a :: p) (b :: q).
Proof. intros H. exists [], a, b, p, q. repeat split. exact H. Qed.

Lemma diverge_neq (p q : list str) : diverge p q -> p <> q.
Proof.
  intros (c & a & b & p' & q' & -> & -> & Hab) E.
  apply app_inv_head in E. congruence.
Qed.

(** A write below a place that holds a dict leaves a dict there. *)
Lemma set_parts_below (p more : list str) (t t' : dict)
      (value page excerpt : json) :
  more <> [] -> dict_at t p ->
  set_parts t (p ++ more) value page excerpt = Some t' ->
  dict_at t' p.
Proof.
  intros Hmore. revert t t'.
  induction p as [|k rest IH]; intros t t' [leaf Hleaf] H.
  - discriminate.
  - cbn [app] in H. apply set_parts_cases in H.
    destruct H as [[E _] | (k2 & rest' & child & child' & E & Hchild & Hset & ->)].
    { destruct rest, more; try discriminate. now contradiction Hmore. }
    destruct rest as [|k3 rest3].
    + exists child'. cbn [get_parts]. apply dict_get_set_same.
    + cbn [get_parts] in Hleaf.
      destruct Hchild as [Hc | [Hc ->]]; rewrite Hc in Hleaf; [|discriminate].
      destruct (IH child child' (ex_intro _ leaf Hleaf) Hset) as [leaf' Hleaf'].
      exists leaf'.
      rewrite (get_parts_cons _ k k3 rest3 child') by apply dict_get_set_same.
      exact Hleaf'.
Qed.

(** [set_path] does not raise on a path that leads to a dict. *)
Lemma set_parts_succeeds (ks : list str) (t : dict) (value page excerpt : json) :
  dict_at t ks -> exists t', set_parts t ks value page excerpt = Some t'.
Proof.
  revert t. induction ks as [|k rest IH]; intros t [leaf Hleaf]; [discriminate|].
  destruct rest as [|k2 rest'].
  - eexists. reflexivity.
  - rewrite set_parts_step.
    destruct (dict_get t k) as [[| | | | | |child]|] eqn:E;
      try (cbn [get_parts] in Hleaf; rewrite E in Hleaf; discriminate Hleaf).
    rewrite (get_parts_cons _ _ _ _ _ E) in Hleaf.
    destruct (IH child (ex_intro _ leaf Hleaf)) as [child' ->].
    eexists. reflexivity.
Qed.

(* --------------------------------------------------------------------- *)
(** ** The fill loop                                                       *)
(* --------------------------------------------------------------------- *)

Lemma fill_fields_none (llm_result : json) (specs : list field_spec) :
  fold_left (fun acc spec =>
               match acc with
               | Some t => fill_field llm_result t spec
               | None => None
               end) specs None = None.
Proof. induction specs; simpl; auto. Qed.

Lemma fill_fields_cons (llm_result : json) (t : dict) (spec : field_spec)
      (specs : list field_spec) :
  fill_fields llm_result t (spec :: specs)
  = match fill_field llm_result t spec with
    | Some t1 => fill_fields llm_result t1 specs
    | None => None
    end.
Proof.
  unfold fill_fields. simpl.
  destruct (fill_field llm_result t spec); [reflexivity|].
  apply fill_fields_none.
Qed.

(** When the key paths of the fields part ways two by two and each leads to
    a dict, the loop does not raise, every field ends with the record the
    loop computes for it, and every place that parts ways with all the
    fields is as it was. *)
Lemma fill_fields_records (llm_result : dict) (specs : list field_spec) (t : dict) :
  ForallOrdPairs diverge (map keys_of specs) ->
  Forall (fun spec => dict_at t (keys_of spec)) specs ->
  exists t',
    fill_fields (JDict llm_result) t specs = Some t'
    /\ Forall (fun spec =>
                 record_at t' (keys_of spec)
                           (written_value llm_result (fst (fst spec)))
                           (written_page llm_result (fst (fst spec)))
                           (written_excerpt llm_result (fst (fst spec))))
              specs
    /\ (forall q, Forall (fun spec => diverge (keys_of spec) q) specs ->
                  get_parts t' q = get_parts t q).
Proof.
  revert t. induction specs as [|spec specs IH]; intros t Hpair Hdict.
  - exists t. repeat split; constructor.
  - inversion Hpair as [|? ? Hhead Hrest]; subst.
    inversion Hdict as [|? ? Hspec Hothers]; subst.
    rewrite fill_fields_cons. unfold fill_field at 1, set_path.
    fold (keys_of spec).
    destruct (set_parts_succeeds (keys_of spec) t
                (payload_value (payload_of llm_result (fst (fst spec))))
                (payload_page (payload_of llm_result (fst (fst spec))))
                (payload_excerpt (payload_of llm_result (fst (fst spec))))
                Hspec) as [t1 Hset].
    rewrite Hset.
    assert (Hdict1 : Forall (fun spec' => dict_at t1 (keys_of spec')) specs).
    { rewrite Forall_forall in *. intros spec' Hin.
      destruct (Hothers spec' Hin) as [leaf Hleaf]. exists leaf.
      rewrite (set_parts_frame _ _ _ _ _ _ _
                 (Hhead (keys_of spec') (in_map keys_of _ _ Hin)) Hset).
      exact Hleaf. }
    destruct (IH t1 Hrest Hdict1) as (t' & Hfill & Hrecs & Hframe).
    exists t'. split; [exact Hfill|]. split.
    + constructor; [|exact Hrecs].
      destruct (set_parts_record _ _ _ _ _ _ Hset) as (leaf & src & Hget & Hrec).
      exists leaf, src. split; [|exact Hrec].
      rewrite Hframe; [exact Hget|].
      rewrite Forall_forall in *. intros spec' Hin.
      apply diverge_sym, Hhead, in_map, Hin.
    + intros q Hq. inversion Hq as [|? ? Hq1 Hq2]; subst.
      rewrite (Hframe q Hq2).
      exact (set_parts_frame _ _ _ _ _ _ _ Hq1 Hset).
Qed.

(** *** Dot-paths *)

Lemma split_char_nodot (k : str) : ~ In 46%N k -> split_char 46 k = [k].
Proof.
  induction k as [|c k IH]; intros Hnotin; [reflexivity|].
  cbn [split_char]. destruct (N.eqb_spec c 46) as [->|Hne].
  - exfalso. apply Hnotin. now left.
  - rewrite IH by (intros H; apply Hnotin; now right). reflexivity.
Qed.

Lemma split_char_app (k s : str) :
  ~ In 46%N k -> split_char 46 (k ++ 46%N :: s) = k :: split_char 46 s.
Proof.
  induction k as [|c k IH]; intros Hnotin.
  - reflexivity.
  - cbn [app split_char]. destruct (N.eqb_spec c 46) as [->|Hne].
    + exfalso. apply Hnotin. now left.
    + rewrite IH by (intros H; apply Hnotin; now right). reflexivity.
Qed.

Lemma join_cons2 (sep k k2 : str) (rest : list str) :
  join sep (k :: k2 :: rest) = k ++ sep ++ join sep (k2 :: rest).
Proof. reflexivity. Qed.

(** Splitting the dot-path of a list of keys gives the keys back. *)
Lemma split_char_join (ks : list str) :
  ks <> [] -> Forall (fun k => ~ In 46%N k) ks ->
  split_char 46 (join [46%N] ks) = ks.
Proof.
  induction ks as [|k rest IH]; intros Hne Hall; [now contradiction Hne|].
  inversion Hall as [|? ? Hk Hrest]; subst.
  destruct rest as [|k2 rest].
  - apply split_char_nodot, Hk.
  - rewrite join_cons2. cbn [app]. rewrite split_char_app by exact Hk.
    rewrite IH; [reflexivity | discriminate | exact Hrest].
Qed.

Lemma join_snoc (pk : list str) (k : str) :
  pk <> [] -> join [46%N] (pk ++ [k]) = join [46%N] pk ++ [46%N] ++ k.
Proof.
  induction pk as [|k0 rest IH]; intros Hne; [now contradiction Hne|].
  destruct rest as [|k1 rest].
  - reflexivity.
  - change ((k0 :: k1 :: rest) ++ [k]) with (k0 :: (k1 :: rest) ++ [k]).
    cbn [app]. rewrite !join_cons2.
    change (k1 :: rest ++ [k]) with ((k1 :: rest) ++ [k]).
    rewrite IH by discriminate. rewrite <- !app_assoc. reflexivity.
Qed.

Lemma join_nonempty (pk : list str) :
  pk <> [] -> Forall (fun k => key_ok k = true) pk -> join [46%N] pk <> [].
Proof.
  destruct pk as [|k rest]; intros Hne Hall; [now contradiction Hne|].
  inversion Hall as [|? ? Hk _]; subst.
  unfold key_ok in Hk. apply andb_true_iff in Hk. destruct Hk as [Hk _].
  destruct k; [discriminate|]. destruct rest; discriminate.
Qed.

Lemma key_ok_nodot (k : str) : key_ok k = true -> ~ In 46%N k.
Proof.
  unfold key_ok. intros H Hin. apply andb_true_iff in H. destruct H as [_ H].
  apply negb_true_iff in H.
  assert (existsb (N.eqb 46) k = true) as Hex.
  { apply existsb_exists. exists 46%N. split; [exact Hin | apply N.eqb_refl]. }
  congruence.
Qed.

(* --------------------------------------------------------------------- *)
(** ** The fields of a well-formed template                                *)
(* --------------------------------------------------------------------- *)

(** Induction on a JSON value, with the hypothesis on every item of a list
    and every value of an object. *)
Lemma json_nested_ind (P : json -> Prop) :
  P JNull -> (forall b, P (JBool b)) -> (forall n, P (JInt n)) ->
  (forall x, P (JFloat x)) -> (forall s, P (JStr s)) ->
  (forall items, Forall P items -> P (JList items)) ->
  (forall entries, Forall (fun kv => P (snd kv)) entries -> P (JDict entries)) ->
  forall v, P v.
Proof.
  intros HNull HBool HInt HFloat HStr HList HDict.
  fix IH 1. intros [| b | n | x | s | items | entries].
  - exact HNull.
  - apply HBool.
  - apply HInt.
  - apply HFloat.
  - apply HStr.
  - apply HList. induction items as [|v items IHitems]; constructor.
    + apply IH.
    + exact IHitems.
  - apply HDict. induction entries as [|[k v] entries IHentries]; constructor.
    + apply IH.
    + exact IHentries.
Qed.

Lemma keys_distinct_NoDup (ks : list str) : keys_distinct ks = true -> NoDup ks.
Proof.
  induction ks as [|k rest IH]; simpl; intros H; constructor.
  - apply andb_true_iff in H. destruct H as [H _].
    apply negb_true_iff in H. intros Hin.
    assert (existsb (str_eqb k) rest = true) as Hex.
    { apply existsb_exists. exists k. split; [exact Hin | apply str_eqb_refl]. }
    congruence.
  - apply IH. apply andb_true_iff in H. tauto.
Qed.

Lemma field_keys_at_cons (k : str) (v : json) (rest : list (str * json)) :
  field_keys_at (JDict ((k, v) :: rest))
  = (if is_field v then
       [([k], match v with
              | JDict d => dict_get_default d (u "expected_type") (JStr [])
              | _ => JNull
              end)]
     else map (fun f => (k :: fst f, snd f)) (field_keys_at v))
    ++ field_keys_at (JDict rest).
Proof. reflexivity. Qed.

Lemma well_formed_cons (k : str) (v : json) (rest : list (str * json)) :
  well_formed (JDict ((k, v) :: rest)) = true ->
  key_ok k = true /\ ~ In k (map fst rest)
  /\ (is_field v = true \/ well_formed v = true)
  /\ well_formed (JDict rest) = true.
Proof.
  cbn [well_formed map fst keys_distinct forallb].
  rewrite !andb_true_iff. intros [[[Hk Hd] [Hok Hoks]] [Hv Hall]].
  split; [exact Hok|]. split.
  - apply negb_true_iff in Hk. intros Hin.
    assert (existsb (str_eqb k) (map fst rest) = true) as Hex.
    { apply existsb_exists. exists k. split; [exact Hin | apply str_eqb_refl]. }
    congruence.
  - split; [destruct (is_field v); [now left | now right]|].
    now rewrite Hd, Hoks, Hall.
Qed.

Lemma FOP_app {A} (R : A -> A -> Prop) (l1 l2 : list A) :
  ForallOrdPairs R l1 -> ForallOrdPairs R l2 ->
  (forall x y, In x l1 -> In y l2 -> R x y) ->
  ForallOrdPairs R (l1 ++ l2).
Proof.
  intros H1 H2 Hcross. induction H1 as [|a l Ha Hl IH]; [exact H2|].
  simpl. constructor.
  - apply Forall_app. split; [exact Ha|].
    apply Forall_forall. intros y Hy. apply Hcross; [now left | exact Hy].
  - apply IH. intros x y Hx Hy. apply Hcross; [now right | exact Hy].
Qed.

Lemma FOP_sublist {A} (R : A -> A -> Prop) (keep : A -> bool) (l : list A) :
  ForallOrdPairs R l -> ForallOrdPairs R (filter keep l).
Proof.
  induction 1 as [|a l Ha Hl IH]; simpl; [constructor|].
  destruct (keep a); [|exact IH]. constructor; [|exact IH].
  rewrite Forall_forall in *. intros x Hx. apply filter_In in Hx. now apply Ha.
Qed.

Lemma FOP_map {A B} (R : A -> A -> Prop) (S : B -> B -> Prop) (g : A -> B)
      (l : list A) :
  (forall x y, R x y -> S (g x) (g y)) ->
  ForallOrdPairs R l -> ForallOrdPairs S (map g l).
Proof.
  intros Hg. induction 1 as [|a l Ha Hl IH]; simpl; constructor; [|exact IH].
  rewrite Forall_forall in *. intros y Hy. apply in_map_iff in Hy.
  destruct Hy as [x [<- Hx]]. apply Hg, Ha, Hx.
Qed.

Lemma dict_at_skip (k : str) (v : json) (rest : dict) (ks : list str) :
  hd_error ks <> Some k -> dict_at rest ks -> dict_at ((k, v) :: rest) ks.
Proof.
  intros Hne [leaf Hleaf]. exists leaf. rewrite <- Hleaf.
  destruct ks as [|k' ks']; [reflexivity|].
  apply get_parts_head. simpl.
  assert (k' <> k) as Hk by (intros ->; now apply Hne).
  apply str_eqb_neq in Hk. now rewrite Hk.
Qed.

(** In a well-formed object every field has its place, and the key paths
    of two fields part ways. *)
Lemma field_keys_in_place (v : json) :
  well_formed v = true -> fields_in_place v.
Proof.
  induction v as [| | | | | |entries IHentries] using json_nested_ind;
    try (intros _; exact I).
  induction entries as [|[k v] rest IHrest]; intros Hwf.
  - split; constructor.
  - inversion IHentries as [|? ? IHv IHothers]; subst. cbn [snd] in IHv.
    destruct (well_formed_cons _ _ _ Hwf) as (Hk & Hnotin & Hv & Hrest).
    destruct (IHrest IHothers Hrest) as [Hplaces Hpairs].
    unfold fields_in_place. rewrite field_keys_at_cons.
    set (item := if is_field v then _ else _).
    assert (Hitem : Forall (field_place ((k, v) :: rest)) item
                    /\ ForallOrdPairs diverge (map fst item)
                    /\ Forall (fun f => hd_error (fst f) = Some k) item).
    { subst item. destruct (is_field v) eqn:Hfield.
      - destruct v as [| | | | | |d]; try discriminate Hfield.
        split; [|split]; repeat constructor.
        exists k, []. cbn [fst map]. split; [reflexivity|].
        split; [now left|]. split; [repeat constructor; exact Hk|].
        exists d. simpl. now rewrite str_eqb_refl.
      - destruct Hv as [Hv|Hv]; [congruence|].
        specialize (IHv Hv).
        destruct v as [| | | | | |child]; try (split; [|split]; constructor).
        destruct IHv as [Hchild Hchildpairs].
        split; [|split].
        + apply Forall_forall. intros f Hf. apply in_map_iff in Hf.
          destruct Hf as [f' [<- Hf']].
          rewrite Forall_forall in Hchild.
          destruct (Hchild f' Hf') as (k2 & ks & E & _ & Hkeys & [leaf Hleaf]).
          exists k, (fst f'). cbn [fst map]. split; [reflexivity|].
          split; [now left|]. split; [constructor; assumption|].
          exists leaf. rewrite E in *.
          rewrite (get_parts_cons _ k k2 ks child); [exact Hleaf|].
          simpl. now rewrite str_eqb_refl.
        + rewrite map_map. cbn [fst].
          rewrite <- (map_map fst (cons k)).
          apply (FOP_map diverge diverge (cons k)); [|exact Hchildpairs].
          intros x y. apply diverge_cons.
        + apply Forall_forall. intros f Hf. apply in_map_iff in Hf.
          destruct Hf as [f' [<- _]]. reflexivity. }
    destruct Hitem as (Hitem1 & Hitem2 & Hitem3).
    split.
    + apply Forall_app. split; [exact Hitem1|].
      rewrite Forall_forall in *. intros f Hf.
      destruct (Hplaces f Hf) as (k' & ks & E & Hin & Hkeys & Hat).
      exists k', ks. split; [exact E|]. split; [now right|].
      split; [exact Hkeys|].
      apply dict_at_skip; [|exact Hat].
      rewrite E. simpl. intros H; injection H as ->. contradiction.
    + rewrite map_app. apply FOP_app; [exact Hitem2 | exact Hpairs |].
      intros x y Hx Hy. apply in_map_iff in Hx. apply in_map_iff in Hy.
      destruct Hx as [fx [<- Hfx]]. destruct Hy as [fy [<- Hfy]].
      rewrite Forall_forall in Hitem3, Hplaces.
      specialize (Hitem3 fx Hfx).
      destruct (Hplaces fy Hfy) as (k' & ks & E & Hin & _).
      destruct (fst fx) as [|kx ksx]; [discriminate|].
      injection Hitem3 as ->. rewrite E.
      apply diverge_heads. intros ->. contradiction.
Qed.

Lemma collect_fields_at_cons (k : str) (v : json) (rest : list (str * json))
      (prefix : str) :
  collect_fields_at (JDict ((k, v) :: rest)) prefix
  = (let path := match prefix with
                 | [] => k
                 | _ :: _ => prefix ++ u "." ++ k
                 end in
     if startswith path (u "meta.") then []
     else match v with
          | JDict d =>
              if dict_has d (u "expected_type")
              then [(path, path, dict_get_default d (u "expected_type") (JStr []))]
              else collect_fields_at v path
          | _ => []
          end)
    ++ collect_fields_at (JDict rest) prefix.
Proof. reflexivity. Qed.

(** [f"{prefix}.{k}" if prefix else k] is the dot-path of the keys so far
    and [k]. *)
Lemma child_path (pk : list str) (k : str) :
  Forall (fun k => key_ok k = true) pk ->
  match join [46%N] pk with
  | [] => k
  | _ :: _ => join [46%N] pk ++ u "." ++ k
  end = dot_path pk [k].
Proof.
  intros Hpk. unfold dot_path. destruct pk as [|k0 rest]; [reflexivity|].
  pose proof (join_nonempty (k0 :: rest) ltac:(discriminate) Hpk) as Hne.
  rewrite join_snoc by discriminate.
  destruct (join [46%N] (k0 :: rest)); [now contradiction Hne | reflexivity].
Qed.

Lemma startswith_app (s x p : str) :
  startswith s p = true -> startswith (s ++ x) p = true.
Proof.
  rewrite !startswith_spec. intros [post ->]. exists (post ++ x).
  now rewrite app_assoc.
Qed.

Lemma join_app_prefix (l ks : list str) :
  l <> [] -> exists x, join [46%N] (l ++ ks) = join [46%N] l ++ x.
Proof.
  intros Hne. revert l Hne. induction ks as [|k ks IH]; intros l Hne.
  - exists []. now rewrite !app_nil_r.
  - destruct (IH (l ++ [k]) ltac:(destruct l; discriminate)) as [x Hx].
    exists ([46%N] ++ k ++ x).
    replace (l ++ k :: ks) with ((l ++ [k]) ++ ks)
      by (rewrite <- app_assoc; reflexivity).
    rewrite Hx, join_snoc by exact Hne. now rewrite <- !app_assoc.
Qed.

Lemma dot_path_shift (pk : list str) (k : str) (ks : list str) :
  dot_path pk (k :: ks) = dot_path (pk ++ [k]) ks.
Proof. unfold dot_path. now rewrite <- app_assoc. Qed.

Lemma under_meta (pk : list str) (k : str) (ks : list str) :
  startswith (dot_path pk [k]) (u "meta.") = true ->
  startswith (dot_path pk (k :: ks)) (u "meta.") = true.
Proof.
  intros H. rewrite dot_path_shift. unfold dot_path in *.
  destruct (join_app_prefix (pk ++ [k]) ks ltac:(destruct pk; discriminate))
    as [x ->].
  now apply startswith_app.
Qed.

Lemma shift_fields (pk : list str) (k : str) (l : list (list str * json)) :
  map (spec_of (pk ++ [k])) (filter (outside_meta (pk ++ [k])) l)
  = map (spec_of pk)
        (filter (outside_meta pk) (map (fun f => (k :: fst f, snd f)) l)).
Proof.
  induction l as [|f l IH]; [reflexivity|]. cbn [map filter].
  assert (E1 : outside_meta pk (k :: fst f, snd f) = outside_meta (pk ++ [k]) f)
    by (unfold outside_meta; cbn [fst]; now rewrite dot_path_shift).
  assert (E2 : spec_of pk (k :: fst f, snd f) = spec_of (pk ++ [k]) f)
    by (unfold spec_of; cbn [fst snd]; now rewrite dot_path_shift).
  rewrite E1. destruct (outside_meta (pk ++ [k]) f); cbn [map];
    [rewrite E2, IH; reflexivity | exact IH].
Qed.

(** [collect_fields] is the list of the fields, those whose dot-path starts
    with ["meta."] left out, each with its dot-path for path and label. *)
Lemma collect_fields_at_keys (v : json) :
  forall pk,
    Forall (fun k => key_ok k = true) pk -> well_formed v = true ->
    collect_fields_at v (join [46%N] pk)
    = map (spec_of pk) (filter (outside_meta pk) (field_keys_at v)).
Proof.
  induction v as [| | | | | |entries IHentries] using json_nested_ind;
    try (intros; reflexivity).
  induction entries as [|[k v] rest IHrest]; intros pk Hpk Hwf.
  - reflexivity.
  - inversion IHentries as [|? ? IHv IHothers]; subst. cbn [snd] in IHv.
    destruct (well_formed_cons _ _ _ Hwf) as (Hk & Hnotin & Hv & Hrest).
    rewrite collect_fields_at_cons, field_keys_at_cons, filter_app, map_app.
    rewrite (IHrest IHothers pk Hpk Hrest). f_equal.
    cbv zeta. rewrite child_path by exact Hpk.
    destruct (startswith (dot_path pk [k]) (u "meta.")) eqn:Hmeta.
    + assert (Hall : forall l : list (list str * json),
                 Forall (fun f => exists ks, fst f = k :: ks) l ->
                 filter (outside_meta pk) l = []).
      { intros l Hl. induction Hl as [|f l [ks E] _ IHl]; [reflexivity|].
        simpl. unfold outside_meta at 1. rewrite E, (under_meta pk k ks Hmeta).
        exact IHl. }
      rewrite Hall; [reflexivity|].
      destruct (is_field v).
      * repeat constructor. now exists [].
      * apply Forall_forall. intros f Hf. apply in_map_iff in Hf.
        destruct Hf as [f' [<- _]]. now exists (fst f').
    + destruct v as [| | | | | |d]; try reflexivity.
      cbn [is_field]. destruct (dict_has d (u "expected_type")) eqn:Hfield.
      * simpl. unfold outside_meta. cbn [fst]. rewrite Hmeta. reflexivity.
      * destruct Hv as [Hv|Hv]; [simpl in Hv; congruence|].
        assert (Hpk' : Forall (fun k => key_ok k = true) (pk ++ [k]))
          by (apply Forall_app; split; [exact Hpk | repeat constructor; exact Hk]).
        unfold dot_path at 1. rewrite (IHv (pk ++ [k]) Hpk' Hv).
        apply shift_fields.
Qed.

Lemma FOP_map_inv {A B} (S : B -> B -> Prop) (g : A -> B) (l : list A) :
  ForallOrdPairs S (map g l) ->
  ForallOrdPairs (fun x y => S (g x) (g y)) l.
Proof.
  induction l as [|a l IH]; intros H; [constructor|].
  inversion H as [|? ? Ha Hl]; subst. constructor; [|apply IH, Hl].
  rewrite Forall_forall in *. intros x Hx. apply Ha, in_map, Hx.
Qed.

Lemma FOP_weaken {A} (R S : A -> A -> Prop) (l : list A) :
  (forall x y, In x l -> In y l -> R x y -> S x y) ->
  ForallOrdPairs R l -> ForallOrdPairs S l.
Proof.
  intros Hrs H. induction H as [|a l Ha Hl IH]; constructor.
  - rewrite Forall_forall in *. intros y Hy.
    apply Hrs; [now left | now right | apply Ha, Hy].
  - apply IH. intros x y Hx Hy. apply Hrs; now right.
Qed.

(** The two [meta] writes do not raise on a template whose [meta] entry is
    a dict or is absent, and they leave a dict at every place that held one,
    provided its path is [meta] itself or starts elsewhere. *)
Lemma set_meta_keeps (t : dict) (document : str) :
  meta_ok t = true ->
  exists t1,
    set_meta t document = Some t1
    /\ forall k ks, dict_at t (k :: ks) -> k <> u "meta" \/ ks = [] ->
                    dict_at t1 (k :: ks).
Proof.
  intros Hmeta.
  assert (Hstep : forall (t0 : dict) (name : str) (value page excerpt : json),
             meta_ok t0 = true ->
             exists t', set_parts t0 [u "meta"; name] value page excerpt = Some t'
                        /\ meta_ok t' = true
                        /\ forall k ks, dict_at t0 (k :: ks) ->
                                        k <> u "meta" \/ ks = [] ->
                                        dict_at t' (k :: ks)).
  { intros t0 name value page excerpt Hok.
    assert (Hsome : exists t', set_parts t0 [u "meta"; name] value page excerpt
                               = Some t').
    { rewrite set_parts_step. unfold meta_ok in Hok.
      destruct (dict_get t0 (u "meta")) as [[| | | | | |child]|];
        try discriminate Hok; eexists; reflexivity. }
    destruct Hsome as [t' Hset]. exists t'. split; [exact Hset|]. split.
    - pose proof (set_parts_cases _ _ _ _ _ _ _ Hset) as Hc.
      destruct Hc as [[E _] | (k2 & rest' & child & child' & _ & _ & _ & ->)];
        [discriminate|].
      unfold meta_ok. now rewrite dict_get_set_same.
    - intros k ks Hat [Hk | ->].
      + destruct Hat as [leaf Hleaf]. exists leaf.
        rewrite (set_parts_frame [u "meta"; name] (k :: ks) _ _ _ _ _
                   (diverge_heads _ _ _ _ (not_eq_sym Hk)) Hset).
        exact Hleaf.
      + destruct (str_eq_dec k (u "meta")) as [-> | Hk].
        * apply (set_parts_below [u "meta"] [name] t0 t' value page excerpt);
            [discriminate | exact Hat | exact Hset].
        * destruct Hat as [leaf Hleaf]. exists leaf.
          rewrite (set_parts_frame [u "meta"; name] [k] _ _ _ _ _
                     (diverge_heads _ _ _ _ (not_eq_sym Hk)) Hset).
          exact Hleaf. }
  unfold set_meta, set_path.
  change (split_char 46 (u "meta.file_type")) with [u "meta"; u "file_type"].
  change (split_char 46 (u "meta.file_name")) with [u "meta"; u "file_name"].
  destruct (Hstep t (u "file_type") (JStr (lstrip_dots (path_suffix document)))
                  JNull (JStr []) Hmeta) as (ta & -> & Hoka & Hkeepa).
  destruct (Hstep ta (u "file_name") (JStr (path_name document))
                  JNull (JStr []) Hoka) as (t1 & -> & _ & Hkeep1).
  exists t1. split; [reflexivity|].
  intros k ks Hat Hcond. apply Hkeep1; [|exact Hcond].
  apply Hkeepa; assumption.
Qed.

Lemma kept_outside_meta (f : list str * json) (k : str) (ks : list str) :
  outside_meta [] f = true -> fst f = k :: ks -> k <> u "meta" \/ ks = [].
Proof.
  unfold outside_meta, dot_path. intros H E. rewrite E in H. cbn [app] in H.
  destruct ks as [|k2 rest]; [now right|]. left. intros ->.
  assert (Hstarts : startswith (join [46%N] (u "meta" :: k2 :: rest)) (u "meta.")
                    = true).
  { apply startswith_spec. exists (join [46%N] (k2 :: rest)).
    rewrite join_cons2. reflexivity. }
  rewrite Hstarts in H. discriminate H.
Qed.

(** The fields [collect_fields] finds in a well-formed template, seen as
    key paths. *)
Lemma collect_fields_wf (template : dict) :
  template_wf template ->
  let specs := collect_fields template [] in
  Forall (fun spec =>
            snd (fst spec) = fst (fst spec)
            /\ exists k ks, keys_of spec = k :: ks
                            /\ (k <> u "meta" \/ ks = [])
                            /\ dict_at template (keys_of spec)) specs
  /\ ForallOrdPairs diverge (map keys_of specs).
Proof.
  intros [Hwf _] specs. subst specs.
  set (kept := filter (outside_meta []) (field_keys_at (JDict template))).
  assert (Hspecs : collect_fields template [] = map (spec_of []) kept)
    by exact (collect_fields_at_keys (JDict template) [] (Forall_nil _) Hwf).
  rewrite Hspecs.
  destruct (field_keys_in_place _ Hwf) as [Hplaces Hpairs].
  assert (Hkeys : forall f, In f kept ->
                            keys_of (spec_of [] f) = fst f
                            /\ field_place template f
                            /\ outside_meta [] f = true).
  { intros f Hf. apply filter_In in Hf. destruct Hf as [Hf Hout].
    rewrite Forall_forall in Hplaces. specialize (Hplaces f Hf).
    split; [|split; assumption].
    destruct Hplaces as (k & ks & E & _ & Hok & _).
    unfold keys_of, spec_of, dot_path. cbn [fst app].
    apply split_char_join; [rewrite E; discriminate|].
    rewrite Forall_forall in *. intros x Hx. apply key_ok_nodot, Hok, Hx. }
  split.
  - apply Forall_forall. intros spec Hspec. apply in_map_iff in Hspec.
    destruct Hspec as [f [<- Hf]].
    destruct (Hkeys f Hf) as (E & (k & ks & Ef & _ & _ & Hat) & Hout).
    split; [reflexivity|].
    exists k, ks. rewrite E. split; [exact Ef|].
    split; [exact (kept_outside_meta f k ks Hout Ef) | exact Hat].
  - rewrite map_map.
    apply (FOP_map (fun f g => diverge (keys_of (spec_of [] f))
                                       (keys_of (spec_of [] g)))
                   diverge (fun f => keys_of (spec_of [] f))).
    + intros x y H. exact H.
    + apply (FOP_weaken (fun f g => diverge (fst f) (fst g))).
      * intros x y Hx Hy H.
        rewrite (proj1 (Hkeys x Hx)), (proj1 (Hkeys y Hy)). exact H.
      * apply FOP_sublist, FOP_map_inv, Hpairs.
Qed.

(** The fill step on a well-formed template: it does not raise, the paths
    of the fields are pairwise distinct, and every field ends with the
    record the loop computes for it. *)
Lemma fill_template_records (template : dict) (document : str) (llm_result : dict) :
  template_wf template ->
  exists out,
    fill_template (JDict llm_result) template document
                  (collect_fields template []) = Some out
    /\ NoDup (map (fun spec => fst (fst spec)) (collect_fields template []))
    /\ Forall (fun spec =>
                 record_at out (keys_of spec)
                           (written_value llm_result (fst (fst spec)))
                           (written_page llm_result (fst (fst spec)))
                           (written_excerpt llm_result (fst (fst spec))))
              (collect_fields template []).
Proof.
  intros Hwf. destruct (collect_fields_wf template Hwf) as [Hspecs Hpairs].
  destruct (set_meta_keeps template document (proj2 Hwf)) as (t1 & Hmeta & Hkeep).
  assert (Hdict : Forall (fun spec => dict_at t1 (keys_of spec))
                         (collect_fields template [])).
  { rewrite Forall_forall in *. intros spec Hin.
    destruct (Hspecs spec Hin) as (_ & k & ks & E & Hcond & Hat).
    rewrite E in *. now apply Hkeep. }
  destruct (fill_fields_records llm_result _ t1 Hpairs Hdict)
    as (out & Hfill & Hrecs & _).
  exists out. unfold fill_template. rewrite Hmeta.
  split; [exact Hfill|]. split; [|exact Hrecs].
  apply NoDup_iff_ForallOrdPairs.
  apply (FOP_map (fun x y => diverge (keys_of x) (keys_of y))).
  - intros x y Hd E. apply (diverge_neq _ _ Hd). unfold keys_of. now rewrite E.
  - apply FOP_map_inv, Hpairs.
Qed.

Lemma written_value_absent (llm_result : dict) (path : str) :
  dict_get llm_result path = None ->
  written_value llm_result path = JStr (u "not found")
  /\ written_page llm_result path = JNull
  /\ written_excerpt llm_result path = JNull.
Proof.
  intros H. unfold written_value, written_page, written_excerpt, payload_of,
              dict_get_default.
  rewrite H. repeat split; reflexivity.
Qed.

(** C5.  On a well-formed template the fill step does not raise, whatever
    the extraction result, and its output holds, at the dot-path of every
    field [collect_fields] finds (the paths are pairwise distinct), a record
    with a [value] and a [source] of [page] and [excerpt], as computed from
    the result.  A field the result has no entry for gets the value
    "not found"; so does, for a result merged from the replies of the
    chunks, a field that no reply reports as found. *)
Theorem fill_writes_one_record_per_field
        (template : dict) (document : str) (llm_result : dict) :
  template_wf template ->
  exists out,
    fill_template (JDict llm_result) template document
                  (collect_fields template []) = Some out
    /\ NoDup (map (fun spec => fst (fst spec)) (collect_fields template []))
    /\ (forall path label typ,
           In (path, label, typ) (collect_fields template []) ->
           exists leaf src,
             get_path out path = Some (JDict leaf)
             /\ dict_get leaf (u "value") = Some (written_value llm_result path)
             /\ dict_get leaf (u "source") = Some (JDict src)
             /\ dict_get src (u "page") = Some (written_page llm_result path)
             /\ dict_get src (u "excerpt")
                = Some (written_excerpt llm_result path))
    /\ (forall path, dict_get llm_result path = None ->
                     written_value llm_result path = JStr (u "not found"))
    /\ (forall updates path,
           llm_result = merge_all updates [] ->
           Forall update_wf updates ->
           (forall r, In r updates -> finding r path = None) ->
           written_value llm_result path = JStr (u "not found")).
Proof.
  intros Hwf.
  destruct (fill_template_records template document llm_result Hwf)
    as (out & Hfill & Hnodup & Hrecs).
  exists out. split; [exact Hfill|]. split; [exact Hnodup|]. split; [|split].
  - intros path label typ Hin. rewrite Forall_forall in Hrecs.
    exact (Hrecs _ Hin).
  - intros path H. apply (written_value_absent _ _ H).
  - intros updates path -> Hupd Hnone.
    apply written_value_absent.
    destruct (merge_all_lookup updates [] path Hupd)
      as [(r & v & Hin & Hf & _) | [_ Hget]].
    + rewrite (Hnone r Hin) in Hf. discriminate.
    + exact Hget.
Qed.

Lemma small_template_wf : template_wf small_template.
Proof. split; reflexivity. Qed.

Lemma fill_writes_one_record_per_field_witness :
  template_wf small_template
  /\ exists out,
       fill_template (JDict []) small_template (u "docs/carnet.pdf")
                     (collect_fields small_template []) = Some out
       /\ exists leaf,
            get_path out (u "a.b") = Some (JDict leaf)
            /\ dict_get leaf (u "value") = Some (JStr (u "not found")).
Proof.
  split; [exact small_template_wf|].
  destruct (fill_writes_one_record_per_field
              small_template (u "docs/carnet.pdf") [] small_template_wf)
    as (out & Hfill & _ & Hrec & _).
  exists out. split; [exact Hfill|].
  destruct (Hrec (u "a.b") (u "a.b") (JStr (u "string")) (or_introl eq_refl))
    as (leaf & src & Hget & Hvalue & _).
  exists leaf. split; [exact Hget | exact Hvalue].
Defined.

(** C10, as stated, fails for a payload that is not a dict: the loop takes
    the empty string, not null, for its excerpt. *)
Lemma non_dict_payload_gets_empty_excerpt :
  match fill_template odd_reply small_template (u "docs/carnet.pdf")
                      (collect_fields small_template []) with
  | Some out => get_path out (u "a.b")
  | None => None
  end
  = Some (JDict [(u "expected_type", JStr (u "string"));
                 (u "value", JStr (u "not found"));
                 (u "source", JDict [(u "page", JNull); (u "excerpt", JStr [])])])
  /\ JStr [] <> JNull.
Proof. split; [vm_compute; reflexivity | discriminate]. Qed.

(** C10, amended.  For a field whose path has no entry in the result, the
    fill step writes the value "not found" with a null page and a null
    excerpt.  For a field whose entry is not a dict it writes "not found"
    with a null page and the empty string for excerpt.  For a field whose
    entry is a dict it writes the entry's [value], [page] and [excerpt],
    with "not found", null and null for those the entry lacks. *)
Theorem fill_defaults_by_payload_shape
        (template : dict) (document : str) (llm_result : dict) :
  template_wf template ->
  exists out,
    fill_template (JDict llm_result) template document
                  (collect_fields template []) = Some out
    /\ forall path label typ,
         In (path, label, typ) (collect_fields template []) ->
         (dict_get llm_result path = None ->
          record_at out (split_char 46 path) (JStr (u "not found")) JNull JNull)
         /\ (forall v, dict_get llm_result path = Some v -> is_dict v = false ->
                       record_at out (split_char 46 path)
                                 (JStr (u "not found")) JNull (JStr []))
         /\ (forall payload,
                dict_get llm_result path = Some (JDict payload) ->
                record_at out (split_char 46 path)
                          (dict_get_default payload (u "value") (JStr (u "not found")))
                          (dict_get_default payload (u "page") JNull)
                          (dict_get_default payload (u "excerpt") JNull)).
Proof.
  intros Hwf.
  destruct (fill_template_records template document llm_result Hwf)
    as (out & Hfill & _ & Hrecs).
  exists out. split; [exact Hfill|].
  intros path label typ Hin. rewrite Forall_forall in Hrecs.
  pose proof (Hrecs _ Hin) as Hrec. cbn [fst] in Hrec.
  unfold keys_of, written_value, written_page, written_excerpt, payload_of,
    dict_get_default in Hrec. cbn [fst] in Hrec.
  split; [|split].
  - intros H. rewrite H in Hrec. exact Hrec.
  - intros v H Hv. rewrite H in Hrec. destruct v; try exact Hrec. discriminate.
  - intros payload H. rewrite H in Hrec. exact Hrec.
Qed.

Lemma fill_defaults_by_payload_shape_witness :
  template_wf small_template
  /\ exists out,
       fill_template odd_reply small_template (u "docs/carnet.pdf")
                     (collect_fields small_template []) = Some out
       /\ record_at out (split_char 46 (u "a.b"))
                    (JStr (u "not found")) JNull (JStr []).
Proof.
  split; [exact small_template_wf|].
  destruct (fill_defaults_by_payload_shape
              small_template (u "docs/carnet.pdf") [(u "a.b", JStr (u "oops"))]
              small_template_wf)
    as (out & Hfill & Hrec).
  exists out. split; [exact Hfill|].
  exact (proj1 (proj2 (Hrec (u "a.b") (u "a.b") (JStr (u "string"))
                            (or_introl eq_refl)))
               (JStr (u "oops")) eq_refl eq_refl).
Defined.

(* --------------------------------------------------------------------- *)
(** ** The credential                                                      *)
(* --------------------------------------------------------------------- *)

Lemma mistral_ocr_image_absent (w : world) (png model : str) (st : state) :
  credential_absent w (u "MISTRAL_API_KEY") = true ->
  mistral_ocr_image w png model st
  = (inl (EnvironmentError MISTRAL_KEY_MISSING), st).
Proof. intros H. unfold mistral_ocr_image. rewrite H. reflexivity. Qed.

Lemma call_mistral_absent (w : world) (messages : list str) (model : str)
      (st : state) :
  credential_absent w (u "MISTRAL_API_KEY") = true ->
  call_mistral w messages model st
  = (inl (EnvironmentError MISTRAL_KEY_MISSING), st).
Proof. intros H. unfold call_mistral. rewrite H. reflexivity. Qed.

(** Without the credential the attempt at OCR changes nothing. *)
Lemma ocr_page_absent (w : world) (pg : pdf_page) (text model : str) (st : state) :
  credential_absent w (u "MISTRAL_API_KEY") = true ->
  ocr_page pg text (fun png => mistral_ocr_image w png model) st = (inr text, st).
Proof.
  intros H. unfold ocr_page, try_except, bind, lift, raise, ret.
  destruct (page_png pg) as [e|png]; [reflexivity|].
  rewrite (mistral_ocr_image_absent w png model st H). reflexivity.
Qed.

Lemma load_pdf_pages_page_events (w : world) (model : str) (pdf : list pdf_page)
      (idx max_pages : Z) (ocr_all : bool) (pages : list page) (st : state) :
  credential_absent w (u "MISTRAL_API_KEY") = true ->
  exists pages' new,
    load_pdf_pages pdf idx max_pages
                   (fun png => mistral_ocr_image w png model) ocr_all pages st
    = (inr pages', {| log := log st ++ new; cache_files := cache_files st |})
    /\ Forall page_event new.
Proof.
  intros H. revert idx pages st.
  induction pdf as [|pg rest IH]; intros idx pages st.
  - exists pages, []. rewrite app_nil_r. destruct st. split; [reflexivity|constructor].
  - cbn [load_pdf_pages].
    destruct (negb (max_pages =? 0)%Z && (idx >? max_pages)%Z).
    + exists pages, []. rewrite app_nil_r. destruct st.
      split; [reflexivity|constructor].
    + set (txt := strip _).
      unfold bind at 1. unfold emit_event at 1.
      set (st1 := {| log := _; cache_files := _ |}).
      assert (Hocr : (if ocr_all || (length txt <? 80)%nat
                      then ocr_page pg txt (fun png => mistral_ocr_image w png model)
                      else ret txt) st1 = (inr txt, st1)).
      { destruct (ocr_all || (length txt <? 80)%nat);
          [apply ocr_page_absent, H | reflexivity]. }
      unfold bind at 1. rewrite Hocr.
      destruct (IH (idx + 1)%Z (pages ++ [(idx, txt)]) st1)
        as (pages' & new & Heq & Hnew).
      exists pages', (ReadPage idx :: new). split.
      * rewrite Heq. subst st1. cbn [log cache_files].
        rewrite <- app_assoc. reflexivity.
      * constructor; [exact I | exact Hnew].
Qed.

(** Without the credential, page loading sends no request: all it adds to
    the log are events of page loading. *)
Lemma mistral_load_pages_page_events (w : world) (path : str) (max_pages : Z)
      (model : str) (ocr_all : bool) (st : state) :
  credential_absent w (u "MISTRAL_API_KEY") = true ->
  exists r new,
    mistral_load_pages w path max_pages model ocr_all st
    = (r, {| log := log st ++ new; cache_files := cache_files st |})
    /\ Forall page_event new.
Proof.
  intros H. unfold mistral_load_pages, load_pages_with_ocr.
  destruct (str_eqb (lower (path_suffix path)) (u ".pdf")).
  - unfold bind at 1. unfold emit_event at 1. unfold bind at 1.
    destruct (pdf_open w path) as [e|pdf]; cbn [lift].
    + exists (inl e), [OpenDocument path]. split; [reflexivity|].
      repeat constructor.
    + unfold ret at 1.
      destruct (load_pdf_pages_page_events w model pdf 1 max_pages ocr_all []
                  {| log := log st ++ [OpenDocument path];
                     cache_files := cache_files st |} H)
        as (pages' & new & Heq & Hnew).
      exists (inr pages'), (OpenDocument path :: new). split.
      * rewrite Heq. cbn [log cache_files]. rewrite <- app_assoc. reflexivity.
      * constructor; [exact I | exact Hnew].
  - unfold try_except, bind, emit_event, lift, raise, ret.
    exists (inr [(1%Z, [])]), [OpenDocument path].
    split; [|repeat constructor].
    destruct (read_bytes w path) as [e|png]; [reflexivity|].
    rewrite (mistral_ocr_image_absent w png model _ H). reflexivity.
Qed.

Lemma load_template_state (w : world) (doc_type : str) (st : state) :
  snd (load_template w doc_type st) = st.
Proof.
  unfold load_template.
  destruct (read_text w (template_path_of w doc_type)) as [text|]; [|reflexivity].
  destruct (Reader.loads text) as [[| | | | | |obj]|]; reflexivity.
Qed.

(** C8, as the specification states it, fails for the Mistral pipeline:
    with no credential in the environment, the run opens the document and
    reads its two pages, and only then fails, with the error that
    [call_mistral] raises. *)
Lemma mistral_loads_pages_before_failing :
  credential_absent sample_world (u "MISTRAL_API_KEY") = true
  /\ main_mistral sample_world sample_mistral_args
     = (Uncaught (EnvironmentError MISTRAL_KEY_MISSING),
        {| log := [OpenDocument (u "docs/carnet.pdf"); ReadPage 1; ReadPage 2];
           cache_files := [] |}).
Proof. split; vm_compute; reflexivity. Qed.

(** C8, amended.  Without its credential the Gemini run prints its message
    and exits with status 1 before anything else: no page is loaded, no
    request is sent, no output is written.  Without its credential the
    Mistral run never completes: it ends with an uncaught exception, which
    is the environment error of [call_mistral] unless the template or the
    PDF failed to load first; before that it has loaded the template and the
    pages, and all it has done to the world is page loading: no request was
    sent and no output was written. *)
Theorem absent_credential_ends_the_run (w : world) :
  (forall args,
      credential_absent w (u "GEMINI_API_KEY") = true ->
      main_gemini w args
      = (Exited 1, {| log := [Stdout (u "GEMINI_API_KEY not found in .env")];
                      cache_files := cache_dir_files w |}))
  /\ (forall args,
         credential_absent w (u "MISTRAL_API_KEY") = true ->
         exists e st,
           main_mistral w args = (Uncaught e, st)
           /\ Forall page_event (log st)
           /\ Forall quiet (log st)
           /\ cache_files st = cache_dir_files w
           /\ (e = EnvironmentError MISTRAL_KEY_MISSING
               \/ fst (load_template w (m_doc_type args) (initial_state w)) = inl e
               \/ pdf_open w (m_document args) = inl e)).
Proof.
  split.
  - intros args H. unfold main_gemini. rewrite H. reflexivity.
  - intros args H.
    assert (Hquiet : forall l, Forall page_event l -> Forall quiet l).
    { intros l Hl. rewrite Forall_forall in *. intros e He.
      specialize (Hl e He). destruct e; simpl in *; tauto. }
    unfold main_mistral, mistral_body. unfold bind at 1.
    pose proof (load_template_state w (m_doc_type args) (initial_state w)) as Hst.
    destruct (load_template w (m_doc_type args) (initial_state w))
      as [[e|[[template_path template_obj] field_specs]] st0] eqn:Hload;
      cbn [snd] in Hst; subst st0.
    + exists e, (initial_state w). cbn [finish fst log initial_state].
      split; [reflexivity|]. split; [constructor|]. split; [constructor|].
      split; [reflexivity|]. right. now left.
    + unfold bind at 1.
      destruct (mistral_load_pages_page_events
                  w (m_document args) (m_max_pages args) (m_ocr_model args)
                  (m_ocr_all args) (initial_state w) H)
        as (r & new & Heq & Hnew).
      rewrite Heq. cbn [log cache_files initial_state app] in *.
      destruct r as [e|pages].
      * exists e, {| log := new; cache_files := cache_dir_files w |}.
        cbn [finish log cache_files].
        split; [reflexivity|]. split; [exact Hnew|].
        split; [apply Hquiet, Hnew|]. split; [reflexivity|].
        right. right.
        revert Heq. unfold mistral_load_pages, load_pages_with_ocr.
        destruct (str_eqb (lower (path_suffix (m_document args))) (u ".pdf")).
        -- unfold bind at 1. unfold emit_event at 1. unfold bind at 1.
           destruct (pdf_open w (m_document args)) as [e'|pdf]; cbn [lift].
           ++ unfold raise. intros E; injection E as <- _. reflexivity.
           ++ unfold ret at 1.
              destruct (load_pdf_pages_page_events
                          w (m_ocr_model args) pdf 1 (m_max_pages args)
                          (m_ocr_all args) []
                          {| log := [] ++ [OpenDocument (m_document args)];
                             cache_files := cache_dir_files w |} H)
                as (pages' & new' & Heq' & _).
              cbn [log cache_files initial_state] in *.
              rewrite Heq'. discriminate.
        -- unfold try_except, bind, emit_event, lift, raise, ret.
           destruct (read_bytes w (m_document args)) as [e'|png];
             [discriminate|].
           rewrite (mistral_ocr_image_absent w png (m_ocr_model args) _ H).
           discriminate.
      * destruct (build_prompt_content (flatten_pages pages) field_specs)
          as [system user].
        unfold bind at 1. rewrite (call_mistral_absent w _ _ _ H).
        exists (EnvironmentError MISTRAL_KEY_MISSING),
               {| log := new; cache_files := cache_dir_files w |}.
        cbn [finish log cache_files].
        split; [reflexivity|]. split; [exact Hnew|].
        split; [apply Hquiet, Hnew|]. split; [reflexivity|]. now left.
Qed.

Lemma absent_credential_ends_the_run_witness :
  credential_absent sample_world (u "GEMINI_API_KEY") = true
  /\ main_gemini sample_world sample_gemini_args
     = (Exited 1, {| log := [Stdout (u "GEMINI_API_KEY not found in .env")];
                     cache_files := cache_dir_files sample_world |}).
Proof.
  split; [reflexivity|].
  exact (proj1 (absent_credential_ends_the_run sample_world)
               sample_gemini_args eq_refl).
Defined.

(* --------------------------------------------------------------------- *)
(** ** Two complete runs                                                   *)
(* --------------------------------------------------------------------- *)

(** With its credential, the Gemini run on the sample document lists the
    models, loads the two pages (one OCR request, cached), asks the model
    once, and writes the filled template. *)
Example gemini_run_completes :
  main_gemini keyed_world sample_gemini_args
  = (Completed,
     {| log :=
          [ListModels;
           OpenDocument (u "docs/carnet.pdf");
           ReadPage 1;
           OcrRequest (u "models/gemini-pro") (u "png-1");
           CacheWrite (u ".ocr_cache/png-1.txt") (u "texte lu");
           ReadPage 2;
           LlmRequest (u "models/gemini-pro")
             [gemini_prompt
                [(1%Z, u "Date de construction: 1985" ++ nl ++ u "texte lu");
                 (2%Z, [])]
                (collect_fields
                   [(u "meta", JDict []);
                    (u "batiment",
                     JDict [(u "date_construction",
                             JDict [(u "expected_type", JStr (u "string"))]);
                            (u "syndic",
                             JDict [(u "expected_type", JStr (u "string"))])])]
                   [])];
           WriteOutput sample_output_path sample_filled;
           Stdout (written_message sample_output_path);
           Stdout (u "Temps d'execution")];
        cache_files := [(u ".ocr_cache/png-1.txt", u "texte lu")] |}).
Proof. vm_compute. reflexivity. Qed.

(** So does the Mistral run, whose reply is not merged: the entry of the
    field it did not find is written as the model gave it. *)
Example mistral_run_completes :
  fst (main_mistral keyed_world sample_mistral_args) = Completed
  /\ In (WriteOutput sample_output_path sample_filled)
        (log (snd (main_mistral keyed_world sample_mistral_args))).
Proof. split; [vm_compute; reflexivity|]. vm_compute. tauto. Qed.

(** The scenario of the specification for [set_path]: the record is written
    beside the [expected_type] of the leaf. *)
Example set_path_scenario :
  set_path small_template (u "a.b") (JStr (u "Paris")) (JInt 3)
           (JStr (u "situ" ++ [233%N; 32%N; 224%N] ++ u " Paris"))
  = Some [(u "a",
           JDict [(u "b",
                   JDict [(u "expected_type", JStr (u "string"));
                          (u "value", JStr (u "Paris"));
                          (u "source",
                           JDict [(u "page", JInt 3);
                                  (u "excerpt",
                                   JStr (u "situ" ++ [233%N; 32%N; 224%N]
                                         ++ u " Paris"))])])])].
Proof. reflexivity. Qed.

(** The reader on a few texts: nested values, a repeated key, numbers, and
    four texts it refuses. *)
Example reader_examples :
  Reader.loads (u " [1, -2.5e3, true, null, {}, [ ]] ")
  = Some (JList [JInt 1; JFloat (u "-2.5e3"); JBool true; JNull; JDict [];
                 JList []])
  /\ Reader.loads (u "{" ++ dq ++ u "a" ++ dq ++ u ":1," ++ dq ++ u "b" ++ dq
                   ++ u ":2," ++ dq ++ u "a" ++ dq ++ u ":3}")
     = Some (JDict [(u "a", JInt 3); (u "b", JInt 2)])
  /\ Reader.loads (u "[1,]") = None
  /\ Reader.loads (u "01") = None
  /\ Reader.loads (u "{} x") = None
  /\ Reader.loads [] = None.
Proof. repeat split; vm_compute; reflexivity. Qed.

(* ===================================================================== *)
(** * Part III. Further properties of the code                             *)
(* ===================================================================== *)

(* --------------------------------------------------------------------- *)
(** ** The chunks of pass 1                                                *)
(* --------------------------------------------------------------------- *)

Lemma chunk_list_nil (fuel n : nat) : chunk_list fuel n [] = [].
Proof. destruct fuel; reflexivity. Qed.

Lemma chunk_list_concat (n fuel : nat) (pages : list page) :
  (0 < n)%nat -> (length pages <= fuel)%nat ->
  concat (chunk_list fuel n pages) = pages.
Proof.
  intros Hn. revert pages. induction fuel as [|fuel IH]; intros pages Hlen.
  - destruct pages; [reflexivity | simpl in Hlen; lia].
  - destruct pages as [|p rest]; [reflexivity|].
    cbn [chunk_list concat]. rewrite IH.
    + apply firstn_skipn.
    + rewrite length_skipn. simpl length in *. lia.
Qed.

Lemma chunk_list_sizes (n fuel : nat) (pages : list page) :
  (0 < n)%nat ->
  Forall (fun c => c <> [] /\ (length c <= n)%nat) (chunk_list fuel n pages).
Proof.
  intros Hn. revert pages. induction fuel as [|fuel IH]; intros pages.
  - constructor.
  - destruct pages as [|p rest]; [constructor|].
    cbn [chunk_list]. constructor; [|apply IH]. split.
    + destruct n; [lia|]. discriminate.
    + rewrite length_firstn. lia.
Qed.

Lemma chunk_list_full (n fuel : nat) (pages : list page) :
  forall pre c post,
    chunk_list fuel n pages = pre ++ c :: post -> post <> [] -> length c = n.
Proof.
  revert pages. induction fuel as [|fuel IH]; intros pages pre c post Heq Hpost.
  - destruct pre; discriminate.
  - destruct pages as [|p rest]; [destruct pre; discriminate|].
    cbn [chunk_list] in Heq. destruct pre as [|x pre].
    + cbn [app] in Heq. injection Heq as Hc Hrest. subst c.
      rewrite length_firstn. apply Nat.min_l.
      destruct (Nat.le_gt_cases n (length (p :: rest))) as [H|H]; [exact H|].
      exfalso. apply Hpost. rewrite <- Hrest.
      rewrite skipn_all2 by lia. apply chunk_list_nil.
    + cbn [app] in Heq. injection Heq as _ Hrest.
      exact (IH _ _ _ _ Hrest Hpost).
Qed.

Lemma chunk_list_singletons (fuel : nat) (pages : list page) :
  (length pages <= fuel)%nat ->
  chunk_list fuel 1 pages = map (fun p => [p]) pages.
Proof.
  revert pages. induction fuel as [|fuel IH]; intros pages Hlen.
  - destruct pages; [reflexivity | simpl in Hlen; lia].
  - destruct pages as [|p rest]; [reflexivity|].
    cbn [chunk_list map firstn skipn]. rewrite IH; [reflexivity|].
    simpl in Hlen. lia.
Qed.

(** X1.  The chunks of pass 1 are the pages cut into consecutive runs: put
    end to end they give the pages back, none is empty, none is longer than
    the chunk size, and every chunk but the last has exactly that size.  A
    chunk size below 1 counts as 1: every page is a chunk of its own. *)
Theorem chunks_cover_the_pages (pages : list page) (chunk_pages : Z) :
  let n := Z.to_nat (Z.max 1 chunk_pages) in
  concat (chunks_of pages chunk_pages) = pages
  /\ Forall (fun c => c <> [] /\ (length c <= n)%nat)
            (chunks_of pages chunk_pages)
  /\ (forall pre c post,
         chunks_of pages chunk_pages = pre ++ c :: post -> post <> [] ->
         length c = n)
  /\ ((chunk_pages <= 1)%Z ->
      chunks_of pages chunk_pages = map (fun p => [p]) pages).
Proof.
  intros n. unfold chunks_of. fold n.
  assert (Hn : (0 < n)%nat) by (unfold n; lia).
  split; [apply chunk_list_concat; [exact Hn | lia]|].
  split; [apply chunk_list_sizes, Hn|].
  split; [apply chunk_list_full|].
  intros Hle. replace n with 1%nat by (unfold n; lia).
  apply chunk_list_singletons. lia.
Qed.

(* --------------------------------------------------------------------- *)
(** ** The choice of a model                                               *)
(* --------------------------------------------------------------------- *)

Lemma select_model_loop_spec (models : list (str * list str)) (prefer_pro : bool)
      (model_name : option str) :
  select_model_loop models prefer_pro model_name
  = match (if prefer_pro then find is_pro models else None) with
    | Some m => Some (fst m)
    | None =>
        match model_name with
        | Some name => Some name
        | None => option_map fst (find is_flash models)
        end
    end.
Proof.
  revert model_name. induction models as [|[name actions] rest IH]; intros model_name.
  - destruct prefer_pro, model_name; reflexivity.
  - cbn [select_model_loop find].
    assert (Hpro : is_pro (name, actions)
                   = existsb (str_eqb (u "generateContent")) actions
                     && contains name (u "pro")) by reflexivity.
    assert (Hflash : is_flash (name, actions)
                     = existsb (str_eqb (u "generateContent")) actions
                       && contains name (u "flash")) by reflexivity.
    rewrite Hpro, Hflash. clear Hpro Hflash.
    destruct (existsb (str_eqb (u "generateContent")) actions); cbn [negb andb].
    + destruct prefer_pro; cbn [andb].
      * destruct (contains name (u "pro")); [reflexivity|].
        destruct model_name as [chosen|].
        -- rewrite IH. reflexivity.
        -- destruct (contains name (u "flash")); rewrite IH; cbn [option_map fst].
           ++ destruct (find is_pro rest); reflexivity.
           ++ reflexivity.
      * destruct model_name as [chosen|].
        -- rewrite IH. reflexivity.
        -- destruct (contains name (u "flash")); rewrite IH; reflexivity.
    + rewrite IH. destruct prefer_pro; reflexivity.
Qed.

(** X2.  Among the models that support [generateContent], [select_model]
    with [prefer_pro] returns the first whose name holds [pro], wherever it
    stands in the list; when there is none, the first whose name holds
    [flash]; when there is none either, [None].  Without [prefer_pro] it
    returns the first [flash] model, and a [pro] model is never chosen for
    being one. *)
Theorem select_model_prefers_pro (models : list (str * list str)) :
  select_model_loop models true None
  = match find is_pro models with
    | Some m => Some (fst m)
    | None => option_map fst (find is_flash models)
    end
  /\ select_model_loop models false None = option_map fst (find is_flash models)
  /\ (forall w st,
         models_list w = inr models ->
         select_model w true st
         = (inr (match find is_pro models with
                 | Some m => Some (fst m)
                 | None => option_map fst (find is_flash models)
                 end),
            {| log := log st ++ [ListModels]; cache_files := cache_files st |})).
Proof.
  split; [apply select_model_loop_spec|].
  split; [apply select_model_loop_spec|].
  intros w st H. unfold select_model, bind, emit_event, lift, ret.
  rewrite H. rewrite select_model_loop_spec. reflexivity.
Qed.

(* --------------------------------------------------------------------- *)
(** ** The OCR cache                                                       *)
(* --------------------------------------------------------------------- *)

Lemma universal_newlines_plain (text : str) :
  ~ In 13%N text -> universal_newlines text = text.
Proof.
  induction text as [|c text IH]; [reflexivity|].
  intros H. cbn [universal_newlines].
  destruct (N.eqb_spec c 13) as [->|_]; [exfalso; apply H; now left|].
  rewrite IH; [reflexivity|]. intros Hin. apply H. now right.
Qed.

(** X3.  With the cache switched on and writable, once an image has been
    read by [gemini_ocr_image], reading the same image again, with any
    model, sends no request and leaves the world as it was.  It returns the
    text of the first reading when that one was answered by the cache;
    otherwise it returns what the file written by the first reading gives
    back: the text with its line ends read as [\n], which is the text
    itself when it has no carriage return, and the empty text when the text
    holds a surrogate and could not be encoded. *)
Theorem ocr_cache_answers_the_second_time
        (w : world) (png vision_model dir text : str) (st st1 : state) :
  truthy dir = true ->
  cache_writable w = true ->
  gemini_ocr_image w png vision_model (Some dir) st = (inr text, st1) ->
  let path := dir ++ u "/" ++ sha256_hex w png ++ u ".txt" in
  (forall vision_model',
      gemini_ocr_image w png vision_model' (Some dir) st1
      = (inr (match file_get (cache_files st) path with
              | Some _ => text
              | None => text_read_back text
              end), st1))
  /\ (utf8_encodable text = true -> ~ In 13%N text ->
      text_read_back text = text)
  /\ (utf8_encodable text = false -> text_read_back text = []).
Proof.
  intros Hdir Hw Hfirst path.
  split; [|split].
  - intros vm'.
    unfold gemini_ocr_image, bind, read_ocr_cache, write_ocr_cache, history,
      emit_event, lift, ret, raise, ocr_cache_path in *.
    rewrite Hdir in *. rewrite Hw in *. fold path in Hfirst. fold path.
    destruct (file_get (cache_files st) path) as [cached|] eqn:Hget.
    + injection Hfirst as <- <-. rewrite Hget. reflexivity.
    + cbn [log cache_files] in Hfirst.
      destruct (ocr_http w (log st) vision_model png) as [e|t]; [discriminate|].
      injection Hfirst as <- <-. cbn [cache_files file_get].
      rewrite str_eqb_refl. reflexivity.
  - intros Henc Hcr. unfold text_read_back. rewrite Henc.
    now apply universal_newlines_plain.
  - intros Henc. unfold text_read_back. now rewrite Henc.
Qed.

Lemma ocr_cache_answers_the_second_time_witness :
  let st1 := {| log := [OcrRequest (u "pro") (u "png-1");
                        CacheWrite (u ".ocr_cache/png-1.txt") (u "texte lu")];
                cache_files := [(u ".ocr_cache/png-1.txt", u "texte lu")] |} in
  gemini_ocr_image keyed_world (u "png-1") (u "pro") (Some (u ".ocr_cache"))
                   (initial_state keyed_world)
  = (inr (u "texte lu"), st1)
  /\ gemini_ocr_image keyed_world (u "png-1") (u "flash") (Some (u ".ocr_cache")) st1
     = (inr (u "texte lu"), st1)
  /\ text_read_back [97; 13; 98; 13; 10; 99]%N = [97; 10; 98; 10; 99]%N
  /\ text_read_back [97; 55296]%N = [].
Proof.
  split; [reflexivity|]. split; [|split; reflexivity].
  exact (proj1 (ocr_cache_answers_the_second_time
                  keyed_world (u "png-1") (u "pro") (u ".ocr_cache") (u "texte lu")
                  (initial_state keyed_world) _ eq_refl eq_refl eq_refl)
               (u "flash")).
Defined.

(* --------------------------------------------------------------------- *)
(** ** The page loader, further                                            *)
(* --------------------------------------------------------------------- *)

(** X4.  A document that is not a PDF always loads as exactly one page,
    numbered 1, and loading it never raises: the page holds what the OCR
    callback returns, and the empty text when the file cannot be read or the
    callback raises.  [max_pages] and [ocr_all] play no part. *)
Theorem image_loads_as_one_page
        (w : world) (path : str) (max_pages : Z) (ocr_callback : str -> M str)
        (ocr_all : bool) (st : state) :
  lower (path_suffix path) <> u ".pdf" ->
  let opened := {| log := log st ++ [OpenDocument path];
                   cache_files := cache_files st |} in
  exists text st',
    load_pages_with_ocr w path max_pages ocr_callback ocr_all st
    = (inr [(1%Z, text)], st')
    /\ (forall e, read_bytes w path = inl e -> text = [] /\ st' = opened)
    /\ (forall png,
           read_bytes w path = inr png ->
           match ocr_callback png opened with
           | (inr ocr_text, st2) => text = ocr_text /\ st' = st2
           | (inl _, st2) => text = [] /\ st' = st2
           end).
Proof.
  intros Hsfx opened. unfold load_pages_with_ocr.
  apply str_eqb_neq in Hsfx. rewrite Hsfx.
  unfold try_except, bind, emit_event, lift, raise, ret. fold opened.
  destruct (read_bytes w path) as [e|png].
  - exists [], opened. split; [reflexivity|]. split.
    + intros e' _. split; reflexivity.
    + intros png H. discriminate.
  - destruct (ocr_callback png opened) as [[e|ocr_text] st2] eqn:Hcb.
    + exists [], st2. split; [reflexivity|]. split; [intros e' H; discriminate|].
      intros png' H. injection H as <-. rewrite Hcb. split; reflexivity.
    + exists ocr_text, st2. split; [reflexivity|].
      split; [intros e' H; discriminate|].
      intros png' H. injection H as <-. rewrite Hcb. split; reflexivity.
Qed.

Lemma image_loads_as_one_page_witness :
  lower (path_suffix (u "scan.PNG")) <> u ".pdf"
  /\ exists text st',
       load_pages_with_ocr sample_world (u "scan.PNG") 12 sample_callback false
                           (initial_state sample_world)
       = (inr [(1%Z, text)], st')
       /\ text = [].
Proof.
  assert (H : lower (path_suffix (u "scan.PNG")) <> u ".pdf")
    by (vm_compute; discriminate).
  split; [exact H|].
  destruct (image_loads_as_one_page sample_world (u "scan.PNG") 12
              sample_callback false (initial_state sample_world) H)
    as (text & st' & Heq & Herr & _).
  exists text, st'. split; [exact Heq|].
  exact (proj1 (Herr ReadError eq_refl)).
Defined.

Lemma combine_snoc {A B} (l1 : list A) (l2 : list B) (a : A) (b : B) :
  length l1 = length l2 ->
  combine (l1 ++ [a]) (l2 ++ [b]) = combine l1 l2 ++ [(a, b)].
Proof.
  revert l2. induction l1 as [|x l1 IH]; intros [|y l2] H; try discriminate.
  - reflexivity.
  - simpl. f_equal. apply IH. simpl in H. lia.
Qed.

Lemma load_pdf_pages_without_ocr (pdf : list pdf_page) (idx max_pages : Z)
      (cb : str -> M str) (pages : list page) (st : state) :
  Forall (fun pg => (80 <= length (native_text pg))%nat) pdf ->
  let k := if (max_pages =? 0)%Z then length pdf
           else Nat.min (length pdf) (Z.to_nat (max_pages - idx + 1)) in
  load_pdf_pages pdf idx max_pages cb false pages st
  = (inr (pages ++ combine (page_numbers idx k) (map native_text (firstn k pdf))),
     {| log := log st ++ map ReadPage (page_numbers idx k);
        cache_files := cache_files st |}).
Proof.
  intros Hlong. revert idx pages st.
  induction Hlong as [|pg rest Hpg Hrest IH]; intros idx pages st k.
  - subst k. cbn [load_pdf_pages length]. unfold ret.
    replace (if (max_pages =? 0)%Z then 0%nat
             else Nat.min 0 (Z.to_nat (max_pages - idx + 1))) with 0%nat
      by (destruct (max_pages =? 0)%Z; reflexivity).
    cbn [page_numbers firstn map combine]. rewrite !app_nil_r.
    destruct st; reflexivity.
  - cbn [load_pdf_pages].
    destruct (max_pages =? 0)%Z eqn:Hz; cbn [negb andb].
    + unfold bind at 1. unfold emit_event at 1.
      fold (native_text pg).
      replace (false || (length (native_text pg) <? 80)%nat) with false
        by (symmetry; apply Nat.ltb_ge in Hpg; rewrite Hpg; reflexivity).
      unfold bind at 1. unfold ret at 1.
      specialize (IH (idx + 1)%Z (pages ++ [(idx, native_text pg)])
                     {| log := log st ++ [ReadPage idx];
                        cache_files := cache_files st |}).
      cbv zeta in IH. rewrite IH.
      subst k. cbn [length page_numbers firstn map combine log cache_files].
      rewrite <- !app_assoc. reflexivity.
    + destruct (idx >? max_pages)%Z eqn:Hgt.
      * subst k. unfold ret.
        replace (Z.to_nat (max_pages - idx + 1)) with 0%nat by lia.
        rewrite Nat.min_0_r. cbn [page_numbers firstn map combine].
        rewrite !app_nil_r. destruct st; reflexivity.
      * unfold bind at 1. unfold emit_event at 1.
        fold (native_text pg).
        replace (false || (length (native_text pg) <? 80)%nat) with false
          by (symmetry; apply Nat.ltb_ge in Hpg; rewrite Hpg; reflexivity).
        unfold bind at 1. unfold ret at 1.
        specialize (IH (idx + 1)%Z (pages ++ [(idx, native_text pg)])
                       {| log := log st ++ [ReadPage idx];
                          cache_files := cache_files st |}).
        cbv zeta in IH. rewrite IH.
        subst k. cbn [length].
        replace (Z.to_nat (max_pages - idx + 1))
          with (S (Z.to_nat (max_pages - (idx + 1) + 1))) by lia.
        rewrite <- Nat.succ_min_distr.
        cbn [page_numbers firstn map combine log cache_files].
        rewrite <- !app_assoc. reflexivity.
Qed.

(** X5.  When every page of a PDF has at least 80 characters of text of its
    own and [ocr_all] is off, the OCR callback is never called: the pages
    are the stripped texts of the first pages of the document, numbered from
    1, and all the run does is open the document and read those pages. *)
Theorem long_pages_are_not_sent_to_ocr
        (w : world) (path : str) (pdf : list pdf_page) (max_pages : Z)
        (ocr_callback : str -> M str) (st : state) :
  lower (path_suffix path) = u ".pdf" ->
  pdf_open w path = inr pdf ->
  Forall (fun pg => (80 <= length (native_text pg))%nat) pdf ->
  let k := loaded_count (length pdf) max_pages in
  load_pages_with_ocr w path max_pages ocr_callback false st
  = (inr (combine (page_numbers 1 k) (map native_text (firstn k pdf))),
     {| log := log st ++ OpenDocument path :: map ReadPage (page_numbers 1 k);
        cache_files := cache_files st |}).
Proof.
  intros Hsfx Hopen Hlong k. unfold load_pages_with_ocr.
  rewrite Hsfx. rewrite str_eqb_refl.
  unfold bind at 1. unfold emit_event at 1. unfold bind at 1.
  rewrite Hopen. cbn [lift]. unfold ret at 1.
  rewrite (load_pdf_pages_without_ocr pdf 1 max_pages ocr_callback [] _ Hlong).
  cbn [log cache_files app]. rewrite <- app_assoc. cbn [app].
  subst k. unfold loaded_count.
  replace (max_pages - 1 + 1)%Z with max_pages by lia. reflexivity.
Qed.

Lemma long_pages_are_not_sent_to_ocr_witness :
  load_pages_with_ocr long_page_world (u "a.pdf") 12 sample_callback false
                      (initial_state long_page_world)
  = (inr [(1%Z, repeat 97%N 80)],
     {| log := [OpenDocument (u "a.pdf"); ReadPage 1]; cache_files := [] |}).
Proof.
  refine (long_pages_are_not_sent_to_ocr
            long_page_world (u "a.pdf") long_page_pdf
            12 sample_callback (initial_state long_page_world) eq_refl eq_refl _).
  constructor; [|constructor].
  vm_compute. apply le_n.
Defined.

(* --------------------------------------------------------------------- *)
(** ** Stripping                                                           *)
(* --------------------------------------------------------------------- *)

Lemma rstrip_app (a b : str) :
  rstrip (a ++ b) = match rstrip b with
                    | [] => rstrip a
                    | _ :: _ => a ++ rstrip b
                    end.
Proof.
  induction a as [|c a IH].
  - cbn [app]. destruct (rstrip b); reflexivity.
  - cbn [app rstrip]. rewrite IH. destruct (rstrip b) as [|x r] eqn:Hb.
    + reflexivity.
    + destruct a; reflexivity.
Qed.

Lemma rstrip_idem (s : str) : rstrip (rstrip s) = rstrip s.
Proof.
  induction s as [|c s IH]; [reflexivity|].
  cbn [rstrip]. destruct (rstrip s) as [|x r] eqn:Hs.
  - destruct (is_space c) eqn:Hc; [reflexivity|].
    cbn [rstrip]. rewrite Hc. reflexivity.
  - cbn [rstrip] in *. rewrite IH. reflexivity.
Qed.

Lemma rstrip_spaces (ws : str) : forallb is_space ws = true -> rstrip ws = [].
Proof.
  induction ws as [|c ws IH]; [reflexivity|].
  cbn [forallb rstrip]. intros H. apply andb_prop in H as [Hc Hws].
  rewrite (IH Hws), Hc. reflexivity.
Qed.

Lemma lstrip_split (s : str) :
  exists ws, s = ws ++ lstrip s /\ forallb is_space ws = true.
Proof.
  induction s as [|c s (ws & Hs & Hws)].
  - exists []. split; reflexivity.
  - cbn [lstrip]. destruct (is_space c) eqn:Hc.
    + exists (c :: ws). split; [cbn [app]; f_equal; exact Hs|].
      cbn [forallb]. rewrite Hc, Hws. reflexivity.
    + exists []. split; reflexivity.
Qed.

Lemma lstrip_head (s : str) (c : N) (r : str) :
  lstrip s = c :: r -> is_space c = false.
Proof.
  induction s as [|x s IH]; [discriminate|].
  cbn [lstrip]. destruct (is_space x) eqn:Hx; [exact IH|].
  intros H. injection H as <- _. exact Hx.
Qed.

(** What [strip] returns has no white space left at its end. *)
Lemma rstrip_strip (s : str) : rstrip (strip s) = strip s.
Proof.
  unfold strip. destruct (lstrip_split (rstrip s)) as (ws & Hs & Hws).
  pose proof (rstrip_idem s) as Hidem. rewrite Hs in Hidem at 1.
  rewrite rstrip_app in Hidem.
  destruct (rstrip (lstrip (rstrip s))) as [|x r] eqn:Hr.
  - rewrite (rstrip_spaces ws Hws) in Hidem.
    rewrite Hs in Hidem. symmetry in Hidem.
    apply app_eq_nil in Hidem as [_ H]. symmetry. exact H.
  - rewrite Hs in Hidem. apply app_inv_head in Hidem. exact Hidem.
Qed.

(** Text added after a stripped, non-empty text leaves it in front of what
    [strip] returns. *)
Lemma strip_keeps_stripped_prefix (raw y : str) :
  strip raw <> [] -> exists z, strip (strip raw ++ y) = strip raw ++ z.
Proof.
  intros Hne. unfold strip at 1. rewrite rstrip_app, rstrip_strip.
  destruct (strip raw) as [|c r] eqn:Ht; [contradiction|].
  assert (Hc : is_space c = false) by (apply (lstrip_head _ _ _ Ht)).
  destruct (rstrip y) as [|x z].
  - exists []. rewrite app_nil_r. cbn [lstrip]. rewrite Hc. reflexivity.
  - exists (x :: z). cbn [app lstrip]. rewrite Hc. reflexivity.
Qed.

(* --------------------------------------------------------------------- *)
(** ** OCR and the text of a page                                          *)
(* --------------------------------------------------------------------- *)

Lemma startswith_refl (s : str) : startswith s s = true.
Proof. apply startswith_spec. exists []. symmetry. apply app_nil_r. Qed.

Lemma startswith_nil (s : str) : startswith s [] = true.
Proof. apply startswith_spec. exists s. reflexivity. Qed.

Lemma ocr_page_keeps_text (pg : pdf_page) (raw : str) (cb : str -> M str)
      (st : state) :
  exists text' st',
    ocr_page pg (strip raw) cb st = (inr text', st')
    /\ startswith text' (strip raw) = true.
Proof.
  unfold ocr_page, try_except, bind, lift, raise, ret.
  destruct (page_png pg) as [e|png].
  - exists (strip raw), st. split; [reflexivity | apply startswith_refl].
  - destruct (cb png st) as [[e|ocr_text] st1].
    + exists (strip raw), st1. split; [reflexivity | apply startswith_refl].
    + destruct (truthy ocr_text && negb (contains (strip raw) ocr_text)).
      * destruct (truthy (strip raw)) eqn:Ht.
        -- assert (Hne : strip raw <> [])
             by (intros E; rewrite E in Ht; discriminate).
           destruct (strip_keeps_stripped_prefix raw (nl ++ ocr_text) Hne)
             as (z & Hz).
           exists (strip (strip raw ++ nl ++ ocr_text)), st1.
           split; [reflexivity|]. apply startswith_spec. exists z. exact Hz.
        -- exists ocr_text, st1. split; [reflexivity|].
           destruct (strip raw); [apply startswith_nil | discriminate].
      * exists (strip raw), st1. split; [reflexivity | apply startswith_refl].
Qed.

Lemma load_pdf_pages_keep_text (pdf : list pdf_page) (idx max_pages : Z)
      (cb : str -> M str) (ocr_all : bool) (pages : list page) (st : state) :
  exists loaded st',
    load_pdf_pages pdf idx max_pages cb ocr_all pages st
    = (inr (pages ++ loaded), st')
    /\ Forall2 (fun pg p => startswith (snd p) (native_text pg) = true)
               (firstn (length loaded) pdf) loaded.
Proof.
  revert idx pages st. induction pdf as [|pg rest IH]; intros idx pages st.
  - exists [], st. cbn [load_pdf_pages]. rewrite app_nil_r.
    split; [reflexivity | constructor].
  - cbn [load_pdf_pages].
    destruct (negb (max_pages =? 0)%Z && (idx >? max_pages)%Z).
    + exists [], st. rewrite app_nil_r. split; [reflexivity | constructor].
    + unfold bind at 1. unfold emit_event at 1. fold (native_text pg).
      set (st1 := {| log := _; cache_files := _ |}).
      assert (Hocr : exists text' st2,
                 (if ocr_all || (length (native_text pg) <? 80)%nat
                  then ocr_page pg (native_text pg) cb
                  else ret (native_text pg)) st1 = (inr text', st2)
                 /\ startswith text' (native_text pg) = true).
      { destruct (ocr_all || (length (native_text pg) <? 80)%nat).
        - apply ocr_page_keeps_text.
        - exists (native_text pg), st1. split; [reflexivity|].
          apply startswith_refl. }
      destruct Hocr as (text' & st2 & Hocr & Hpre).
      unfold bind at 1. rewrite Hocr.
      destruct (IH (idx + 1)%Z (pages ++ [(idx, text')]) st2)
        as (loaded & st' & Heq & Hall).
      exists ((idx, text') :: loaded), st'. split.
      * rewrite Heq. rewrite <- app_assoc. reflexivity.
      * cbn [length firstn]. constructor; [exact Hpre | exact Hall].
Qed.

(** X6.  OCR never loses the text a PDF page has of its own: whatever the
    callback returns or raises, the text of every loaded page starts with
    the stripped text extracted from that page. *)
Theorem ocr_keeps_the_text_of_the_page
        (w : world) (path : str) (pdf : list pdf_page) (max_pages : Z)
        (ocr_callback : str -> M str) (ocr_all : bool) (st : state) :
  lower (path_suffix path) = u ".pdf" ->
  pdf_open w path = inr pdf ->
  exists pages st',
    load_pages_with_ocr w path max_pages ocr_callback ocr_all st
    = (inr pages, st')
    /\ Forall2 (fun pg p => startswith (snd p) (native_text pg) = true)
               (firstn (length pages) pdf) pages.
Proof.
  intros Hsfx Hopen. unfold load_pages_with_ocr.
  rewrite Hsfx, str_eqb_refl.
  unfold bind at 1. unfold emit_event at 1. unfold bind at 1.
  rewrite Hopen. cbn [lift]. unfold ret at 1.
  destruct (load_pdf_pages_keep_text pdf 1 max_pages ocr_callback ocr_all []
              {| log := log st ++ [OpenDocument path];
                 cache_files := cache_files st |})
    as (loaded & st' & Heq & Hall).
  exists loaded, st'. split; [exact Heq | exact Hall].
Qed.

Lemma ocr_keeps_the_text_of_the_page_witness :
  exists pages st',
    load_pages_with_ocr sample_world (u "docs/carnet.pdf") 12 sample_callback
                        true (initial_state sample_world)
    = (inr pages, st')
    /\ Forall2 (fun pg p => startswith (snd p) (native_text pg) = true)
               (firstn (length pages) sample_pdf) pages.
Proof.
  exact (ocr_keeps_the_text_of_the_page
           sample_world (u "docs/carnet.pdf") sample_pdf 12 sample_callback true
           (initial_state sample_world) eq_refl eq_refl).
Defined.

(* --------------------------------------------------------------------- *)
(** ** [set_path], further                                                 *)
(* --------------------------------------------------------------------- *)

Lemma dict_set_same_value (d : dict) (k : str) (v : json) :
  dict_get d k = Some v -> dict_set d k v = d.
Proof.
  induction d as [|[k' v'] d IH]; [discriminate|].
  cbn [dict_get dict_set]. destruct (str_eqb k k').
  - intros H. injection H as ->. reflexivity.
  - intros H. rewrite (IH H). reflexivity.
Qed.

Lemma write_leaf_idem (cursor : dict) (last : str) (value page excerpt : json) :
  write_leaf (write_leaf cursor last value page excerpt) last value page excerpt
  = write_leaf cursor last value page excerpt.
Proof.
  destruct (write_leaf_shape cursor last value page excerpt)
    as (leaf & src & -> & Hvalue & Hsource & Hpage & Hexcerpt).
  unfold write_leaf. rewrite dict_get_set_same.
  rewrite (dict_set_same_value leaf _ _ Hvalue). rewrite Hsource.
  rewrite (dict_set_same_value src _ _ Hpage).
  rewrite (dict_set_same_value src _ _ Hexcerpt).
  rewrite (dict_set_same_value leaf _ _ Hsource).
  apply dict_set_same_value, dict_get_set_same.
Qed.

Lemma set_parts_idem (parts : list str) (t t' : dict) (value page excerpt : json) :
  set_parts t parts value page excerpt = Some t' ->
  set_parts t' parts value page excerpt = Some t'.
Proof.
  revert t t'. induction parts as [|k rest IH]; intros t t' H; [discriminate|].
  destruct (set_parts_cases _ _ _ _ _ _ _ H)
    as [[-> ->] | (k2 & rest' & child & child' & -> & _ & Hchild & ->)].
  - cbn [set_parts]. rewrite write_leaf_idem. reflexivity.
  - rewrite set_parts_step. rewrite dict_get_set_same.
    rewrite (IH _ _ Hchild).
    rewrite (dict_set_same_value _ _ _ (dict_get_set_same t k (JDict child'))).
    reflexivity.
Qed.

(** X7.  [set_path] is idempotent: writing the same value, page and excerpt
    at the same path a second time changes nothing. *)
Theorem set_path_twice_is_set_path_once
        (root root' : dict) (path : str) (value page excerpt : json) :
  set_path root path value page excerpt = Some root' ->
  set_path root' path value page excerpt = Some root'.
Proof. apply set_parts_idem. Qed.

Lemma set_path_twice_is_set_path_once_witness :
  exists root',
    set_path small_template (u "a.b") (JStr (u "Paris")) (JInt 3) JNull
    = Some root'
    /\ set_path root' (u "a.b") (JStr (u "Paris")) (JInt 3) JNull = Some root'.
Proof.
  eexists. split; [reflexivity|].
  exact (set_path_twice_is_set_path_once
           small_template _ (u "a.b") (JStr (u "Paris")) (JInt 3) JNull eq_refl).
Defined.

Lemma dict_set_keys_grow (d : dict) (k : str) (v : json) :
  exists added, map fst (dict_set d k v) = map fst d ++ added.
Proof.
  rewrite dict_set_keys. destruct (dict_has d k).
  - exists []. symmetry. apply app_nil_r.
  - exists [k]. reflexivity.
Qed.

Lemma write_leaf_keeps (cursor leaf : dict) (last : str) (value page excerpt : json) :
  dict_get cursor last = Some (JDict leaf) ->
  exists leaf',
    write_leaf cursor last value page excerpt = dict_set cursor last (JDict leaf')
    /\ (forall k, k <> u "value" -> k <> u "source" ->
                  dict_get leaf' k = dict_get leaf k)
    /\ (exists added, map fst leaf' = map fst leaf ++ added)
    /\ (forall src,
           dict_get leaf (u "source") = Some (JDict src) ->
           exists src',
             dict_get leaf' (u "source") = Some (JDict src')
             /\ (exists added, map fst src' = map fst src ++ added)
             /\ forall k, k <> u "page" -> k <> u "excerpt" ->
                          dict_get src' k = dict_get src k).
Proof.
  intros Hleaf. unfold write_leaf. rewrite Hleaf.
  assert (Hvs : u "source" <> u "value") by (vm_compute; discriminate).
  assert (Hsrc0 : dict_get (dict_set leaf (u "value") value) (u "source")
                  = dict_get leaf (u "source"))
    by (apply dict_get_set_other; intros E; apply Hvs; symmetry; exact E).
  assert (Hgrow : forall x,
             exists added,
               map fst (dict_set (dict_set leaf (u "value") value) (u "source") x)
               = map fst leaf ++ added).
  { intros x.
    destruct (dict_set_keys_grow (dict_set leaf (u "value") value) (u "source") x)
      as (a2 & H2).
    destruct (dict_set_keys_grow leaf (u "value") value) as (a1 & H1).
    exists (a1 ++ a2). rewrite H2, H1, app_assoc. reflexivity. }
  assert (Hother : forall x k, k <> u "value" -> k <> u "source" ->
             dict_get (dict_set (dict_set leaf (u "value") value) (u "source") x) k
             = dict_get leaf k).
  { intros x k Hk1 Hk2.
    rewrite dict_get_set_other by (intros E; apply Hk2; symmetry; exact E).
    apply dict_get_set_other. intros E; apply Hk1; symmetry; exact E. }
  rewrite Hsrc0.
  destruct (dict_get leaf (u "source")) as [[| | | | | |src]|] eqn:Hsrc;
    eexists; (split; [reflexivity|]); (split; [apply Hother|]);
    (split; [apply Hgrow|]); intros src1 Hsrc1; try discriminate.
  injection Hsrc1 as <-.
  eexists. split; [apply dict_get_set_same|]. split.
  - destruct (dict_set_keys_grow (dict_set src (u "page") page) (u "excerpt") excerpt)
      as (a2 & H2).
    destruct (dict_set_keys_grow src (u "page") page) as (a1 & H1).
    exists (a1 ++ a2). rewrite H2, H1, app_assoc. reflexivity.
  - intros k Hk1 Hk2.
    rewrite dict_get_set_other by (intros E; apply Hk2; symmetry; exact E).
    apply dict_get_set_other. intros E; apply Hk1; symmetry; exact E.
Qed.

Lemma set_parts_keeps (parts : list str) (t t' leaf : dict)
      (value page excerpt : json) :
  set_parts t parts value page excerpt = Some t' ->
  get_parts t parts = Some (JDict leaf) ->
  exists leaf',
    get_parts t' parts = Some (JDict leaf')
    /\ (forall k, k <> u "value" -> k <> u "source" ->
                  dict_get leaf' k = dict_get leaf k)
    /\ (exists added, map fst leaf' = map fst leaf ++ added)
    /\ (forall src,
           dict_get leaf (u "source") = Some (JDict src) ->
           exists src',
             dict_get leaf' (u "source") = Some (JDict src')
             /\ (exists added, map fst src' = map fst src ++ added)
             /\ forall k, k <> u "page" -> k <> u "excerpt" ->
                          dict_get src' k = dict_get src k).
Proof.
  revert t t'. induction parts as [|k rest IH]; intros t t' Hset Hget;
    [discriminate|].
  destruct (set_parts_cases _ _ _ _ _ _ _ Hset)
    as [[-> ->] | (k2 & rest' & child & child' & -> & Hk & Hchild & ->)].
  - cbn [get_parts] in *.
    destruct (write_leaf_keeps t leaf k value page excerpt Hget)
      as (leaf' & -> & H).
    exists leaf'. split; [apply dict_get_set_same | exact H].
  - destruct Hk as [Hk | [Hk _]].
    + rewrite (get_parts_cons t k k2 rest' child Hk) in Hget.
      destruct (IH _ _ Hchild Hget) as (leaf' & Hget' & H).
      exists leaf'. split; [|exact H].
      rewrite (get_parts_cons _ k k2 rest' child' (dict_get_set_same t k _)).
      exact Hget'.
    + cbn [get_parts] in Hget. rewrite Hk in Hget. discriminate.
Qed.

(** X8.  [set_path] on a place that already holds an object changes only
    its record: every key of the object other than [value] and [source]
    keeps its value (so a field keeps its [expected_type]), the keys keep
    their order, a [source] that is an object keeps its keys other than
    [page] and [excerpt], and every place whose path parts ways with the
    path written reads as before. *)
Theorem set_path_keeps_the_rest
        (root root' leaf : dict) (path : str) (value page excerpt : json) :
  set_path root path value page excerpt = Some root' ->
  get_path root path = Some (JDict leaf) ->
  (exists leaf',
      get_path root' path = Some (JDict leaf')
      /\ (forall k, k <> u "value" -> k <> u "source" ->
                    dict_get leaf' k = dict_get leaf k)
      /\ (exists added, map fst leaf' = map fst leaf ++ added)
      /\ (forall src,
             dict_get leaf (u "source") = Some (JDict src) ->
             exists src',
               dict_get leaf' (u "source") = Some (JDict src')
               /\ (exists added, map fst src' = map fst src ++ added)
               /\ forall k, k <> u "page" -> k <> u "excerpt" ->
                            dict_get src' k = dict_get src k))
  /\ (forall q, diverge (split_char 46 path) q ->
                get_parts root' q = get_parts root q).
Proof.
  intros Hset Hget. split.
  - exact (set_parts_keeps _ _ _ _ _ _ _ Hset Hget).
  - intros q Hq. exact (set_parts_frame _ _ _ _ _ _ _ Hq Hset).
Qed.

Lemma set_path_keeps_the_rest_witness :
  exists root' leaf',
    set_path small_template (u "a.b") (JStr (u "Paris")) (JInt 3) JNull
    = Some root'
    /\ get_path root' (u "a.b") = Some (JDict leaf')
    /\ dict_get leaf' (u "expected_type") = Some (JStr (u "string")).
Proof.
  eexists.
  destruct (set_path_keeps_the_rest
              small_template _ [(u "expected_type", JStr (u "string"))] (u "a.b")
              (JStr (u "Paris")) (JInt 3) JNull eq_refl eq_refl)
    as [(leaf' & Hget & Hkeep & _) _].
  exists leaf'. split; [reflexivity|]. split; [exact Hget|].
  rewrite Hkeep; [reflexivity | |]; vm_compute; discriminate.
Defined.

Lemma split_char_nonempty (sep : N) (s : str) : split_char sep s <> [].
Proof.
  induction s as [|c s IH]; [discriminate|].
  cbn [split_char]. destruct (N.eqb c sep); [discriminate|].
  destruct (split_char sep s); discriminate.
Qed.

Lemma set_parts_fresh (parts : list str) (value page excerpt : json) :
  parts <> [] -> set_parts [] parts value page excerpt <> None.
Proof.
  induction parts as [|k rest IH]; [contradiction|]. intros _.
  destruct rest as [|k2 rest]; [discriminate|].
  rewrite set_parts_step. cbn [dict_get].
  destruct (set_parts [] (k2 :: rest) value page excerpt) eqn:H.
  - discriminate.
  - exfalso. apply IH; [discriminate | reflexivity].
Qed.

Lemma set_parts_fails (parts : list str) (t : dict) (value page excerpt : json) :
  parts <> [] ->
  set_parts t parts value page excerpt = None
  <-> exists pre rest x,
        parts = pre ++ rest /\ rest <> []
        /\ get_parts t pre = Some x /\ is_dict x = false.
Proof.
  revert t. induction parts as [|k rest IH]; intros t Hne; [contradiction|].
  destruct rest as [|k2 rest].
  - split; [discriminate|].
    intros (pre & rest & x & Heq & Hrest & Hget & _). exfalso.
    destruct pre as [|p pre]; [discriminate|].
    cbn [app] in Heq. injection Heq as _ Heq.
    symmetry in Heq. apply app_eq_nil in Heq as [_ Heq]. contradiction.
  - rewrite set_parts_step.
    assert (Hne' : k2 :: rest <> []) by discriminate.
    destruct (dict_get t k) as [[| | | | | |child]|] eqn:Hk.
    1-6: (split; [intros _|reflexivity];
          exists [k], (k2 :: rest); eexists;
          (split; [reflexivity|]); (split; [exact Hne'|]);
          cbn [get_parts]; rewrite Hk; split; reflexivity).
    + specialize (IH child Hne').
      destruct (set_parts child (k2 :: rest) value page excerpt) eqn:Hset.
      * split; [discriminate|].
        intros (pre & rest' & x & Heq & Hrest & Hget & Hx). exfalso.
        assert (Hnone : Some d = None); [|discriminate].
        apply IH. destruct pre as [|p pre]; [discriminate|].
        cbn [app] in Heq. injection Heq as <- Heq.
        destruct pre as [|p2 pre].
        -- cbn [get_parts] in Hget. rewrite Hk in Hget.
           injection Hget as <-. discriminate.
        -- rewrite (get_parts_cons t k p2 pre child Hk) in Hget.
           exists (p2 :: pre), rest', x. auto.
      * split; [intros _|reflexivity].
        destruct (proj1 IH eq_refl) as (pre & rest' & x & Heq & Hrest & Hget & Hx).
        destruct pre as [|p2 pre]; [discriminate|].
        exists (k :: p2 :: pre), rest', x. split; [cbn [app]; f_equal; exact Heq|].
        split; [exact Hrest|]. split; [|exact Hx].
        rewrite (get_parts_cons t k p2 pre child Hk). exact Hget.
    + split.
      * intros H. exfalso.
        destruct (set_parts [] (k2 :: rest) value page excerpt) eqn:Hset;
          [discriminate|].
        exact (set_parts_fresh _ _ _ _ Hne' Hset).
      * intros (pre & rest' & x & Heq & Hrest & Hget & Hx). exfalso.
        destruct pre as [|p pre]; [discriminate|].
        cbn [app] in Heq. injection Heq as <- Heq.
        destruct pre as [|p2 pre]; cbn [get_parts] in Hget;
          rewrite Hk in Hget; discriminate.
Qed.

(** X9.  [set_path] fails, with the [AttributeError] of a method called on
    a value that is not a dictionary, exactly when a proper start of the
    path leads to a value that is there and is not an object.  Keys that are
    missing on the way never make it fail: the objects are created; on an
    empty root it always succeeds. *)
Theorem set_path_fails_on_a_value_in_the_way
        (root : dict) (path : str) (value page excerpt : json) :
  (set_path root path value page excerpt = None
   <-> exists pre rest x,
         split_char 46 path = pre ++ rest /\ rest <> []
         /\ get_parts root pre = Some x /\ is_dict x = false)
  /\ set_path [] path value page excerpt <> None.
Proof.
  split.
  - apply set_parts_fails, split_char_nonempty.
  - apply set_parts_fresh, split_char_nonempty.
Qed.

(* --------------------------------------------------------------------- *)
(** ** [collect_fields], further                                           *)
(* --------------------------------------------------------------------- *)

Lemma collect_fields_at_outside_meta (v : json) :
  forall prefix,
    Forall (fun spec : field_spec =>
              startswith (fst (fst spec)) (u "meta.") = false
              /\ snd (fst spec) = fst (fst spec)
              /\ (prefix <> [] ->
                  startswith (fst (fst spec)) (prefix ++ u ".") = true))
           (collect_fields_at v prefix).
Proof.
  induction v as [| | | | | |entries IH] using json_nested_ind;
    intros prefix; try constructor.
  induction IH as [|[k v] rest Hv _ IHrest]; [constructor|].
  rewrite collect_fields_at_cons. cbv zeta. apply Forall_app. split; [|exact IHrest].
  set (path := match prefix with
               | [] => k
               | _ :: _ => prefix ++ u "." ++ k
               end).
  assert (Hpath : prefix <> [] -> startswith path (prefix ++ u ".") = true).
  { intros Hp. apply startswith_spec. exists k. subst path.
    destruct prefix; [contradiction|]. rewrite <- app_assoc. reflexivity. }
  destruct (startswith path (u "meta.")) eqn:Hmeta; [constructor|].
  destruct v as [| | | | | |d]; try constructor.
  destruct (dict_has d (u "expected_type")).
  - constructor; [|constructor]. cbn [fst snd]. auto.
  - cbn [snd] in Hv. specialize (Hv path).
    rewrite Forall_forall in *. intros spec Hin.
    destruct (Hv spec Hin) as (H1 & H2 & H3). split; [exact H1|].
    split; [exact H2|]. intros Hp.
    assert (Hpne : path <> []).
    { subst path. destruct prefix; [contradiction | discriminate]. }
    specialize (H3 Hpne). apply startswith_spec in H3 as (post & ->).
    apply startswith_spec in Hpath as (post' & ->); [|exact Hp].
    apply startswith_spec. exists (post' ++ u "." ++ post).
    rewrite <- !app_assoc. reflexivity.
Qed.

(** X10.  Whatever the template, no path that [collect_fields] returns
    starts with [meta.]: what lies under [meta] is never asked of the model
    nor written by the fill loop.  The label of every field is its path
    itself, and every path collected below a prefix starts with that prefix
    and a dot. *)
Theorem collect_fields_stays_out_of_meta (obj : dict) (prefix : str) :
  Forall (fun spec : field_spec =>
            startswith (fst (fst spec)) (u "meta.") = false
            /\ snd (fst spec) = fst (fst spec)
            /\ (prefix <> [] ->
                startswith (fst (fst spec)) (prefix ++ u ".") = true))
         (collect_fields obj prefix).
Proof. apply collect_fields_at_outside_meta. Qed.

(* --------------------------------------------------------------------- *)
(** ** What the reader returns                                             *)
(* --------------------------------------------------------------------- *)

Lemma NoDup_keys_distinct (ks : list str) : NoDup ks -> keys_distinct ks = true.
Proof.
  induction 1 as [|k ks Hnotin _ IH]; [reflexivity|].
  cbn [keys_distinct]. rewrite IH, andb_true_r.
  apply negb_true_iff. apply not_true_is_false. intros H.
  apply existsb_exists in H as (x & Hin & Hx).
  apply str_eqb_eq in Hx. subst x. contradiction.
Qed.

Lemma dict_set_values (Q : json -> bool) (d : dict) (k : str) (v : json) :
  forallb (fun kv => Q (snd kv)) d = true -> Q v = true ->
  forallb (fun kv => Q (snd kv)) (dict_set d k v) = true.
Proof.
  intros Hd Hv. induction d as [|[k' v'] d IH].
  - cbn. rewrite Hv. reflexivity.
  - cbn [forallb snd] in Hd. apply andb_prop in Hd as [Hv' Hd].
    cbn [dict_set]. destruct (str_eqb k k'); cbn [forallb snd].
    + rewrite Hv, Hd. reflexivity.
    + rewrite Hv', (IH Hd). reflexivity.
Qed.

Lemma dict_of_pairs_proper (pairs : list (str * json)) :
  forallb (fun kv => keys_proper (snd kv)) pairs = true ->
  keys_proper (JDict (Reader.dict_of_pairs pairs)) = true.
Proof.
  intros Hpairs. unfold Reader.dict_of_pairs.
  assert (H : forall d,
             dict_wf d -> forallb (fun kv => keys_proper (snd kv)) d = true ->
             let d' := fold_left (fun d kv => dict_set d (fst kv) (snd kv)) pairs d in
             dict_wf d' /\ forallb (fun kv => keys_proper (snd kv)) d' = true).
  { induction pairs as [|[k v] pairs IH]; intros d Hwf Hd; [split; assumption|].
    cbn [forallb snd] in Hpairs. apply andb_prop in Hpairs as [Hv Hpairs].
    cbn [fold_left fst snd]. apply (IH Hpairs).
    - apply dict_set_wf, Hwf.
    - apply dict_set_values; assumption. }
  destruct (H [] (NoDup_nil _) eq_refl) as [Hwf Hvals].
  cbn [keys_proper]. rewrite Hvals, andb_true_r.
  apply NoDup_keys_distinct, Hwf.
Qed.

Lemma match_number_proper (s : str) (v : json) (r : str) :
  Reader.match_number s = Some (v, r) -> keys_proper v = true.
Proof.
  unfold Reader.match_number.
  destruct (Reader.match_integer s) as [[[neg ds] r1]|]; [|discriminate].
  destruct (Reader.match_frac r1) as [frac r2].
  destruct (Reader.match_exp r2) as [exp r3].
  destruct frac, exp; intros E; injection E as <- _; reflexivity.
Qed.

Lemma forallb_snoc {A} (f : A -> bool) (l : list A) (a : A) :
  forallb f l = true -> f a = true -> forallb f (l ++ [a]) = true.
Proof.
  intros Hl Ha. rewrite forallb_app, Hl. cbn. rewrite Ha. reflexivity.
Qed.

(** Every object the reader builds has distinct keys, at every depth. *)
Lemma scan_once_proper (fuel : nat) :
  (forall s v r, Reader.scan_once fuel s = Reader.Value v r ->
                 keys_proper v = true)
  /\ (forall pairs s v r,
         forallb (fun kv => keys_proper (snd kv)) pairs = true ->
         Reader.object_loop fuel pairs s = Reader.Value v r ->
         keys_proper v = true)
  /\ (forall values s v r,
         forallb keys_proper values = true ->
         Reader.array_loop fuel values s = Reader.Value v r ->
         keys_proper v = true).
Proof.
  induction fuel as [|fuel (IHscan & IHobj & IHarr)].
  { repeat split; intros; discriminate. }
  split; [|split].
  - intros s v r. cbn [Reader.scan_once].
    destruct s as [|c s1]; [discriminate|].
    destruct (c =? 34)%N.
    { destruct (Reader.scanstring s1) as [[k r0]|]; [|discriminate].
      intros E; injection E as <- _; reflexivity. }
    destruct (c =? 123)%N.
    { destruct (Reader.skip_ws s1) as [|c1 r1]; [discriminate|].
      destruct (c1 =? 125)%N; [intros E; injection E as <- _; reflexivity|].
      destruct (c1 =? 34)%N; [|discriminate].
      apply IHobj. reflexivity. }
    destruct (c =? 91)%N.
    { destruct (Reader.skip_ws s1) as [|c1 r1]; [discriminate|].
      destruct (c1 =? 93)%N; [intros E; injection E as <- _; reflexivity|].
      apply IHarr. reflexivity. }
    destruct ((c =? 110)%N && startswith (c :: s1) (u "null"));
      [intros E; injection E as <- _; reflexivity|].
    destruct ((c =? 116)%N && startswith (c :: s1) (u "true"));
      [intros E; injection E as <- _; reflexivity|].
    destruct ((c =? 102)%N && startswith (c :: s1) (u "false"));
      [intros E; injection E as <- _; reflexivity|].
    destruct (Reader.match_number (c :: s1)) as [[v0 r0]|] eqn:En.
    { intros E; injection E as <- _. exact (match_number_proper _ _ _ En). }
    destruct ((c =? 78)%N && startswith (c :: s1) (u "NaN"));
      [intros E; injection E as <- _; reflexivity|].
    destruct ((c =? 73)%N && startswith (c :: s1) (u "Infinity"));
      [intros E; injection E as <- _; reflexivity|].
    destruct ((c =? 45)%N && startswith (c :: s1) (u "-Infinity"));
      [intros E; injection E as <- _; reflexivity|].
    discriminate.
  - intros pairs s v r Hpairs. cbn [Reader.object_loop].
    destruct (Reader.scanstring s) as [[key s1]|]; [|discriminate].
    destruct (Reader.skip_ws s1) as [|c s2]; [discriminate|].
    destruct (c =? 58)%N; [|discriminate].
    destruct (Reader.scan_once fuel (Reader.skip_ws s2)) as [v0 s3| |] eqn:Ev;
      try discriminate.
    apply IHscan in Ev.
    assert (Hpairs' : forallb (fun kv => keys_proper (snd kv))
                              (pairs ++ [(key, v0)]) = true)
      by (apply forallb_snoc; assumption).
    destruct (Reader.skip_ws s3) as [|c3 s4]; [discriminate|].
    destruct (c3 =? 125)%N.
    { intros E; injection E as <- _. apply dict_of_pairs_proper, Hpairs'. }
    destruct (c3 =? 44)%N; [|discriminate].
    destruct (Reader.skip_ws s4) as [|c5 s5]; [discriminate|].
    destruct (c5 =? 34)%N; [|discriminate].
    apply IHobj, Hpairs'.
  - intros values s v r Hvalues. cbn [Reader.array_loop].
    destruct (Reader.scan_once fuel s) as [v0 s1| |] eqn:Ev; try discriminate.
    apply IHscan in Ev.
    assert (Hvalues' : forallb keys_proper (values ++ [v0]) = true)
      by (apply forallb_snoc; assumption).
    destruct (Reader.skip_ws s1) as [|c s2]; [discriminate|].
    destruct (c =? 93)%N.
    { intros E; injection E as <- _. exact Hvalues'. }
    destruct (c =? 44)%N; [|discriminate].
    apply IHarr, Hvalues'.
Qed.

Lemma loads_proper (s : str) (v : json) :
  Reader.loads s = Some v -> keys_proper v = true.
Proof.
  unfold Reader.loads, Reader.decode.
  destruct (startswith s [65279%N]); [discriminate|].
  destruct (Reader.scan_once _ _) as [v0 rest| |] eqn:E; try discriminate.
  destruct (Reader.skip_ws rest); [|discriminate].
  intros H; injection H as <-.
  exact (proj1 (scan_once_proper _) _ _ _ E).
Qed.

Lemma parse_json_content_proper (content : str) :
  keys_proper (parse_json_content content) = true.
Proof.
  unfold parse_json_content.
  destruct (Reader.loads content) as [v|] eqn:E; [exact (loads_proper _ _ E)|].
  destruct (_ && _); [|reflexivity].
  destruct (Reader.loads (slice _ _ _)) as [v|] eqn:E2;
    [exact (loads_proper _ _ E2) | reflexivity].
Qed.

Lemma keys_proper_update_wf (v : json) : keys_proper v = true -> update_wf v.
Proof.
  destruct v; try exact (fun _ => I).
  cbn [keys_proper update_wf]. intros H. apply andb_prop in H as [H _].
  apply keys_distinct_NoDup, H.
Qed.

(** X11.  Whatever the text of the reply, what [parse_json_content] returns
    is a proper Python value: in every object of it, at every depth, the
    keys are pairwise distinct (a repeated key of the text keeps its last
    value).  So the replies that the drivers merge always meet the condition
    under which [merge_extractions] copies exactly the found records. *)
Theorem parse_json_content_keys_are_distinct (content : str) :
  keys_proper (parse_json_content content) = true
  /\ update_wf (parse_json_content content)
  /\ (forall w prompt model st v st',
         call_gemini w prompt model st = (inr v, st') -> update_wf v)
  /\ (forall w messages model st v st',
         call_mistral w messages model st = (inr v, st') -> update_wf v).
Proof.
  split; [apply parse_json_content_proper|].
  split; [apply keys_proper_update_wf, parse_json_content_proper|].
  split.
  - intros w prompt model st v st'.
    unfold call_gemini, bind, history, emit_event, lift, raise, ret.
    destruct (llm_http w (log st) model [prompt]); [discriminate|].
    intros E; injection E as <- _.
    apply keys_proper_update_wf, parse_json_content_proper.
  - intros w messages model st v st'. unfold call_mistral.
    destruct (credential_absent w (u "MISTRAL_API_KEY")); [discriminate|].
    unfold bind, history, emit_event, lift, raise, ret.
    destruct (llm_http w (log st) model messages); [discriminate|].
    intros E; injection E as <- _.
    apply keys_proper_update_wf, parse_json_content_proper.
Qed.

(* --------------------------------------------------------------------- *)
(** ** [merge_extractions], further                                        *)
(* --------------------------------------------------------------------- *)

Lemma merge_items_fixed (entries base : dict) :
  (forall k payload,
      In (k, JDict payload) entries ->
      is_found (dict_get_default payload (u "value") JNull) = true ->
      dict_get base k = Some (JDict payload)) ->
  fold_left merge_item entries base = base.
Proof.
  induction entries as [|[k v] entries IH]; intros H; [reflexivity|].
  cbn [fold_left].
  assert (Hitem : merge_item base (k, v) = base).
  { unfold merge_item. destruct v as [| | | | | |payload]; try reflexivity.
    destruct (is_found _) eqn:Hf; [|reflexivity].
    apply dict_set_same_value. apply H; [left; reflexivity | exact Hf]. }
  rewrite Hitem. apply IH. intros k' payload Hin. apply H. right. exact Hin.
Qed.

Lemma merge_item_keys (base : dict) (item : str * json) :
  exists added, map fst (merge_item base item) = map fst base ++ added.
Proof.
  destruct item as [k v]. unfold merge_item.
  destruct v; try (exists []; symmetry; apply app_nil_r).
  destruct (is_found _); [apply dict_set_keys_grow|].
  exists []. symmetry. apply app_nil_r.
Qed.

Lemma merge_items_keys (entries base : dict) :
  exists added, map fst (fold_left merge_item entries base) = map fst base ++ added.
Proof.
  revert base. induction entries as [|item entries IH]; intros base.
  - exists []. symmetry. apply app_nil_r.
  - cbn [fold_left]. destruct (IH (merge_item base item)) as (a2 & H2).
    destruct (merge_item_keys base item) as (a1 & H1).
    exists (a1 ++ a2). rewrite H2, H1, app_assoc. reflexivity.
Qed.

(** X12.  Merging the same reply a second time changes nothing, and a merge
    never removes a key nor moves one: the keys of the result are the keys
    of [base], in their order, followed by the keys that came in. *)
Theorem merge_extractions_is_stable (base : dict) (update : json) :
  update_wf update ->
  merge_extractions (merge_extractions base update) update
  = merge_extractions base update
  /\ exists added,
       map fst (merge_extractions base update) = map fst base ++ added.
Proof.
  intros Hwf. split.
  - destruct update as [| | | | | |entries]; try reflexivity.
    cbn [merge_extractions]. apply merge_items_fixed.
    intros k payload Hin Hfound.
    rewrite (merge_items_lookup entries base k Hwf).
    unfold finding. rewrite (in_dict_get entries k _ Hwf Hin), Hfound.
    reflexivity.
  - destruct update as [| | | | | |entries];
      try (exists []; symmetry; apply app_nil_r).
    apply merge_items_keys.
Qed.

Lemma merge_extractions_is_stable_witness :
  let base := [(u "f1", JDict [(u "value", JStr (u "X"))])] in
  let update := JDict [(u "f2", JDict [(u "value", JInt 3)]);
                       (u "f1", JDict [(u "value", JStr (u "not found"))])] in
  update_wf update
  /\ merge_extractions (merge_extractions base update) update
     = [(u "f1", JDict [(u "value", JStr (u "X"))]);
        (u "f2", JDict [(u "value", JInt 3)])].
Proof.
  intros base update.
  assert (Hwf : update_wf update).
  { apply keys_distinct_NoDup. reflexivity. }
  split; [exact Hwf|].
  rewrite (proj1 (merge_extractions_is_stable base update Hwf)). reflexivity.
Defined.

Lemma dict_set_Forall (Q : json -> Prop) (d : dict) (k : str) (v : json) :
  Forall (fun kv => Q (snd kv)) d -> Q v ->
  Forall (fun kv => Q (snd kv)) (dict_set d k v).
Proof.
  intros Hd Hv. induction Hd as [|[k' v'] d Hv' Hd IH].
  - repeat constructor. exact Hv.
  - cbn [dict_set]. destruct (str_eqb k k'); constructor; assumption.
Qed.

Lemma merge_extractions_found (base : dict) (update : json) :
  Forall found_record base -> Forall found_record (merge_extractions base update).
Proof.
  destruct update as [| | | | | |entries]; try exact (fun H => H).
  cbn [merge_extractions]. revert base.
  induction entries as [|[k v] entries IH]; intros base Hbase; [exact Hbase|].
  cbn [fold_left]. apply IH. unfold merge_item.
  destruct v as [| | | | | |payload]; try exact Hbase.
  destruct (is_found _) eqn:Hf; [|exact Hbase].
  apply (dict_set_Forall
           (fun v => exists payload,
                v = JDict payload
                /\ is_found (dict_get_default payload (u "value") JNull) = true)).
  - exact Hbase.
  - exists payload. split; [reflexivity | exact Hf].
Qed.

Lemma merge_all_found (updates : list json) (base : dict) :
  Forall found_record base -> Forall found_record (merge_all updates base).
Proof.
  unfold merge_all. revert base.
  induction updates as [|r updates IH]; intros base H; [exact H|].
  cbn [fold_left]. apply IH, merge_extractions_found, H.
Qed.

Lemma found_record_written (r : dict) (path : str) :
  Forall found_record r ->
  dict_get r path = None \/ is_found (written_value r path) = true.
Proof.
  intros H. destruct (dict_get r path) as [v|] eqn:Hget; [right | left; reflexivity].
  rewrite Forall_forall in H.
  destruct (H _ (dict_get_in _ _ _ Hget)) as (payload & Hv & Hf).
  cbn [snd] in Hv. subst v.
  unfold written_value, payload_of, payload_value, dict_get_default in *.
  rewrite Hget.
  destruct (dict_get payload (u "value")); [exact Hf | discriminate].
Qed.

(* --------------------------------------------------------------------- *)
(** ** The two passes of the Gemini driver                                 *)
(* --------------------------------------------------------------------- *)

(** The request of pass 1 for a chunk. *)
Lemma run_chunk_step (w : world) (tm : str) (specs : list field_spec)
      (chunk : list page) (st : state) :
  let st1 := {| log := log st ++ [LlmRequest tm [gemini_prompt chunk specs]];
                cache_files := cache_files st |} in
  run_chunk w tm specs chunk st
  = (match llm_http w (log st) tm [gemini_prompt chunk specs] with
     | inl e => inl e
     | inr text => inr (parse_json_content text)
     end, st1).
Proof.
  unfold run_chunk, call_gemini, bind, history, emit_event, lift, raise, ret.
  cbv zeta. destruct (llm_http w (log st) tm [gemini_prompt chunk specs]);
    reflexivity.
Qed.

(** *** The turns of the threads *)

Lemma nth_firstn_skipn {A} (l : list A) (i : nat) (d : A) :
  (i < length l)%nat -> l = firstn i l ++ nth i l d :: skipn (S i) l.
Proof.
  revert i. induction l as [|x l IH]; intros i H; [simpl in H; lia|].
  destruct i as [|i]; [reflexivity|].
  cbn [firstn nth skipn app]. f_equal. apply IH. simpl in H. lia.
Qed.

Lemma take_turns_permutation {A} (n : nat) :
  forall (turns : list nat) (pending : list A),
    (length pending <= n)%nat ->
    Permutation (take_turns n turns pending) pending.
Proof.
  induction n as [|n IH]; intros turns pending Hlen.
  - destruct pending; [constructor | simpl in Hlen; lia].
  - destruct pending as [|x rest]; [constructor|].
    cbn [take_turns].
    assert (Hi : (hd 0 turns mod length (x :: rest) < length (x :: rest))%nat)
      by (apply Nat.mod_upper_bound; discriminate).
    set (i := (hd 0 turns mod length (x :: rest))%nat) in *.
    pose proof (nth_firstn_skipn (x :: rest) i x Hi) as E.
    eapply perm_trans.
    + apply perm_skip, IH.
      rewrite length_app, length_firstn, length_skipn. simpl in *. lia.
    + eapply perm_trans; [apply Permutation_middle|]. rewrite <- E.
      apply Permutation_refl.
Qed.

(** Whatever the turns, every call is made once. *)
Lemma scheduled_permutation {A} (turns : list nat) (calls : list A) :
  Permutation (scheduled turns calls) calls.
Proof. apply take_turns_permutation. lia. Qed.

(** Every order of the calls is the order of some turns. *)
Lemma scheduled_reaches {A} (order : list A) :
  forall calls,
    Permutation order calls -> exists turns, scheduled turns calls = order.
Proof.
  unfold scheduled.
  induction order as [|y order IH]; intros calls Hperm.
  - apply Permutation_nil in Hperm. subst. exists []. reflexivity.
  - assert (Hin : In y calls) by (apply (Permutation_in _ Hperm); now left).
    apply in_split in Hin as (l1 & l2 & ->).
    apply Permutation_cons_app_inv in Hperm.
    destruct (IH _ Hperm) as (turns & Hturns).
    exists (length l1 :: turns).
    rewrite length_app. cbn [length]. rewrite Nat.add_succ_r.
    destruct (l1 ++ y :: l2) as [|x rest] eqn:E;
      [destruct l1; discriminate|].
    cbn [take_turns hd tl]. rewrite <- E.
    assert (Hlen : (length l1 < length (l1 ++ y :: l2))%nat)
      by (rewrite length_app; cbn [length]; lia).
    rewrite (Nat.mod_small _ _ Hlen).
    rewrite app_nth2, Nat.sub_diag by lia. cbn [nth].
    rewrite firstn_app, Nat.sub_diag, firstn_O, app_nil_r, firstn_all.
    replace (S (length l1)) with (length l1 + 1)%nat by lia.
    rewrite skipn_app, skipn_all2 by lia.
    replace (length l1 + 1 - length l1)%nat with 1%nat by lia.
    cbn [skipn app]. rewrite length_app in Hturns. now rewrite Hturns.
Qed.

Lemma file_at_rank_permutation {A} (x : nat * A) (filed : list (nat * A)) :
  Permutation (file_at_rank x filed) (x :: filed).
Proof.
  induction filed as [|y rest IH]; [apply Permutation_refl|].
  cbn [file_at_rank]. destruct (fst x <=? fst y)%nat; [apply Permutation_refl|].
  eapply perm_trans; [apply perm_skip, IH | apply perm_swap].
Qed.

Lemma filed_permutation {A} (done : list (nat * A)) :
  Permutation (fold_right file_at_rank [] done) done.
Proof.
  induction done as [|x rest IH]; [constructor|]. cbn [fold_right].
  eapply perm_trans; [apply file_at_rank_permutation | apply perm_skip, IH].
Qed.

Lemma strongly_sorted_middle {A} (R : A -> A -> Prop) (l1 l2 : list A) (x : A) :
  StronglySorted R (l1 ++ x :: l2) ->
  Forall (fun y => R y x) l1 /\ Forall (R x) l2 /\ StronglySorted R (l1 ++ l2).
Proof.
  induction l1 as [|y l1 IH]; cbn [app]; intros H.
  - inversion H; subst. auto.
  - inversion H as [|? ? Hs Hall]; subst.
    destruct (IH Hs) as (H1 & H2 & H3).
    apply Forall_app in Hall as [Ha Hb]. inversion Hb; subst.
    split; [constructor; assumption|]. split; [assumption|].
    constructor; [assumption|]. apply Forall_app. split; assumption.
Qed.

Lemma file_at_rank_middle {A} (x : nat * A) (l1 l2 : list (nat * A)) :
  Forall (fun y => (fst y < fst x)%nat) l1 ->
  Forall (fun y => (fst x < fst y)%nat) l2 ->
  file_at_rank x (l1 ++ l2) = l1 ++ x :: l2.
Proof.
  intros H1 H2. induction H1 as [|y l1 Hy _ IH]; cbn [app].
  - destruct H2 as [|z l2 Hz _]; [reflexivity|]. cbn [file_at_rank].
    replace (fst x <=? fst z)%nat with true by (symmetry; apply Nat.leb_le; lia).
    reflexivity.
  - cbn [file_at_rank].
    replace (fst x <=? fst y)%nat with false by (symmetry; apply Nat.leb_gt; lia).
    now rewrite IH.
Qed.

(** Filing results that come in any order gives them in the order of their
    ranks. *)
Lemma filed_in_rank_order {A} (done : list (nat * A)) :
  forall ranked,
    Permutation done ranked ->
    StronglySorted (fun x y => (fst x < fst y)%nat) ranked ->
    fold_right file_at_rank [] done = ranked.
Proof.
  induction done as [|x rest IH]; intros ranked Hperm Hsorted.
  - apply Permutation_nil in Hperm. now subst.
  - assert (Hin : In x ranked)
      by (apply (Permutation_in _ Hperm); now left).
    apply in_split in Hin as (l1 & l2 & ->).
    apply Permutation_cons_app_inv in Hperm.
    destruct (strongly_sorted_middle _ _ _ _ Hsorted) as (H1 & H2 & H3).
    cbn [fold_right]. rewrite (IH _ Hperm H3).
    now apply file_at_rank_middle.
Qed.

Lemma snd_combine_seq {A} (l : list A) (a : nat) :
  map snd (combine (seq a (length l)) l) = l.
Proof.
  revert a. induction l as [|x l IH]; intros a; [reflexivity|].
  cbn [length seq combine map snd]. now rewrite IH.
Qed.

Lemma ranked_sorted {A B} (f : A -> B) (l : list A) (a : nat) :
  StronglySorted (fun x y => (fst x < fst y)%nat)
                 (map (fun ic => (fst ic, f (snd ic)))
                      (combine (seq a (length l)) l)).
Proof.
  revert a. induction l as [|x l IH]; intros a; [constructor|].
  cbn [length seq combine map fst snd]. constructor; [apply IH|].
  apply Forall_forall. intros y Hy.
  apply in_map_iff in Hy as ([i c] & <- & Hic).
  apply in_combine_l, in_seq in Hic. cbn [fst]. lia.
Qed.

(** *** The calls of pass 1 *)

Lemma run_calls_spec (w : world) (tm : str) (specs : list field_spec)
      (calls : list (nat * list page)) (st : state) :
  exists done,
    run_calls w tm specs calls st
    = (inr done, {| log := log st ++ chunk_requests tm specs (map snd calls);
                    cache_files := cache_files st |})
    /\ length done = length calls
    /\ Forall (fun d => future_wf (snd d)) done.
Proof.
  revert st. induction calls as [|[i chunk] rest IH]; intros st.
  - exists []. cbn [run_calls chunk_requests map]. unfold ret.
    rewrite app_nil_r. destruct st.
    split; [reflexivity|]. split; [reflexivity | constructor].
  - cbn [run_calls]. rewrite run_chunk_step. cbv zeta.
    destruct (IH {| log := log st ++ [LlmRequest tm [gemini_prompt chunk specs]];
                    cache_files := cache_files st |})
      as (done & Heq & Hlen & Hwf).
    rewrite Heq. eexists. split; [|split].
    + cbn [log cache_files chunk_requests map snd]. rewrite <- app_assoc.
      reflexivity.
    + cbn [length]. now rewrite Hlen.
    + constructor; [|exact Hwf]. cbn [snd].
      destruct (llm_http w (log st) tm [gemini_prompt chunk specs]); [exact I|].
      apply keys_proper_update_wf, parse_json_content_proper.
Qed.

(** The parallel branch makes the call of every chunk, in an order of its
    own, and keeps a future for every chunk. *)
Lemma submit_all_spec (w : world) (tm : str) (specs : list field_spec)
      (chunks : list (list page)) (st : state) :
  exists futures order,
    submit_all w tm specs chunks st
    = (inr futures, {| log := log st ++ chunk_requests tm specs order;
                       cache_files := cache_files st |})
    /\ Permutation order chunks
    /\ length futures = length chunks
    /\ Forall future_wf futures.
Proof.
  unfold submit_all. cbv zeta.
  set (calls := combine (seq 0 (length chunks)) chunks).
  destruct (run_calls_spec w tm specs (scheduled (request_turns w) calls) st)
    as (done & Heq & Hlen & Hwf).
  assert (Horder : Permutation (map snd (scheduled (request_turns w) calls))
                               chunks).
  { pose proof (snd_combine_seq chunks 0) as E. fold calls in E.
    apply Permutation_trans with (l' := map snd calls);
      [apply Permutation_map, scheduled_permutation|].
    rewrite E. apply Permutation_refl. }
  assert (Hdone : length done = length chunks).
  { rewrite Hlen, (Permutation_length (scheduled_permutation _ calls)).
    unfold calls. rewrite length_combine, length_seq. lia. }
  exists (in_rank_order done), (map snd (scheduled (request_turns w) calls)).
  unfold bind. rewrite Heq. unfold ret.
  split; [reflexivity|]. split; [exact Horder|].
  pose proof (filed_permutation done) as Hperm. unfold in_rank_order.
  split.
  - rewrite length_map, (Permutation_length Hperm). exact Hdone.
  - apply Forall_map. apply (Permutation_Forall (Permutation_sym Hperm)).
    exact Hwf.
Qed.

(** For a service that answers without regard to what came before, the
    future of every chunk holds the reply to its request, whatever the
    turns of the threads. *)
Lemma run_calls_memoryless (w : world) (tm : str) (specs : list field_spec)
      (calls : list (nat * list page)) (st : state) :
  memoryless w ->
  run_calls w tm specs calls st
  = (inr (map (fun ic => (fst ic, chunk_reply w tm specs (snd ic))) calls),
     {| log := log st ++ chunk_requests tm specs (map snd calls);
        cache_files := cache_files st |}).
Proof.
  intros [_ Hllm]. revert st.
  induction calls as [|[i chunk] rest IH]; intros st.
  - cbn [run_calls chunk_requests map]. unfold ret.
    rewrite app_nil_r. now destruct st.
  - cbn [run_calls]. rewrite run_chunk_step. cbv zeta. rewrite IH.
    cbn [log cache_files chunk_requests map fst snd]. rewrite <- app_assoc.
    unfold chunk_reply. rewrite (Hllm (log st) []). reflexivity.
Qed.

Lemma submit_all_memoryless (w : world) (tm : str) (specs : list field_spec)
      (chunks : list (list page)) (st : state) :
  memoryless w ->
  fst (submit_all w tm specs chunks st)
  = inr (map (chunk_reply w tm specs) chunks).
Proof.
  intros Hw. unfold submit_all. cbv zeta. unfold bind.
  rewrite (run_calls_memoryless w tm specs _ st Hw). unfold ret. cbn [fst].
  f_equal. unfold in_rank_order.
  set (calls := combine (seq 0 (length chunks)) chunks).
  rewrite (filed_in_rank_order _
             (map (fun ic => (fst ic, chunk_reply w tm specs (snd ic))) calls)).
  - rewrite map_map. cbn [snd].
    rewrite <- (map_map snd (chunk_reply w tm specs)).
    unfold calls. now rewrite snd_combine_seq.
  - apply Permutation_map, scheduled_permutation.
  - apply ranked_sorted.
Qed.

Lemma pass1_sequential_memoryless (w : world) (tm : str)
      (specs : list field_spec) (chunks : list (list page)) :
  memoryless w ->
  forall replies base st,
    map (chunk_reply w tm specs) chunks = map inr replies ->
    pass1_sequential w tm specs chunks base st
    = (inr (merge_all replies base),
       {| log := log st ++ chunk_requests tm specs chunks;
          cache_files := cache_files st |}).
Proof.
  intros [_ Hllm].
  induction chunks as [|chunk rest IH]; intros replies base st Hmap.
  - destruct replies; [|discriminate].
    cbn [pass1_sequential chunk_requests map merge_all fold_left]. unfold ret.
    rewrite app_nil_r. now destruct st.
  - destruct replies as [|v vs]; [discriminate|].
    cbn [map] in Hmap. injection Hmap as Hv Hvs.
    cbn [pass1_sequential]. unfold bind at 1. rewrite run_chunk_step. cbv zeta.
    unfold chunk_reply in Hv. rewrite (Hllm (log st) []).
    destruct (llm_http w [] tm [gemini_prompt chunk specs]) as [e|text];
      [discriminate|].
    injection Hv as <-. rewrite (IH vs _ _ Hvs).
    cbn [log cache_files chunk_requests map merge_all fold_left].
    rewrite <- app_assoc. reflexivity.
Qed.

Lemma merge_completed_all (replies : list json) (base : dict) (st : state) :
  merge_completed (map inr replies) base st = (inr (merge_all replies base), st).
Proof.
  revert base. induction replies as [|v vs IH]; intros base; [reflexivity|].
  cbn [map merge_completed]. rewrite IH. reflexivity.
Qed.

Lemma Forall_future_wf_replies (replies : list json) :
  Forall future_wf (map inr replies) -> Forall update_wf replies.
Proof.
  induction replies as [|v vs IH]; [constructor|].
  cbn [map]. intros H. inversion H; subst. constructor; [assumption|].
  apply IH. assumption.
Qed.

Lemma merge_all_perm_lookup (base : dict) (updates updates' : list json)
      (key : str) :
  Permutation updates updates' ->
  Forall update_wf updates ->
  findings_agree updates ->
  dict_get (merge_all updates base) key = dict_get (merge_all updates' base) key.
Proof.
  intros Hperm Hwf Hagree.
  assert (Hwf' : Forall update_wf updates').
  { rewrite Forall_forall in *. intros r Hr. apply Hwf.
    apply Permutation_in with (l := updates'); [symmetry|]; assumption. }
  destruct (merge_all_lookup updates base key Hwf)
    as [(r1 & v1 & Hin1 & Hf1 & Hget1) | [Hnone1 Hget1]];
  destruct (merge_all_lookup updates' base key Hwf')
    as [(r2 & v2 & Hin2 & Hf2 & Hget2) | [Hnone2 Hget2]].
  - rewrite Hget1, Hget2. f_equal.
    apply (Hagree r1 r2 key); try assumption.
    apply Permutation_in with (l := updates'); [symmetry|]; assumption.
  - rewrite Hnone2 in Hf1; [discriminate|].
    apply Permutation_in with (l := updates); assumption.
  - rewrite Hnone1 in Hf2; [discriminate|].
    apply Permutation_in with (l := updates'); [symmetry|]; assumption.
  - congruence.
Qed.

(** X13.  Pass 1 gives the same result in parallel as in sequence.  Take a
    world whose services answer a request in the same way whatever came
    before.  When every call of the parallel run returns, whatever the
    order in which the threads make their calls, the futures complete in
    any order, and no two replies report different records as found for
    the same key, then the sequential run returns too, and the two results
    hold the same entry for every key.  The two runs have sent the same
    requests, each in an order of its own, and left the cache as it was. *)
Theorem parallel_pass_agrees_with_sequential
        (w : world) (par seq : gemini_args) (tm : str)
        (specs : list field_spec) (pages : list page) (st st' : state)
        (replies : list json) :
  memoryless w ->
  g_chunk_pages par = g_chunk_pages seq ->
  (g_parallel_api par > 1)%Z ->
  (g_parallel_api seq <= 1)%Z ->
  submit_all w tm specs (chunks_of pages (g_chunk_pages par)) st
  = (inr (map inr replies), st') ->
  Permutation (as_completed w (map inr replies)) (map inr replies) ->
  findings_agree replies ->
  exists r_par r_seq st_par st_seq,
    pass1 w par tm specs pages st = (inr r_par, st_par)
    /\ pass1 w seq tm specs pages st = (inr r_seq, st_seq)
    /\ (forall key, dict_get r_par key = dict_get r_seq key)
    /\ Permutation (log st_par) (log st_seq)
    /\ cache_files st_par = cache_files st
    /\ cache_files st_seq = cache_files st.
Proof.
  intros Hw Hchunk Hpar Hseq Hsubmit Hperm Hagree.
  set (chunks := chunks_of pages (g_chunk_pages par)) in *.
  assert (Hreplies : map (chunk_reply w tm specs) chunks = map inr replies).
  { pose proof (submit_all_memoryless w tm specs chunks st Hw) as H.
    rewrite Hsubmit in H. cbn [fst] in H. now injection H as <-. }
  pose proof (pass1_sequential_memoryless w tm specs chunks Hw replies [] st
                Hreplies) as Hsequential.
  set (st_seq := {| log := log st ++ chunk_requests tm specs chunks;
                    cache_files := cache_files st |}) in *.
  assert (Hseq_run : pass1 w seq tm specs pages st
                     = (inr (merge_all replies []), st_seq)).
  { unfold pass1. rewrite <- Hchunk. fold chunks.
    replace (g_parallel_api seq >? 1)%Z with false by (symmetry; lia).
    exact Hsequential. }
  unfold pass1 at 1. fold chunks.
  replace (g_parallel_api par >? 1)%Z with true by (symmetry; lia).
  cbn [andb].
  destruct (1 <? length chunks)%nat.
  - unfold bind. rewrite Hsubmit.
    destruct (Permutation_map_inv _ _ Hperm) as (replies' & Heq & Hperm').
    rewrite Heq, merge_completed_all.
    destruct (submit_all_spec w tm specs chunks st)
      as (futures & order & Hsp & Horder & _ & Hwf).
    rewrite Hsubmit in Hsp. injection Hsp as <- ->.
    exists (merge_all replies' []), (merge_all replies []),
      {| log := log st ++ chunk_requests tm specs order;
         cache_files := cache_files st |}, st_seq.
    split; [reflexivity|]. split; [exact Hseq_run|].
    split; [|split; [|split; reflexivity]].
    + intros key. symmetry.
      apply merge_all_perm_lookup; [exact Hperm'| |exact Hagree].
      apply Forall_future_wf_replies, Hwf.
    + subst st_seq. cbn [log]. apply Permutation_app_head.
      unfold chunk_requests. now apply Permutation_map.
  - exists (merge_all replies []), (merge_all replies []), st_seq, st_seq.
    split; [exact Hsequential|]. split; [exact Hseq_run|].
    split; [reflexivity|]. split; [apply Permutation_refl|].
    split; reflexivity.
Qed.

Lemma parallel_pass_agrees_with_sequential_witness :
  exists r_par r_seq st_par st_seq,
    pass1 late_first_world parallel_args (u "pro") [construction_field]
          sample_pages (initial_state late_first_world) = (inr r_par, st_par)
    /\ pass1 late_first_world sequential_args (u "pro") [construction_field]
             sample_pages (initial_state late_first_world) = (inr r_seq, st_seq)
    /\ (forall key, dict_get r_par key = dict_get r_seq key)
    /\ Permutation (log st_par) (log st_seq)
    /\ cache_files st_par = cache_files (initial_state late_first_world)
    /\ cache_files st_seq = cache_files (initial_state late_first_world).
Proof.
  set (v := parse_json_content sample_reply).
  assert (Hw : memoryless late_first_world) by (split; intros; reflexivity).
  assert (Hagree : findings_agree [v; v]).
  { intros r1 r2 key v1 v2 [<-|[<-|[]]] [<-|[<-|[]]] H1 H2; congruence. }
  assert (Hperm : Permutation (as_completed late_first_world (map inr [v; v]))
                              (map inr [v; v])).
  { apply Permutation_sym. exact (Permutation_rev (map inr [v; v])). }
  assert (Hsubmit : submit_all late_first_world (u "pro") [construction_field]
                               (chunks_of sample_pages (g_chunk_pages parallel_args))
                               (initial_state late_first_world)
                    = (inr (map inr [v; v]),
                       {| log := rev (chunk_requests (u "pro") [construction_field]
                                        (chunks_of sample_pages 1));
                          cache_files := [] |})).
  { subst v. vm_compute. reflexivity. }
  assert (Hpar : (g_parallel_api parallel_args > 1)%Z) by reflexivity.
  assert (Hseq : (g_parallel_api sequential_args <= 1)%Z) by discriminate.
  exact (parallel_pass_agrees_with_sequential
           late_first_world parallel_args sequential_args (u "pro")
           [construction_field] sample_pages (initial_state late_first_world) _
           [v; v] Hw eq_refl Hpar Hseq Hsubmit Hperm Hagree).
Defined.




Lemma pass1_sequential_found (w : world) (tm : str) (specs : list field_spec)
      (chunks : list (list page)) :
  forall base st r st',
    Forall found_record base ->
    pass1_sequential w tm specs chunks base st = (inr r, st') ->
    Forall found_record r.
Proof.
  induction chunks as [|chunk rest IH]; intros base st r st' Hbase.
  - cbn [pass1_sequential]. unfold ret. intros E. injection E as <- _. exact Hbase.
  - cbn [pass1_sequential]. unfold bind at 1.
    destruct (run_chunk w tm specs chunk st) as [[e|v] st1]; [discriminate|].
    apply IH, merge_extractions_found, Hbase.
Qed.

Lemma merge_completed_found (futures : list (exn + json)) :
  forall base st r st',
    Forall found_record base ->
    merge_completed futures base st = (inr r, st') ->
    Forall found_record r.
Proof.
  induction futures as [|[e|v] rest IH]; intros base st r st' Hbase.
  - cbn [merge_completed]. unfold ret. intros E. injection E as <- _. exact Hbase.
  - discriminate.
  - cbn [merge_completed]. apply IH, merge_extractions_found, Hbase.
Qed.

Lemma pass1_found (w : world) (args : gemini_args) (tm : str)
      (specs : list field_spec) (pages : list page) (st st' : state) (r : dict) :
  pass1 w args tm specs pages st = (inr r, st') -> Forall found_record r.
Proof.
  unfold pass1. destruct (_ && _).
  - unfold bind.
    destruct (submit_all w tm specs _ st) as [[e|futures] st1]; [discriminate|].
    apply merge_completed_found. constructor.
  - apply pass1_sequential_found. constructor.
Qed.

Lemma second_pass_found (w : world) (tm : str) (specs : list field_spec)
      (pages : list page) (r0 r : dict) (st st' : state) :
  Forall found_record r0 ->
  second_pass w tm specs pages r0 st = (inr r, st') ->
  Forall found_record r.
Proof.
  intros H0. unfold second_pass.
  destruct (missing_fields specs r0);
    [unfold ret; intros E; injection E as <- _; exact H0|].
  destruct (find_relevant_pages pages _);
    [unfold ret; intros E; injection E as <- _; exact H0|].
  unfold bind.
  destruct (call_gemini w _ tm st) as [[e|v] st1]; [discriminate|].
  unfold ret. intros E. injection E as <- _.
  apply merge_extractions_found, H0.
Qed.

(** X15.  The result the Gemini driver fills the template from holds
    nothing but found records: after pass 1, and after the second pass,
    every entry of the result is an object whose value [is_found] accepts.
    So, for every path, the fill loop writes either the default, for want
    of an entry, or a value that [is_found] accepts: a blank or "not found"
    answer of the model is never written, and the loop never meets a
    payload that is not an object. *)
Theorem gemini_result_holds_found_records
        (w : world) (args : gemini_args) (tm : str) (specs : list field_spec)
        (pages : list page) (st st1 : state) (r1 : dict) :
  pass1 w args tm specs pages st = (inr r1, st1) ->
  Forall found_record r1
  /\ (forall path, dict_get r1 path = None
                   \/ is_found (written_value r1 path) = true)
  /\ (forall st2 r2 st3,
         second_pass w tm specs pages r1 st2 = (inr r2, st3) ->
         Forall found_record r2
         /\ forall path, dict_get r2 path = None
                         \/ is_found (written_value r2 path) = true).
Proof.
  intros H1. pose proof (pass1_found _ _ _ _ _ _ _ _ H1) as Hr1.
  split; [exact Hr1|]. split; [intros path; apply found_record_written, Hr1|].
  intros st2 r2 st3 H2.
  pose proof (second_pass_found _ _ _ _ _ _ _ _ Hr1 H2) as Hr2.
  split; [exact Hr2 | intros path; apply found_record_written, Hr2].
Qed.

Lemma gemini_result_holds_found_records_witness :
  let specs := [construction_field;
                (u "batiment.syndic", u "batiment.syndic", JStr (u "string"))] in
  let r1 := [(u "batiment.date_construction",
              JDict [(u "value", JStr (u "1985")); (u "page", JInt 1);
                     (u "excerpt", JStr (u "Date de construction: 1985"))])] in
  let st1 := {| log := chunk_requests (u "pro") specs (chunks_of sample_pages 1);
                cache_files := [] |} in
  pass1 keyed_world parallel_args (u "pro") specs sample_pages
        (initial_state keyed_world) = (inr r1, st1)
  /\ Forall found_record r1.
Proof.
  intros specs r1 st1.
  assert (Hrun : pass1 keyed_world parallel_args (u "pro") specs sample_pages
                       (initial_state keyed_world) = (inr r1, st1))
    by (vm_compute; reflexivity).
  split; [exact Hrun|].
  exact (proj1 (gemini_result_holds_found_records
                  keyed_world parallel_args (u "pro") specs sample_pages
                  (initial_state keyed_world) st1 r1 Hrun)).
Defined.

(* --------------------------------------------------------------------- *)
(** ** The template of a run                                               *)
(* --------------------------------------------------------------------- *)

Lemma unknown_doc_type_path (w : world) (doc_type : str) :
  ~ In doc_type known_doc_types ->
  template_path_of w doc_type = template_path_of w (u "carnet").
Proof.
  intros H. unfold template_path_of, DOC_TEMPLATES. cbn [assoc_get].
  repeat match goal with
         | |- context [str_eqb doc_type ?k] =>
             let E := fresh "E" in
             destruct (str_eqb doc_type k) eqn:E;
             [apply str_eqb_eq in E; exfalso; apply H; rewrite E;
              unfold known_doc_types; simpl; tauto|]
         end.
  reflexivity.
Qed.

Lemma load_template_path (w : world) (dt dt' : str) :
  template_path_of w dt = template_path_of w dt' ->
  load_template w dt = load_template w dt'.
Proof. intros H. unfold load_template. rewrite H. reflexivity. Qed.

(** X16.  A document type that is not a key of [DOC_TEMPLATES] is not an
    error: the run uses the template of [carnet], and is in every respect
    the run for [carnet]. *)
Theorem unknown_doc_type_runs_as_carnet (w : world) :
  (forall doc_type,
      ~ In doc_type known_doc_types ->
      template_path_of w doc_type
      = get_template_path w (u "carnet_entretien_empty.json"))
  /\ (forall args,
         ~ In (m_doc_type args) known_doc_types ->
         main_mistral w args
         = main_mistral w (mistral_with_doc_type args (u "carnet")))
  /\ (forall args,
         ~ In (g_doc_type args) known_doc_types ->
         main_gemini w args
         = main_gemini w (gemini_with_doc_type args (u "carnet"))).
Proof.
  split; [|split].
  - intros doc_type H. rewrite (unknown_doc_type_path w doc_type H). reflexivity.
  - intros args H. unfold main_mistral, mistral_body.
    cbn [mistral_with_doc_type m_doc_type m_document m_output m_model
         m_ocr_model m_max_pages m_ocr_all].
    rewrite (load_template_path w _ (u "carnet") (unknown_doc_type_path w _ H)).
    reflexivity.
  - intros args H. unfold main_gemini, gemini_body, choose_text_model, pass1.
    cbn [gemini_with_doc_type g_doc_type g_document g_output g_model
         g_vision_model g_max_pages g_ocr_all g_ocr_cache_dir g_chunk_pages
         g_parallel_api g_second_pass].
    rewrite (load_template_path w _ (u "carnet") (unknown_doc_type_path w _ H)).
    reflexivity.
Qed.

Lemma choose_text_model_startup (w : world) (args : gemini_args) :
  exists r new,
    choose_text_model w args (initial_state w)
    = (r, {| log := new; cache_files := cache_dir_files w |})
    /\ Forall startup_event new.
Proof.
  assert (Hsel : exists r new,
             select_model w true (initial_state w)
             = (r, {| log := new; cache_files := cache_dir_files w |})
             /\ Forall startup_event new).
  { unfold select_model, bind, emit_event, lift, raise, ret.
    destruct (models_list w) as [e|models]; eexists; eexists;
      (split; [reflexivity|]); repeat constructor. }
  unfold choose_text_model.
  destruct (truthy (g_model args)).
  - eexists. exists []. split; [reflexivity | constructor].
  - destruct (getenv w (u "GEMINI_TEXT_MODEL")) as [m|]; [|exact Hsel].
    destruct (truthy m); [|exact Hsel].
    eexists. exists []. split; [reflexivity | constructor].
Qed.

Lemma load_template_missing (w : world) (doc_type : str) (st : state) :
  read_text w (template_path_of w doc_type) = None ->
  load_template w doc_type st
  = (inl (FileNotFoundError
            (u "Template introuvable: " ++ template_path_of w doc_type)), st).
Proof. intros H. unfold load_template. rewrite H. reflexivity. Qed.

Lemma Forall_snoc {A} (P : A -> Prop) (l : list A) (a : A) :
  Forall P l -> P a -> Forall P (l ++ [a]).
Proof. intros Hl Ha. apply Forall_app. split; [exact Hl | repeat constructor; exact Ha]. Qed.

(** X17.  When the template file is missing, neither driver loads a page,
    sends a request to the model or writes an output.  The Mistral run ends
    at once with the [FileNotFoundError] that names the path.  So does the
    Gemini run once it has its model; before that it can only end for want
    of a credential or of a model. *)
Theorem missing_template_stops_the_run (w : world) :
  (forall args,
      read_text w (template_path_of w (m_doc_type args)) = None ->
      main_mistral w args
      = (Uncaught (FileNotFoundError
                     (u "Template introuvable: "
                      ++ template_path_of w (m_doc_type args))),
         initial_state w))
  /\ (forall args,
         read_text w (template_path_of w (g_doc_type args)) = None ->
         exists o st,
           main_gemini w args = (o, st)
           /\ o <> Completed
           /\ Forall startup_event (log st)
           /\ cache_files st = cache_dir_files w
           /\ (credential_absent w (u "GEMINI_API_KEY") = false ->
               truthy (g_model args) = true ->
               o = Uncaught (FileNotFoundError
                               (u "Template introuvable: "
                                ++ template_path_of w (g_doc_type args)))
               /\ st = initial_state w)).
Proof.
  split.
  - intros args H. unfold main_mistral, mistral_body, bind.
    rewrite (load_template_missing w _ _ H). reflexivity.
  - intros args H. unfold main_gemini.
    destruct (credential_absent w (u "GEMINI_API_KEY")) eqn:Hkey.
    { eexists. eexists. split; [reflexivity|]. split; [discriminate|].
      split; [repeat constructor|]. split; [reflexivity|]. discriminate. }
    destruct (choose_text_model_startup w args) as (r & new & Heq & Hnew).
    assert (Hgiven : truthy (g_model args) = true ->
                     r = inr (Some (g_model args)) /\ new = []).
    { intros Ht. unfold choose_text_model in Heq. rewrite Ht in Heq.
      unfold ret in Heq. injection Heq as <- <-. split; reflexivity. }
    rewrite Heq. destruct r as [e|[text_model|]].
    + eexists. eexists. split; [reflexivity|]. split; [discriminate|].
      split; [exact Hnew|]. split; [reflexivity|].
      intros _ Ht. destruct (Hgiven Ht) as [E _]. discriminate.
    + destruct (truthy text_model) eqn:Htm.
      * unfold gemini_body, bind. rewrite (load_template_missing w _ _ H).
        cbn [finish]. eexists. eexists. split; [reflexivity|].
        split; [discriminate|]. split; [exact Hnew|]. split; [reflexivity|].
        intros _ Ht. destruct (Hgiven Ht) as [_ ->]. split; reflexivity.
      * eexists. eexists. split; [reflexivity|]. split; [discriminate|].
        cbn [log cache_files].
        split; [apply Forall_snoc; [exact Hnew | exact I]|].
        split; [reflexivity|].
        intros _ Ht. destruct (Hgiven Ht) as [E _]. injection E as ->.
        rewrite Ht in Htm. discriminate.
    + eexists. eexists. split; [reflexivity|]. split; [discriminate|].
      cbn [log cache_files].
      split; [apply Forall_snoc; [exact Hnew | exact I]|].
      split; [reflexivity|].
      intros _ Ht. destruct (Hgiven Ht) as [E _]. discriminate.
Qed.

(** X18.  With its credential but no model named on the command line or in
    the environment, and no listed model that supports [generateContent]
    with [pro] or [flash] in its name, the Gemini run lists the models,
    prints its message and exits with status 1: it has read no template,
    loaded no page and sent no request. *)
Theorem gemini_without_a_model_exits
        (w : world) (args : gemini_args) (models : list (str * list str)) :
  credential_absent w (u "GEMINI_API_KEY") = false ->
  truthy (g_model args) = false ->
  credential_absent w (u "GEMINI_TEXT_MODEL") = true ->
  models_list w = inr models ->
  find is_pro models = None ->
  find is_flash models = None ->
  main_gemini w args
  = (Exited 1, {| log := [ListModels; Stdout NO_MODEL_MESSAGE];
                  cache_files := cache_dir_files w |}).
Proof.
  intros Hkey Hmodel Henv Hlist Hpro Hflash.
  unfold main_gemini. rewrite Hkey.
  assert (Hchoose : choose_text_model w args (initial_state w)
                    = (inr None, {| log := [ListModels];
                                    cache_files := cache_dir_files w |})).
  { unfold choose_text_model. rewrite Hmodel.
    assert (Hsel : select_model w true (initial_state w)
                   = (inr None, {| log := [ListModels];
                                   cache_files := cache_dir_files w |})).
    { unfold select_model, bind, emit_event, lift, ret. rewrite Hlist.
      rewrite select_model_loop_spec, Hpro, Hflash. reflexivity. }
    unfold credential_absent in Henv.
    destruct (getenv w (u "GEMINI_TEXT_MODEL")) as [m|]; [|exact Hsel].
    destruct (truthy m); [discriminate | exact Hsel]. }
  rewrite Hchoose. reflexivity.
Qed.

Lemma gemini_without_a_model_exits_witness :
  main_gemini array_reply_world sample_gemini_args
  = (Exited 1, {| log := [ListModels; Stdout NO_MODEL_MESSAGE];
                  cache_files := [] |}).
Proof.
  exact (gemini_without_a_model_exits
           array_reply_world sample_gemini_args
           [(u "models/embedding", [u "embedContent"])]
           eq_refl eq_refl eq_refl eq_refl eq_refl eq_refl).
Defined.

(* --------------------------------------------------------------------- *)
(** ** A reply that is not an object                                       *)
(* --------------------------------------------------------------------- *)

Lemma fill_template_needs_a_dict (llm_result : json) (template_obj : dict)
      (document : str) (specs : list field_spec) :
  is_dict llm_result = false -> specs <> [] ->
  fill_template llm_result template_obj document specs = None.
Proof.
  intros Hd Hs. unfold fill_template.
  destruct (set_meta template_obj document) as [t|]; [|reflexivity].
  destruct specs as [|spec specs]; [contradiction|].
  rewrite fill_fields_cons.
  assert (H : fill_field llm_result t spec = None)
    by (unfold fill_field; destruct llm_result; try reflexivity; discriminate).
  rewrite H. reflexivity.
Qed.



(* --------------------------------------------------------------------- *)
(** ** Paths                                                               *)
(* --------------------------------------------------------------------- *)

Lemma split_char_sep (sep : N) (a b : str) :
  split_char sep (a ++ sep :: b) = split_char sep a ++ split_char sep b.
Proof.
  induction a as [|c a IH].
  - cbn [app split_char]. rewrite N.eqb_refl. reflexivity.
  - cbn [app split_char]. destruct (N.eqb c sep); [rewrite IH; reflexivity|].
    rewrite IH. pose proof (split_char_nonempty sep a) as Hne.
    destruct (split_char sep a); [contradiction | reflexivity].
Qed.

Lemma split_char_whole (sep : N) (s : str) : ~ In sep s -> split_char sep s = [s].
Proof.
  induction s as [|c s IH]; intros H; [reflexivity|].
  cbn [split_char]. destruct (N.eqb c sep) eqn:E.
  - apply N.eqb_eq in E. subst c. exfalso. apply H. left. reflexivity.
  - rewrite IH; [reflexivity|]. intros Hin. apply H. right. exact Hin.
Qed.

Lemma last_app_nonempty {A} (l1 l2 : list A) (d : A) :
  l2 <> [] -> last (l1 ++ l2) d = last l2 d.
Proof.
  intros H. induction l1 as [|x l1 IH]; [reflexivity|].
  cbn [app]. rewrite <- IH. cbn [last].
  destruct (l1 ++ l2) eqn:E; [|reflexivity].
  apply app_eq_nil in E as [_ E]. contradiction.
Qed.

Lemma path_name_in_dir (dir name : str) :
  ~ In 47%N name -> (1 < length name)%nat ->
  path_name (dir ++ u "/" ++ name) = name.
Proof.
  intros H Hlen. unfold path_name, path_parts.
  change (u "/" ++ name) with (47%N :: name).
  rewrite split_char_sep, (split_char_whole _ _ H), filter_app.
  cbn [filter].
  replace (str_eqb name [] || str_eqb name (u ".")) with false.
  - cbn [negb]. rewrite last_app_nonempty by discriminate. reflexivity.
  - destruct name as [|c [|d name]]; [simpl in Hlen; lia | simpl in Hlen; lia|].
    cbn. now rewrite andb_false_r.
Qed.

Lemma path_suffix_json (dir stem : str) :
  stem <> [] -> ~ In 47%N stem ->
  path_name (dir ++ u "/" ++ stem ++ u ".json") = stem ++ u ".json"
  /\ path_suffix (dir ++ u "/" ++ stem ++ u ".json") = u ".json"
  /\ path_stem (dir ++ u "/" ++ stem ++ u ".json") = stem.
Proof.
  intros Hne Hslash.
  assert (Hname : path_name (dir ++ u "/" ++ stem ++ u ".json") = stem ++ u ".json").
  { apply path_name_in_dir.
    - intros Hin. apply in_app_or in Hin as [Hin|Hin];
        [exact (Hslash Hin)|]. vm_compute in Hin. intuition discriminate.
    - rewrite length_app. cbn. lia. }
  assert (Hsfx : path_suffix (dir ++ u "/" ++ stem ++ u ".json") = u ".json").
  { unfold path_suffix. rewrite Hname.
    change (stem ++ u ".json") with (stem ++ 46%N :: u "json").
    rewrite rfind_char_app by (vm_compute; intuition discriminate).
    rewrite length_app. cbn [length u map list_ascii_of_string].
    replace (0 <? Z.of_nat (length stem))%Z with true
      by (symmetry; apply Z.ltb_lt; destruct stem; [contradiction | simpl; lia]).
    replace (Z.of_nat (length stem) <? Z.of_nat (length stem + 5) - 1)%Z with true
      by (symmetry; apply Z.ltb_lt; lia).
    cbn [andb]. rewrite Nat2Z.id.
    rewrite skipn_app, skipn_all, Nat.sub_diag. reflexivity. }
  split; [exact Hname|]. split; [exact Hsfx|].
  unfold path_stem. rewrite Hname, Hsfx, length_app.
  replace (length stem + length (u ".json") - length (u ".json"))%nat
    with (length stem + 0)%nat by (simpl; lia).
  rewrite firstn_app_2. cbn [firstn]. apply app_nil_r.
Qed.

Lemma default_output_path_json (dir stem : str) :
  stem <> [] -> ~ In 47%N stem ->
  default_output_path (dir ++ u "/" ++ stem ++ u ".json")
  = dir ++ u "/" ++ stem ++ u "_fill.json".
Proof.
  intros Hne Hslash.
  destruct (path_suffix_json dir stem Hne Hslash) as (Hname & _ & Hstem).
  unfold default_output_path, path_with_name. rewrite Hname, Hstem.
  replace (dir ++ u "/" ++ stem ++ u ".json")
    with ((dir ++ u "/") ++ stem ++ u ".json") by (rewrite <- app_assoc; reflexivity).
  rewrite length_app.
  replace (length (dir ++ u "/") + length (stem ++ u ".json")
           - length (stem ++ u ".json"))%nat
    with (length (dir ++ u "/") + 0)%nat by lia.
  rewrite firstn_app_2. cbn [firstn]. rewrite app_nil_r, <- app_assoc.
  reflexivity.
Qed.

(** X20.  Without [--output], the filled template is written in the
    directory of the templates, under the name of the template with [_fill]
    before its extension: whatever the document, two runs for the same
    document type write the same file. *)
Theorem default_output_is_beside_the_template (w : world) (doc_type : str) :
  exists stem,
    template_path_of w doc_type
    = src_dir w ++ u "/empty_json_template/" ++ stem ++ u ".json"
    /\ default_output_path (template_path_of w doc_type)
       = src_dir w ++ u "/empty_json_template/" ++ stem ++ u "_fill.json"
    /\ (forall args text_model vision_model st out,
           g_doc_type args = doc_type -> g_output args = None ->
           gemini_body w args text_model vision_model st = (inr tt, out) ->
           exists filled,
             In (WriteOutput (src_dir w ++ u "/empty_json_template/" ++ stem
                              ++ u "_fill.json") filled) (log out)).
Proof.
  assert (Hone : forall stem,
             stem <> [] -> ~ In 47%N stem ->
             template_path_of w doc_type
             = get_template_path w (stem ++ u ".json") ->
             template_path_of w doc_type
             = src_dir w ++ u "/empty_json_template/" ++ stem ++ u ".json"
             /\ default_output_path (template_path_of w doc_type)
                = src_dir w ++ u "/empty_json_template/" ++ stem ++ u "_fill.json").
  { intros stem Hne Hslash ->. unfold get_template_path. split; [reflexivity|].
    pose proof (default_output_path_json
                  (src_dir w ++ u "/empty_json_template") stem Hne Hslash) as H.
    rewrite <- !app_assoc in H. exact H. }
  assert (Hstem : exists stem,
             stem <> [] /\ ~ In 47%N stem
             /\ template_path_of w doc_type
                = get_template_path w (stem ++ u ".json")).
  { unfold template_path_of, DOC_TEMPLATES. cbn [assoc_get].
    repeat match goal with
           | |- context [if str_eqb doc_type ?k then _ else _] =>
               destruct (str_eqb doc_type k)
           end;
      match goal with
      | |- exists stem, _ /\ _ /\ get_template_path w ?f = _ =>
          exists (firstn (length f - 5) f)
      end;
      (split; [vm_compute; discriminate|]);
      (split; [vm_compute; intuition discriminate | reflexivity]). }
  destruct Hstem as (stem & Hne & Hslash & Hpath).
  destruct (Hone stem Hne Hslash Hpath) as [H1 H2].
  exists stem. split; [exact H1|]. split; [exact H2|].
  intros args text_model vision_model st out Hdt Hout Hrun.
  revert Hrun. unfold gemini_body. rewrite Hdt, Hout.
  unfold bind at 1.
  pose proof (load_template_state w doc_type st) as Hst.
  destruct (load_template w doc_type st)
    as [[e|[[template_path template_obj] field_specs]] st0] eqn:Hload;
    [discriminate|].
  assert (Htp : template_path = template_path_of w doc_type).
  { revert Hload. unfold load_template.
    destruct (read_text w (template_path_of w doc_type)); [|discriminate].
    destruct (Reader.loads s) as [[| | | | | |obj]|]; try discriminate.
    unfold ret. intros E. injection E as <- _ _ _. reflexivity. }
  subst template_path. rewrite H2.
  unfold bind at 1. destruct (gemini_load_pages _ _ _ _ _ _ _) as [[e|pages] st2];
    [discriminate|].
  unfold bind at 1. destruct (pass1 _ _ _ _ _ _) as [[e|r1] st3]; [discriminate|].
  unfold bind at 1.
  destruct ((if g_second_pass args
             then second_pass w text_model field_specs pages r1
             else ret r1) st3) as [[e|r2] st4];
    [discriminate|].
  unfold bind at 1. unfold or_attribute_error.
  destruct (fill_template _ _ _ _) as [filled|]; [|discriminate].
  unfold ret at 1. unfold bind, emit_event.
  intros E. injection E as <-. exists filled. cbn [log].
  apply in_or_app. left. apply in_or_app. left. apply in_or_app. right.
  left. reflexivity.
Qed.

(* --------------------------------------------------------------------- *)
(** ** The converter reads what the drivers write                          *)
(* --------------------------------------------------------------------- *)

Lemma walk_get_parts (keys : list str) (root : dict) (x : json) :
  get_parts root keys = Some x -> Excel.walk (JDict root) keys = Some x.
Proof.
  revert root. induction keys as [|k rest IH]; intros root; [discriminate|].
  destruct rest as [|k2 rest].
  - cbn [get_parts Excel.walk]. intros ->. reflexivity.
  - cbn [get_parts]. cbn [Excel.walk].
    destruct (dict_get root k) as [[| | | | | |child]|]; try discriminate.
    intros H. exact (IH child H).
Qed.

Lemma extract_field_record (root : dict) (path : str) (value page excerpt : json) :
  record_at root (split_char 46 path) value page excerpt ->
  Excel.extract_field (JDict root) path = (value, page, excerpt).
Proof.
  intros (leaf & src & Hget & Hvalue & Hsource & Hpage & Hexcerpt).
  unfold Excel.extract_field. rewrite (walk_get_parts _ _ _ Hget).
  unfold dict_get_default. rewrite Hvalue, Hsource, Hpage, Hexcerpt.
  reflexivity.
Qed.

(** X21.  What [set_path] writes, [extract_field] of the converter reads
    back: after a [set_path] that succeeds, [extract_field] at the same path
    returns the value, the page and the excerpt that were written. *)
Theorem extract_field_reads_what_set_path_wrote
        (root root' : dict) (path : str) (value page excerpt : json) :
  set_path root path value page excerpt = Some root' ->
  Excel.extract_field (JDict root') path = (value, page, excerpt).
Proof.
  intros H. apply extract_field_record.
  exact (set_parts_record _ _ _ _ _ _ H).
Qed.

Lemma extract_field_reads_what_set_path_wrote_witness :
  exists root',
    set_path small_template (u "a.b") (JStr (u "Paris")) (JInt 3) JNull
    = Some root'
    /\ Excel.extract_field (JDict root') (u "a.b")
       = (JStr (u "Paris"), JInt 3, JNull).
Proof.
  eexists. split; [reflexivity|].
  exact (extract_field_reads_what_set_path_wrote
           small_template _ (u "a.b") (JStr (u "Paris")) (JInt 3) JNull eq_refl).
Defined.

(* --------------------------------------------------------------------- *)
(** ** The writer and the reader                                           *)
(* --------------------------------------------------------------------- *)

(** *** Strings *)

Lemma hex_val_hex_digit (n : N) :
  (n < 16)%N -> Reader.hex_val (hex_digit n) = Some n.
Proof.
  intros H. unfold hex_digit, Reader.hex_val.
  destruct (n <? 10)%N eqn:E.
  - apply N.ltb_lt in E.
    replace ((48 <=? 48 + n) && (48 + n <=? 57))%N with true
      by (symmetry; apply andb_true_iff; split; apply N.leb_le; lia).
    f_equal. lia.
  - apply N.ltb_ge in E.
    replace ((48 <=? 87 + n) && (87 + n <=? 57))%N with false
      by (symmetry; apply andb_false_iff; right; apply N.leb_gt; lia).
    replace ((97 <=? 87 + n) && (87 + n <=? 102))%N with true
      by (symmetry; apply andb_true_iff; split; apply N.leb_le; lia).
    f_equal. lia.
Qed.

Lemma scanstring_control (c : N) (s3 : str) :
  (c < 32)%N ->
  Reader.scanstring
    (92 :: 117 :: 48 :: 48 :: hex_digit (c / 16) :: hex_digit (c mod 16) :: s3)%N
  = Reader.emit c (Reader.scanstring s3).
Proof.
  intros Hc.
  assert (Hhex : Reader.hex4 48 48 (hex_digit (c / 16)) (hex_digit (c mod 16))
                 = Some c).
  { unfold Reader.hex4.
    change (Reader.hex_val 48) with (Some 0%N).
    rewrite hex_val_hex_digit
      by (apply N.Div0.div_lt_upper_bound; lia).
    rewrite hex_val_hex_digit by (apply N.mod_lt; lia).
    f_equal. pose proof (N.Div0.div_mod c 16). lia. }
  assert (Hhs : Reader.is_high_surrogate c = false).
  { unfold Reader.is_high_surrogate. apply andb_false_iff. left.
    apply N.leb_gt. lia. }
  cbn [Reader.scanstring]. change (92 =? 34)%N with false.
  change (92 =? 92)%N with true. change (117 =? 117)%N with true. cbv iota.
  rewrite Hhex, Hhs.
  destruct s3 as [|b [|v [|g1 [|g2 [|g3 [|g4 s4]]]]]]; reflexivity.
Qed.

Lemma scanstring_escape (c : N) (rest : str) :
  Reader.scanstring (Writer.escape_char c ++ rest)
  = Reader.emit c (Reader.scanstring rest).
Proof.
  unfold Writer.escape_char.
  destruct (c =? 34)%N eqn:E34; [apply N.eqb_eq in E34; subst; reflexivity|].
  destruct (c =? 92)%N eqn:E92; [apply N.eqb_eq in E92; subst; reflexivity|].
  destruct (c =? 10)%N eqn:E10; [apply N.eqb_eq in E10; subst; reflexivity|].
  destruct (c =? 13)%N eqn:E13; [apply N.eqb_eq in E13; subst; reflexivity|].
  destruct (c =? 9)%N eqn:E9; [apply N.eqb_eq in E9; subst; reflexivity|].
  destruct (c =? 8)%N eqn:E8; [apply N.eqb_eq in E8; subst; reflexivity|].
  destruct (c =? 12)%N eqn:E12; [apply N.eqb_eq in E12; subst; reflexivity|].
  destruct (c <? 32)%N eqn:E32.
  - apply N.ltb_lt in E32. cbn [app]. apply scanstring_control, E32.
  - cbn [app Reader.scanstring]. rewrite E34, E92, E32. reflexivity.
Qed.

Lemma scanstring_encoded (s rest : str) :
  Reader.scanstring (flat_map Writer.escape_char s ++ 34%N :: rest)
  = Some (s, rest).
Proof.
  induction s as [|c s IH]; [reflexivity|].
  cbn [flat_map]. rewrite <- app_assoc, scanstring_escape, IH. reflexivity.
Qed.

(** *** Integers *)

Lemma u_String (a : ascii) (s : string) : u (String a s) = N_of_ascii a :: u s.
Proof. reflexivity. Qed.

Lemma uint_digits (d : Decimal.uint) :
  forallb Reader.is_digit (u (NilEmpty.string_of_uint d)) = true.
Proof.
  induction d; cbn [NilEmpty.string_of_uint]; try reflexivity;
    rewrite u_String; cbn [forallb]; rewrite IHd; reflexivity.
Qed.

Lemma uint_value_acc (d : Decimal.uint) :
  forall acc : positive,
    fold_left (fun acc c => (acc * 10 + Z.of_N (c - 48))%Z)
              (u (NilEmpty.string_of_uint d)) (Z.pos acc)
    = Z.pos (Pos.of_uint_acc d acc).
Proof.
  induction d; intros acc; cbn [NilEmpty.string_of_uint Pos.of_uint_acc];
    try reflexivity;
    rewrite u_String; cbn [fold_left]; rewrite <- IHd; f_equal.
  all: match goal with
       | |- context [N_of_ascii ?a] =>
           let n := eval vm_compute in (Z.of_N (N_of_ascii a - 48)) in
           change (Z.of_N (N_of_ascii a - 48)) with n
       end.
  all: lia.
Qed.

Lemma uint_value (d : Decimal.uint) :
  Reader.int_of_digits (u (NilEmpty.string_of_uint d)) = Z.of_N (Pos.of_uint d).
Proof.
  unfold Reader.int_of_digits.
  induction d; cbn [NilEmpty.string_of_uint Pos.of_uint]; try reflexivity;
    rewrite u_String; cbn [fold_left];
    first [ exact IHd | apply (uint_value_acc d) ].
Qed.

Lemma to_uint_normal (p : positive) :
  Decimal.unorm (Pos.to_uint p) = Pos.to_uint p.
Proof.
  pose proof (DecimalPos.Unsigned.to_of (Pos.to_uint p)) as H.
  rewrite DecimalPos.Unsigned.of_to in H. symmetry. exact H.
Qed.

Lemma positive_digits (p : positive) :
  exists c ds,
    u (NilZero.string_of_uint (Pos.to_uint p)) = c :: ds
    /\ Reader.is_digit c = true /\ c <> 48%N
    /\ forallb Reader.is_digit ds = true
    /\ Reader.int_of_digits (c :: ds) = Z.pos p.
Proof.
  pose proof (uint_digits (Pos.to_uint p)) as Hdigits.
  pose proof (uint_value (Pos.to_uint p)) as Hvalue.
  rewrite DecimalPos.Unsigned.of_to in Hvalue. cbn [Z.of_N] in Hvalue.
  pose proof (to_uint_normal p) as Hnorm.
  pose proof (DecimalPos.Unsigned.to_uint_nonzero p) as Hnz.
  destruct (Pos.to_uint p) as [|d|d|d|d|d|d|d|d|d|d] eqn:E.
  1: { exfalso. exact (DecimalPos.Unsigned.to_uint_nonnil p E). }
  1: { exfalso. rewrite DecimalFacts.unorm_D0 in Hnorm.
       unfold Decimal.unorm in Hnorm.
       destruct (Decimal.nzhead d) eqn:Hd;
         first [ apply Hnz; symmetry; exact Hnorm
               | exact (DecimalFacts.nzhead_nonzero d _ (eq_trans Hd Hnorm))
               | discriminate Hnorm ]. }
  all: cbn [NilZero.string_of_uint NilEmpty.string_of_uint] in *;
    rewrite u_String in *; cbn [forallb] in Hdigits;
    apply andb_prop in Hdigits as [Hc Hds];
    eexists; eexists; (split; [reflexivity|]); (split; [exact Hc|]);
    (split; [discriminate|]); (split; [exact Hds | exact Hvalue]).
Qed.

Lemma take_digits_app (ds rest : str) :
  forallb Reader.is_digit ds = true -> ends_number rest = true ->
  Reader.take_digits (ds ++ rest) = (ds, rest).
Proof.
  intros Hds Hrest. induction ds as [|c ds IH].
  - cbn [app]. destruct rest as [|c r]; [reflexivity|].
    cbn [Reader.take_digits]. cbn [ends_number] in Hrest.
    destruct (Reader.is_digit c); [discriminate | reflexivity].
  - cbn [forallb] in Hds. apply andb_prop in Hds as [Hc Hds].
    cbn [app Reader.take_digits]. rewrite Hc, (IH Hds). reflexivity.
Qed.

Lemma match_frac_none (rest : str) :
  ends_number rest = true -> Reader.match_frac rest = ([], rest).
Proof.
  destruct rest as [|c r]; [reflexivity|]. cbn [ends_number Reader.match_frac].
  destruct (c =? 46)%N; [|reflexivity].
  rewrite orb_true_r. discriminate.
Qed.

Lemma match_exp_none (rest : str) :
  ends_number rest = true -> Reader.match_exp rest = ([], rest).
Proof.
  destruct rest as [|c r]; [reflexivity|]. cbn [ends_number Reader.match_exp].
  destruct (c =? 101)%N; [rewrite !orb_true_r; discriminate|].
  destruct (c =? 69)%N; [rewrite !orb_true_r; discriminate|].
  reflexivity.
Qed.

Lemma is_digit_range (c : N) :
  Reader.is_digit c = true -> (48 <= c <= 57)%N.
Proof.
  unfold Reader.is_digit. intros H. apply andb_prop in H as [H1 H2].
  apply N.leb_le in H1, H2. lia.
Qed.

Lemma match_number_int (z : Z) (rest : str) :
  ends_number rest = true ->
  Reader.match_number (str_of_Z z ++ rest) = Some (JInt z, rest)
  /\ exists c r, str_of_Z z = c :: r
                 /\ (Reader.is_digit c = true \/ c = 45%N).
Proof.
  intros Hrest. unfold str_of_Z.
  assert (Hpos : forall (p : positive) (neg : bool),
             let digits := u (NilZero.string_of_uint (Pos.to_uint p)) in
             Reader.match_number ((if neg then 45%N :: digits else digits) ++ rest)
             = Some (JInt (if neg then Z.neg p else Z.pos p), rest)
             /\ exists c r, digits = c :: r /\ Reader.is_digit c = true).
  { intros p neg digits. subst digits.
    destruct (positive_digits p) as (c & ds & -> & Hc & Hc0 & Hds & Hval).
    split; [|exists c, ds; split; [reflexivity | exact Hc]].
    pose proof (is_digit_range c Hc) as Hrange.
    unfold Reader.match_number.
    assert (Hint : Reader.match_integer
                     ((if neg then 45%N :: c :: ds else c :: ds) ++ rest)
                   = Some (neg, c :: ds, rest)).
    { unfold Reader.match_integer.
      destruct neg; cbn [app].
      - change (45 =? 45)%N with true. cbv iota.
        replace (c =? 48)%N with false by (symmetry; apply N.eqb_neq; exact Hc0).
        rewrite Hc, (take_digits_app ds rest Hds Hrest). reflexivity.
      - replace (c =? 45)%N with false by (symmetry; apply N.eqb_neq; lia).
        cbv iota.
        replace (c =? 48)%N with false by (symmetry; apply N.eqb_neq; exact Hc0).
        rewrite Hc, (take_digits_app ds rest Hds Hrest). reflexivity. }
    rewrite Hint. cbv beta iota.
    rewrite (match_frac_none rest Hrest), (match_exp_none rest Hrest).
    rewrite Hval. destruct neg; reflexivity. }
  destruct z as [|p|p]; cbn [Z.to_int NilZero.string_of_int].
  - split; [|exists 48%N, []; split; [reflexivity | left; reflexivity]].
    change (u (NilZero.string_of_uint Decimal.zero)) with [48%N].
    unfold Reader.match_number. cbn [app].
    change (Reader.match_integer (48%N :: rest)) with (Some (false, [48%N], rest)).
    cbv beta iota.
    rewrite (match_frac_none rest Hrest), (match_exp_none rest Hrest).
    reflexivity.
  - destruct (Hpos p false) as [H (c & r & E & Hc)]. split; [exact H|].
    exists c, r. split; [exact E | left; exact Hc].
  - destruct (Hpos p true) as [H _]. rewrite u_String. split; [exact H|].
    eexists. eexists. split; [reflexivity | right; reflexivity].
Qed.

Lemma scan_once_number (fuel : nat) (c : N) (t : str) (v : json) (r : str) :
  Reader.match_number (c :: t) = Some (v, r) ->
  Reader.is_digit c = true \/ c = 45%N ->
  Reader.scan_once (S fuel) (c :: t) = Reader.Value v r.
Proof.
  intros Hnum Hc. cbn [Reader.scan_once].
  assert (Hrange : (45 <= c <= 57)%N).
  { destruct Hc as [Hc| ->]; [apply is_digit_range in Hc|]; lia. }
  replace (c =? 34)%N with false by (symmetry; apply N.eqb_neq; lia).
  replace (c =? 123)%N with false by (symmetry; apply N.eqb_neq; lia).
  replace (c =? 91)%N with false by (symmetry; apply N.eqb_neq; lia).
  replace (c =? 110)%N with false by (symmetry; apply N.eqb_neq; lia).
  replace (c =? 116)%N with false by (symmetry; apply N.eqb_neq; lia).
  replace (c =? 102)%N with false by (symmetry; apply N.eqb_neq; lia).
  cbn [andb]. rewrite Hnum. reflexivity.
Qed.

(** *** White space and first characters *)

Lemma skip_ws_spaces (n : nat) (y : str) :
  Reader.skip_ws (repeat 32%N n ++ y) = Reader.skip_ws y.
Proof. induction n as [|n IH]; [reflexivity | exact IH]. Qed.

Lemma skip_ws_newline_indent (level : nat) (y : str) :
  Reader.skip_ws (Writer.newline_indent level ++ y) = Reader.skip_ws y.
Proof.
  unfold Writer.newline_indent, nl. rewrite <- app_assoc.
  cbn [app Reader.skip_ws]. change (Reader.is_ws 10) with true. cbv iota.
  apply skip_ws_spaces.
Qed.

Lemma skip_ws_value (c : N) (r : str) :
  starts_a_value c = true -> Reader.skip_ws (c :: r) = c :: r.
Proof.
  unfold starts_a_value. intros H. cbn [Reader.skip_ws].
  destruct (Reader.is_ws c); [discriminate | reflexivity].
Qed.

Lemma iterencode_head (v : json) (level : nat) :
  float_free v = true ->
  exists c r, Writer.iterencode v level = c :: r /\ starts_a_value c = true.
Proof.
  destruct v as [|[|]|n|x|s|[|item items]|[|kv entries]]; intros Hff;
    try discriminate Hff;
    try (eexists; eexists; split; [reflexivity|]; reflexivity).
  destruct (match_number_int n [] eq_refl) as [_ (c & r & E & Hc)].
  exists c, r. split; [exact E|].
  assert (Hrange : (45 <= c <= 57)%N).
  { destruct Hc as [Hc| ->]; [apply is_digit_range in Hc|]; lia. }
  unfold starts_a_value, Reader.is_ws.
  repeat match goal with
         | |- context [(c =? ?k)%N] =>
             replace (c =? k)%N with false by (symmetry; apply N.eqb_neq; lia)
         end.
  reflexivity.
Qed.

(** *** More fuel changes nothing *)

Lemma scan_once_more_fuel (fuel : nat) :
  (forall s res, Reader.scan_once fuel s = res -> res <> Reader.Exhausted ->
                 forall fuel', (fuel <= fuel')%nat ->
                               Reader.scan_once fuel' s = res)
  /\ (forall pairs s res,
         Reader.object_loop fuel pairs s = res -> res <> Reader.Exhausted ->
         forall fuel', (fuel <= fuel')%nat ->
                       Reader.object_loop fuel' pairs s = res)
  /\ (forall values s res,
         Reader.array_loop fuel values s = res -> res <> Reader.Exhausted ->
         forall fuel', (fuel <= fuel')%nat ->
                       Reader.array_loop fuel' values s = res).
Proof.
  induction fuel as [|fuel (IHscan & IHobj & IHarr)].
  { repeat split; intros; subst; contradiction. }
  split; [|split].
  - intros s res Hres Hne fuel' Hle.
    destruct fuel' as [|fuel']; [lia|]. apply le_S_n in Hle.
    revert Hres. cbn [Reader.scan_once].
    destruct s as [|c s1]; [exact (fun H => H)|].
    destruct (c =? 34)%N; [exact (fun H => H)|].
    destruct (c =? 123)%N.
    { destruct (Reader.skip_ws s1) as [|c1 r]; [exact (fun H => H)|].
      destruct (c1 =? 125)%N; [exact (fun H => H)|].
      destruct (c1 =? 34)%N; [|exact (fun H => H)].
      intros H. exact (IHobj _ _ _ H Hne _ Hle). }
    destruct (c =? 91)%N.
    { destruct (Reader.skip_ws s1) as [|c1 r]; [exact (fun H => H)|].
      destruct (c1 =? 93)%N; [exact (fun H => H)|].
      intros H. exact (IHarr _ _ _ H Hne _ Hle). }
    exact (fun H => H).
  - intros pairs s res Hres Hne fuel' Hle.
    destruct fuel' as [|fuel']; [lia|]. apply le_S_n in Hle.
    revert Hres. cbn [Reader.object_loop].
    destruct (Reader.scanstring s) as [[key s1]|]; [|exact (fun H => H)].
    destruct (Reader.skip_ws s1) as [|c s2]; [exact (fun H => H)|].
    destruct (c =? 58)%N; [|exact (fun H => H)].
    destruct (Reader.scan_once fuel (Reader.skip_ws s2)) as [v s3| |] eqn:Ev.
    + rewrite (IHscan _ _ Ev ltac:(discriminate) _ Hle).
      destruct (Reader.skip_ws s3) as [|c3 s4]; [exact (fun H => H)|].
      destruct (c3 =? 125)%N; [exact (fun H => H)|].
      destruct (c3 =? 44)%N; [|exact (fun H => H)].
      destruct (Reader.skip_ws s4) as [|c5 s5]; [exact (fun H => H)|].
      destruct (c5 =? 34)%N; [|exact (fun H => H)].
      intros H. exact (IHobj _ _ _ H Hne _ Hle).
    + rewrite (IHscan _ _ Ev ltac:(discriminate) _ Hle). exact (fun H => H).
    + intros <-. contradiction.
  - intros values s res Hres Hne fuel' Hle.
    destruct fuel' as [|fuel']; [lia|]. apply le_S_n in Hle.
    revert Hres. cbn [Reader.array_loop].
    destruct (Reader.scan_once fuel s) as [v s1| |] eqn:Ev.
    + rewrite (IHscan _ _ Ev ltac:(discriminate) _ Hle).
      destruct (Reader.skip_ws s1) as [|c s2]; [exact (fun H => H)|].
      destruct (c =? 93)%N; [exact (fun H => H)|].
      destruct (c =? 44)%N; [|exact (fun H => H)].
      intros H. exact (IHarr _ _ _ H Hne _ Hle).
    + rewrite (IHscan _ _ Ev ltac:(discriminate) _ Hle). exact (fun H => H).
    + intros <-. contradiction.
Qed.

(** *** Objects with distinct keys *)

Lemma dict_set_new (d : dict) (k : str) (v : json) :
  ~ In k (map fst d) -> dict_set d k v = d ++ [(k, v)].
Proof.
  induction d as [|[k' v'] d IH]; intros H; [reflexivity|].
  cbn [dict_set]. str_cases k k'.
  - exfalso. apply H. left. symmetry. exact E.
  - cbn [app]. rewrite IH; [reflexivity|]. intros Hin. apply H. right. exact Hin.
Qed.

Lemma dict_of_pairs_distinct (pairs entries : list (str * json)) :
  NoDup (map fst (pairs ++ entries)) ->
  fold_left (fun d kv => dict_set d (fst kv) (snd kv)) entries pairs
  = pairs ++ entries.
Proof.
  revert pairs. induction entries as [|[k v] entries IH]; intros pairs Hnd.
  - symmetry. apply app_nil_r.
  - cbn [fold_left fst snd]. rewrite dict_set_new.
    + rewrite IH; rewrite <- app_assoc; [reflexivity | exact Hnd].
    + rewrite map_app in Hnd. cbn [map fst] in Hnd.
      apply NoDup_remove_2 in Hnd. intros Hin. apply Hnd.
      apply in_or_app. left. exact Hin.
Qed.

(** *** Arrays and objects *)

Lemma join_array_tail (level : nat) (xs : list json) (x : json) (rest : str) :
  join (u "," ++ Writer.newline_indent (S level))
       (map (fun item => Writer.iterencode item (S level)) (x :: xs))
  ++ Writer.newline_indent level ++ u "]" ++ rest
  = Writer.iterencode x (S level) ++ array_tail level xs rest.
Proof.
  revert x. induction xs as [|x2 xs IH]; intros x; [reflexivity|].
  cbn [map] in *. rewrite join_cons2. cbn [array_tail].
  rewrite <- ?app_assoc. rewrite IH. reflexivity.
Qed.

Lemma join_object_tail (level : nat) (more : list (str * json)) (kv : str * json)
      (rest : str) :
  join (u "," ++ Writer.newline_indent (S level))
       (map (fun kv => Writer.encode_basestring (fst kv) ++ u ": "
                       ++ Writer.iterencode (snd kv) (S level))
            (kv :: more))
  ++ Writer.newline_indent level ++ u "}" ++ rest
  = Writer.encode_basestring (fst kv) ++ u ": "
    ++ Writer.iterencode (snd kv) (S level) ++ object_tail level more rest.
Proof.
  revert kv. induction more as [|kv2 more IH]; intros kv.
  - cbn [map join object_tail]. rewrite <- ?app_assoc. reflexivity.
  - cbn [map] in *. rewrite join_cons2. cbn [object_tail].
    rewrite <- ?app_assoc. rewrite IH. rewrite <- ?app_assoc. reflexivity.
Qed.

Lemma ends_number_array_tail (level : nat) (xs : list json) (rest : str) :
  ends_number (array_tail level xs rest) = true.
Proof. destruct xs; reflexivity. Qed.

Lemma ends_number_object_tail (level : nat) (more : list (str * json))
      (rest : str) :
  ends_number (object_tail level more rest) = true.
Proof. destruct more; reflexivity. Qed.

Lemma skip_ws_encoded (v : json) (level : nat) (tail : str) :
  float_free v = true ->
  Reader.skip_ws (Writer.iterencode v level ++ tail)
  = Writer.iterencode v level ++ tail
  /\ exists c r, Writer.iterencode v level ++ tail = c :: r
                 /\ starts_a_value c = true.
Proof.
  intros Hff. destruct (iterencode_head v level Hff) as (c & r & E & Hc).
  rewrite E. cbn [app]. split; [apply skip_ws_value, Hc|].
  exists c, (r ++ tail). split; [reflexivity | exact Hc].
Qed.

Lemma array_loop_items (xs : list json) :
  Forall reads_back xs ->
  forallb keys_proper xs = true -> forallb float_free xs = true ->
  forall x values level rest fuel,
    reads_back x -> keys_proper x = true -> float_free x = true ->
    (S (nodes x + fold_right (fun item n => S (nodes item + n)) 0 xs) <= fuel)%nat ->
    Reader.array_loop fuel values
                      (Writer.iterencode x (S level) ++ array_tail level xs rest)
    = Reader.Value (JList (values ++ x :: xs)) rest.
Proof.
  induction 1 as [|x2 more Hx2 Hmore IH]; intros Hkp Hff x values level rest fuel
                                                 Hx Hkx Hfx Hfuel.
  - destruct fuel as [|fuel]; [lia|]. cbn [Reader.array_loop].
    rewrite (Hx Hkx Hfx (S level) _ fuel ltac:(cbn [fold_right] in Hfuel; lia)
                (ends_number_array_tail level [] rest)).
    cbn [array_tail]. rewrite skip_ws_newline_indent. reflexivity.
  - cbn [forallb] in Hkp, Hff.
    apply andb_prop in Hkp as [Hk2 Hkp]. apply andb_prop in Hff as [Hf2 Hff].
    destruct fuel as [|fuel]; [lia|]. cbn [Reader.array_loop].
    cbn [fold_right] in Hfuel.
    rewrite (Hx Hkx Hfx (S level) _ fuel ltac:(lia)
                (ends_number_array_tail level (x2 :: more) rest)).
    cbn [array_tail].
    change (Reader.skip_ws (u "," ++ ?y)) with (44%N :: y).
    change (44 =? 93)%N with false. change (44 =? 44)%N with true. cbv iota.
    rewrite skip_ws_newline_indent.
    rewrite (proj1 (skip_ws_encoded x2 (S level) _ Hf2)).
    rewrite (IH Hkp Hff x2 (values ++ [x]) level rest fuel Hx2 Hk2 Hf2 ltac:(lia)).
    rewrite <- app_assoc. reflexivity.
Qed.

Lemma object_loop_entries (more : list (str * json)) :
  Forall (fun kv => reads_back (snd kv)) more ->
  forallb (fun kv => keys_proper (snd kv)) more = true ->
  forallb (fun kv => float_free (snd kv)) more = true ->
  forall (k : str) (v : json) (pairs : list (str * json)) level rest fuel,
    reads_back v -> keys_proper v = true -> float_free v = true ->
    (S (nodes v + fold_right (fun kv n => S (nodes (snd kv) + n)) 0 more)
     <= fuel)%nat ->
    Reader.object_loop fuel pairs
      (flat_map Writer.escape_char k ++ 34%N :: u ": "
       ++ Writer.iterencode v (S level) ++ object_tail level more rest)
    = Reader.Value (JDict (Reader.dict_of_pairs (pairs ++ (k, v) :: more))) rest.
Proof.
  induction 1 as [|[k2 v2] more Hv2 Hmore IH];
    intros Hkp Hff k v pairs level rest fuel Hv Hkv Hfv Hfuel.
  - destruct fuel as [|fuel]; [lia|]. cbn [Reader.object_loop].
    rewrite scanstring_encoded.
    change (Reader.skip_ws (u ": " ++ ?y)) with (58%N :: 32%N :: y).
    change (58 =? 58)%N with true. cbv iota.
    change (Reader.skip_ws (32%N :: ?y)) with (Reader.skip_ws y).
    rewrite (proj1 (skip_ws_encoded v (S level) _ Hfv)).
    rewrite (Hv Hkv Hfv (S level) _ fuel ltac:(cbn [fold_right] in Hfuel; lia)
                (ends_number_object_tail level [] rest)).
    cbn [object_tail]. rewrite skip_ws_newline_indent. reflexivity.
  - cbn [forallb snd] in Hkp, Hff.
    apply andb_prop in Hkp as [Hk2 Hkp]. apply andb_prop in Hff as [Hf2 Hff].
    destruct fuel as [|fuel]; [lia|]. cbn [Reader.object_loop].
    cbn [fold_right snd] in Hfuel.
    rewrite scanstring_encoded.
    change (Reader.skip_ws (u ": " ++ ?y)) with (58%N :: 32%N :: y).
    change (58 =? 58)%N with true. cbv iota.
    change (Reader.skip_ws (32%N :: ?y)) with (Reader.skip_ws y).
    rewrite (proj1 (skip_ws_encoded v (S level) _ Hfv)).
    rewrite (Hv Hkv Hfv (S level) _ fuel ltac:(lia)
                (ends_number_object_tail level ((k2, v2) :: more) rest)).
    cbn [object_tail fst snd].
    change (Reader.skip_ws (u "," ++ ?y)) with (44%N :: y).
    change (44 =? 125)%N with false. change (44 =? 44)%N with true. cbv iota.
    rewrite skip_ws_newline_indent.
    unfold Writer.encode_basestring, dq. rewrite <- ?app_assoc.
    change (Reader.skip_ws ([34%N] ++ ?y)) with (34%N :: y).
    change (34 =? 34)%N with true. cbv iota. cbn [app].
    change (58 =? 58)%N with true. change (44 =? 125)%N with false.
    change (44 =? 44)%N with true. change (34 =? 34)%N with true. cbv iota.
    replace (pairs ++ (k, v) :: (k2, v2) :: more)
      with ((pairs ++ [(k, v)]) ++ (k2, v2) :: more)
      by (rewrite <- app_assoc; reflexivity).
    apply (IH Hkp Hff k2 v2 (pairs ++ [(k, v)]) level rest fuel Hv2 Hk2 Hf2).
    lia.
Qed.

(** Every proper value without a float is read back from its text, whatever
    follows that cannot go on with a number. *)
Lemma iterencode_reads_back (v : json) : reads_back v.
Proof.
  induction v as [|b|n|x|s|items IH|entries IH] using json_nested_ind;
    intros Hkp Hff level rest fuel Hfuel Hrest.
  - destruct fuel as [|fuel]; [simpl in Hfuel; lia|].
    cbn. rewrite startswith_nil. reflexivity.
  - destruct fuel as [|fuel]; [simpl in Hfuel; lia|].
    destruct b; cbn; rewrite startswith_nil; reflexivity.
  - destruct fuel as [|fuel]; [simpl in Hfuel; lia|].
    cbn [Writer.iterencode].
    destruct (match_number_int n rest Hrest) as [Hnum (c & r & E & Hc)].
    rewrite E in *. cbn [app] in *. apply scan_once_number; assumption.
  - discriminate Hff.
  - destruct fuel as [|fuel]; [simpl in Hfuel; lia|].
    cbn [Writer.iterencode]. unfold Writer.encode_basestring, dq.
    rewrite <- ?app_assoc. cbn [app Reader.scan_once].
    change (34 =? 34)%N with true. cbv iota.
    rewrite scanstring_encoded. reflexivity.
  - destruct fuel as [|fuel]; [simpl in Hfuel; lia|].
    destruct items as [|x xs]; [reflexivity|].
    cbn [keys_proper float_free forallb nodes fold_right] in Hkp, Hff, Hfuel.
    apply andb_prop in Hkp as [Hkx Hkp]. apply andb_prop in Hff as [Hfx Hff].
    inversion IH as [|? ? Hx Hxs]; subst.
    change (Writer.iterencode (JList (x :: xs)) level)
      with (u "[" ++ Writer.newline_indent (S level)
            ++ join (u "," ++ Writer.newline_indent (S level))
                    (map (fun item => Writer.iterencode item (S level)) (x :: xs))
            ++ Writer.newline_indent level ++ u "]").
    rewrite <- ?app_assoc. rewrite join_array_tail.
    change (u "[" ++ ?y) with (91%N :: y). cbn [Reader.scan_once].
    change (91 =? 34)%N with false. change (91 =? 123)%N with false.
    change (91 =? 91)%N with true. cbv iota.
    rewrite skip_ws_newline_indent.
    destruct (skip_ws_encoded x (S level) (array_tail level xs rest) Hfx)
      as [Hskip (c & r & E & Hc)].
    rewrite Hskip. rewrite E.
    assert (Hc93 : (c =? 93)%N = false).
    { unfold starts_a_value in Hc. destruct (c =? 93)%N; [|reflexivity].
      rewrite andb_false_r in Hc. discriminate. }
    rewrite Hc93. rewrite <- E.
    exact (array_loop_items xs Hxs Hkp Hff x [] level rest fuel Hx Hkx Hfx
                            ltac:(lia)).
  - destruct fuel as [|fuel]; [simpl in Hfuel; lia|].
    destruct entries as [|[k v] more]; [reflexivity|].
    pose proof Hkp as Hproper.
    cbn [keys_proper float_free forallb nodes fold_right snd] in Hkp, Hff, Hfuel.
    apply andb_prop in Hkp as [Hkeys Hkp].
    apply andb_prop in Hkp as [Hkv Hkp]. apply andb_prop in Hff as [Hfv Hff].
    inversion IH as [|? ? Hv Hmore]; subst. cbn [snd] in Hv.
    change (Writer.iterencode (JDict ((k, v) :: more)) level)
      with (u "{" ++ Writer.newline_indent (S level)
            ++ join (u "," ++ Writer.newline_indent (S level))
                    (map (fun kv => Writer.encode_basestring (fst kv) ++ u ": "
                                    ++ Writer.iterencode (snd kv) (S level))
                         ((k, v) :: more))
            ++ Writer.newline_indent level ++ u "}").
    rewrite <- ?app_assoc. rewrite join_object_tail. cbn [fst snd].
    change (u "{" ++ ?y) with (123%N :: y). cbn [Reader.scan_once].
    change (123 =? 34)%N with false. change (123 =? 123)%N with true. cbv iota.
    rewrite skip_ws_newline_indent.
    unfold Writer.encode_basestring, dq. rewrite <- ?app_assoc.
    change (Reader.skip_ws ([34%N] ++ ?y)) with (34%N :: y).
    change (34 =? 125)%N with false. change (34 =? 34)%N with true. cbv iota.
    cbn [app].
    rewrite (object_loop_entries more Hmore Hkp Hff k v [] level rest fuel
                                 Hv Hkv Hfv ltac:(lia)).
    cbn [app]. unfold Reader.dict_of_pairs.
    rewrite (dict_of_pairs_distinct [] ((k, v) :: more)
               (keys_distinct_NoDup _ Hkeys)).
    reflexivity.
Qed.

(** The text that [json.dumps] returns holds no carriage return: the line
    ends it writes are [\n], and those of the strings are escaped. *)
Lemma in_join (x : N) (sep : str) (parts : list str) :
  In x (join sep parts) -> In x sep \/ exists p, In p parts /\ In x p.
Proof.
  induction parts as [|p rest IH]; [intros []|].
  destruct rest as [|p2 rest].
  - cbn [join]. intros H. right. exists p. split; [now left | exact H].
  - change (join sep (p :: p2 :: rest)) with (p ++ sep ++ join sep (p2 :: rest)).
    intros H. apply in_app_or in H as [H|H];
      [right; exists p; split; [now left | exact H]|].
    apply in_app_or in H as [H|H]; [now left|].
    destruct (IH H) as [Hs|(q & Hq & Hx)]; [now left|].
    right. exists q. split; [now right | exact Hx].
Qed.

Lemma hex_digit_ge (n : N) : (48 <= hex_digit n)%N.
Proof. unfold hex_digit. destruct (n <? 10)%N; lia. Qed.

Lemma escape_char_no_cr (c : N) : ~ In 13%N (Writer.escape_char c).
Proof.
  unfold Writer.escape_char.
  repeat match goal with
         | |- context [(c =? ?k)%N] => destruct (N.eqb_spec c k)
         end;
    try (cbn; intuition discriminate).
  pose proof (hex_digit_ge (c / 16)) as H1.
  pose proof (hex_digit_ge (c mod 16)) as H2.
  destruct (c <? 32)%N; cbn; intuition (try discriminate; try congruence; lia).
Qed.

Lemma str_of_Z_no_cr (z : Z) : ~ In 13%N (str_of_Z z).
Proof.
  assert (Hpos : forall p, ~ In 13%N (u (NilZero.string_of_uint (Pos.to_uint p)))).
  { intros p. destruct (positive_digits p) as (c & ds & -> & Hc & _ & Hds & _).
    intros [H|H].
    - subst c. discriminate Hc.
    - rewrite forallb_forall in Hds. specialize (Hds _ H). discriminate Hds. }
  unfold str_of_Z. destruct z as [|p|p]; cbn [Z.to_int NilZero.string_of_int].
  - cbn. intuition discriminate.
  - apply Hpos.
  - rewrite u_String. intros [H|H]; [discriminate|]. exact (Hpos p H).
Qed.

Lemma newline_indent_no_cr (level : nat) : ~ In 13%N (Writer.newline_indent level).
Proof.
  unfold Writer.newline_indent, nl. intros [H|H]; [discriminate|].
  apply repeat_spec in H. discriminate.
Qed.

Lemma encode_basestring_no_cr (s : str) : ~ In 13%N (Writer.encode_basestring s).
Proof.
  unfold Writer.encode_basestring, dq. intros H.
  apply in_app_or in H as [[H|[]]|H]; [discriminate|].
  apply in_app_or in H as [H|[H|[]]]; [|discriminate].
  apply in_flat_map in H as (c & _ & H). exact (escape_char_no_cr c H).
Qed.

Lemma iterencode_no_cr (v : json) :
  float_free v = true -> forall level, ~ In 13%N (Writer.iterencode v level).
Proof.
  induction v as [|b|n|x|s|items IH|entries IH] using json_nested_ind;
    intros Hff level.
  - cbn. intuition discriminate.
  - destruct b; cbn; intuition discriminate.
  - apply str_of_Z_no_cr.
  - discriminate Hff.
  - apply encode_basestring_no_cr.
  - destruct items as [|x xs]; [cbn; intuition discriminate|].
    change (Writer.iterencode (JList (x :: xs)) level)
      with (u "[" ++ Writer.newline_indent (S level)
            ++ join (u "," ++ Writer.newline_indent (S level))
                    (map (fun item => Writer.iterencode item (S level)) (x :: xs))
            ++ Writer.newline_indent level ++ u "]").
    cbn [float_free] in Hff. rewrite forallb_forall in Hff.
    rewrite Forall_forall in IH.
    intros H. apply in_app_or in H as [[H|[]]|H]; [discriminate|].
    apply in_app_or in H as [H|H]; [exact (newline_indent_no_cr _ H)|].
    apply in_app_or in H as [H|H].
    + apply in_join in H as [H|(p & Hp & H)].
      * apply in_app_or in H as [[H|[]]|H]; [discriminate|].
        exact (newline_indent_no_cr _ H).
      * apply in_map_iff in Hp as (item & <- & Hitem).
        exact (IH item Hitem (Hff item Hitem) (S level) H).
    + apply in_app_or in H as [H|[H|[]]]; [|discriminate].
      exact (newline_indent_no_cr _ H).
  - destruct entries as [|kv more]; [cbn; intuition discriminate|].
    change (Writer.iterencode (JDict (kv :: more)) level)
      with (u "{" ++ Writer.newline_indent (S level)
            ++ join (u "," ++ Writer.newline_indent (S level))
                    (map (fun kv => Writer.encode_basestring (fst kv) ++ u ": "
                                    ++ Writer.iterencode (snd kv) (S level))
                         (kv :: more))
            ++ Writer.newline_indent level ++ u "}").
    cbn [float_free] in Hff. rewrite forallb_forall in Hff.
    rewrite Forall_forall in IH.
    intros H. apply in_app_or in H as [[H|[]]|H]; [discriminate|].
    apply in_app_or in H as [H|H]; [exact (newline_indent_no_cr _ H)|].
    apply in_app_or in H as [H|H].
    + apply in_join in H as [H|(p & Hp & H)].
      * apply in_app_or in H as [[H|[]]|H]; [discriminate|].
        exact (newline_indent_no_cr _ H).
      * apply in_map_iff in Hp as (e & <- & He).
        apply in_app_or in H as [H|H]; [exact (encode_basestring_no_cr _ H)|].
        apply in_app_or in H as [H|H];
          [cbn in H; intuition discriminate|].
        exact (IH e He (Hff e He) (S level) H).
    + apply in_app_or in H as [H|[H|[]]]; [|discriminate].
      exact (newline_indent_no_cr _ H).
Qed.

(** The text of a proper value without a float is read back as the value. *)
Lemma dumps_reads_back (v : json) :
  keys_proper v = true -> float_free v = true ->
  Reader.loads (Writer.dumps v) = Some v.
Proof.
  intros Hkp Hff. unfold Reader.loads, Writer.dumps.
  destruct (skip_ws_encoded v 0 [] Hff) as [Hskip (c & r & E & Hc)].
  rewrite app_nil_r in Hskip, E.
  assert (Hbom : startswith (Writer.iterencode v 0) [65279%N] = false).
  { rewrite E. cbn [startswith]. unfold starts_a_value in Hc.
    rewrite N.eqb_sym. destruct (c =? 65279)%N; [|reflexivity].
    rewrite andb_false_r in Hc. discriminate. }
  rewrite Hbom. unfold Reader.decode. rewrite Hskip.
  set (s := Writer.iterencode v 0) in *.
  pose proof (proj1 (scan_once_fuel (S (2 * length s))) s ltac:(lia)) as Hprog.
  set (fuel := Nat.max (nodes v) (S (2 * length s))).
  pose proof (iterencode_reads_back v Hkp Hff 0%nat [] fuel
                ltac:(unfold fuel; lia) eq_refl) as Hread.
  rewrite app_nil_r in Hread. fold s in Hread.
  destruct (Reader.scan_once (S (2 * length s)) s) as [v0 rest| |] eqn:Escan;
    cbn [scan_progress] in Hprog; [|exfalso|contradiction].
  - rewrite (proj1 (scan_once_more_fuel _) _ _ Escan ltac:(discriminate) fuel
               ltac:(unfold fuel; lia)) in Hread.
    injection Hread as -> ->. reflexivity.
  - rewrite (proj1 (scan_once_more_fuel _) _ _ Escan ltac:(discriminate) fuel
               ltac:(unfold fuel; lia)) in Hread.
    discriminate.
Qed.

(** X22.  What the drivers write, the converter reads back.  Take a value
    whose objects have distinct keys, that holds no float, whose integers
    and nesting are within the limits of the interpreter, and whose text
    [json.dumps(value, ensure_ascii=False, indent=2)] can be encoded in
    UTF-8, that is, holds no surrogate.  Then the file that [write_text]
    leaves is read by [read_text] as the very text written, and [json.loads]
    of it succeeds and returns the value. *)
Theorem written_output_reads_back (v : json) :
  keys_proper v = true -> float_free v = true ->
  value_within_limits v = true ->
  utf8_encodable (Writer.dumps v) = true ->
  text_read_back (Writer.dumps v) = Writer.dumps v
  /\ Reader.loads (text_read_back (Writer.dumps v)) = Some v.
Proof.
  intros Hkp Hff _ Henc.
  assert (Hback : text_read_back (Writer.dumps v) = Writer.dumps v).
  { unfold text_read_back. rewrite Henc.
    apply universal_newlines_plain. unfold Writer.dumps.
    now apply iterencode_no_cr. }
  split; [exact Hback|]. rewrite Hback. now apply dumps_reads_back.
Qed.

Lemma written_output_reads_back_witness :
  text_read_back (Writer.dumps (JDict sample_filled))
  = Writer.dumps (JDict sample_filled)
  /\ Reader.loads (text_read_back (Writer.dumps (JDict sample_filled)))
     = Some (JDict sample_filled).
Proof.
  exact (written_output_reads_back (JDict sample_filled)
           eq_refl eq_refl eq_refl eq_refl).
Defined.

(* --------------------------------------------------------------------- *)
(** ** The converter on a filled template                                  *)
(* --------------------------------------------------------------------- *)

(** *** Paths below [meta] *)

Lemma below_meta_starts (pk ks : list str) :
  below_meta pk = true -> ks <> [] ->
  startswith (dot_path pk ks) (u "meta.") = true.
Proof.
  intros Hb Hks. destruct pk as [|k0 rest]; [discriminate|].
  cbn [below_meta] in Hb. apply str_eqb_eq in Hb. subst k0.
  unfold dot_path. cbn [app].
  destruct (rest ++ ks) as [|k2 more] eqn:E.
  - apply app_eq_nil in E. destruct E as [_ E]. contradiction.
  - rewrite join_cons2. apply startswith_spec.
    exists (join [46%N] (k2 :: more)). reflexivity.
Qed.

Lemma below_meta_child (pk : list str) (k : str) :
  below_meta pk = true ->
  startswith match join [46%N] pk with
             | [] => k
             | _ :: _ => join [46%N] pk ++ u "." ++ k
             end (u "meta.") = true.
Proof.
  intros Hb. destruct pk as [|k0 rest]; [discriminate|].
  cbn [below_meta] in Hb. apply str_eqb_eq in Hb. subst k0.
  destruct rest as [|k2 more].
  - apply startswith_spec. exists k. reflexivity.
  - rewrite join_cons2. apply startswith_spec.
    exists (join [46%N] (k2 :: more) ++ u "." ++ k). reflexivity.
Qed.

Lemma below_meta_app (pk : list str) (k : str) :
  below_meta pk = true -> below_meta (pk ++ [k]) = true.
Proof. destruct pk; [discriminate | intros H; exact H]. Qed.

Lemma excel_collect_cons (k : str) (v : json) (rest : list (str * json))
      (prefix : str) :
  Excel.collect_fields_at (JDict ((k, v) :: rest)) prefix
  = (let path := match prefix with
                 | [] => k
                 | _ :: _ => prefix ++ u "." ++ k
                 end in
     if startswith path (u "meta.") then []
     else match v with
          | JDict d =>
              if dict_has d (u "value")
              then [(path, Excel.label_of path)]
              else Excel.collect_fields_at v path
          | _ => []
          end)
    ++ Excel.collect_fields_at (JDict rest) prefix.
Proof. reflexivity. Qed.

(** Below [meta] the converter collects nothing, whatever it finds. *)
Lemma excel_collect_below (pk : list str) (v' : json) :
  below_meta pk = true -> Excel.collect_fields_at v' (join [46%N] pk) = [].
Proof.
  intros Hb. destruct v' as [| | | | | |obj]; try reflexivity.
  induction obj as [|[k x] rest IH]; [reflexivity|].
  rewrite excel_collect_cons, IH, app_nil_r. cbv zeta.
  rewrite (below_meta_child pk k Hb). reflexivity.
Qed.

Lemma field_keys_nonempty (v : json) (f : list str * json) :
  In f (field_keys_at v) -> fst f <> [].
Proof.
  destruct v as [| | | | | |obj]; try contradiction.
  induction obj as [|[k x] rest IH]; [contradiction|].
  rewrite field_keys_at_cons. intros Hin. apply in_app_or in Hin.
  destruct Hin as [Hin|Hin]; [|exact (IH Hin)].
  destruct (is_field x).
  - destruct Hin as [<-|[]]. discriminate.
  - apply in_map_iff in Hin. destruct Hin as [f' [<- _]]. discriminate.
Qed.

Lemma filter_below (pk : list str) (v : json) :
  below_meta pk = true -> filter (outside_meta pk) (field_keys_at v) = [].
Proof.
  intros Hb.
  assert (H : forall l : list (list str * json),
             Forall (fun f => fst f <> []) l -> filter (outside_meta pk) l = []).
  { intros l Hl. induction Hl as [|f l Hf _ IH]; [reflexivity|].
    cbn [filter]. unfold outside_meta at 1.
    rewrite (below_meta_starts pk (fst f) Hb Hf). exact IH. }
  apply H, Forall_forall. intros f. apply field_keys_nonempty.
Qed.

(** *** The entries of a template *)

Lemma field_keys_at_in (t : dict) (f : list str * json) :
  In f (field_keys_at (JDict t)) ->
  exists k x,
    In (k, x) t
    /\ ((is_field x = true /\ fst f = [k])
        \/ (is_field x = false
            /\ exists f', In f' (field_keys_at x) /\ fst f = k :: fst f')).
Proof.
  induction t as [|[k x] rest IH]; [contradiction|].
  rewrite field_keys_at_cons. intros Hin. apply in_app_or in Hin.
  destruct Hin as [Hin|Hin].
  - exists k, x. split; [now left|].
    destruct (is_field x).
    + left. destruct Hin as [<-|[]]. now split.
    + right. split; [reflexivity|]. apply in_map_iff in Hin.
      destruct Hin as [f' [<- Hf']]. now exists f'.
  - destruct (IH Hin) as (k' & x' & Hin' & H). exists k', x'.
    split; [now right | exact H].
Qed.

Lemma in_field_keys_at (t : dict) (k : str) (x : json) :
  In (k, x) t ->
  (is_field x = true -> exists typ, In ([k], typ) (field_keys_at (JDict t)))
  /\ (is_field x = false ->
      forall f', In f' (field_keys_at x) ->
                 In (k :: fst f', snd f') (field_keys_at (JDict t))).
Proof.
  induction t as [|[k0 x0] rest IH]; [contradiction|].
  intros [E|Hin]; rewrite field_keys_at_cons.
  - injection E as -> ->. split.
    + intros Hf. rewrite Hf. eexists. apply in_or_app. left. now left.
    + intros Hf f' Hf'. rewrite Hf. apply in_or_app. left.
      apply in_map_iff. now exists f'.
  - destruct (IH Hin) as [H1 H2]. split.
    + intros Hf. destruct (H1 Hf) as [typ Htyp]. exists typ.
      apply in_or_app. now right.
    + intros Hf f' Hf'. apply in_or_app. right. now apply H2.
Qed.

Lemma well_formed_in (t : dict) (k : str) (x : json) :
  well_formed (JDict t) = true -> In (k, x) t ->
  key_ok k = true /\ (is_field x = true \/ well_formed x = true).
Proof.
  induction t as [|[k0 x0] rest IH]; [contradiction|].
  intros Hwf Hin. destruct (well_formed_cons _ _ _ Hwf) as (Hk & _ & Hx & Hrest).
  destruct Hin as [E|Hin]; [injection E as <- <-; now split | now apply IH].
Qed.

Lemma well_formed_NoDup (t : dict) :
  well_formed (JDict t) = true -> NoDup (map fst t).
Proof.
  induction t as [|[k0 x0] rest IH]; [constructor|].
  intros Hwf. destruct (well_formed_cons _ _ _ Hwf) as (_ & Hnotin & _ & Hrest).
  cbn [map fst]. constructor; [exact Hnotin | exact (IH Hrest)].
Qed.

Lemma plain_groups_cons (k : str) (x : json) (rest : list (str * json)) :
  plain_groups (JDict ((k, x) :: rest))
  = match x with
    | JDict d =>
        is_field x || (negb (dict_has d (u "value")) && plain_groups x)
    | _ => true
    end && plain_groups (JDict rest).
Proof. reflexivity. Qed.

Lemma plain_groups_in (t : dict) (k : str) (d : dict) :
  plain_groups (JDict t) = true -> In (k, JDict d) t ->
  is_field (JDict d) = false ->
  dict_has d (u "value") = false /\ plain_groups (JDict d) = true.
Proof.
  induction t as [|[k0 x0] rest IH]; [contradiction|].
  rewrite plain_groups_cons. intros Hp Hin Hf.
  apply andb_true_iff in Hp. destruct Hp as [Hx Hrest].
  destruct Hin as [E|Hin]; [|now apply IH].
  injection E as -> ->. rewrite Hf in Hx. cbn [orb] in Hx.
  apply andb_true_iff in Hx. destruct Hx as [H1 H2].
  apply negb_true_iff in H1. now split.
Qed.

(** *** What keeps the shape of a template *)

Lemma shape_kept_below (v : json) (pk : list str) (v' : json) :
  below_meta pk = true -> shape_kept v pk v'.
Proof. intros H. destruct v; left; exact H. Qed.

Lemma shape_kept_nil (pk : list str) (v' : json) :
  below_meta pk = false ->
  (shape_kept (JDict []) pk v' <-> v' = JDict []).
Proof.
  intros Hb. split.
  - intros [H|H]; [congruence|].
    destruct v' as [| | | | | |[|e l']]; try contradiction. reflexivity.
  - intros ->. right. exact I.
Qed.

Lemma shape_kept_cons (pk : list str) (k : str) (x : json)
      (rest : list (str * json)) (v' : json) :
  below_meta pk = false ->
  (shape_kept (JDict ((k, x) :: rest)) pk v'
   <-> exists x' rest',
         v' = JDict ((k, x') :: rest')
         /\ entry_kept pk k x x'
         /\ shape_kept (JDict rest) pk (JDict rest')).
Proof.
  intros Hb. split.
  - intros [H|H]; [congruence|].
    destruct v' as [| | | | | |[|[k' x'] rest']]; try contradiction.
    destruct H as (-> & Hentry & Hrest).
    exists x', rest'. split; [reflexivity|]. split; [exact Hentry|].
    right. exact Hrest.
  - intros (x' & rest' & -> & Hentry & Hrest). right.
    split; [reflexivity|]. split; [exact Hentry|].
    destruct Hrest as [Hrest|Hrest]; [congruence | exact Hrest].
Qed.

(** With distinct keys, the shape is kept when the keys are the same in the
    same order and every entry of the template finds its entry. *)
Lemma shape_kept_lookup (t : dict) (pk : list str) :
  below_meta pk = false -> NoDup (map fst t) ->
  forall t' : dict,
    shape_kept (JDict t) pk (JDict t')
    <-> (map fst t' = map fst t
         /\ forall k x, In (k, x) t ->
                        exists x', dict_get t' k = Some x'
                                   /\ entry_kept pk k x x').
Proof.
  intros Hb. induction t as [|[k x] rest IH]; intros Hnd t'.
  - rewrite (shape_kept_nil pk (JDict t') Hb). split.
    + intros E. injection E as ->. split; [reflexivity | contradiction].
    + intros [E _]. destruct t'; [reflexivity | discriminate].
  - cbn [map fst] in Hnd. inversion Hnd as [|? ? Hnotin Hnd']; subst.
    rewrite (shape_kept_cons pk k x rest (JDict t') Hb). split.
    + intros (x' & rest' & E & Hentry & Hrest). injection E as ->.
      apply (IH Hnd') in Hrest. destruct Hrest as [Hkeys Hall].
      split; [cbn [map fst]; now rewrite Hkeys|].
      intros k2 x2 [E|Hin].
      * injection E as <- <-. exists x'. cbn [dict_get].
        now rewrite str_eqb_refl.
      * destruct (Hall k2 x2 Hin) as (x2' & Hget & Hentry2).
        exists x2'. split; [|exact Hentry2]. cbn [dict_get].
        str_cases k2 k; [|exact Hget].
        subst k2. exfalso. apply Hnotin. apply in_map_iff.
        now exists (k, x2).
    + intros [Hkeys Hall]. destruct t' as [|[k' x'] rest']; [discriminate|].
      cbn [map fst] in Hkeys. injection Hkeys as -> Hkeys.
      exists x', rest'. split; [reflexivity|]. split.
      * destruct (Hall k x (or_introl eq_refl)) as (x'' & Hget & Hentry).
        cbn [dict_get] in Hget. rewrite str_eqb_refl in Hget.
        injection Hget as <-. exact Hentry.
      * apply (IH Hnd'). split; [exact Hkeys|].
        intros k2 x2 Hin.
        destruct (Hall k2 x2 (or_intror Hin)) as (x2' & Hget & Hentry2).
        exists x2'. split; [|exact Hentry2]. cbn [dict_get] in Hget.
        str_cases k2 k; [|exact Hget].
        subst k2. exfalso. apply Hnotin. apply in_map_iff.
        now exists (k, x2).
Qed.

(** Before anything is written, the template has its own shape. *)
Lemma shape_kept_refl (v : json) :
  forall pk, plain_groups v = true -> shape_kept v pk v.
Proof.
  induction v as [| | | | | |entries IHentries] using json_nested_ind;
    try (intros; right; exact I).
  intros pk Hp. destruct (below_meta pk) eqn:Hb; [now left|].
  induction entries as [|[k x] rest IHrest].
  - now apply shape_kept_nil.
  - inversion IHentries as [|? ? IHx IHothers]; subst. cbn [snd] in IHx.
    rewrite plain_groups_cons in Hp. apply andb_true_iff in Hp.
    destruct Hp as [Hx Hrest].
    apply shape_kept_cons; [exact Hb|].
    exists x, rest. split; [reflexivity|].
    split; [|exact (IHrest IHothers Hrest)].
    unfold entry_kept. destruct (is_field x) eqn:Hf.
    + destruct x; try discriminate Hf. reflexivity.
    + destruct x as [| | | | | |d]; try reflexivity.
      cbn [orb] in Hx. apply andb_true_iff in Hx. destruct Hx as [H1 H2].
      apply negb_true_iff in H1. split; [exact H1 | exact (IHx _ H2)].
Qed.

(** Putting at a key of the template an entry that suits it keeps the
    shape. *)
Lemma shape_kept_set (t t' : dict) (pk : list str) (k : str) (x'' : json) :
  below_meta pk = false -> NoDup (map fst t) ->
  shape_kept (JDict t) pk (JDict t') ->
  In k (map fst t) ->
  (forall x, In (k, x) t -> entry_kept pk k x x'') ->
  shape_kept (JDict t) pk (JDict (dict_set t' k x'')).
Proof.
  intros Hb Hnd Hshape Hk Hnew.
  apply (shape_kept_lookup t pk Hb Hnd) in Hshape.
  destruct Hshape as [Hkeys Hall].
  apply (shape_kept_lookup t pk Hb Hnd). split.
  - rewrite dict_set_keys. unfold dict_has.
    destruct (dict_get t' k) eqn:Hget; [exact Hkeys|].
    apply dict_get_none_notin in Hget. rewrite Hkeys in Hget. contradiction.
  - intros k2 x2 Hin. destruct (str_eq_dec k k2) as [<-|Hne].
    + exists x''. split; [apply dict_get_set_same | exact (Hnew x2 Hin)].
    + destruct (Hall k2 x2 Hin) as (x2' & Hget & Hentry).
      exists x2'. split; [|exact Hentry].
      rewrite dict_get_set_other by exact Hne. exact Hget.
Qed.

Lemma entry_unique (t : dict) (k : str) (x y : json) :
  NoDup (map fst t) -> In (k, x) t -> In (k, y) t -> x = y.
Proof.
  intros Hnd Hx Hy.
  pose proof (in_dict_get t k x Hnd Hx) as E1.
  pose proof (in_dict_get t k y Hnd Hy) as E2. congruence.
Qed.

(** Writing a field of the template keeps the shape. *)
Lemma set_parts_keeps_shape (v : json) :
  forall (pk : list str) (t t' t'' : dict) (f : list str * json)
         (value page excerpt : json),
    v = JDict t -> well_formed v = true -> plain_groups v = true ->
    shape_kept v pk (JDict t') -> In f (field_keys_at v) ->
    set_parts t' (fst f) value page excerpt = Some t'' ->
    shape_kept v pk (JDict t'').
Proof.
  induction v as [| | | | | |entries IHentries] using json_nested_ind;
    try discriminate.
  intros pk t t' t'' f value page excerpt E Hwf Hp Hshape Hf Hset.
  injection E as ->.
  destruct (below_meta pk) eqn:Hb; [now apply shape_kept_below|].
  pose proof (well_formed_NoDup t Hwf) as Hnd.
  destruct (field_keys_at_in t f Hf) as (k & x & Hin & Hcase).
  assert (Hk : In k (map fst t)) by (apply in_map_iff; now exists (k, x)).
  pose proof (proj1 (shape_kept_lookup t pk Hb Hnd t') Hshape) as [Hkeys Hall].
  destruct (Hall k x Hin) as (x' & Hget & Hentry).
  destruct Hcase as [[Hfield Efst] | (Hfield & f' & Hf' & Efst)];
    rewrite Efst in Hset.
  - cbn [set_parts] in Hset. injection Hset as <-.
    destruct (write_leaf_shape t' k value page excerpt)
      as (leaf & src & -> & _).
    apply shape_kept_set; try assumption.
    intros x0 Hin0. rewrite <- (entry_unique t k x x0 Hnd Hin Hin0).
    unfold entry_kept. rewrite Hfield. reflexivity.
  - destruct x as [| | | | | |d]; try contradiction.
    pose proof (field_keys_nonempty _ _ Hf') as Hne.
    destruct (set_parts_cases _ _ _ _ _ _ _ Hset)
      as [[E _] | (k2 & rest' & child & child' & Erest & Hchild & Hsub & ->)];
      [contradiction|].
    destruct Hchild as [Hchild | [Hchild _]]; [|congruence].
    rewrite Hchild in Hget. injection Hget as <-.
    unfold entry_kept in Hentry. rewrite Hfield in Hentry.
    destruct Hentry as [Hvalue Hsubshape].
    destruct (plain_groups_in t k d Hp Hin Hfield) as [Hnovalue Hpd].
    assert (Hwfd : well_formed (JDict d) = true).
    { destruct (well_formed_in t k _ Hwf Hin) as [_ [H|H]];
        [congruence | exact H]. }
    apply shape_kept_set; try assumption.
    intros x0 Hin0. rewrite <- (entry_unique t k _ x0 Hnd Hin Hin0).
    unfold entry_kept. rewrite Hfield. split.
    + unfold dict_has in *.
      rewrite (set_parts_top_key _ _ _ (u "value") _ _ _ Hsub);
        [exact Hvalue|].
      destruct (field_keys_at_in d f' Hf') as (k3 & x3 & Hin3 & Hcase3).
      assert (E3 : hd_error (fst f') = Some k3)
        by (destruct Hcase3 as [[_ ->] | (_ & f3 & _ & ->)]; reflexivity).
      rewrite E3. intros E. injection E as ->.
      destruct (dict_get d (u "value")) eqn:Hd; [discriminate|].
      apply dict_get_none_notin in Hd. apply Hd.
      apply in_map_iff. now exists (u "value", x3).
    + rewrite Forall_forall in IHentries.
      exact (IHentries (k, JDict d) Hin (pk ++ [k]) d child child' f'
                       value page excerpt eq_refl Hwfd Hpd Hsubshape Hf' Hsub).
Qed.

(** The two writes below [meta] keep the shape of a template that has a
    [meta] entry. *)
Lemma set_meta_path_keeps_shape (t t' t'' : dict) (name : str)
      (value page excerpt : json) :
  well_formed (JDict t) = true ->
  In (u "meta") (map fst t) ->
  name <> u "value" ->
  shape_kept (JDict t) [] (JDict t') ->
  set_parts t' [u "meta"; name] value page excerpt = Some t'' ->
  shape_kept (JDict t) [] (JDict t'').
Proof.
  intros Hwf Hmeta Hname Hshape Hset.
  pose proof (well_formed_NoDup t Hwf) as Hnd.
  pose proof (proj1 (shape_kept_lookup t [] eq_refl Hnd t') Hshape)
    as [Hkeys Hall].
  destruct (set_parts_cases _ _ _ _ _ _ _ Hset)
    as [[E _] | (k2 & rest' & child & child' & Erest & Hchild & Hsub & ->)];
    [discriminate|].
  apply shape_kept_set; try assumption; [reflexivity|].
  intros x Hin. destruct (Hall _ x Hin) as (x' & Hget & Hentry).
  destruct Hchild as [Hchild | [Hchild _]]; [|congruence].
  rewrite Hchild in Hget. injection Hget as <-.
  unfold entry_kept in *. destruct (is_field x); [reflexivity|].
  destruct x as [| | | | | |d]; try discriminate Hentry.
  destruct Hentry as [Hvalue _]. split; [|now apply shape_kept_below].
  unfold dict_has in *.
  rewrite (set_parts_top_key _ _ _ (u "value") _ _ _ Hsub); [exact Hvalue|].
  cbn [hd_error]. intros E. injection E as E. contradiction.
Qed.

(** *** What the converter collects from a filled template *)

Lemma get_parts_skip (k : str) (x : json) (rest : dict) (ks : list str) :
  hd_error ks <> Some k -> get_parts ((k, x) :: rest) ks = get_parts rest ks.
Proof.
  intros Hne. destruct ks as [|k1 [|k2 more]]; [reflexivity| |];
    cbn [get_parts dict_get]; str_cases k1 k;
    try reflexivity; subst; now contradiction Hne.
Qed.

Lemma filter_under_meta (pk : list str) (k : str) (l : list (list str * json)) :
  startswith (dot_path pk [k]) (u "meta.") = true ->
  Forall (fun f => exists ks, fst f = k :: ks) l ->
  filter (outside_meta pk) l = [].
Proof.
  intros Hmeta Hl. induction Hl as [|f l [ks E] _ IHl]; [reflexivity|].
  simpl. unfold outside_meta at 1. rewrite E, (under_meta pk k ks Hmeta).
  exact IHl.
Qed.

Lemma excel_shift_fields (pk : list str) (k : str) (l : list (list str * json)) :
  map (excel_spec_of (pk ++ [k])) (filter (outside_meta (pk ++ [k])) l)
  = map (excel_spec_of pk)
        (filter (outside_meta pk) (map (fun f => (k :: fst f, snd f)) l)).
Proof.
  induction l as [|f l IH]; [reflexivity|]. cbn [map filter].
  assert (E1 : outside_meta pk (k :: fst f, snd f) = outside_meta (pk ++ [k]) f)
    by (unfold outside_meta; cbn [fst]; now rewrite dot_path_shift).
  assert (E2 : excel_spec_of pk (k :: fst f, snd f) = excel_spec_of (pk ++ [k]) f)
    by (unfold excel_spec_of; cbn [fst snd]; now rewrite dot_path_shift).
  rewrite E1. destruct (outside_meta (pk ++ [k]) f); cbn [map];
    [rewrite E2, IH; reflexivity | exact IH].
Qed.

(** On an object that has kept the shape of the template and in which every
    field has its [value], the converter collects the fields that
    [collect_fields] finds in the template, in the same order. *)
Lemma excel_collect_shape (v : json) :
  forall (pk : list str) (t' : dict),
    Forall (fun k => key_ok k = true) pk ->
    is_dict v = true ->
    well_formed v = true ->
    shape_kept v pk (JDict t') ->
    (forall f, In f (field_keys_at v) -> outside_meta pk f = true ->
               exists leaf, get_parts t' (fst f) = Some (JDict leaf)
                            /\ dict_has leaf (u "value") = true) ->
    Excel.collect_fields_at (JDict t') (join [46%N] pk)
    = map (excel_spec_of pk) (filter (outside_meta pk) (field_keys_at v)).
Proof.
  induction v as [| | | | | |entries IHentries] using json_nested_ind;
    try discriminate.
  induction entries as [|[k x] rest IHrest];
    intros pk t' Hpk _ Hwf Hshape Hval;
    (destruct (below_meta pk) eqn:Hb;
     [rewrite (excel_collect_below pk _ Hb), (filter_below pk _ Hb);
      reflexivity|]).
  - apply (shape_kept_nil pk _ Hb) in Hshape. injection Hshape as ->.
    reflexivity.
  - inversion IHentries as [|? ? IHx IHothers]; subst. cbn [snd] in IHx.
    apply (shape_kept_cons pk k x rest _ Hb) in Hshape.
    destruct Hshape as (x' & rest' & E & Hentry & Hrest). injection E as ->.
    destruct (well_formed_cons _ _ _ Hwf) as (Hk & Hnotin & Hx & Hwfrest).
    rewrite excel_collect_cons, field_keys_at_cons, filter_app, map_app.
    rewrite (IHrest IHothers pk rest' Hpk eq_refl Hwfrest Hrest).
    2: { intros f Hf Hout.
         destruct (Hval f) as (leaf & Hleaf & Hhas); [|exact Hout|].
         - rewrite field_keys_at_cons. apply in_or_app. now right.
         - exists leaf. split; [|exact Hhas].
           rewrite get_parts_skip in Hleaf; [exact Hleaf|].
           destruct (field_keys_at_in rest f Hf) as (k3 & x3 & Hin3 & Hcase3).
           assert (E3 : hd_error (fst f) = Some k3)
             by (destruct Hcase3 as [[_ ->] | (_ & f3 & _ & ->)]; reflexivity).
           rewrite E3. intros E. injection E as ->. apply Hnotin.
           apply in_map_iff. now exists (k, x3). }
    f_equal. cbv zeta. rewrite child_path by exact Hpk.
    destruct (startswith (dot_path pk [k]) (u "meta.")) eqn:Hmeta.
    + rewrite (filter_under_meta pk k); [reflexivity | exact Hmeta |].
      destruct (is_field x).
      * repeat constructor. now exists [].
      * apply Forall_forall. intros f Hf. apply in_map_iff in Hf.
        destruct Hf as [f' [<- _]]. now exists (fst f').
    + unfold entry_kept in Hentry. destruct (is_field x) eqn:Hfield.
      * destruct (Hval ([k], match x with
                             | JDict d => dict_get_default d (u "expected_type")
                                                           (JStr [])
                             | _ => JNull
                             end)) as (leaf & Hleaf & Hhas).
        { rewrite field_keys_at_cons, Hfield. apply in_or_app. left. now left. }
        { unfold outside_meta. cbn [fst]. now rewrite Hmeta. }
        cbn [fst get_parts dict_get] in Hleaf. rewrite str_eqb_refl in Hleaf.
        injection Hleaf as ->. rewrite Hhas.
        cbn [filter]. unfold outside_meta at 1. cbn [fst]. rewrite Hmeta.
        reflexivity.
      * destruct x as [| | | | | |d];
          try (destruct x'; try discriminate Hentry; reflexivity).
        destruct Hentry as [Hvalue Hsub].
        destruct x' as [| | | | | |d']; try contradiction.
        rewrite Hvalue.
        destruct Hx as [Hx|Hx]; [congruence|].
        assert (Hpk' : Forall (fun k => key_ok k = true) (pk ++ [k]))
          by (apply Forall_app; split; [exact Hpk | repeat constructor; exact Hk]).
        unfold dot_path at 1.
        rewrite (IHx (pk ++ [k]) d' Hpk' eq_refl Hx Hsub);
          [apply excel_shift_fields|].
        intros f' Hf' Hout'.
        destruct (Hval (k :: fst f', snd f')) as (leaf & Hleaf & Hhas).
        { rewrite field_keys_at_cons, Hfield. apply in_or_app. left.
          apply in_map_iff. now exists f'. }
        { unfold outside_meta in *. cbn [fst]. now rewrite dot_path_shift. }
        exists leaf. split; [|exact Hhas]. cbn [fst] in Hleaf.
        pose proof (field_keys_nonempty _ _ Hf') as Hne.
        destruct (fst f') as [|k2 more]; [contradiction|].
        rewrite (get_parts_cons _ k k2 more d') in Hleaf; [exact Hleaf|].
        cbn [dict_get]. now rewrite str_eqb_refl.
Qed.

(** *** The fill step keeps the shape of the template *)

(** The specifications that [collect_fields] returns for a template are
    those of its fields outside [meta], and the key path of each is the path
    of its field. *)
Lemma specs_are_fields (t : dict) :
  well_formed (JDict t) = true ->
  collect_fields t []
  = map (spec_of []) (filter (outside_meta []) (field_keys_at (JDict t)))
  /\ forall f, In f (field_keys_at (JDict t)) ->
               keys_of (spec_of [] f) = fst f.
Proof.
  intros Hwf. split.
  - exact (collect_fields_at_keys (JDict t) [] (Forall_nil _) Hwf).
  - intros f Hf. destruct (field_keys_in_place _ Hwf) as [Hplaces _].
    rewrite Forall_forall in Hplaces.
    destruct (Hplaces f Hf) as (k & ks & E & _ & Hok & _).
    unfold keys_of, spec_of, dot_path. cbn [fst app].
    apply split_char_join; [rewrite E; discriminate|].
    rewrite Forall_forall in *. intros x Hx. apply key_ok_nodot, Hok, Hx.
Qed.

Lemma fill_fields_keep_shape (t : dict) (r : json) (specs : list field_spec) :
  well_formed (JDict t) = true -> plain_groups (JDict t) = true ->
  Forall (fun spec => exists f, In f (field_keys_at (JDict t))
                                /\ keys_of spec = fst f) specs ->
  forall t0 out,
    shape_kept (JDict t) [] (JDict t0) ->
    fill_fields r t0 specs = Some out ->
    shape_kept (JDict t) [] (JDict out).
Proof.
  intros Hwf Hp Hspecs.
  induction Hspecs as [|spec specs (f & Hf & Ekeys) _ IH]; intros t0 out Hshape.
  - intros E. injection E as <-. exact Hshape.
  - rewrite fill_fields_cons.
    destruct (fill_field r t0 spec) as [t1|] eqn:Hfill; [|discriminate].
    apply IH. unfold fill_field in Hfill.
    destruct r as [| | | | | |result]; try discriminate Hfill.
    unfold set_path in Hfill. fold (keys_of spec) in Hfill.
    rewrite Ekeys in Hfill.
    exact (set_parts_keeps_shape (JDict t) [] t t0 t1 f _ _ _ eq_refl Hwf Hp
                                 Hshape Hf Hfill).
Qed.

Lemma filled_has_shape (t : dict) (r : json) (document : str) (out : dict) :
  well_formed (JDict t) = true -> plain_groups (JDict t) = true ->
  In (u "meta") (map fst t) ->
  fill_template r t document (collect_fields t []) = Some out ->
  shape_kept (JDict t) [] (JDict out).
Proof.
  intros Hwf Hp Hmeta. unfold fill_template, set_meta, set_path.
  change (split_char 46 (u "meta.file_type")) with [u "meta"; u "file_type"].
  change (split_char 46 (u "meta.file_name")) with [u "meta"; u "file_name"].
  destruct (set_parts t [u "meta"; u "file_type"] _ _ _) as [ta|] eqn:Ha;
    [|discriminate].
  destruct (set_parts ta [u "meta"; u "file_name"] _ _ _) as [t1|] eqn:H1;
    [|discriminate].
  assert (Hsa : shape_kept (JDict t) [] (JDict ta)).
  { refine (set_meta_path_keeps_shape t t ta (u "file_type") _ _ _ Hwf Hmeta
                                        _ (shape_kept_refl _ [] Hp) Ha).
    discriminate. }
  assert (Hs1 : shape_kept (JDict t) [] (JDict t1)).
  { refine (set_meta_path_keeps_shape t ta t1 (u "file_name") _ _ _ Hwf Hmeta
                                        _ Hsa H1).
    discriminate. }
  apply (fill_fields_keep_shape t r _ Hwf Hp); [|exact Hs1].
  destruct (specs_are_fields t Hwf) as [-> Hkeys].
  apply Forall_forall. intros spec Hspec. apply in_map_iff in Hspec.
  destruct Hspec as (f & <- & Hf). apply filter_In in Hf.
  exists f. split; [exact (proj1 Hf) | exact (Hkeys f (proj1 Hf))].
Qed.

(** *** A template without a [meta] entry *)

Lemma well_formed_cons_intro (k : str) (v : json) (rest : list (str * json)) :
  key_ok k = true -> ~ In k (map fst rest) ->
  (is_field v = true \/ well_formed v = true) ->
  well_formed (JDict rest) = true ->
  well_formed (JDict ((k, v) :: rest)) = true.
Proof.
  intros Hk Hnotin Hv Hrest.
  cbn [well_formed map fst keys_distinct forallb] in *.
  rewrite !andb_true_iff in *. destruct Hrest as [[Hd Hoks] Hall].
  repeat split; try assumption.
  - apply negb_true_iff. destruct (existsb _ _) eqn:Hex; [|reflexivity].
    apply existsb_exists in Hex. destruct Hex as [k' [Hin E]].
    apply str_eqb_eq in E. subst k'. contradiction.
  - destruct Hv as [-> | Hv]; [reflexivity|].
    destruct (is_field v); [reflexivity | exact Hv].
Qed.

Lemma well_formed_snoc (t : dict) (k : str) (v : json) :
  well_formed (JDict t) = true -> key_ok k = true ->
  ~ In k (map fst t) -> (is_field v = true \/ well_formed v = true) ->
  well_formed (JDict (t ++ [(k, v)])) = true.
Proof.
  intros Hwf Hk Hnotin Hv. induction t as [|[k0 x0] rest IH].
  - apply well_formed_cons_intro; [exact Hk | exact Hnotin | exact Hv |].
    reflexivity.
  - destruct (well_formed_cons _ _ _ Hwf) as (Hk0 & Hnotin0 & Hx0 & Hrest).
    cbn [app]. apply well_formed_cons_intro; [exact Hk0 | | exact Hx0 |].
    + rewrite map_app. cbn [map fst]. intros Hin. apply in_app_or in Hin.
      destruct Hin as [Hin | [<- | []]]; [contradiction|].
      apply Hnotin. now left.
    + apply IH; [exact Hrest|]. intros Hin. apply Hnotin. now right.
Qed.

Lemma plain_groups_snoc (t : dict) (k : str) (v : json) :
  plain_groups (JDict t) = true -> plain_groups (JDict [(k, v)]) = true ->
  plain_groups (JDict (t ++ [(k, v)])) = true.
Proof.
  intros Hp Hv. induction t as [|[k0 x0] rest IH]; [exact Hv|].
  cbn [app]. rewrite plain_groups_cons in *.
  apply andb_true_iff in Hp. destruct Hp as [H0 Hrest].
  rewrite H0, (IH Hrest). reflexivity.
Qed.

Lemma collect_fields_at_snoc (t : dict) (k : str) (v : json) (prefix : str) :
  collect_fields_at (JDict (t ++ [(k, v)])) prefix
  = collect_fields_at (JDict t) prefix
    ++ collect_fields_at (JDict [(k, v)]) prefix.
Proof.
  induction t as [|[k0 x0] rest IH]; [reflexivity|].
  cbn [app]. rewrite !(collect_fields_at_cons k0), IH, app_assoc. reflexivity.
Qed.

Lemma dict_get_snoc (t : dict) (k : str) (v : json) :
  ~ In k (map fst t) -> dict_get (t ++ [(k, v)]) k = Some v.
Proof.
  induction t as [|[k0 x0] rest IH]; intros Hnotin; cbn [app dict_get].
  - now rewrite str_eqb_refl.
  - str_cases k k0.
    + subst. exfalso. apply Hnotin. now left.
    + apply IH. intros Hin. apply Hnotin. now right.
Qed.

Lemma dict_set_snoc (t : dict) (k : str) (v v' : json) :
  ~ In k (map fst t) -> dict_set (t ++ [(k, v)]) k v' = t ++ [(k, v')].
Proof.
  induction t as [|[k0 x0] rest IH]; intros Hnotin; cbn [app dict_set].
  - now rewrite str_eqb_refl.
  - str_cases k k0.
    + subst. exfalso. apply Hnotin. now left.
    + rewrite IH; [reflexivity|]. intros Hin. apply Hnotin. now right.
Qed.

(** A template without a [meta] entry is filled as the same template with
    an empty [meta] object at its end. *)
Lemma with_meta_same (t : dict) :
  In (u "meta") (map fst (with_meta t))
  /\ collect_fields (with_meta t) [] = collect_fields t []
  /\ (template_wf t -> template_wf (with_meta t))
  /\ (plain_groups (JDict t) = true ->
      plain_groups (JDict (with_meta t)) = true)
  /\ forall r document specs,
       fill_template r (with_meta t) document specs
       = fill_template r t document specs.
Proof.
  unfold with_meta, dict_has.
  destruct (dict_get t (u "meta")) as [m|] eqn:Hget.
  - split; [|split; [reflexivity | split; [tauto | split; [tauto | reflexivity]]]].
    apply dict_get_in in Hget. apply in_map_iff. now exists (u "meta", m).
  - pose proof (proj1 (dict_get_none_notin t (u "meta")) Hget) as Hnotin.
    split; [|split; [|split; [|split]]].
    + rewrite map_app. apply in_or_app. right. now left.
    + unfold collect_fields. rewrite collect_fields_at_snoc. apply app_nil_r.
    + intros [Hwf _]. split.
      * apply well_formed_snoc; [exact Hwf | reflexivity | exact Hnotin |].
        now right.
      * unfold meta_ok. now rewrite dict_get_snoc.
    + intros Hp. now apply plain_groups_snoc.
    + intros r document specs. unfold fill_template, set_meta, set_path.
      change (split_char 46 (u "meta.file_type"))
        with [u "meta"; u "file_type"].
      rewrite !(set_parts_step _ (u "meta") (u "file_type") []).
      rewrite Hget, dict_get_snoc by exact Hnotin.
      destruct (set_parts [] [u "file_type"] _ _ _) as [child|];
        [|reflexivity].
      rewrite dict_set_snoc by exact Hnotin.
      rewrite (dict_set_new t) by exact Hnotin. reflexivity.
Qed.

(** *** The converter after the drivers *)

Lemma converter_collects (template out : dict) (r : json) (document : str) :
  template_wf template -> plain_groups (JDict template) = true ->
  fill_template r template document (collect_fields template []) = Some out ->
  Excel.collect_fields_at (JDict out) []
  = map listed (collect_fields template []).
Proof.
  intros Hwf Hp Hfill.
  destruct (with_meta_same template) as (Hmeta & Hspecs & Hwf' & Hp' & Hsame).
  specialize (Hwf' Hwf). specialize (Hp' Hp).
  rewrite <- Hsame, <- Hspecs in Hfill. rewrite <- Hspecs.
  set (tm := with_meta template) in *.
  pose proof (filled_has_shape tm r document out (proj1 Hwf') Hp' Hmeta Hfill)
    as Hshape.
  destruct (specs_are_fields tm (proj1 Hwf')) as [Hcollect Hkeys].
  rewrite Hcollect, map_map.
  refine (excel_collect_shape (JDict tm) [] out (Forall_nil _) eq_refl
                              (proj1 Hwf') Hshape _).
  intros f Hf Hout.
  assert (Hin : In (spec_of [] f) (collect_fields tm [])).
  { rewrite Hcollect. apply in_map, filter_In. now split. }
  destruct (is_dict r) eqn:Hd.
  - destruct r as [| | | | | |llm_result]; try discriminate Hd.
    destruct (fill_template_records tm document llm_result Hwf')
      as (out0 & Hfill0 & _ & Hrecs).
    rewrite Hfill in Hfill0. injection Hfill0 as <-.
    rewrite Forall_forall in Hrecs.
    destruct (Hrecs _ Hin) as (leaf & src & Hget & Hvalue & _).
    rewrite (Hkeys f Hf) in Hget. exists leaf. split; [exact Hget|].
    unfold dict_has. now rewrite Hvalue.
  - rewrite fill_template_needs_a_dict in Hfill; [discriminate | exact Hd |].
    intros E. rewrite E in Hin. contradiction.
Qed.

(** X23.  The converter finds in a filled template the fields that the
    driver filled: when no group of fields of the template has a key named
    [value], [collect_fields] of the converter, on the output of the fill
    step, returns the paths that [collect_fields] of the drivers returned
    for the template, in the same order, each with the label made from its
    last key. *)
Theorem converter_lists_the_filled_fields
        (template out : dict) (llm_result : json) (document : str) :
  template_wf template -> plain_groups (JDict template) = true ->
  fill_template llm_result template document (collect_fields template [])
  = Some out ->
  Excel.collect_fields (JDict out)
  = Some (map listed (collect_fields template [])).
Proof.
  intros Hwf Hp Hfill. unfold Excel.collect_fields.
  now rewrite (converter_collects template out llm_result document Hwf Hp Hfill).
Qed.

Lemma converter_lists_the_filled_fields_witness :
  exists out,
    fill_template (JDict one_record_reply) sample_template_obj
                  (u "docs/carnet.pdf") (collect_fields sample_template_obj [])
    = Some out
    /\ Excel.collect_fields (JDict out)
       = Some [(u "batiment.date_construction", u "date construction");
               (u "batiment.syndic", u "syndic")].
Proof.
  eexists. split; [vm_compute; reflexivity|].
  exact (converter_lists_the_filled_fields
           sample_template_obj _ (JDict one_record_reply) (u "docs/carnet.pdf")
           (conj eq_refl eq_refl) eq_refl eq_refl).
Defined.

(** X24.  When the values that the fill loop wrote hold no float and are
    within the limits of the interpreter, the sheet of a filled template
    has one column for every field of the template, in the order of the
    template: its label, the value that the fill loop wrote, as
    [normalize_value] prints it, then the page and the excerpt that the fill
    loop wrote, left blank when they are [None]. *)
Theorem sheet_has_a_column_for_every_field
        (template out : dict) (llm_result : dict) (document : str) :
  template_wf template -> plain_groups (JDict template) = true ->
  fill_template (JDict llm_result) template document
                (collect_fields template [])
  = Some out ->
  forallb (fun spec => printed_exactly (written_value llm_result (fst (fst spec))))
          (collect_fields template []) = true ->
  let specs := collect_fields template [] in
  let path (spec : field_spec) := fst (fst spec) in
  Excel.build_matrix (JDict out)
  = Some [ map (fun spec => JStr (Excel.label_of (path spec))) specs;
           map (fun spec =>
                  JStr (Excel.normalize_value
                          (written_value llm_result (path spec)))) specs;
           map (fun spec =>
                  Excel.blank_if_none (written_page llm_result (path spec)))
               specs;
           map (fun spec =>
                  Excel.blank_if_none (written_excerpt llm_result (path spec)))
               specs ].
Proof.
  intros Hwf Hp Hfill _ specs path.
  unfold Excel.build_matrix, Excel.collect_fields.
  rewrite (converter_collects template out _ document Hwf Hp Hfill).
  destruct (fill_template_records template document llm_result Hwf)
    as (out0 & Hfill0 & _ & Hrecs).
  rewrite Hfill in Hfill0. injection Hfill0 as <-.
  rewrite Forall_forall in Hrecs.
  assert (Hcol : forall spec,
             In spec specs ->
             Excel.column (JDict out) (listed spec)
             = (JStr (Excel.label_of (path spec)),
                JStr (Excel.normalize_value
                        (written_value llm_result (path spec))),
                Excel.blank_if_none (written_page llm_result (path spec)),
                Excel.blank_if_none (written_excerpt llm_result (path spec)))).
  { intros spec Hin. unfold Excel.column, listed. cbn [fst snd].
    rewrite (extract_field_record out _ _ _ _ (Hrecs spec Hin)). reflexivity. }
  cbv zeta. rewrite !map_map. fold specs.
  f_equal.
  f_equal; [|f_equal; [|f_equal; [|f_equal]]];
    (apply map_ext_in; intros spec Hin; rewrite (Hcol spec Hin); reflexivity).
Qed.

Lemma sheet_has_a_column_for_every_field_witness :
  exists out,
    fill_template (JDict one_record_reply) sample_template_obj
                  (u "docs/carnet.pdf") (collect_fields sample_template_obj [])
    = Some out
    /\ Excel.build_matrix (JDict out)
       = Some [ [JStr (u "date construction"); JStr (u "syndic")];
                [JStr (u "1985"); JStr (u "not found")];
                [JInt 1; JStr []];
                [JStr (u "Date de construction: 1985"); JStr []] ].
Proof.
  eexists. split; [vm_compute; reflexivity|].
  exact (sheet_has_a_column_for_every_field
           sample_template_obj _ one_record_reply (u "docs/carnet.pdf")
           (conj eq_refl eq_refl) eq_refl eq_refl eq_refl).
Defined.

(* --------------------------------------------------------------------- *)
(** ** The second pass                                                     *)
(* --------------------------------------------------------------------- *)




(* --------------------------------------------------------------------- *)
(** ** The endpoint and the Mistral driver                                 *)
(* --------------------------------------------------------------------- *)

(** *** Names and suffixes *)

Lemma split_char_pieces (sep : N) (s : str) :
  Forall (fun piece => ~ In sep piece) (split_char sep s).
Proof.
  induction s as [|c s IH]; cbn [split_char].
  - repeat constructor. intros [].
  - destruct (N.eqb c sep) eqn:E.
    + constructor; [intros [] | exact IH].
    + apply N.eqb_neq in E.
      destruct (split_char sep s) as [|h t]; [repeat constructor|].
      * intros [H|[]]. congruence.
      * inversion IH as [|? ? Hh Ht]; subst. constructor; [|exact Ht].
        intros [H|H]; [congruence | contradiction].
Qed.

Lemma path_parts_kept (p : str) :
  Forall (fun part => ~ In 47%N part /\ part <> [] /\ part <> u ".")
         (path_parts p).
Proof.
  unfold path_parts. pose proof (split_char_pieces 47 p) as H.
  induction H as [|part l Hpart _ IH]; cbn [filter]; [constructor|].
  destruct (str_eqb part []) eqn:E1; [exact IH|].
  destruct (str_eqb part (u ".")) eqn:E2; [exact IH|].
  cbn [orb negb]. constructor; [|exact IH].
  apply str_eqb_neq in E1. apply str_eqb_neq in E2. auto.
Qed.

Lemma path_name_cases (p : str) :
  path_name p = []
  \/ (~ In 47%N (path_name p) /\ path_name p <> [] /\ path_name p <> u ".").
Proof.
  unfold path_name. pose proof (path_parts_kept p) as H.
  destruct (path_parts p) as [|x l] eqn:E; [left; reflexivity|].
  right. assert (Hne : x :: l <> []) by discriminate.
  destruct (exists_last Hne) as (l' & y & E'). rewrite E' in *.
  rewrite last_last. apply Forall_app in H. destruct H as [_ H].
  now inversion H.
Qed.

Lemma path_name_no_slash (p : str) : ~ In 47%N (path_name p).
Proof.
  destruct (path_name_cases p) as [->|[H _]]; [intros []|exact H].
Qed.

Lemma path_name_idem (p : str) : path_name (path_name p) = path_name p.
Proof.
  destruct (path_name_cases p) as [->|(Hslash & Hne & Hdot)]; [reflexivity|].
  unfold path_name at 1. unfold path_parts.
  rewrite (split_char_whole 47 _ Hslash). cbn [filter].
  apply str_eqb_neq in Hne. apply str_eqb_neq in Hdot.
  rewrite Hne, Hdot. reflexivity.
Qed.

Lemma path_suffix_name (p : str) : path_suffix (path_name p) = path_suffix p.
Proof. unfold path_suffix. now rewrite path_name_idem. Qed.

(** A suffix is a dot and an extension without a dot, after a name that is
    not empty. *)
Lemma path_suffix_shape (p : str) :
  truthy (path_suffix p) = true ->
  exists pre ext,
    path_name p = pre ++ 46%N :: ext
    /\ pre <> [] /\ ext <> [] /\ ~ In 46%N ext
    /\ path_suffix p = 46%N :: ext.
Proof.
  unfold path_suffix. cbv zeta.
  destruct ((0 <? rfind_char 46 (path_name p))%Z
            && (rfind_char 46 (path_name p)
                <? Z.of_nat (length (path_name p)) - 1)%Z) eqn:Hc;
    [|discriminate].
  intros _. apply andb_true_iff in Hc. destruct Hc as [H1 H2].
  apply Z.ltb_lt in H1. apply Z.ltb_lt in H2.
  destruct (rfind_char_split 46 (path_name p)) as (pre & ext & E & Hext);
    [lia|].
  rewrite E in *. rewrite (rfind_char_app 46 pre ext Hext) in *.
  rewrite length_app in H2. cbn [length] in H2.
  exists pre, ext. split; [reflexivity|].
  split; [destruct pre; [simpl in H1; lia | discriminate]|].
  split; [destruct ext; [simpl in H2; lia | discriminate]|].
  split; [exact Hext|].
  rewrite Nat2Z.id, skipn_app, skipn_all, Nat.sub_diag. reflexivity.
Qed.

(** The temporary file made for an upload has the suffix of the upload. *)
Lemma path_suffix_tmp (dir name p : str) :
  name <> [] -> ~ In 46%N name -> ~ In 47%N name ->
  truthy (path_suffix p) = true ->
  path_suffix ((dir ++ u "/" ++ name) ++ path_suffix p) = path_suffix p.
Proof.
  intros Hne Hdot Hslash Hs.
  destruct (path_suffix_shape p Hs) as (pre & ext & Ename & _ & Hext & Hnodot & ->).
  assert (Hext47 : ~ In 47%N ext).
  { intros Hin. apply (path_name_no_slash p). rewrite Ename.
    apply in_or_app. right. now right. }
  assert (Hn : path_name ((dir ++ u "/" ++ name) ++ 46%N :: ext)
               = name ++ 46%N :: ext).
  { rewrite <- !app_assoc. apply path_name_in_dir.
    - intros Hin. apply in_app_or in Hin. destruct Hin as [Hin|[Hin|Hin]];
        [contradiction | discriminate | contradiction].
    - rewrite length_app. cbn [length].
      destruct name; [contradiction | simpl; lia]. }
  unfold path_suffix. rewrite Hn, (rfind_char_app 46 name ext Hnodot).
  rewrite length_app. cbn [length].
  replace (0 <? Z.of_nat (length name))%Z with true
    by (symmetry; apply Z.ltb_lt; destruct name; [contradiction | simpl; lia]).
  replace (Z.of_nat (length name) <? Z.of_nat (length name + S (length ext)) - 1)%Z
    with true
    by (symmetry; apply Z.ltb_lt; destruct ext; [contradiction | simpl; lia]).
  cbn [andb]. rewrite Nat2Z.id, skipn_app, skipn_all, Nat.sub_diag.
  reflexivity.
Qed.

(** *** Computations whose outcome does not depend on the state *)

Lemma stable_ret {A} (a : A) : stable (ret a).
Proof. intros st1 st2. reflexivity. Qed.

Lemma stable_raise {A} (e : exn) : stable (@raise A e).
Proof. intros st1 st2. reflexivity. Qed.

Lemma stable_lift {A} (r : exn + A) : stable (lift r).
Proof. destruct r; [apply stable_raise | apply stable_ret]. Qed.

Lemma stable_bind {A B} (c : M A) (k : A -> M B) :
  stable c -> (forall a, stable (k a)) -> stable (bind c k).
Proof.
  intros Hc Hk st1 st2. unfold bind. specialize (Hc st1 st2).
  destruct (c st1) as [[e|a] s1], (c st2) as [[e'|a'] s2]; cbn [fst] in *;
    try discriminate Hc.
  - injection Hc as <-. reflexivity.
  - injection Hc as <-. apply Hk.
Qed.

Lemma stable_emit (e : event) {A} (c : M A) :
  stable c -> stable (emit_event e ;;; c).
Proof.
  intros Hc. apply stable_bind; [|intros _; exact Hc].
  intros st1 st2. reflexivity.
Qed.

Lemma stable_try {A} (body handler : M A) :
  stable body -> stable handler -> stable (try_except body handler).
Proof.
  intros Hb Hh st1 st2. unfold try_except. specialize (Hb st1 st2).
  destruct (body st1) as [[e|a] s1], (body st2) as [[e'|a'] s2]; cbn [fst] in *;
    try discriminate Hb.
  - apply Hh.
  - exact Hb.
Qed.

Lemma stable_mistral_ocr_image (w : world) (png ocr_model : str) :
  memoryless w -> stable (mistral_ocr_image w png ocr_model).
Proof.
  intros [Hocr _] st1 st2. unfold mistral_ocr_image.
  destruct (credential_absent w (u "MISTRAL_API_KEY")); [reflexivity|].
  unfold bind, history, emit_event. cbn [log].
  rewrite (Hocr (log st1) (log st2)).
  destruct (ocr_http w (log st2) ocr_model png); reflexivity.
Qed.

Lemma stable_call_mistral (w : world) (messages : list str) (model : str) :
  memoryless w -> stable (call_mistral w messages model).
Proof.
  intros [_ Hllm] st1 st2. unfold call_mistral.
  destruct (credential_absent w (u "MISTRAL_API_KEY")); [reflexivity|].
  unfold bind, history, emit_event. cbn [log].
  rewrite (Hllm (log st1) (log st2)).
  destruct (llm_http w (log st2) model messages); reflexivity.
Qed.

Lemma stable_ocr_page (pg : pdf_page) (text : str) (cb : str -> M str) :
  (forall png, stable (cb png)) -> stable (ocr_page pg text cb).
Proof.
  intros Hcb. unfold ocr_page. apply stable_try; [|apply stable_ret].
  apply stable_bind; [apply stable_lift|]. intros png.
  apply stable_bind; [apply Hcb|]. intros ocr_text.
  destruct (truthy ocr_text && negb (contains text ocr_text)); apply stable_ret.
Qed.

Lemma stable_load_pdf_pages (pdf : list pdf_page) (cb : str -> M str)
      (max_pages : Z) (ocr_all : bool) :
  (forall png, stable (cb png)) ->
  forall idx pages, stable (load_pdf_pages pdf idx max_pages cb ocr_all pages).
Proof.
  intros Hcb. induction pdf as [|pg rest IH]; intros idx pages;
    cbn [load_pdf_pages]; [apply stable_ret|].
  destruct (negb (max_pages =? 0)%Z && (idx >? max_pages)%Z);
    [apply stable_ret|].
  apply stable_emit. apply stable_bind; [|intros text; apply IH].
  destruct (ocr_all || _); [now apply stable_ocr_page | apply stable_ret].
Qed.

(** Two files with the same suffix and the same content load as the same
    pages. *)
Lemma load_pages_same_content (w : world) (p1 p2 : str) (max_pages : Z)
      (cb : str -> M str) (ocr_all : bool) (st1 st2 : state) :
  (forall png, stable (cb png)) ->
  path_suffix p1 = path_suffix p2 ->
  pdf_open w p1 = pdf_open w p2 ->
  read_bytes w p1 = read_bytes w p2 ->
  fst (load_pages_with_ocr w p1 max_pages cb ocr_all st1)
  = fst (load_pages_with_ocr w p2 max_pages cb ocr_all st2).
Proof.
  intros Hcb Hs Hpdf Hbytes. unfold load_pages_with_ocr. rewrite Hs.
  destruct (str_eqb (lower (path_suffix p2)) (u ".pdf")).
  - unfold bind at 1 3. unfold emit_event at 1 2.
    unfold bind at 1 2. rewrite Hpdf.
    destruct (pdf_open w p2) as [e|pdf]; [reflexivity|]. cbn [lift ret].
    apply stable_load_pdf_pages, Hcb.
  - unfold try_except, bind at 1 3. unfold emit_event at 1 2.
    unfold bind at 1 3. rewrite Hbytes.
    destruct (read_bytes w p2) as [e|png]; [reflexivity|]. cbn [lift ret].
    unfold bind.
    pose proof (Hcb png
                    {| log := log st1 ++ [OpenDocument p1];
                       cache_files := cache_files st1 |}
                    {| log := log st2 ++ [OpenDocument p2];
                       cache_files := cache_files st2 |}) as H.
    destruct (cb png _) as [[e1|t1] s1], (cb png _) as [[e2|t2] s2];
      cbn [fst] in H; try discriminate H; [reflexivity|].
    injection H as <-. reflexivity.
Qed.

(** *** The endpoint against the driver *)

Lemma bind_step {A B} (c : M A) (k : A -> M B) (st st' : state) (r : exn + A) :
  c st = (r, st') ->
  bind c k st = match r with
                | inr a => k a st'
                | inl e => (inl e, st')
                end.
Proof. intros H. unfold bind. rewrite H. destruct r; reflexivity. Qed.

Lemma web_fill_as_driver (r : json) (t : dict) (document : str)
      (specs : list field_spec) :
  Web.fill r t (path_suffix document) (path_name (path_name document)) specs
  = fill_template r t document specs.
Proof.
  unfold Web.fill, fill_template, Web.set_meta, set_meta.
  now rewrite path_name_idem.
Qed.

(** A run of the driver that completes has written what [mistral_filled]
    returned. *)
Lemma mistral_written_is_filled (w : world) (args : mistral_args)
      (st st' : state) (events : list event) (path : str) (out : dict) :
  mistral_body w args st = (inr tt, st') ->
  log st' = events ++ [WriteOutput path out; Stdout (written_message path)] ->
  exists st'', mistral_filled w args st = (inr (path, out), st'').
Proof.
  unfold mistral_body, mistral_filled. unfold bind at 1 6.
  destruct (load_template w (m_doc_type args) st)
    as [[e|[[template_path template_obj] field_specs]] s0]; [discriminate|].
  unfold bind at 1 5.
  destruct (mistral_load_pages w (m_document args) _ _ _ s0) as [[e|pages] s1];
    [discriminate|].
  destruct (build_prompt_content (flatten_pages pages) field_specs)
    as [system user].
  unfold bind at 1 4.
  destruct (call_mistral w [system; user] (m_model args) s1) as [[e|r] s2];
    [discriminate|].
  unfold bind at 1 3.
  destruct (fill_template r template_obj (m_document args) field_specs)
    as [filled|]; cbn [or_attribute_error]; [|discriminate].
  unfold bind, emit_event, ret, raise. intros H Hlog. injection H as <-.
  cbn [log] in Hlog.
  change [WriteOutput path out; Stdout (written_message path)]
    with ([WriteOutput path out] ++ [Stdout (written_message path)]) in Hlog.
  rewrite app_assoc in Hlog. apply app_inj_tail in Hlog.
  destruct Hlog as [Hlog E2]. apply app_inj_tail in Hlog.
  destruct Hlog as [_ E]. injection E as <- <-.
  eexists. reflexivity.
Qed.

(** X26.  The endpoint returns what the driver is about to write.  For a
    world whose services answer a request in the same way whatever came
    before, a document whose name has an extension, uploaded under its name
    with the options of a run of the Mistral driver and no template of its
    own, and a temporary file that holds the document: the endpoint returns
    [{"result": out}] exactly when the run of the driver reaches the write
    of its output with [out] as the filled template.  So when a run of the
    driver completes and has written [out], the endpoint returns
    [{"result": out}]. *)
Theorem endpoint_returns_what_the_driver_writes
        (w : world) (args : mistral_args) (tmp_dir tmp_name : str)
        (st : state) (out : dict) :
  memoryless w ->
  truthy (path_suffix (m_document args)) = true ->
  tmp_name <> [] -> ~ In 46%N tmp_name -> ~ In 47%N tmp_name ->
  let tmp_stem := tmp_dir ++ u "/" ++ tmp_name in
  let doc_path := tmp_stem ++ path_suffix (m_document args) in
  pdf_open w doc_path = pdf_open w (m_document args) ->
  read_bytes w doc_path = read_bytes w (m_document args) ->
  let returns_out :=
    exists st',
      Web.extract w tmp_stem (form_of args) st
      = (inr (Web.Body (JDict [(u "result", JDict out)])), st') in
  (returns_out
   <-> (exists st' path,
           mistral_filled w args (initial_state w) = (inr (path, out), st')))
  /\ (forall st' events path,
         main_mistral w args = (Completed, st') ->
         log st' = events ++ [WriteOutput path out;
                              Stdout (written_message path)] ->
         returns_out).
Proof.
  intros Hw Hsfx Hne Hdot Hslash tmp_stem doc_path Hpdf Hbytes returns_out.
  assert (Hiff : returns_out
                 <-> (exists st' path,
                         mistral_filled w args (initial_state w)
                         = (inr (path, out), st'))).
  { subst returns_out.
    assert (Esfx : str_or (path_suffix (Web.filename (form_of args))) (u ".bin")
                   = path_suffix (m_document args)).
    { cbn [form_of Web.filename]. rewrite path_suffix_name.
      unfold str_or. now rewrite Hsfx. }
    unfold Web.extract. cbv zeta. rewrite Esfx.
    cbn [form_of Web.filename Web.doc_type Web.template_path Web.model
         Web.ocr_model Web.max_pages Web.ocr_all str_or truthy].
    fold tmp_stem. fold doc_path.
    unfold mistral_filled. unfold bind at 5. unfold load_template.
    destruct (read_text w (template_path_of w (m_doc_type args))) as [text|].
    2: { split; [intros (st' & H); discriminate H
                | intros (st' & path & H); discriminate H]. }
    destruct (Reader.loads text) as [v|].
    2: { split; [intros (st' & H); discriminate H
                | intros (st' & path & H); discriminate H]. }
    unfold bind at 1. cbn [ret].
    pose proof (load_pages_same_content
                  w doc_path (m_document args) (m_max_pages args)
                  (fun png => mistral_ocr_image w png (m_ocr_model args))
                  (m_ocr_all args) st (initial_state w)
                  (fun png => stable_mistral_ocr_image w png _ Hw)
                  (path_suffix_tmp tmp_dir tmp_name _ Hne Hdot Hslash Hsfx)
                  Hpdf Hbytes) as Hpages.
    fold (mistral_load_pages w doc_path (m_max_pages args) (m_ocr_model args)
                             (m_ocr_all args)) in Hpages.
    fold (mistral_load_pages w (m_document args) (m_max_pages args)
                             (m_ocr_model args) (m_ocr_all args)) in Hpages.
    unfold bind at 1.
    destruct (mistral_load_pages w doc_path _ _ _ st) as [pw sw].
    cbn [fst] in Hpages. subst pw.
    destruct v as [| | | | | |t].
    1-6: (split; [intros (st' & H);
                  destruct (mistral_load_pages _ _ _ _ _ _) as [[e|pages] sc];
                  discriminate H
                 | intros (st' & path & H); discriminate H]).
    cbn [ret].
    set (output_path := match m_output args with
                        | Some o => if truthy o then o
                                    else default_output_path
                                           (template_path_of w (m_doc_type args))
                        | None => default_output_path
                                    (template_path_of w (m_doc_type args))
                        end).
    destruct (mistral_load_pages w (m_document args) _ _ _ (initial_state w))
      as [[e|pages] sc] eqn:Hc; cbn [fst];
      rewrite (bind_step _ _ _ _ _ Hc).
    { split; [intros (st' & H); discriminate H
             | intros (st' & path & H); discriminate H]. }
    destruct (build_prompt_content (flatten_pages pages) (collect_fields t []))
      as [system user].
    pose proof (stable_call_mistral w [system; user] (m_model args) Hw sw sc)
      as Hcall.
    destruct (call_mistral w [system; user] (m_model args) sw)
      as [rw sw2] eqn:Hrw.
    destruct (call_mistral w [system; user] (m_model args) sc)
      as [rc sc2] eqn:Hrc.
    cbn [fst] in Hcall. subst rw.
    rewrite (bind_step _ _ _ _ _ Hrw), (bind_step _ _ _ _ _ Hrc).
    destruct rc as [e|r].
    { split; [intros (st' & H); discriminate H
             | intros (st' & path & H); discriminate H]. }
    rewrite web_fill_as_driver.
    destruct (fill_template r t (m_document args) (collect_fields t []))
      as [filled|]; cbn [or_attribute_error].
    2: { split; [intros (st' & H); discriminate H
                | intros (st' & path & H); discriminate H]. }
    unfold bind, ret.
    split.
    - intros (st' & H). injection H as -> _.
      eexists. exists output_path. reflexivity.
    - intros (st' & path & H). injection H as _ <- _.
      eexists. reflexivity. }
  split; [exact Hiff|].
  intros st' events path Hmain Hlog. apply Hiff.
  unfold main_mistral in Hmain.
  destruct (mistral_body w args (initial_state w)) as [[e|[]] s] eqn:Hbody;
    cbn [finish] in Hmain; [discriminate|].
  injection Hmain as ->.
  destruct (mistral_written_is_filled w args _ _ events path out Hbody Hlog)
    as (st'' & H).
  exists st'', path. exact H.
Qed.

Lemma endpoint_returns_what_the_driver_writes_witness :
  exists st',
    Web.extract keyed_world (u "/tmp" ++ u "/" ++ u "tmpab12")
                (form_of sample_mistral_args) (initial_state keyed_world)
    = (inr (Web.Body (JDict [(u "result", JDict sample_filled)])), st').
Proof.
  apply (endpoint_returns_what_the_driver_writes
           keyed_world sample_mistral_args (u "/tmp") (u "tmpab12")
           (initial_state keyed_world) sample_filled).
  - split; intros; reflexivity.
  - reflexivity.
  - discriminate.
  - vm_compute. intuition discriminate.
  - vm_compute. intuition discriminate.
  - reflexivity.
  - reflexivity.
  - exists (snd (mistral_filled keyed_world sample_mistral_args
                                (initial_state keyed_world))),
      sample_output_path.
    vm_compute. reflexivity.
Defined.

(* --------------------------------------------------------------------- *)
(** ** The length of the flattened text                                    *)
(* --------------------------------------------------------------------- *)

Lemma str_of_Z_nonempty (z : Z) : (1 <= length (str_of_Z z))%nat.
Proof.
  unfold str_of_Z, u. rewrite length_map.
  destruct (Z.to_int z) as [d|d]; cbn [NilZero.string_of_int].
  - destruct d; simpl; lia.
  - simpl. lia.
Qed.

Lemma snippet_length (p : page) : (10 <= length (snippet p))%nat.
Proof.
  unfold snippet. rewrite !length_app. pose proof (str_of_Z_nonempty (fst p)).
  simpl. lia.
Qed.

Lemma snippets_length_count (pages : list page) :
  (10 * Z.of_nat (length pages) <= snippets_length pages)%Z.
Proof.
  induction pages as [|p pages IH]; cbn [snippets_length fold_right length];
    [lia|].
  fold (snippets_length pages). pose proof (snippet_length p). lia.
Qed.

Lemma join_nl_length (pages : list page) :
  Z.of_nat (length (join nl (map snippet pages)))
  = (snippets_length pages + Z.of_nat (length pages - 1))%Z.
Proof.
  induction pages as [|p pages IH]; [reflexivity|].
  destruct pages as [|q pages].
  - cbn [map join snippets_length fold_right length]. lia.
  - change (map snippet (p :: q :: pages))
      with (snippet p :: snippet q :: map snippet pages).
    rewrite join_cons2, !length_app.
    change (snippet q :: map snippet pages) with (map snippet (q :: pages)).
    rewrite !Nat2Z.inj_add, IH.
    cbn [snippets_length fold_right length nl]. lia.
Qed.

(** X27.  The budget of [flatten_pages] counts the snippets of the pages
    but not the line feeds that join them: the text it returns is the
    snippets of the first pages that fit in 32000 characters, joined, and
    its length is the length of these snippets plus one less than their
    number.  It is never longer than 35199 characters, and it can be longer
    than 32000: it has 32001 for two pages whose snippets have 16000
    characters each. *)
Theorem flatten_pages_length_is_bounded (pages : list page) :
  (exists k,
      (k <= length pages)%nat
      /\ flatten_pages pages = join nl (map snippet (firstn k pages))
      /\ Z.of_nat (length (flatten_pages pages))
         = (snippets_length (firstn k pages) + Z.of_nat (k - 1))%Z
      /\ (snippets_length (firstn k pages) <= 32000)%Z)
  /\ (Z.of_nat (length (flatten_pages pages)) <= 35199)%Z
  /\ Z.of_nat (length (flatten_pages two_full_pages)) = 32001%Z.
Proof.
  assert (H : exists k,
             (k <= length pages)%nat
             /\ flatten_pages pages = join nl (map snippet (firstn k pages))
             /\ Z.of_nat (length (flatten_pages pages))
                = (snippets_length (firstn k pages) + Z.of_nat (k - 1))%Z
             /\ (snippets_length (firstn k pages) <= 32000)%Z).
  { destruct (flatten_loop_prefix pages 32000 [] 0)
      as (k & Hk & Heq & Hfit & _).
    exists k. split; [exact Hk|].
    assert (E : flatten_pages pages = join nl (map snippet (firstn k pages)))
      by (unfold flatten_pages, flatten_pages_max; rewrite Heq; reflexivity).
    split; [exact E|]. split.
    - rewrite E, join_nl_length, length_firstn. f_equal. lia.
    - destruct Hfit as [->|Hfit]; simpl; lia. }
  split; [exact H|]. split; [|vm_compute; reflexivity].
  destruct H as (k & Hk & _ & Hlen & Hfit).
  pose proof (snippets_length_count (firstn k pages)) as Hcount.
  rewrite length_firstn in Hcount. lia.
Qed.
